(** * pico_c_lora: the RYLR998 protocol layer and the ULN2003 stepping engine

    A shallow embedding of [src/lora.c] and [src/stepper.c], followed by the
    properties of the ring buffer, the line reassembler, the notification
    parser, the response and command classifiers and the cancellable
    multi-motor stepping engine.

    Conventions.
    - A C string ([const char *]) is the list of its characters up to, and
      not including, the terminating NUL; a nullable pointer is an [option].
    - C integers are [Z]; a conversion to a narrower unsigned type is written
      out as a reduction modulo [2^w].
    - The motor structures live in a store indexed by address; an array of
      motor pointers is a list of optional addresses. *)

From stdpp Require Import base list gmap.
From Stdlib Require Import ZArith Ascii String Lia Bool.
From Stdlib Require Import Floats.SpecFloat.

Local Open Scope Z_scope.

(** ** Characters and the C library functions the driver calls *)

Module CLib.

Definition cstring := list ascii.

(** The characters of a string literal. *)
Definition cs (s : string) : cstring := list_ascii_of_string s.

(** Value of a [char] seen as [unsigned char]. *)
Definition code (c : ascii) : Z := Z.of_N (N_of_ascii c).

Definition NUL : ascii := ascii_of_N 0.
Definition CR : ascii := ascii_of_N 13.
Definition LF : ascii := ascii_of_N 10.

(** Reading a character array as a C string: everything before the first
    NUL. *)
Fixpoint c_str (bytes : list ascii) : cstring :=
  match bytes with
  | [] => []
  | c :: rest => if code c =? 0 then [] else c :: c_str rest
  end.

Definition is_upper (c : ascii) : bool := (65 <=? code c) && (code c <=? 90).
Definition is_digit (c : ascii) : bool := (48 <=? code c) && (code c <=? 57).
Definition is_space (c : ascii) : bool :=
  (code c =? 32) || ((9 <=? code c) && (code c <=? 13)).

(** [tolower] in the C locale, on character codes. *)
Definition tolower (c : ascii) : Z :=
  if is_upper c then code c + 32 else code c.

(** [strcasecmp]: difference of the first pair of lowered characters that
    differ, the end of a string counting as 0. *)
Fixpoint strcasecmp (s1 s2 : cstring) : Z :=
  match s1, s2 with
  | [], [] => 0
  | [], c2 :: _ => 0 - tolower c2
  | c1 :: _, [] => tolower c1
  | c1 :: t1, c2 :: t2 =>
      if tolower c1 =? tolower c2 then strcasecmp t1 t2
      else tolower c1 - tolower c2
  end.

(** [strncmp]: as above without lowering, over at most [n] characters. *)
Fixpoint strncmp (s1 s2 : cstring) (n : nat) {struct n} : Z :=
  match n with
  | O => 0
  | S n' =>
      match s1, s2 with
      | [], [] => 0
      | [], c2 :: _ => 0 - code c2
      | c1 :: _, [] => code c1
      | c1 :: t1, c2 :: t2 =>
          if code c1 =? code c2 then strncmp t1 t2 n' else code c1 - code c2
      end
  end.

(** Does [s] begin with [needle]? *)
Fixpoint starts_with (needle s : cstring) : bool :=
  match needle, s with
  | [], _ => true
  | _ :: _, [] => false
  | a :: needle', b :: s' => (code a =? code b) && starts_with needle' s'
  end.

(** [strstr]: the suffix of [haystack] at the first occurrence of [needle],
    [None] for the null pointer. *)
Fixpoint strstr (haystack needle : cstring) : option cstring :=
  match haystack with
  | [] => if starts_with needle [] then Some [] else None
  | _ :: rest =>
      if starts_with needle haystack then Some haystack
      else strstr rest needle
  end.

(** [strchr]: the suffix of [s] at the first occurrence of [c]. *)
Fixpoint strchr (s : cstring) (c : ascii) : option cstring :=
  match s with
  | [] => None
  | d :: rest => if code d =? code c then Some s else strchr rest c
  end.

Fixpoint skip_spaces (s : cstring) : cstring :=
  match s with
  | c :: rest => if is_space c then skip_spaces rest else s
  | [] => []
  end.

(** An optional sign: [true] for a minus. *)
Definition take_sign (s : cstring) : bool * cstring :=
  match s with
  | c :: rest =>
      if code c =? 45 then (true, rest)
      else if code c =? 43 then (false, rest)
      else (false, s)
  | [] => (false, [])
  end.

(** The longest run of decimal digits at the head of [s], as its value so
    far, the number of digits read, and what follows. *)
Fixpoint take_digits (acc : Z) (count : nat) (s : cstring) : Z * nat * cstring :=
  match s with
  | c :: rest =>
      if is_digit c then take_digits (acc * 10 + (code c - 48)) (S count) rest
      else (acc, count, s)
  | [] => (acc, count, [])
  end.

Definition ULONG_MAX : Z := 2 ^ 32 - 1.
Definition LONG_MAX : Z := 2 ^ 31 - 1.
Definition LONG_MIN : Z := - 2 ^ 31.

(** [strtoul(s, &end, 10)] with a 32-bit [unsigned long]: the converted
    value and the end pointer.  With no digit nothing is consumed; a value
    out of range saturates; a minus negates in the unsigned type. *)
Definition strtoul (s : cstring) : Z * cstring :=
  let '(neg, s2) := take_sign (skip_spaces s) in
  let '(v, count, rest) := take_digits 0 O s2 in
  match count with
  | O => (0, s)
  | S _ =>
      (if ULONG_MAX <? v then ULONG_MAX
       else if neg then (2 ^ 32 - v) mod 2 ^ 32 else v, rest)
  end.

(** [strtol(s, &end, 10)] with a 32-bit [long]. *)
Definition strtol (s : cstring) : Z * cstring :=
  let '(neg, s2) := take_sign (skip_spaces s) in
  let '(v, count, rest) := take_digits 0 O s2 in
  match count with
  | O => (0, s)
  | S _ =>
      (if neg then (if v <=? 2 ^ 31 then - v else LONG_MIN)
       else (if v <=? LONG_MAX then v else LONG_MAX), rest)
  end.

(** Conversions to the unsigned types of the driver. *)
Definition to_uint8 (x : Z) : Z := x mod 2 ^ 8.
Definition to_uint16 (x : Z) : Z := x mod 2 ^ 16.
Definition to_uint32 (x : Z) : Z := x mod 2 ^ 32.

(** [memcpy(dst, src, n)] on arrays held as lists. *)
Definition memcpy (dst src : list ascii) (n : nat) : list ascii :=
  take n src ++ drop n dst.

End CLib.

Import CLib.

(** ** lora.c: response and command classification *)

Module Lora.

Definition LORA_MAX_MESSAGE_LENGTH : Z := 240.
Definition RESPONSE_BUFFER_SIZE : Z := 256.
Definition UART_RX_BUFFER_SIZE : Z := 512.

Definition is_some {A} (o : option A) : bool :=
  match o with Some _ => true | None => false end.

(** [is_response_ok]: error markers are looked for first. *)
Definition is_response_ok (response : option cstring) : bool :=
  match response with
  | None => false
  | Some r =>
      if is_some (strstr r (cs "+ERR")) || is_some (strstr r (cs "ERROR"))
      then false
      else is_some (strstr r (cs "OK")) || is_some (strstr r (cs "+OK"))
  end.

Definition lora_is_on_command (message : option cstring) : bool :=
  match message with
  | None => false
  | Some m =>
      (strcasecmp m (cs "ON") =? 0) || (strcasecmp m (cs "START") =? 0)
      || (strcasecmp m (cs "MOVE") =? 0) || (strcasecmp m (cs "1") =? 0)
  end.

Definition lora_is_off_command (message : option cstring) : bool :=
  match message with
  | None => false
  | Some m =>
      (strcasecmp m (cs "OFF") =? 0) || (strcasecmp m (cs "STOP") =? 0)
      || (strcasecmp m (cs "HALT") =? 0) || (strcasecmp m (cs "0") =? 0)
  end.

(** *** The interrupt-fed ring buffer *)

Record uart_rx_buffer_t := mk_uart_rx_buffer {
  buffer : list ascii;   (* char buffer[UART_RX_BUFFER_SIZE] *)
  head : Z;              (* uint16_t *)
  tail : Z;              (* uint16_t *)
  overflow : bool
}.

Definition uart_buffer_init (b : uart_rx_buffer_t) : uart_rx_buffer_t :=
  {| buffer := buffer b; head := 0; tail := 0; overflow := false |}.

(** [uart_buffer_put]: the returned flag and the buffer afterwards.  The
    remainder is C's, taken in [int]; the result is stored in a
    [uint16_t]. *)
Definition uart_buffer_put (b : uart_rx_buffer_t) (c : ascii)
  : bool * uart_rx_buffer_t :=
  let next_head := to_uint16 (Z.rem (head b + 1) UART_RX_BUFFER_SIZE) in
  if next_head =? tail b then
    (false, {| buffer := buffer b; head := head b; tail := tail b;
               overflow := true |})
  else
    (true, {| buffer := <[Z.to_nat (head b) := c]> (buffer b);
              head := next_head; tail := tail b; overflow := overflow b |}).

(** [uart_buffer_get]: [None] stands for the [false] return, which leaves
    [*c] alone. *)
Definition uart_buffer_get (b : uart_rx_buffer_t)
  : option ascii * uart_rx_buffer_t :=
  if head b =? tail b then (None, b)
  else
    (Some (default NUL (buffer b !! Z.to_nat (tail b))),
     {| buffer := buffer b; head := head b;
        tail := to_uint16 (Z.rem (tail b + 1) UART_RX_BUFFER_SIZE);
        overflow := overflow b |}).

Definition uart_buffer_available (b : uart_rx_buffer_t) : Z :=
  to_uint16 (Z.rem (head b - tail b + UART_RX_BUFFER_SIZE) UART_RX_BUFFER_SIZE).

(** *** The line reassembler *)

(** What [uart_buffer_get_line] does once its loop is left: the status, the
    bytes [line[0..index)] it stored (a NUL follows them when the status is
    [true]) and the buffer. *)
Definition get_line_finish (b : uart_rx_buffer_t) (line : list ascii) (index : Z)
  : bool * list ascii * uart_rx_buffer_t :=
  if 0 <? index then (true, line, b) else (false, line, b).

(** The [while] loop of [uart_buffer_get_line].  Every iteration takes one
    byte out of the ring buffer, so [fuel] bounds the iterations by the
    number of buffered bytes; [None] is an exhausted [fuel]. *)
Fixpoint get_line_loop (fuel : nat) (b : uart_rx_buffer_t) (line : list ascii)
    (index max_len : Z) : option (bool * list ascii * uart_rx_buffer_t) :=
  if index <? max_len - 1 then
    match fuel with
    | O => None
    | S fuel' =>
        match uart_buffer_get b with
        | (None, b') => Some (get_line_finish b' line index)
        | (Some c, b') =>
            if (code c =? code CR) || (code c =? code LF) then
              if 0 <? index then Some (true, line, b')
              else get_line_loop fuel' b' line index max_len
            else
              get_line_loop fuel' b' (line ++ [c]) (to_uint16 (index + 1)) max_len
        end
    end
  else Some (get_line_finish b line index).

Definition uart_buffer_get_line (b : uart_rx_buffer_t) (max_len : Z)
  : option (bool * list ascii * uart_rx_buffer_t) :=
  get_line_loop (Z.to_nat UART_RX_BUFFER_SIZE) b [] 0 max_len.

(** *** Received messages *)

Record lora_message_t := mk_lora_message {
  sender_address : Z;     (* uint16_t *)
  rssi : Z;               (* uint8_t *)
  payload_length : Z;     (* uint8_t *)
  payload : list ascii    (* char payload[LORA_MAX_MESSAGE_LENGTH] *)
}.

(** [memset(message, 0, sizeof(lora_message_t))] *)
Definition zero_message : lora_message_t :=
  {| sender_address := 0; rssi := 0; payload_length := 0;
     payload := replicate (Z.to_nat LORA_MAX_MESSAGE_LENGTH) NUL |}.

(** [parse_received_message]; a null [response] or [message] returns at
    once.  [response + 5] is taken without looking at the five characters
    skipped. *)
Definition parse_received_message (response : option cstring)
    (message : option lora_message_t) : option lora_message_t :=
  match response, message with
  | Some response, Some _ =>
      let ptr := drop 5 response in
      let '(address, ptr) := strtoul ptr in
      let ptr := match ptr with
                 | c :: rest => if code c =? 44 then rest else ptr
                 | [] => ptr
                 end in
      let '(declared, ptr) := strtoul ptr in
      let ptr := match ptr with
                 | c :: rest => if code c =? 44 then rest else ptr
                 | [] => ptr
                 end in
      let payload_start := ptr in
      match strchr ptr (ascii_of_N 44) with
      | Some payload_end =>
          let payload_len :=
            to_uint8 (Z.of_nat (List.length payload_start) - Z.of_nat (List.length payload_end)) in
          let payload_len :=
            if LORA_MAX_MESSAGE_LENGTH - 1 <? payload_len
            then LORA_MAX_MESSAGE_LENGTH - 1 else payload_len in
          let copied :=
            memcpy (payload zero_message) payload_start (Z.to_nat payload_len) in
          Some {| sender_address := to_uint16 address;
                  payload := <[Z.to_nat payload_len := NUL]> copied;
                  payload_length := payload_len;
                  rssi := to_uint8 (Z.abs (fst (strtol (drop 1 payload_end)))) |}
      | None =>
          Some {| sender_address := to_uint16 address;
                  payload := payload zero_message;
                  payload_length := to_uint8 declared;
                  rssi := 0 |}
      end
  | _, _ => message
  end.

Inductive lora_status_t :=
  | LORA_STATUS_OK
  | LORA_STATUS_ERROR
  | LORA_STATUS_TIMEOUT
  | LORA_STATUS_INVALID_PARAM
  | LORA_STATUS_NOT_INITIALIZED
  | LORA_STATUS_UART_ERROR.

(** Of [lora_config_t], the receive path reads [initialized] only. *)
Record lora_config_t := mk_lora_config { initialized : bool }.

(** [lora_receive_message] over the driver's ring buffer: the status, the
    caller's message structure and the ring buffer afterwards.  The line is
    read into [char response[RESPONSE_BUFFER_SIZE]] and used as a C
    string. *)
Definition lora_receive_message (config : option lora_config_t)
    (message : option lora_message_t) (uart_buffer : uart_rx_buffer_t)
  : option (lora_status_t * option lora_message_t * uart_rx_buffer_t) :=
  match config, message with
  | Some cfg, Some _ =>
      if initialized cfg then
        match uart_buffer_get_line uart_buffer RESPONSE_BUFFER_SIZE with
        | None => None
        | Some (false, _, b') => Some (LORA_STATUS_ERROR, message, b')
        | Some (true, line, b') =>
            let response := c_str line in
            if strncmp response (cs "+RCV=") 5 =? 0 then
              Some (LORA_STATUS_OK,
                    parse_received_message (Some response) message, b')
            else Some (LORA_STATUS_ERROR, message, b')
        end
      else Some (LORA_STATUS_INVALID_PARAM, message, uart_buffer)
  | _, _ => Some (LORA_STATUS_INVALID_PARAM, message, uart_buffer)
  end.

End Lora.

Import Lora.

(** ** stepper.c: the stepping engine *)

Module Stepper.

(** Modelled from the spec: [stepper_direction_t], declared in [stepper.h];
    clockwise and counter-clockwise, under the names [stepper.c] uses. *)
Inductive stepper_direction_t := STEPPER_CW | STEPPER_CCW.

(** Modelled from the spec: [stepper_motor_t], declared in [stepper.h]: four
    pin identifiers, the per-step delay, the current phase index and the
    enabled flag, under the field names [stepper.c] uses; [current_step] is
    an [int], as [stepper_apply_step] takes it and [stepper_get_position]
    returns it. *)
Record stepper_motor_t := mk_stepper_motor {
  pin1 : Z;
  pin2 : Z;
  pin3 : Z;
  pin4 : Z;
  step_delay : Z;
  current_step : Z;
  enabled : bool
}.

Definition set_current_step (m : stepper_motor_t) (step : Z) : stepper_motor_t :=
  {| pin1 := pin1 m; pin2 := pin2 m; pin3 := pin3 m; pin4 := pin4 m;
     step_delay := step_delay m; current_step := step; enabled := enabled m |}.

Definition set_enabled (m : stepper_motor_t) (e : bool) : stepper_motor_t :=
  {| pin1 := pin1 m; pin2 := pin2 m; pin3 := pin3 m; pin4 := pin4 m;
     step_delay := step_delay m; current_step := current_step m; enabled := e |}.

Definition set_step_delay (m : stepper_motor_t) (d : Z) : stepper_motor_t :=
  {| pin1 := pin1 m; pin2 := pin2 m; pin3 := pin3 m; pin4 := pin4 m;
     step_delay := d; current_step := current_step m; enabled := enabled m |}.

(** What the engine does to the outside, newest first in a trace. *)
Inductive event :=
  | EvGpioInit (pin : Z)
  | EvGpioDirOut (pin : Z)
  | EvGpioPut (pin : Z) (level : bool)
  | EvSleep (ms : Z).

(** Where [stepper_interrupt_flag] is read: at the top of a step, in the
    condition of the delay loop, after the delay, or by
    [stepper_is_interrupted]. *)
Inductive read_site := AtStep | InDelay | AfterDelay | Query.

(** The motor structures by address, the output level of every pin written
    so far, the cancellation flag, and three history fields: the trace, the
    number of reads of the flag so far, and for every such read its place
    and the value read together with the motor structures and the trace at
    that moment. *)
Record world := mk_world {
  motors : gmap nat stepper_motor_t;
  gpio : gmap Z bool;
  stepper_interrupt_flag : bool;
  trace : list event;
  reads : nat;
  observed : list (read_site * bool * gmap nat stepper_motor_t * list event)
}.

Definition with_motors (w : world) (ms : gmap nat stepper_motor_t) : world :=
  {| motors := ms; gpio := gpio w;
     stepper_interrupt_flag := stepper_interrupt_flag w;
     trace := trace w; reads := reads w; observed := observed w |}.

Definition with_flag (w : world) (f : bool) : world :=
  {| motors := motors w; gpio := gpio w; stepper_interrupt_flag := f;
     trace := trace w; reads := reads w; observed := observed w |}.

Definition emit (ev : event) (w : world) : world :=
  {| motors := motors w; gpio := gpio w;
     stepper_interrupt_flag := stepper_interrupt_flag w;
     trace := ev :: trace w; reads := reads w; observed := observed w |}.

Definition gpio_put (pin : Z) (level : bool) (w : world) : world :=
  {| motors := motors w; gpio := <[pin := level]> (gpio w);
     stepper_interrupt_flag := stepper_interrupt_flag w;
     trace := EvGpioPut pin level :: trace w;
     reads := reads w; observed := observed w |}.

Definition gpio_init (pin : Z) (w : world) : world := emit (EvGpioInit pin) w.
Definition gpio_set_dir_out (pin : Z) (w : world) : world := emit (EvGpioDirOut pin) w.
Definition sleep_ms (ms : Z) (w : world) : world := emit (EvSleep ms) w.

(** [static const bool step_sequence[8][4]] *)
Definition step_sequence : list (list bool) :=
  [ [true; false; false; false];
    [true; true; false; false];
    [false; true; false; false];
    [false; true; true; false];
    [false; false; true; false];
    [false; false; true; true];
    [false; false; false; true];
    [true; false; false; true] ].

(** [step_sequence[step][k]] *)
Definition phase (step : Z) (k : nat) : bool :=
  default false (default [] (step_sequence !! Z.to_nat step) !! k).

(** The half-step advance, as both rotate functions write it: [%] is C's
    remainder. *)
Definition next_step (direction : stepper_direction_t) (step : Z) : Z :=
  match direction with
  | STEPPER_CW => Z.rem (step + 1) 8
  | STEPPER_CCW => Z.rem (step - 1 + 8) 8
  end.

Section Engine.

(** The asynchronous side: [env k] is a write to the cancellation flag that
    lands just before the [k]-th read of it, if any.  The flag is
    [volatile], every read goes to memory. *)
Variable env : nat -> option bool.

(** [STEPS_PER_REVOLUTION], an integer constant declared in [stepper.h],
    kept as a parameter. *)
Variable STEPS_PER_REVOLUTION : Z.

(** One read of [stepper_interrupt_flag]. *)
Definition read_flag (site : read_site) (w : world) : bool * world :=
  let f := default (stepper_interrupt_flag w) (env (reads w)) in
  (f, {| motors := motors w; gpio := gpio w; stepper_interrupt_flag := f;
         trace := trace w; reads := S (reads w);
         observed := (site, f, motors w, trace w) :: observed w |}).

(** The functions are handed structures that [stepper_init] has set up;
    they leave the world alone at an address that holds none. *)
Definition stepper_apply_step (motor : nat) (step : Z) (w : world) : world :=
  match motors w !! motor with
  | None => w
  | Some m =>
      if enabled m then
        let w := gpio_put (pin1 m) (phase step 0) w in
        let w := gpio_put (pin2 m) (phase step 1) w in
        let w := gpio_put (pin3 m) (phase step 2) w in
        let w := gpio_put (pin4 m) (phase step 3) w in
        with_motors w (<[motor := set_current_step m step]> (motors w))
      else w
  end.

Definition stepper_init (motor : option nat) (p1 p2 p3 p4 delay : Z) (w : world)
  : bool * world :=
  match motor with
  | None => (false, w)
  | Some a =>
      let m := {| pin1 := p1; pin2 := p2; pin3 := p3; pin4 := p4;
                  step_delay := delay; current_step := 0; enabled := true |} in
      let w := with_motors w (<[a := m]> (motors w)) in
      let w := gpio_init p4 (gpio_init p3 (gpio_init p2 (gpio_init p1 w))) in
      let w := gpio_set_dir_out p4 (gpio_set_dir_out p3
                 (gpio_set_dir_out p2 (gpio_set_dir_out p1 w))) in
      (true, stepper_apply_step a 0 w)
  end.

(** [motor->current_step = ...; stepper_apply_step(motor, motor->current_step);] *)
Definition advance (motor : nat) (direction : stepper_direction_t) (w : world)
  : world :=
  match motors w !! motor with
  | None => w
  | Some m =>
      let step := next_step direction (current_step m) in
      let w := with_motors w (<[motor := set_current_step m step]> (motors w)) in
      stepper_apply_step motor step w
  end.

(** The interruptible delay: [while (remaining_delay > 0 && !flag)], the
    flag being read only when the first test holds.  [chunk_delay] is 1
    whenever the body runs, so the count goes down by one. *)
Fixpoint delay_chunks (remaining_delay : nat) (w : world) : world :=
  match remaining_delay with
  | O => w
  | S remaining' =>
      let '(f, w) := read_flag InDelay w in
      if f then w
      else
        let chunk_delay :=
          if 1 <? Z.of_nat remaining_delay then 1 else Z.of_nat remaining_delay in
        delay_chunks remaining' (sleep_ms chunk_delay w)
  end.

Definition step_delay_of (motor : nat) (w : world) : Z :=
  match motors w !! motor with
  | Some m => step_delay m
  | None => 0
  end.

(** The [for] loop of [stepper_move_steps], [steps] iterations left. *)
Fixpoint move_steps_loop (steps : nat) (motor : nat)
    (direction : stepper_direction_t) (w : world) : world :=
  match steps with
  | O => w
  | S steps' =>
      let '(f, w) := read_flag AtStep w in
      if f then w
      else
        let w := advance motor direction w in
        let w := delay_chunks (Z.to_nat (step_delay_of motor w)) w in
        let '(f, w) := read_flag AfterDelay w in
        if f then w else move_steps_loop steps' motor direction w
  end.

Definition is_enabled (motor : nat) (w : world) : bool :=
  match motors w !! motor with
  | Some m => enabled m
  | None => false
  end.

Definition stepper_move_steps (motor : option nat) (steps : Z)
    (direction : stepper_direction_t) (w : world) : world :=
  match motor with
  | None => w
  | Some a =>
      if is_enabled a w then move_steps_loop (Z.to_nat steps) a direction w
      else w
  end.

(** *** Single-precision arithmetic of the degree conversion *)

Definition float32 := spec_float.
Definition f32_div : float32 -> float32 -> float32 := SFdiv 24 128.
Definition f32_mul : float32 -> float32 -> float32 := SFmul 24 128.
Definition f32_of_Z (n : Z) : float32 := binary_normalize 24 128 n 0 false.

(** The integral part of [m * 2^e]. *)
Definition integral_part (m : positive) (e : Z) : Z :=
  if 0 <=? e then Z.pos m * 2 ^ e else Z.pos m / 2 ^ (- e).

(** [(uint)x]: the fraction is discarded.  Where the integral part does not
    fit a [uint] C leaves the conversion undefined; the value here is the
    clamped one. *)
Definition float_to_uint (x : float32) : Z :=
  match x with
  | S754_zero _ => 0
  | S754_nan => 0
  | S754_infinity s => if s then 0 else 2 ^ 32 - 1
  | S754_finite true _ _ => 0
  | S754_finite false m e => Z.min (integral_part m e) (2 ^ 32 - 1)
  end.

(** [(uint)((degrees / 360.0f) * STEPS_PER_REVOLUTION)] *)
Definition steps_of_degrees (degrees : float32) : Z :=
  float_to_uint
    (f32_mul (f32_div degrees (f32_of_Z 360)) (f32_of_Z STEPS_PER_REVOLUTION)).

Definition stepper_rotate_degrees (motor : option nat) (degrees : float32)
    (direction : stepper_direction_t) (w : world) : world :=
  match motor with
  | None => w
  | Some a =>
      if is_enabled a w
      then stepper_move_steps motor (steps_of_degrees degrees) direction w
      else w
  end.

Definition stepper_disable (motor : option nat) (w : world) : world :=
  match motor with
  | None => w
  | Some a =>
      match motors w !! a with
      | None => w
      | Some m =>
          let w := with_motors w (<[a := set_enabled m false]> (motors w)) in
          gpio_put (pin4 m) false (gpio_put (pin3 m) false
            (gpio_put (pin2 m) false (gpio_put (pin1 m) false w)))
      end
  end.

Definition stepper_enable (motor : option nat) (w : world) : world :=
  match motor with
  | None => w
  | Some a =>
      match motors w !! a with
      | None => w
      | Some m =>
          let w := with_motors w (<[a := set_enabled m true]> (motors w)) in
          stepper_apply_step a (current_step m) w
      end
  end.

Definition stepper_set_speed (motor : option nat) (delay : Z) (w : world) : world :=
  match motor with
  | None => w
  | Some a =>
      match motors w !! a with
      | None => w
      | Some m => with_motors w (<[a := set_step_delay m delay]> (motors w))
      end
  end.

Definition stepper_get_position (motor : option nat) (w : world) : Z :=
  match motor with
  | None => -1
  | Some a =>
      match motors w !! a with
      | Some m => current_step m
      | None => 0
      end
  end.

(** *** Several motors in lock-step *)

(** The inner [for] over [motors[i]]: a non-null pointer to an enabled
    motor is advanced. *)
Definition advance_if_enabled (direction : stepper_direction_t) (w : world)
    (ptr : option nat) : world :=
  match ptr with
  | None => w
  | Some a => if is_enabled a w then advance a direction w else w
  end.

Definition advance_all (ptrs : list (option nat)) (direction : stepper_direction_t)
    (w : world) : world :=
  foldl (advance_if_enabled direction) w ptrs.

(** The second inner [for]: the delay of the first non-null enabled motor,
    then [break]. *)
Fixpoint delay_first_enabled (ptrs : list (option nat)) (w : world) : world :=
  match ptrs with
  | [] => w
  | None :: rest => delay_first_enabled rest w
  | Some a :: rest =>
      if is_enabled a w then delay_chunks (Z.to_nat (step_delay_of a w)) w
      else delay_first_enabled rest w
  end.

(** The outer [for] of [stepper_rotate_multiple_degrees], [steps]
    iterations left. *)
Fixpoint rotate_loop (steps : nat) (ptrs : list (option nat))
    (direction : stepper_direction_t) (w : world) : world :=
  match steps with
  | O => w
  | S steps' =>
      let '(f, w) := read_flag AtStep w in
      if f then w
      else
        let w := advance_all ptrs direction w in
        let w := delay_first_enabled ptrs w in
        let '(f, w) := read_flag AfterDelay w in
        if f then w else rotate_loop steps' ptrs direction w
  end.

(** [motors] is the pointer array, [None] a null array; the loops run over
    its first [num_motors] entries. *)
Definition stepper_rotate_multiple_degrees (ptrs : option (list (option nat)))
    (num_motors : Z) (degrees : float32) (direction : stepper_direction_t)
    (w : world) : world :=
  match ptrs with
  | None => w
  | Some ptrs =>
      if num_motors =? 0 then w
      else
        let steps := steps_of_degrees degrees in
        rotate_loop (Z.to_nat steps) (take (Z.to_nat num_motors) ptrs) direction w
  end.

Definition stepper_set_interrupt (w : world) : world := with_flag w true.
Definition stepper_clear_interrupt (w : world) : world := with_flag w false.
Definition stepper_is_interrupted (w : world) : bool * world :=
  read_flag Query w.

(** [stepper_emergency_stop_all]: [motors] is the address of the first
    structure of an array, [motors[i]] the structure [i] places further. *)
Definition stop_one (w : world) (a : nat) : world :=
  match motors w !! a with
  | None => w
  | Some m =>
      let w := gpio_put (pin4 m) false (gpio_put (pin3 m) false
                 (gpio_put (pin2 m) false (gpio_put (pin1 m) false w))) in
      with_motors w (<[a := set_enabled m false]> (motors w))
  end.

Definition stepper_emergency_stop_all (base : option nat) (num_motors : Z)
    (w : world) : world :=
  match base with
  | None => w
  | Some a => foldl stop_one w (seq a (Z.to_nat num_motors))
  end.

End Engine.

End Stepper.

Import Stepper.

(** ** Notions the properties are stated with *)

Module Spec.

(** [marker] occurs somewhere in [text]. *)
Definition contains (marker text : cstring) : Prop :=
  exists before after, text = before ++ marker ++ after.

Definition is_letter (c : ascii) : Prop :=
  65 <= code c <= 90 \/ 97 <= code c <= 122.

(** Two characters are the same up to the case of a letter. *)
Definition same_char_ci (a b : ascii) : Prop :=
  a = b \/ (is_letter a /\ is_letter b /\ Z.abs (code a - code b) = 32).

(** Two strings are equal case-insensitively. *)
Definition equal_ci (s t : cstring) : Prop := Forall2 same_char_ci s t.

(** *** The ring buffer seen as a queue *)

(** A buffer as its declaration has it: [UART_RX_BUFFER_SIZE] cells, both
    indices below that. *)
Definition rb_wf (b : uart_rx_buffer_t) : Prop :=
  List.length (buffer b) = Z.to_nat UART_RX_BUFFER_SIZE
  /\ 0 <= head b < UART_RX_BUFFER_SIZE
  /\ 0 <= tail b < UART_RX_BUFFER_SIZE.

(** [count] cells of the array from index [from] on, wrapping around. *)
Fixpoint cells_from (cells : list ascii) (from : Z) (count : nat) : list ascii :=
  match count with
  | O => []
  | S count' =>
      default NUL (cells !! Z.to_nat from)
      :: cells_from cells ((from + 1) mod UART_RX_BUFFER_SIZE) count'
  end.

(** The bytes a buffer holds, oldest first. *)
Definition rb_contents (b : uart_rx_buffer_t) : list ascii :=
  cells_from (buffer b) (tail b) (Z.to_nat (uart_buffer_available b)).

Inductive rb_op := Put (c : ascii) | Get.
Inductive rb_result := PutResult (ok : bool) | GetResult (c : option ascii).

(** A sequence of [put]/[get] calls on the ring buffer, with what each call
    returned. *)
Fixpoint run_ops (ops : list rb_op) (b : uart_rx_buffer_t)
  : list rb_result * uart_rx_buffer_t :=
  match ops with
  | [] => ([], b)
  | Put c :: rest =>
      let '(ok, b) := uart_buffer_put b c in
      let '(results, b) := run_ops rest b in
      (PutResult ok :: results, b)
  | Get :: rest =>
      let '(c, b) := uart_buffer_get b in
      let '(results, b) := run_ops rest b in
      (GetResult c :: results, b)
  end.

(** The same calls on a first-in first-out queue that refuses a byte once it
    holds [capacity - 1] of them. *)
Fixpoint queue_ops (capacity : nat) (ops : list rb_op) (q : list ascii)
  : list rb_result * list ascii :=
  match ops with
  | [] => ([], q)
  | Put c :: rest =>
      if (List.length q <? capacity - 1)%nat then
        let '(results, q) := queue_ops capacity rest (q ++ [c]) in
        (PutResult true :: results, q)
      else
        let '(results, q) := queue_ops capacity rest q in
        (PutResult false :: results, q)
  | Get :: rest =>
      match q with
      | [] =>
          let '(results, q) := queue_ops capacity rest [] in
          (GetResult None :: results, q)
      | c :: q' =>
          let '(results, q) := queue_ops capacity rest q' in
          (GetResult (Some c) :: results, q)
      end
  end.

(** *** Lines of a byte stream *)

Definition is_terminator (c : ascii) : bool :=
  (code c =? code CR) || (code c =? code LF).

(** The stream without its leading terminators. *)
Fixpoint drop_terminators (q : list ascii) : list ascii :=
  match q with
  | c :: q' => if is_terminator c then drop_terminators q' else q
  | [] => []
  end.

(** The bytes before the first terminator, or all of them. *)
Fixpoint until_terminator (q : list ascii) : list ascii :=
  match q with
  | c :: q' => if is_terminator c then [] else c :: until_terminator q'
  | [] => []
  end.

(** The next line of the byte stream [q] for a destination of [max_len]
    characters, and what is left of the stream.  Leading terminators are
    skipped; a stream with nothing else gives no line.  Otherwise the line
    is the run of bytes up to the next terminator (consumed with it) or up
    to the end of the stream, cut after [max_len - 1] bytes. *)
Definition next_line (max_len : Z) (q : list ascii)
  : option (list ascii) * list ascii :=
  let q1 := drop_terminators q in
  let body := until_terminator q1 in
  let room := Z.to_nat (max_len - 1) in
  match q1 with
  | [] => (None, [])
  | _ :: _ =>
      if (List.length body <? room)%nat
      then (Some body, drop (S (List.length body)) q1)
      else (Some (take room body), drop room q1)
  end.

(** *** Notification lines *)

Definition comma : ascii := ascii_of_N 44.

(** The line [+RCV=<address>,<declared>,<text>,<signal>]. *)
Definition RCV (address declared text signal : cstring) : cstring :=
  cs "+RCV=" ++ address ++ comma :: declared ++ comma :: text ++ comma :: signal.

(** The line [+RCV=<address>,<declared>,<text>], whose payload no comma
    closes. *)
Definition RCV_unclosed (address declared text : cstring) : cstring :=
  cs "+RCV=" ++ address ++ comma :: declared ++ comma :: text.

(** A ring buffer with zeroed cells into which [bytes] have arrived. *)
Definition buffer_holding (bytes : list ascii) : uart_rx_buffer_t :=
  snd (run_ops (map Put bytes)
         (uart_buffer_init
            {| buffer := replicate (Z.to_nat UART_RX_BUFFER_SIZE) NUL;
               head := 0; tail := 0; overflow := false |})).

(** The status of a receive together with the message structure, its
    payload read as a C string. *)
Definition received
    (r : option (lora_status_t * option lora_message_t * uart_rx_buffer_t))
  : option (lora_status_t * option (Z * Z * cstring * Z)) :=
  match r with
  | Some (status, Some m, _) =>
      Some (status,
            Some (sender_address m, payload_length m, c_str (payload m), rssi m))
  | Some (status, None, _) => Some (status, None)
  | None => None
  end.

(** *** The stepping engine *)

(** A write of the inactive level to some pin. *)
Definition is_low_write (ev : event) : Prop :=
  exists pin, ev = EvGpioPut pin false.

(** Nothing clears the cancellation flag behind the engine's back: it
    stays set until [stepper_clear_interrupt]. *)
Definition level_triggered (env : nat -> option bool) : Prop :=
  forall k, env k <> Some false.

(** Nothing writes the cancellation flag behind the engine's back. *)
Definition undisturbed (env : nat -> option bool) : Prop :=
  forall k, env k = None.

(** The reads of the flag in [log] all found it clear. *)
Definition all_clear
    (log : list (read_site * bool * gmap nat stepper_motor_t * list event))
  : Prop :=
  Forall (fun entry => snd (fst (fst entry)) = false) log.

(** Every motor structure holds a phase index of the half-step table. *)
Definition phases_in_range (ms : gmap nat stepper_motor_t) : Prop :=
  map_Forall (fun _ m => 0 <= current_step m <= 7) ms.

(** The calls of the stepper interface. *)
Inductive stepper_call :=
  | CallInit (motor : option nat) (p1 p2 p3 p4 delay : Z)
  | CallMoveSteps (motor : option nat) (steps : Z) (direction : stepper_direction_t)
  | CallRotateDegrees (motor : option nat) (degrees : float32)
      (direction : stepper_direction_t)
  | CallDisable (motor : option nat)
  | CallEnable (motor : option nat)
  | CallSetSpeed (motor : option nat) (delay : Z)
  | CallRotateMultiple (ptrs : option (list (option nat))) (num_motors : Z)
      (degrees : float32) (direction : stepper_direction_t)
  | CallEmergencyStopAll (base : option nat) (num_motors : Z)
  | CallSetInterrupt
  | CallClearInterrupt
  | CallIsInterrupted.

Definition perform (env : nat -> option bool) (STEPS_PER_REVOLUTION : Z)
    (call : stepper_call) (w : world) : world :=
  match call with
  | CallInit motor p1 p2 p3 p4 delay => snd (stepper_init motor p1 p2 p3 p4 delay w)
  | CallMoveSteps motor steps direction =>
      stepper_move_steps env motor steps direction w
  | CallRotateDegrees motor degrees direction =>
      stepper_rotate_degrees env STEPS_PER_REVOLUTION motor degrees direction w
  | CallDisable motor => stepper_disable motor w
  | CallEnable motor => stepper_enable motor w
  | CallSetSpeed motor delay => stepper_set_speed motor delay w
  | CallRotateMultiple ptrs num_motors degrees direction =>
      stepper_rotate_multiple_degrees env STEPS_PER_REVOLUTION
        ptrs num_motors degrees direction w
  | CallEmergencyStopAll base num_motors =>
      stepper_emergency_stop_all base num_motors w
  | CallSetInterrupt => stepper_set_interrupt w
  | CallClearInterrupt => stepper_clear_interrupt w
  | CallIsInterrupted => snd (stepper_is_interrupted env w)
  end.

(** At start-up no motor structure is set up yet and the flag is clear. *)
Definition power_on : world :=
  {| motors := ∅; gpio := ∅; stepper_interrupt_flag := false;
     trace := []; reads := 0; observed := [] |}.

(** The worlds the stepper interface can produce. *)
Inductive reachable (env : nat -> option bool) (STEPS_PER_REVOLUTION : Z)
  : world -> Prop :=
  | reachable_power_on : reachable env STEPS_PER_REVOLUTION power_on
  | reachable_call (call : stepper_call) (w : world) :
      reachable env STEPS_PER_REVOLUTION w ->
      reachable env STEPS_PER_REVOLUTION
        (perform env STEPS_PER_REVOLUTION call w).

(** *** Step counts *)

(** The single-precision number nearest to [m * 2^e]. *)
Definition f32_of_dyadic (m e : Z) : float32 := binary_normalize 24 128 m e false.

(** The exact value of a finite single-precision number, as a fraction. *)
Definition f32_fraction (x : float32) : option (Z * Z) :=
  match x with
  | S754_zero _ => Some (0, 1)
  | S754_finite s m e =>
      let n := if s then Z.neg m else Z.pos m in
      Some (if 0 <=? e then (n * 2 ^ e, 1) else (n, 2 ^ (- e)))
  | _ => None
  end.

(** The integer nearest to [num / den], halves going up. *)
Definition nearest_integer (num den : Z) : Z := (2 * num + den) / (2 * den).

(** [degrees / 360 * steps_per_revolution] rounded to the nearest integer,
    the arithmetic being exact. *)
Definition rounded_steps (steps_per_revolution : Z) (degrees : float32)
  : option Z :=
  match f32_fraction degrees with
  | Some (n, d) => Some (nearest_integer (n * steps_per_revolution) (d * 360))
  | None => None
  end.

(** A motor structure [count] half-steps further in [direction], when it is
    enabled and listed in the call. *)
Definition after_steps (direction : stepper_direction_t) (count : nat)
    (listed : bool) (m : stepper_motor_t) : stepper_motor_t :=
  if enabled m && listed
  then set_current_step m (Nat.iter count (next_step direction) (current_step m))
  else m.

(** *** Sample inputs *)

(** A ring buffer in use: stale cells, indices anywhere, overflow raised. *)
Definition sample_stale_buffer : uart_rx_buffer_t :=
  {| buffer := replicate (Z.to_nat UART_RX_BUFFER_SIZE) (ascii_of_N 63);
     head := 5; tail := 9; overflow := true |}.

(** Two motors after [stepper_init], the second one then disabled. *)
Definition sample_world : world :=
  stepper_disable (Some 1%nat)
    (snd (stepper_init (Some 1%nat) 6 7 8 9 1
       (snd (stepper_init (Some 0%nat) 2 3 4 5 2 power_on)))).

(** An OFF command arrives while the engine makes its fourth read of the
    flag. *)
Definition sample_off_during_rotation (k : nat) : option bool :=
  if (k =? 3)%nat then Some true else None.

Definition sample_quiet (k : nat) : option bool := None.

(** A motor set up and then moved eleven half-steps backwards. *)
Definition sample_run : world :=
  perform sample_quiet 4096 (CallMoveSteps (Some 0%nat) 11 STEPPER_CCW)
    (perform sample_quiet 4096 (CallInit (Some 0%nat) 2 3 4 5 2) power_on).

End Spec.

Import Spec.

(** ** lora.c: the receive interrupt and the buttons *)

Module Receiver.

(** [uart_rx_interrupt_handler] over the characters [rx_fifo] the UART
    holds: each one is taken with [uart_getc] and stored; when the ring
    buffer refuses one the loop is left, that character being gone.  The
    result is what stays in the UART, and the ring buffer. *)
Fixpoint uart_rx_interrupt_handler (rx_fifo : list ascii) (b : uart_rx_buffer_t)
  : list ascii * uart_rx_buffer_t :=
  match rx_fifo with
  | [] => ([], b)
  | c :: rest =>
      let '(stored, b) := uart_buffer_put b c in
      if stored then uart_rx_interrupt_handler rest b else (rest, b)
  end.

End Receiver.

Import Receiver.

Module Button.

Record button_t := mk_button {
  pin : Z;            (* uint *)
  last_state : bool;
  last_time : Z       (* uint32_t *)
}.

(** [lora_button_init]; the pin set-up calls leave the structure alone. *)
Definition lora_button_init (button : option button_t) (pin : Z)
  : option button_t :=
  match button with
  | None => None
  | Some _ => Some {| pin := pin; last_state := true; last_time := 0 |}
  end.

(** [lora_button_pressed], given what [gpio_get(button->pin)] and
    [to_ms_since_boot(get_absolute_time())] return.  The difference of the
    two times is taken in [uint32_t]. *)
Definition lora_button_pressed (button : option button_t)
    (current_state : bool) (current_time : Z) : bool * option button_t :=
  match button with
  | None => (false, None)
  | Some b =>
      if negb current_state && last_state b
         && (50 <? to_uint32 (current_time - last_time b))
      then (true, Some {| pin := pin b; last_state := current_state;
                          last_time := current_time |})
      else (false, Some {| pin := pin b; last_state := current_state;
                           last_time := last_time b |})
  end.

End Button.

(** ** stepper.c: the demonstration sequence *)

Module Sequence.

Section Demo.

Variable env : nat -> option bool.
Variable STEPS_PER_REVOLUTION : Z.

(** The interruptible pause of [stepper_demo_sequence]:
    [while (remaining_ms > 0 && !stepper_interrupt_flag)], sleeping in
    chunks of at most 10 ms.  Every iteration takes at least 1 ms off
    [remaining_ms], so [fuel] bounds the iterations by the milliseconds
    asked for. *)
Fixpoint pause_chunks (fuel : nat) (remaining_ms : Z) (w : world) : world :=
  match fuel with
  | O => w
  | S fuel' =>
      if 0 <? remaining_ms then
        let '(f, w) := read_flag env InDelay w in
        if f then w
        else
          let chunk_ms := if 10 <? remaining_ms then 10 else remaining_ms in
          pause_chunks fuel' (remaining_ms - chunk_ms) (sleep_ms chunk_ms w)
      else w
  end.

Definition interruptible_pause (pause_ms : Z) (w : world) : world :=
  pause_chunks (Z.to_nat pause_ms) pause_ms w.

(** [stepper_demo_sequence]; the progress messages are left out. *)
Definition stepper_demo_sequence (ptrs : option (list (option nat)))
    (num_motors : Z) (degrees : float32) (pause_ms : Z) (w : world) : world :=
  match ptrs with
  | None => w
  | Some _ =>
      if num_motors =? 0 then w
      else
        let w := stepper_rotate_multiple_degrees env STEPS_PER_REVOLUTION
                   ptrs num_motors degrees STEPPER_CW w in
        let '(f, w) := read_flag env Query w in
        if f then w
        else
          let w := interruptible_pause pause_ms w in
          let '(f, w) := read_flag env Query w in
          if f then w
          else
            let w := stepper_rotate_multiple_degrees env STEPS_PER_REVOLUTION
                       ptrs num_motors degrees STEPPER_CCW w in
            let '(f, w) := read_flag env Query w in
            if f then w else interruptible_pause pause_ms w
  end.

End Demo.

End Sequence.

Import Sequence.

(** ** run.c: the motors of the application *)

Module App.

Definition NUM_STEPPERS : Z := 4.
Definition STEPPER_DELAY_MS : Z := 1.

(** [static const uint stepper_pins[NUM_STEPPERS][4]] *)
Definition stepper_pins : list (list Z) :=
  [ [2; 3; 6; 7];
    [10; 11; 14; 15];
    [18; 19; 20; 21];
    [22; 26; 27; 28] ].

(** [stepper_pins[i][k]] *)
Definition stepper_pin (i k : nat) : Z :=
  default 0 (default [] (stepper_pins !! i) !! k).

(** The [for] loop of [init_all_steppers] from index [i] on, [count]
    iterations left; [steppers] is the address of the first structure. *)
Fixpoint init_steppers_from (steppers i count : nat) (w : world) : bool * world :=
  match count with
  | O => (true, w)
  | S count' =>
      let '(ok, w) :=
        stepper_init (Some (steppers + i)%nat)
          (stepper_pin i 0) (stepper_pin i 1) (stepper_pin i 2) (stepper_pin i 3)
          STEPPER_DELAY_MS w in
      if ok then init_steppers_from steppers (S i) count' w else (false, w)
  end.

Definition init_all_steppers (steppers : nat) (num_steppers : Z) (w : world)
  : bool * world :=
  if NUM_STEPPERS <? num_steppers then (false, w)
  else init_steppers_from steppers 0 (Z.to_nat num_steppers) w.

Section Control.

Variable env : nat -> option bool.
Variable STEPS_PER_REVOLUTION : Z.

(** [control_steppers]: [stepper_ptrs[i] = &steppers[i]] for the first
    [num_steppers] entries of an array of [NUM_STEPPERS], then one rotation
    by [1.0f] degrees. *)
Definition control_steppers (steppers : nat) (num_steppers : Z) (w : world)
  : world :=
  let stepper_ptrs := map Some (seq steppers (Z.to_nat num_steppers)) in
  stepper_rotate_multiple_degrees env STEPS_PER_REVOLUTION
    (Some stepper_ptrs) num_steppers (f32_of_Z 1) STEPPER_CW w.

End Control.

End App.

(** ** lora.c: AT commands over the UART *)

Module Driver.

(** [lora_config_t] in full; the enumerations are held by their integer
    values. *)
Record lora_config_t := mk_lora_config {
  uart : Z;
  tx_pin : Z;
  rx_pin : Z;
  baud_rate : Z;
  network_id : Z;        (* uint16_t *)
  device_address : Z;    (* uint16_t *)
  frequency : Z;         (* uint32_t *)
  power : Z;
  sf : Z;
  bandwidth : Z;
  coding_rate : Z;
  initialized : bool
}.

Definition LORA_DEFAULT_BAUD_RATE : Z := 9600.
Definition LORA_POWER_10 : Z := 10.
Definition LORA_SF_9 : Z := 9.
Definition LORA_BW_125 : Z := 7.
Definition LORA_CR_4_5 : Z := 1.

(** The UART and the driver's [internal_state]: the characters waiting in
    the UART, the ring buffer, the registered handler and its user data
    (function and data pointers, held as addresses), and two history
    fields: every character written with [uart_puts], oldest first, and the
    number of passes made through wait loops so far. *)
Record port := mk_port {
  rx_fifo : list ascii;
  uart_buffer : uart_rx_buffer_t;
  message_handler : option nat;
  user_data : option nat;
  sent : list ascii;
  polls : nat
}.

Definition with_uart_buffer (p : port) (b : uart_rx_buffer_t) : port :=
  {| rx_fifo := rx_fifo p; uart_buffer := b;
     message_handler := message_handler p; user_data := user_data p;
     sent := sent p; polls := polls p |}.

(** [uart_puts] *)
Definition uart_puts (s : cstring) (p : port) : port :=
  {| rx_fifo := rx_fifo p; uart_buffer := uart_buffer p;
     message_handler := message_handler p; user_data := user_data p;
     sent := sent p ++ s; polls := polls p |}.

(** Characters reach the UART and the receive interrupt runs. *)
Definition uart_receive (bytes : list ascii) (p : port) : port :=
  let '(waiting, b) :=
    uart_rx_interrupt_handler (rx_fifo p ++ bytes) (uart_buffer p) in
  {| rx_fifo := waiting; uart_buffer := b;
     message_handler := message_handler p; user_data := user_data p;
     sent := sent p; polls := polls p |}.

(** [clear_uart_buffer]: the UART is drained, the ring buffer reset. *)
Definition clear_uart_buffer (p : port) : port :=
  {| rx_fifo := []; uart_buffer := uart_buffer_init (uart_buffer p);
     message_handler := message_handler p; user_data := user_data p;
     sent := sent p; polls := polls p |}.

(** [snprintf(dst, size, ...)] given the formatted text: at most [size - 1]
    characters are stored. *)
Definition snprintf (size : Z) (text : cstring) : cstring :=
  take (Z.to_nat (size - 1)) text.

(** The decimal digits of a non-negative number, most significant first;
    ten digits hold any 32-bit value. *)
Fixpoint digits (fuel : nat) (n : Z) (acc : cstring) : cstring :=
  match fuel with
  | O => acc
  | S fuel' =>
      let acc := ascii_of_N (Z.to_N (48 + n mod 10)) :: acc in
      if n <? 10 then acc else digits fuel' (n / 10) acc
  end.

(** The conversion [%d] (and [%ld]) of [printf]. *)
Definition format_d (n : Z) : cstring :=
  if n <? 0 then ascii_of_N 45 :: digits 10 (- n) [] else digits 10 n [].

(** A [uint32_t] handed to [%ld], where [long] has 32 bits. *)
Definition as_long (n : Z) : Z := if n <? 2 ^ 31 then n else n - 2 ^ 32.

Section Wire.

(** The module's side: [incoming k] are the characters that reach the UART
    during pass [k] through a wait loop, and [patience] is the number of
    passes a wait loop makes before LORA_COMMAND_TIMEOUT_MS is over. *)
Variable incoming : nat -> list ascii.
Variable patience : nat.

(** The loop of [wait_for_response], [passes] passes left: [None] is the
    return of [false] at the deadline.  (An exhausted fuel of the line
    reassembler, which does not occur, also ends the loop.) *)
Fixpoint wait_for_response (passes : nat) (max_len : Z) (p : port)
  : option (list ascii) * port :=
  match passes with
  | O => (None, p)
  | S passes' =>
      let p := uart_receive (incoming (polls p)) p in
      let p := {| rx_fifo := rx_fifo p; uart_buffer := uart_buffer p;
                  message_handler := message_handler p; user_data := user_data p;
                  sent := sent p; polls := S (polls p) |} in
      match uart_buffer_get_line (uart_buffer p) max_len with
      | Some (true, line, b) => (Some line, with_uart_buffer p b)
      | Some (false, _, b) => wait_for_response passes' max_len (with_uart_buffer p b)
      | None => (None, p)
      end
  end.

(** [send_at_command]: the status, the caller's response array read as a C
    string ([response] is what it held before, [None] a null pointer) and
    the port. *)
Definition send_at_command (config : option lora_config_t)
    (command : option cstring) (response : option cstring)
    (max_response_len : Z) (p : port)
  : lora_status_t * option cstring * port :=
  match config, command, response with
  | Some _, Some command, Some _ =>
      let p := clear_uart_buffer p in
      let p := uart_puts [CR; LF] (uart_puts command p) in
      match wait_for_response patience max_response_len p with
      | (Some line, p) => (LORA_STATUS_OK, Some (c_str line), p)
      | (None, p) => (LORA_STATUS_TIMEOUT, response, p)
      end
  | _, _, _ => (LORA_STATUS_INVALID_PARAM, response, p)
  end.

(** The check [status == LORA_STATUS_OK && is_response_ok(response)] that
    follows most commands. *)
Definition accepted (status : lora_status_t) (response : option cstring) : bool :=
  match status with
  | LORA_STATUS_OK => is_response_ok response
  | _ => false
  end.

(** A command from a function of the driver.  The local response array of
    64 characters is not initialised; what it holds is read only after a
    status of LORA_STATUS_OK. *)
Definition command_64 (config : option lora_config_t) (command : cstring)
    (p : port) : lora_status_t * option cstring * port :=
  send_at_command config (Some command) (Some []) 64 p.

Definition lora_test (config : option lora_config_t) (p : port)
  : lora_status_t * port :=
  match config with
  | None => (LORA_STATUS_INVALID_PARAM, p)
  | Some _ =>
      let '(status, response, p) := command_64 config (cs "AT") p in
      if accepted status response then (LORA_STATUS_OK, p)
      else (LORA_STATUS_ERROR, p)
  end.

Definition lora_send_message (config : option lora_config_t) (address : Z)
    (message : option cstring) (length : Z) (p : port) : lora_status_t * port :=
  match config, message with
  | Some cfg, Some text =>
      if negb (initialized cfg) || (length =? 0) then (LORA_STATUS_INVALID_PARAM, p)
      else if LORA_MAX_MESSAGE_LENGTH <? length then (LORA_STATUS_INVALID_PARAM, p)
      else
        let command :=
          snprintf (LORA_MAX_MESSAGE_LENGTH + 32)
            (cs "AT+SEND=" ++ format_d address ++ cs "," ++ format_d length
             ++ cs "," ++ text) in
        let '(status, response, p) := command_64 config command p in
        if accepted status response then (LORA_STATUS_OK, p) else (status, p)
  | _, _ => (LORA_STATUS_INVALID_PARAM, p)
  end.

Definition lora_broadcast_message (config : option lora_config_t)
    (message : option cstring) (length : Z) (p : port) : lora_status_t * port :=
  lora_send_message config 65535 message length p.

(** [lora_configure]: the status, the configuration structure and the
    port. *)
Definition lora_configure (config : option lora_config_t)
    (frequency power sf bandwidth coding_rate : Z) (p : port)
  : lora_status_t * option lora_config_t * port :=
  match config with
  | None => (LORA_STATUS_INVALID_PARAM, config, p)
  | Some cfg =>
      let '(status, response, p) :=
        command_64 config
          (snprintf 64 (cs "AT+BAND=" ++ format_d (as_long frequency))) p in
      if negb (accepted status response) then (LORA_STATUS_ERROR, config, p)
      else
        let '(status, response, p) :=
          command_64 config (snprintf 64 (cs "AT+CRFOP=" ++ format_d power)) p in
        if negb (accepted status response) then (LORA_STATUS_ERROR, config, p)
        else
          let '(status, response, p) :=
            command_64 config
              (snprintf 64 (cs "AT+PARAMETER=" ++ format_d sf ++ cs ","
                            ++ format_d bandwidth ++ cs ","
                            ++ format_d coding_rate ++ cs "," ++ format_d 8)) p in
          if negb (accepted status response) then (LORA_STATUS_ERROR, config, p)
          else
            (LORA_STATUS_OK,
             Some {| uart := uart cfg; tx_pin := tx_pin cfg; rx_pin := rx_pin cfg;
                     baud_rate := baud_rate cfg; network_id := network_id cfg;
                     device_address := device_address cfg;
                     frequency := frequency; power := power; sf := sf;
                     bandwidth := bandwidth; coding_rate := coding_rate;
                     initialized := initialized cfg |}, p)
  end.

Definition set_initialized (cfg : lora_config_t) (flag : bool) : lora_config_t :=
  {| uart := uart cfg; tx_pin := tx_pin cfg; rx_pin := rx_pin cfg;
     baud_rate := baud_rate cfg; network_id := network_id cfg;
     device_address := device_address cfg; frequency := frequency cfg;
     power := power cfg; sf := sf cfg; bandwidth := bandwidth cfg;
     coding_rate := coding_rate cfg; initialized := flag |}.

(** [lora_init_custom]: [config] is what the caller's structure held
    ([None] a null pointer), [uart_inst] the UART handle.  The set-up of the
    UART and its interrupt and the settling delay leave the port as it
    is. *)
Definition lora_init_custom (config : option lora_config_t) (uart_inst : option Z)
    (tx_pin rx_pin network_id device_address frequency power : Z) (p : port)
  : lora_status_t * option lora_config_t * port :=
  match config, uart_inst with
  | Some _, Some uart_inst =>
      let cfg := {| uart := uart_inst; tx_pin := tx_pin; rx_pin := rx_pin;
                    baud_rate := LORA_DEFAULT_BAUD_RATE; network_id := network_id;
                    device_address := device_address; frequency := frequency;
                    power := power; sf := LORA_SF_9; bandwidth := LORA_BW_125;
                    coding_rate := LORA_CR_4_5; initialized := false |} in
      (* memset(&internal_state, 0, ...); uart_buffer_init(...) *)
      let p := {| rx_fifo := rx_fifo p;
                  uart_buffer :=
                    uart_buffer_init
                      {| buffer := replicate (Z.to_nat UART_RX_BUFFER_SIZE) NUL;
                         head := 0; tail := 0; overflow := false |};
                  message_handler := None; user_data := None;
                  sent := sent p; polls := polls p |} in
      let '(status, p) := lora_test (Some cfg) p in
      match status with
      | LORA_STATUS_OK =>
          let network_step :=
            if network_id =? 0 then (true, p)
            else if negb (network_id =? 18)
                    && ((network_id <? 3) || (15 <? network_id))
            then (false, p)
            else
              let '(status, response, p) :=
                command_64 (Some cfg)
                  (snprintf 32 (cs "AT+NETWORKID=" ++ format_d network_id)) p in
              (accepted status response, p) in
          let '(ok, p) := network_step in
          if negb ok then (LORA_STATUS_ERROR, Some cfg, p)
          else
            let address_step :=
              if device_address =? 0 then (true, p)
              else
                let '(status, response, p) :=
                  command_64 (Some cfg)
                    (snprintf 32 (cs "AT+ADDRESS=" ++ format_d device_address)) p in
                (accepted status response, p) in
            let '(ok, p) := address_step in
            if negb ok then (LORA_STATUS_ERROR, Some cfg, p)
            else
              let '(status, config', p) :=
                lora_configure (Some cfg) frequency power (sf cfg) (bandwidth cfg)
                  (coding_rate cfg) p in
              match status, config' with
              | LORA_STATUS_OK, Some cfg' =>
                  (LORA_STATUS_OK, Some (set_initialized cfg' true), p)
              | _, _ => (status, config', p)
              end
      | _ => (status, Some cfg, p)
      end
  | _, _ => (LORA_STATUS_INVALID_PARAM, config, p)
  end.

(** [lora_init] *)
Definition lora_init (config : option lora_config_t) (uart_inst : option Z)
    (tx_pin rx_pin : Z) (p : port)
  : lora_status_t * option lora_config_t * port :=
  lora_init_custom config uart_inst tx_pin rx_pin 0 0 433000000 LORA_POWER_10 p.

Definition lora_reset (config : option lora_config_t) (p : port)
  : lora_status_t * option lora_config_t * port :=
  match config with
  | None => (LORA_STATUS_INVALID_PARAM, config, p)
  | Some cfg =>
      let '(status, response, p) := command_64 config (cs "AT+RESET") p in
      if accepted status response
      then (LORA_STATUS_OK, Some (set_initialized cfg false), p)
      else (LORA_STATUS_ERROR, config, p)
  end.

(** [lora_sleep] and [lora_wake] *)
Definition lora_mode (mode : cstring) (config : option lora_config_t) (p : port)
  : lora_status_t * port :=
  match config with
  | None => (LORA_STATUS_INVALID_PARAM, p)
  | Some _ =>
      let '(status, response, p) := command_64 config (cs "AT+MODE=" ++ mode) p in
      if negb (accepted status response) then (LORA_STATUS_ERROR, p)
      else (LORA_STATUS_OK, p)
  end.

Definition lora_sleep := lora_mode (cs "1").
Definition lora_wake := lora_mode (cs "0").

(** [lora_send_at_command] *)
Definition lora_send_at_command := send_at_command.

(** [lora_get_version]: [version] is the caller's array read as a C
    string. *)
Definition lora_get_version (config : option lora_config_t)
    (version : option cstring) (max_length : Z) (p : port)
  : lora_status_t * option cstring * port :=
  match config, version with
  | Some _, Some _ =>
      if max_length =? 0 then (LORA_STATUS_INVALID_PARAM, version, p)
      else
        let '(status, response, p) :=
          send_at_command config (Some (cs "AT+VER?")) (Some []) 128 p in
        match status, response with
        | LORA_STATUS_OK, Some text =>
            (status, Some (take (Z.to_nat (max_length - 1)) text), p)
        | _, _ => (status, version, p)
        end
  | _, _ => (LORA_STATUS_INVALID_PARAM, version, p)
  end.

End Wire.

Definition lora_set_message_handler (config : option lora_config_t)
    (handler user : option nat) (p : port) : lora_status_t * port :=
  match config with
  | None => (LORA_STATUS_INVALID_PARAM, p)
  | Some _ =>
      (LORA_STATUS_OK,
       {| rx_fifo := rx_fifo p; uart_buffer := uart_buffer p;
          message_handler := handler; user_data := user;
          sent := sent p; polls := polls p |})
  end.

(** [lora_process_messages]: the status, the call of the registered handler
    it makes, if any (the handler's address, the message and the user
    data), and the port.  The local message structure is not initialised;
    [message] is what it holds. *)
Definition lora_process_messages (config : option lora_config_t)
    (message : lora_message_t) (p : port)
  : lora_status_t * option (nat * lora_message_t * option nat) * port :=
  match config with
  | None => (LORA_STATUS_INVALID_PARAM, None, p)
  | Some cfg =>
      if initialized cfg then
        match lora_receive_message (Some {| Lora.initialized := initialized cfg |})
                (Some message) (uart_buffer p) with
        | Some (LORA_STATUS_OK, Some received, b) =>
            (LORA_STATUS_OK,
             match message_handler p with
             | Some handler => Some (handler, received, user_data p)
             | None => None
             end,
             with_uart_buffer p b)
        | Some (status, _, b) => (status, None, with_uart_buffer p b)
        | None => (LORA_STATUS_ERROR, None, p)
        end
      else (LORA_STATUS_INVALID_PARAM, None, p)
  end.

End Driver.

(** ** run.c: the stepper controller *)

Module Controller.

(** The program's state in receiver mode: the stepping engine, the UART
    port of the driver, and the globals of [run.c]. *)
Record state := mk_state {
  engine : world;
  radio : Driver.port;
  lora_config : Driver.lora_config_t;
  global_steppers : option nat;     (* stepper_motor_t *, NULL at start *)
  global_num_steppers : Z;
  stepper_active : bool
}.

Definition with_engine (s : state) (w : world) : state :=
  {| engine := w; radio := radio s; lora_config := lora_config s;
     global_steppers := global_steppers s;
     global_num_steppers := global_num_steppers s;
     stepper_active := stepper_active s |}.

Definition with_radio (s : state) (p : Driver.port) : state :=
  {| engine := engine s; radio := p; lora_config := lora_config s;
     global_steppers := global_steppers s;
     global_num_steppers := global_num_steppers s;
     stepper_active := stepper_active s |}.

Definition with_stepper_active (s : state) (flag : bool) : state :=
  {| engine := engine s; radio := radio s; lora_config := lora_config s;
     global_steppers := global_steppers s;
     global_num_steppers := global_num_steppers s;
     stepper_active := flag |}.

(** [global_steppers[i].enabled = true] *)
Definition mark_enabled (w : world) (a : nat) : world :=
  match motors w !! a with
  | Some m => with_motors w (<[a := set_enabled m true]> (motors w))
  | None => w
  end.

Section Program.

Variable env : nat -> option bool.
Variable STEPS_PER_REVOLUTION : Z.
Variable incoming : nat -> list ascii.
Variable patience : nat.

(** [PICO_DEFAULT_LED_PIN], a constant of the board's SDK. *)
Variable PICO_DEFAULT_LED_PIN : Z.

(** The acknowledgement [lora_send_message(&lora_config,
    message->sender_address, text, strlen(text))]; its status is not
    looked at. *)
Definition acknowledge (message : lora_message_t) (text : cstring) (s : state)
  : state :=
  with_radio s
    (snd (Driver.lora_send_message incoming patience (Some (lora_config s))
            (sender_address message) (Some text)
            (to_uint8 (Z.of_nat (List.length text))) (radio s))).

(** [lora_message_handler]; the payload array of a message is never a null
    pointer. *)
Definition lora_message_handler (message : option lora_message_t) (s : state)
  : state :=
  match message with
  | None => s
  | Some m =>
      let text := c_str (payload m) in
      if lora_is_on_command (Some text) then
        let s := with_stepper_active s true in
        let s := with_engine s (stepper_clear_interrupt (engine s)) in
        let s :=
          match global_steppers s with
          | Some steppers =>
              if 0 <? global_num_steppers s then
                with_engine s
                  (foldl mark_enabled (engine s)
                     (seq steppers (Z.to_nat (global_num_steppers s))))
              else s
          | None => s
          end in
        let s :=
          match global_steppers s with
          | Some steppers =>
              if 0 <? global_num_steppers s then
                with_engine s
                  (App.control_steppers env STEPS_PER_REVOLUTION steppers
                     (global_num_steppers s) (engine s))
              else s
          | None => s
          end in
        acknowledge m (cs "STEPPERS_ON") s
      else if lora_is_off_command (Some text) then
        let s := with_stepper_active s false in
        let s := with_engine s (stepper_set_interrupt (engine s)) in
        let s :=
          match global_steppers s with
          | Some steppers =>
              if 0 <? global_num_steppers s then
                with_engine s
                  (stepper_emergency_stop_all (Some steppers)
                     (global_num_steppers s) (engine s))
              else s
          | None => s
          end in
        acknowledge m (cs "STEPPERS_OFF") s
      else acknowledge m (cs "UNKNOWN_COMMAND") s
  end.

(** One pass through the main loop of [run] in receiver mode.
    [lora_initialized] and [steppers] are the locals of [run];
    [message] is what the local message structure of
    [lora_process_messages] holds.  The registered handler is
    [lora_message_handler]. *)
Definition main_loop_pass (lora_initialized : bool) (steppers : nat)
    (message : lora_message_t) (s : state) : state :=
  if lora_initialized then
    let '(msg_status, call, p) :=
      Driver.lora_process_messages (Some (lora_config s)) message (radio s) in
    let s := with_radio s p in
    let s :=
      match call with
      | Some (_, received, _) => lora_message_handler (Some received) s
      | None => s
      end in
    let s :=
      match msg_status with
      | LORA_STATUS_OK =>
          with_engine s
            (gpio_put PICO_DEFAULT_LED_PIN false
               (gpio_put PICO_DEFAULT_LED_PIN true (engine s)))
      | _ => s
      end in
    if stepper_active s then
      let '(interrupted, w) := stepper_is_interrupted env (engine s) in
      let s := with_engine s w in
      if interrupted then with_stepper_active s false
      else
        let s :=
          with_engine s
            (App.control_steppers env STEPS_PER_REVOLUTION steppers
               App.NUM_STEPPERS (engine s)) in
        let '(interrupted, w) := stepper_is_interrupted env (engine s) in
        let s := with_engine s w in
        if interrupted then with_stepper_active s false else s
    else s
  else s.

End Program.

End Controller.

(** ** Further notions *)

Module Spec2.

(** The button polled once per sample (pin level, time), with what each
    poll returned. *)
Fixpoint poll_button (b : Button.button_t) (samples : list (bool * Z))
  : list bool * Button.button_t :=
  match samples with
  | [] => ([], b)
  | (level, time) :: rest =>
      match Button.lora_button_pressed (Some b) level time with
      | (pressed, Some b') =>
          let '(results, b'') := poll_button b' rest in
          (pressed :: results, b'')
      | (pressed, None) => ([pressed], b)
      end
  end.

(** The millisecond clock read at the polls: within [uint32_t] and never
    running backwards. *)
Definition clock_steady (samples : list (bool * Z)) : Prop :=
  Forall (fun s => 0 <= snd s < 2 ^ 32) samples
  /\ forall k l s s',
       (k <= l)%nat -> samples !! k = Some s -> samples !! l = Some s' ->
       snd s <= snd s'.

(** The milliseconds slept in a trace. *)
Fixpoint slept (tr : list event) : Z :=
  match tr with
  | [] => 0
  | EvSleep ms :: rest => ms + slept rest
  | _ :: rest => slept rest
  end.

(** The levels last written to the four pins of a motor. *)
Definition outputs (w : world) (m : stepper_motor_t) : list (option bool) :=
  [gpio w !! pin1 m; gpio w !! pin2 m; gpio w !! pin3 m; gpio w !! pin4 m].

(** Row [step] of the half-step table as levels written. *)
Definition pattern (step : Z) : list (option bool) :=
  [Some (phase step 0); Some (phase step 1); Some (phase step 2);
   Some (phase step 3)].

(** The pins of a motor. *)
Definition pins_of (m : stepper_motor_t) : list Z :=
  [pin1 m; pin2 m; pin3 m; pin4 m].

(** The per-step delay of a group rotation: that of the first listed motor
    that is not null and is enabled, and none when there is no such
    motor. *)
Fixpoint pace (ptrs : list (option nat)) (ms : gmap nat stepper_motor_t) : Z :=
  match ptrs with
  | [] => 0
  | None :: rest => pace rest ms
  | Some a :: rest =>
      match ms !! a with
      | Some m => if enabled m then Z.max 0 (step_delay m) else pace rest ms
      | None => pace rest ms
      end
  end.

(** What of a motor structure the engine never changes while stepping. *)
Definition settings (m : stepper_motor_t) : Z * Z * Z * Z * Z * bool :=
  (pin1 m, pin2 m, pin3 m, pin4 m, step_delay m, enabled m).

(** The structure [init_all_steppers] sets up for motor [i]. *)
Definition configured (i : nat) : stepper_motor_t :=
  {| pin1 := App.stepper_pin i 0; pin2 := App.stepper_pin i 1;
     pin3 := App.stepper_pin i 2; pin4 := App.stepper_pin i 3;
     step_delay := App.STEPPER_DELAY_MS; current_step := 0; enabled := true |}.

(** *** Replies of the module *)

(** Waiting for a reply from pass [k] on with [passes] passes to go: the
    first burst that holds anything but line terminators gives the reply,
    cut as [uart_buffer_get_line] cuts a line for a destination of
    [max_len] characters.  The result is the reply, if one came before the
    deadline, and the number of the pass that follows. *)
Fixpoint await (incoming : nat -> list ascii) (max_len : Z) (passes k : nat)
  : option (list ascii) * nat :=
  match passes with
  | O => (None, k)
  | S passes' =>
      match fst (next_line max_len (incoming k)) with
      | Some line => (Some line, S k)
      | None => await incoming max_len passes' (S k)
      end
  end.

(** What the ring buffer holds when that wait is over: the rest of the
    burst the reply was cut from, and nothing when the deadline passed. *)
Fixpoint leftover (incoming : nat -> list ascii) (max_len : Z) (passes k : nat)
  : list ascii :=
  match passes with
  | O => []
  | S passes' =>
      match fst (next_line max_len (incoming k)) with
      | Some _ => snd (next_line max_len (incoming k))
      | None => leftover incoming max_len passes' (S k)
      end
  end.

(** A reply that came and that [is_response_ok] accepts. *)
Definition accepts (reply : option (list ascii)) : bool :=
  match reply with
  | Some line => is_response_ok (Some (c_str line))
  | None => false
  end.

(** No burst is longer than the ring buffer can take. *)
Definition bursts_fit (incoming : nat -> list ascii) : Prop :=
  forall k, (List.length (incoming k) <= Z.to_nat UART_RX_BUFFER_SIZE - 1)%nat.

(** *** The main loop *)

(** The message [lora_receive_message] hands out for the line [text], the
    structure having held [before]. *)
Definition parsed_line (text : list ascii) (before : lora_message_t)
  : lora_message_t :=
  default before (parse_received_message (Some (c_str text)) (Some before)).

(** The next line of the ring buffer is a notification. *)
Definition notified (p : Driver.port) : bool :=
  match fst (next_line RESPONSE_BUFFER_SIZE (rb_contents (Driver.uart_buffer p))) with
  | Some text => starts_with (cs "+RCV=") (c_str text)
  | None => false
  end.

(** The command the next pass of the main loop will hand to the message
    handler, if any: the payload of the notification at the head of the
    ring buffer, when the driver is initialised and a handler is
    registered. *)
Definition pending_command (cfg : Driver.lora_config_t) (before : lora_message_t)
    (p : Driver.port) : option cstring :=
  match fst (next_line RESPONSE_BUFFER_SIZE (rb_contents (Driver.uart_buffer p))) with
  | Some text =>
      if Driver.initialized cfg && starts_with (cs "+RCV=") (c_str text)
         && is_some (Driver.message_handler p)
      then Some (c_str (payload (parsed_line text before)))
      else None
  | None => None
  end.

(** *** More sample inputs *)

(** Two motors after [stepper_init], both enabled. *)
Definition sample_pair : world :=
  perform sample_quiet 4096 (CallInit (Some 1%nat) 6 7 8 9 1)
    (perform sample_quiet 4096 (CallInit (Some 0%nat) 2 3 4 5 2) power_on).

Definition sample_motor : stepper_motor_t :=
  {| pin1 := 2; pin2 := 3; pin3 := 4; pin4 := 5; step_delay := 2;
     current_step := 0; enabled := true |}.

(** A button read low, high and low again, 100 ms apart. *)
Definition sample_polls : list (bool * Z) :=
  [(false, 100); (true, 200); (false, 300)].

Definition sample_button : Button.button_t :=
  {| Button.pin := 2; Button.last_state := true; Button.last_time := 0 |}.

(** The module answers [+OK] during the second pass of a wait loop. *)
Definition sample_reply (k : nat) : list ascii :=
  if (k =? 1)%nat then cs "+OK" ++ [CR; LF] else [].

(** A port whose ring buffer holds [bytes], a handler registered. *)
Definition sample_port (bytes : list ascii) : Driver.port :=
  {| Driver.rx_fifo := []; Driver.uart_buffer := buffer_holding bytes;
     Driver.message_handler := Some 1%nat; Driver.user_data := None;
     Driver.sent := []; Driver.polls := 0 |}.

Definition sample_config : Driver.lora_config_t :=
  {| Driver.uart := 1; Driver.tx_pin := 4; Driver.rx_pin := 5;
     Driver.baud_rate := 9600; Driver.network_id := 18;
     Driver.device_address := 100; Driver.frequency := 915000000;
     Driver.power := 10; Driver.sf := 9; Driver.bandwidth := 7;
     Driver.coding_rate := 1; Driver.initialized := true |}.

(** The controller with two motors registered and [bytes] received. *)
Definition sample_state (bytes : list ascii) (active : bool) : Controller.state :=
  {| Controller.engine := sample_pair; Controller.radio := sample_port bytes;
     Controller.lora_config := sample_config;
     Controller.global_steppers := Some 0%nat;
     Controller.global_num_steppers := 2;
     Controller.stepper_active := active |}.

(** An OFF command received with an ON command queued behind it. *)
Definition sample_queue : list ascii :=
  cs "+RCV=200,3,OFF,-40" ++ [CR; LF] ++ cs "+RCV=200,2,ON,-40" ++ [CR; LF].

(** A message whose payload is [text]. *)
Definition sample_message (text : cstring) : lora_message_t :=
  {| sender_address := 200; rssi := 40;
     payload_length := Z.of_nat (List.length text);
     payload := text ++ replicate (Z.to_nat LORA_MAX_MESSAGE_LENGTH
                                   - List.length text) NUL |}.

End Spec2.

Import Spec2.

(** * Properties *)

(** ** Characters and strings *)

Lemma code_range (c : ascii) : 0 <= code c < 256.
Proof.
  unfold code. pose proof (N_ascii_bounded c). lia.
Qed.

Lemma code_inj (a b : ascii) : code a = code b -> a = b.
Proof.
  unfold code. intros H.
  rewrite <- (ascii_N_embedding a), <- (ascii_N_embedding b).
  f_equal. lia.
Qed.

Lemma code_eqb_true (a b : ascii) : (code a =? code b) = true <-> a = b.
Proof.
  rewrite Z.eqb_eq. split; [apply code_inj | congruence].
Qed.

Lemma c_str_no_nul (bytes : list ascii) :
  Forall (fun c => code c <> 0) (c_str bytes).
Proof.
  induction bytes as [|c rest IH]; simpl; [constructor|].
  destruct (code c =? 0) eqn:E; [constructor|].
  constructor; [lia | exact IH].
Qed.

(** *** [strstr] finds a marker exactly when it occurs *)

Lemma starts_with_iff (needle s : cstring) :
  starts_with needle s = true <-> exists after, s = needle ++ after.
Proof.
  revert s. induction needle as [|a needle IH]; intros s; simpl.
  - split; [eauto | reflexivity].
  - destruct s as [|b s].
    + split; [discriminate | intros [after H]; discriminate].
    + rewrite andb_true_iff, code_eqb_true, IH. split.
      * intros [-> [after ->]]. eauto.
      * intros [after H]. injection H as -> ->. eauto.
Qed.

Lemma strstr_found_iff (haystack needle : cstring) :
  is_some (strstr haystack needle) = true <-> contains needle haystack.
Proof.
  unfold contains. induction haystack as [|c rest IH]; simpl.
  - destruct (starts_with needle []) eqn:E; simpl.
    + apply starts_with_iff in E as [after E]. split; [|reflexivity].
      intros _. exists [], after. exact E.
    + split; [discriminate|]. intros (before & after & H).
      destruct before; [|discriminate]. simpl in H.
      assert (starts_with needle [] = true) by (apply starts_with_iff; eauto).
      congruence.
  - destruct (starts_with needle (c :: rest)) eqn:E; simpl.
    + apply starts_with_iff in E as [after E]. split; [|reflexivity].
      intros _. exists [], after. exact E.
    + rewrite IH. split.
      * intros (before & after & ->). exists (c :: before), after. reflexivity.
      * intros (before & after & H). destruct before as [|d before].
        -- simpl in H.
           assert (starts_with needle (c :: rest) = true)
             by (apply starts_with_iff; eauto).
           congruence.
        -- injection H as -> ->. eauto.
Qed.

(** C8. A text that contains an error marker ([+ERR] or [ERROR]) is never
    OK, whatever else it contains; a text without one is OK exactly when it
    contains a success marker ([OK] or [+OK]); [+OK but +ERR] is not OK. *)
Theorem is_response_ok_error_first (text : cstring) :
  let has_error := contains (cs "+ERR") text \/ contains (cs "ERROR") text in
  let has_success := contains (cs "OK") text \/ contains (cs "+OK") text in
  (has_error -> is_response_ok (Some text) = false)
  /\ (~ has_error -> (is_response_ok (Some text) = true <-> has_success))
  /\ is_response_ok (Some (cs "+OK but +ERR")) = false.
Proof.
  cbv zeta. unfold is_response_ok.
  rewrite <- !strstr_found_iff.
  destruct (is_some (strstr text (cs "+ERR")));
    destruct (is_some (strstr text (cs "ERROR")));
    destruct (is_some (strstr text (cs "OK")));
    destruct (is_some (strstr text (cs "+OK")));
    simpl; intuition congruence.
Qed.

(** *** [strcasecmp] is zero exactly on case-insensitively equal strings *)

Lemma tolower_eq_iff (a b : ascii) :
  tolower a = tolower b <-> same_char_ci a b.
Proof.
  unfold same_char_ci, is_letter, tolower, is_upper.
  pose proof (code_range a). pose proof (code_range b).
  split.
  - intros E.
    destruct (Z.eq_dec (code a) (code b)) as [e|n];
      [left; now apply code_inj|right].
    destruct (65 <=? code a) eqn:A1; destruct (code a <=? 90) eqn:A2;
      destruct (65 <=? code b) eqn:B1; destruct (code b <=? 90) eqn:B2;
      simpl in E; lia.
  - intros [->|(La & Lb & D)]; [reflexivity|].
    destruct (65 <=? code a) eqn:A1; destruct (code a <=? 90) eqn:A2;
      destruct (65 <=? code b) eqn:B1; destruct (code b <=? 90) eqn:B2;
      simpl; lia.
Qed.

Lemma tolower_zero (c : ascii) : tolower c = 0 -> code c = 0.
Proof.
  unfold tolower, is_upper. pose proof (code_range c).
  destruct (65 <=? code c) eqn:A1; destruct (code c <=? 90) eqn:A2; simpl; lia.
Qed.

Lemma strcasecmp_zero_iff (s t : cstring) :
  Forall (fun c => code c <> 0) s ->
  Forall (fun c => code c <> 0) t ->
  strcasecmp s t = 0 <-> equal_ci s t.
Proof.
  unfold equal_ci. intros Hs. revert t.
  induction Hs as [|c1 t1 Hc1 _ IH]; intros t Ht.
  - destruct Ht as [|c2 t2 Hc2 _]; simpl.
    + split; [constructor | reflexivity].
    + split; [|inversion 1]. intros E. exfalso. apply Hc2, tolower_zero. lia.
  - destruct Ht as [|c2 t2 Hc2 Ht2]; simpl.
    + split; [|inversion 1]. intros E. exfalso. now apply Hc1, tolower_zero.
    + destruct (tolower c1 =? tolower c2) eqn:E.
      * apply Z.eqb_eq in E. rewrite (IH _ Ht2). split.
        -- intros F. constructor; [now apply tolower_eq_iff | exact F].
        -- inversion 1; assumption.
      * apply Z.eqb_neq in E. split; [lia|].
        inversion 1; subst. exfalso. now apply E, tolower_eq_iff.
Qed.

Lemma strcasecmp_eqb_iff (bytes : list ascii) (alias : string) :
  Forall (fun c => code c <> 0) (cs alias) ->
  (strcasecmp (c_str bytes) (cs alias) =? 0) = true
  <-> equal_ci (c_str bytes) (cs alias).
Proof.
  intros H. rewrite Z.eqb_eq. apply strcasecmp_zero_iff; [apply c_str_no_nul | exact H].
Qed.

Local Ltac no_nul_literal :=
  repeat constructor; vm_compute; discriminate.

Lemma lora_is_on_command_iff (bytes : list ascii) :
  lora_is_on_command (Some (c_str bytes)) = true
  <-> equal_ci (c_str bytes) (cs "ON") \/ equal_ci (c_str bytes) (cs "START")
      \/ equal_ci (c_str bytes) (cs "MOVE") \/ equal_ci (c_str bytes) (cs "1").
Proof.
  unfold lora_is_on_command.
  rewrite !orb_true_iff, !strcasecmp_eqb_iff by no_nul_literal. tauto.
Qed.

Lemma lora_is_off_command_iff (bytes : list ascii) :
  lora_is_off_command (Some (c_str bytes)) = true
  <-> equal_ci (c_str bytes) (cs "OFF") \/ equal_ci (c_str bytes) (cs "STOP")
      \/ equal_ci (c_str bytes) (cs "HALT") \/ equal_ci (c_str bytes) (cs "0").
Proof.
  unfold lora_is_off_command.
  rewrite !orb_true_iff, !strcasecmp_eqb_iff by no_nul_literal. tauto.
Qed.

Lemma equal_ci_lower (s t : cstring) :
  equal_ci s t <-> map tolower s = map tolower t.
Proof.
  unfold equal_ci. split.
  - induction 1 as [|a b s' t' Hab _ IH]; simpl; [reflexivity|].
    f_equal; [now apply tolower_eq_iff | exact IH].
  - revert t. induction s as [|a s' IH]; intros [|b t'] E; simpl in E;
      try discriminate; [constructor|].
    injection E as E1 E2. constructor; [now apply tolower_eq_iff | now apply IH].
Qed.

(** C9. The activation classifier accepts exactly the strings equal,
    case-insensitively, to ON, START, MOVE or 1, the deactivation classifier
    exactly those equal to OFF, STOP, HALT or 0; no string is accepted by
    both, and PING (like a null pointer) by neither. *)
Theorem command_classifiers (bytes : list ascii) :
  let text := c_str bytes in
  (lora_is_on_command (Some text) = true
   <-> equal_ci text (cs "ON") \/ equal_ci text (cs "START")
       \/ equal_ci text (cs "MOVE") \/ equal_ci text (cs "1"))
  /\ (lora_is_off_command (Some text) = true
      <-> equal_ci text (cs "OFF") \/ equal_ci text (cs "STOP")
          \/ equal_ci text (cs "HALT") \/ equal_ci text (cs "0"))
  /\ ~ (lora_is_on_command (Some text) = true
        /\ lora_is_off_command (Some text) = true)
  /\ lora_is_on_command (Some (cs "PING")) = false
  /\ lora_is_off_command (Some (cs "PING")) = false
  /\ lora_is_on_command None = false
  /\ lora_is_off_command None = false.
Proof.
  cbv zeta. split; [apply lora_is_on_command_iff|].
  split; [apply lora_is_off_command_iff|].
  split; [|repeat split].
  rewrite lora_is_on_command_iff, lora_is_off_command_iff.
  rewrite !equal_ci_lower.
  intros [[H|[H|[H|H]]] [G|[G|[G|G]]]];
    rewrite H in G; vm_compute in G; discriminate.
Qed.

Example command_aliases_any_case :
  map (fun s => lora_is_on_command (Some (cs s))) ["on"; "Start"; "MOVE"; "1"]%string
  = [true; true; true; true]
  /\ map (fun s => lora_is_off_command (Some (cs s))) ["off"; "Stop"; "HALT"; "0"]%string
     = [true; true; true; true].
Proof. split; reflexivity. Qed.

(** ** The ring buffer *)

(** Index arithmetic modulo the buffer size. *)
Local Ltac index_arith :=
  repeat match goal with H : rb_wf _ |- _ => destruct H as (? & ? & ?) end;
  unfold rb_wf, uart_buffer_available, UART_RX_BUFFER_SIZE, to_uint16 in *;
  cbn [buffer head tail overflow] in *;
  change (2 ^ 16) with 65536 in *;
  Z.to_euclidean_division_equations; lia.

Lemma rb_next_index (i : Z) :
  0 <= i < UART_RX_BUFFER_SIZE ->
  to_uint16 (Z.rem (i + 1) UART_RX_BUFFER_SIZE) = (i + 1) mod UART_RX_BUFFER_SIZE.
Proof. intros H. index_arith. Qed.

Lemma rb_available_range (b : uart_rx_buffer_t) :
  rb_wf b -> 0 <= uart_buffer_available b < UART_RX_BUFFER_SIZE.
Proof. intros H. index_arith. Qed.

Lemma rb_contents_length (b : uart_rx_buffer_t) :
  List.length (rb_contents b) = Z.to_nat (uart_buffer_available b).
Proof.
  unfold rb_contents.
  generalize (Z.to_nat (uart_buffer_available b)) (tail b).
  induction n as [|n IH]; intros from; simpl; [reflexivity | now rewrite IH].
Qed.

(** The buffer is empty exactly when the two indices are equal. *)
Lemma rb_empty_iff (b : uart_rx_buffer_t) :
  rb_wf b ->
  (head b = tail b <-> uart_buffer_available b = 0)
  /\ (head b = tail b <-> rb_contents b = [])
  /\ (head b = tail b <-> fst (uart_buffer_get b) = None).
Proof.
  intros H.
  assert (A : head b = tail b <-> uart_buffer_available b = 0)
    by (split; intros; index_arith).
  split; [exact A|]. split.
  - rewrite A. split.
    + intros Z0. unfold rb_contents. now rewrite Z0.
    + intros C. pose proof (rb_contents_length b) as L. rewrite C in L.
      pose proof (rb_available_range b H). simpl in L. lia.
  - unfold uart_buffer_get. destruct (head b =? tail b) eqn:Q.
    + apply Z.eqb_eq in Q. simpl. tauto.
    + apply Z.eqb_neq in Q. simpl. split; [tauto | discriminate].
Qed.

(** [get] on a buffer that holds something hands out the oldest byte. *)
Lemma rb_get_some (b : uart_rx_buffer_t) :
  rb_wf b -> head b <> tail b ->
  exists c rest b',
    uart_buffer_get b = (Some c, b') /\ rb_contents b = c :: rest
    /\ rb_wf b' /\ rb_contents b' = rest
    /\ head b' = head b /\ buffer b' = buffer b /\ overflow b' = overflow b.
Proof.
  intros H Hne.
  unfold uart_buffer_get. destruct (head b =? tail b) eqn:Q;
    [apply Z.eqb_eq in Q; contradiction|].
  rewrite rb_next_index by apply H.
  set (b' := {| buffer := buffer b; head := head b;
                tail := (tail b + 1) mod UART_RX_BUFFER_SIZE;
                overflow := overflow b |}).
  assert (W : rb_wf b') by (subst b'; index_arith).
  assert (A : Z.to_nat (uart_buffer_available b)
              = S (Z.to_nat (uart_buffer_available b')))
    by (subst b'; index_arith).
  exists (default NUL (buffer b !! Z.to_nat (tail b))), (rb_contents b'), b'.
  repeat split; try apply W.
  unfold rb_contents at 1. rewrite A. reflexivity.
Qed.

Lemma rb_get_none (b : uart_rx_buffer_t) :
  head b = tail b -> uart_buffer_get b = (None, b).
Proof.
  intros E. unfold uart_buffer_get. now rewrite (proj2 (Z.eqb_eq _ _) E).
Qed.

Lemma cells_from_insert (cells : list ascii) (c : ascii) (at_ : Z) (count : nat)
    (from : Z) :
  List.length cells = Z.to_nat UART_RX_BUFFER_SIZE ->
  0 <= from < UART_RX_BUFFER_SIZE ->
  (count < Z.to_nat UART_RX_BUFFER_SIZE)%nat ->
  at_ = (from + Z.of_nat count) mod UART_RX_BUFFER_SIZE ->
  cells_from (<[Z.to_nat at_ := c]> cells) from (S count)
  = cells_from cells from count ++ [c].
Proof.
  intros Hl. revert from.
  induction count as [|count IH]; intros from Hf Hc E.
  - simpl. assert (at_ = from) as -> by index_arith.
    rewrite list_lookup_insert_eq by index_arith. reflexivity.
  - change (cells_from ?l from (S (S count)))
      with (default NUL (l !! Z.to_nat from)
            :: cells_from l ((from + 1) mod UART_RX_BUFFER_SIZE) (S count)).
    change (cells_from cells from (S count))
      with (default NUL (cells !! Z.to_nat from)
            :: cells_from cells ((from + 1) mod UART_RX_BUFFER_SIZE) count).
    rewrite list_lookup_insert_ne by index_arith.
    rewrite IH; [reflexivity | index_arith | lia | index_arith].
Qed.

(** [put] on a buffer with room appends the byte. *)
Lemma rb_put_room (b : uart_rx_buffer_t) (c : ascii) :
  rb_wf b -> uart_buffer_available b < UART_RX_BUFFER_SIZE - 1 ->
  exists b',
    uart_buffer_put b c = (true, b') /\ rb_wf b'
    /\ rb_contents b' = rb_contents b ++ [c]
    /\ tail b' = tail b /\ overflow b' = overflow b.
Proof.
  intros H Hroom.
  unfold uart_buffer_put. rewrite rb_next_index by apply H.
  assert (N : (head b + 1) mod UART_RX_BUFFER_SIZE <> tail b) by index_arith.
  apply Z.eqb_neq in N. rewrite N.
  set (b' := {| buffer := <[Z.to_nat (head b) := c]> (buffer b);
                head := (head b + 1) mod UART_RX_BUFFER_SIZE; tail := tail b;
                overflow := overflow b |}).
  assert (W : rb_wf b').
  { subst b'. unfold rb_wf. simpl. rewrite length_insert. index_arith. }
  assert (A : Z.to_nat (uart_buffer_available b')
              = S (Z.to_nat (uart_buffer_available b)))
    by (subst b'; clear W N; index_arith).
  exists b'. repeat split; try apply W.
  unfold rb_contents. rewrite A. simpl buffer. simpl tail.
  apply cells_from_insert; [apply H | apply H | index_arith | index_arith].
Qed.

(** [put] on a full buffer refuses the byte and only raises [overflow]. *)
Lemma rb_put_full (b : uart_rx_buffer_t) (c : ascii) :
  rb_wf b -> uart_buffer_available b = UART_RX_BUFFER_SIZE - 1 ->
  uart_buffer_put b c
  = (false, {| buffer := buffer b; head := head b; tail := tail b;
               overflow := true |}).
Proof.
  intros H Hfull.
  unfold uart_buffer_put. rewrite rb_next_index by apply H.
  assert (N : (head b + 1) mod UART_RX_BUFFER_SIZE = tail b) by index_arith.
  apply Z.eqb_eq in N. now rewrite N.
Qed.

(** The ring buffer behaves as the bounded queue of its contents. *)
Lemma run_ops_refines_queue (ops : list rb_op) (b : uart_rx_buffer_t) :
  rb_wf b ->
  fst (run_ops ops b)
  = fst (queue_ops (Z.to_nat UART_RX_BUFFER_SIZE) ops (rb_contents b))
  /\ rb_wf (snd (run_ops ops b))
  /\ rb_contents (snd (run_ops ops b))
     = snd (queue_ops (Z.to_nat UART_RX_BUFFER_SIZE) ops (rb_contents b)).
Proof.
  revert b. induction ops as [|[c|] ops IH]; intros b W.
  - simpl. auto.
  - pose proof (rb_contents_length b) as L.
    pose proof (rb_available_range b W) as R.
    cbn [run_ops queue_ops].
    destruct (Z_lt_le_dec (uart_buffer_available b) (UART_RX_BUFFER_SIZE - 1))
      as [room|full].
    + destruct (rb_put_room b c W room) as (b' & -> & W' & C' & _).
      replace (List.length (rb_contents b) <? Z.to_nat UART_RX_BUFFER_SIZE - 1)%nat
        with true by (symmetry; apply Nat.ltb_lt; unfold UART_RX_BUFFER_SIZE in *; lia).
      rewrite <- C'. specialize (IH b' W').
      destruct (run_ops ops b'), (queue_ops _ ops (rb_contents b')).
      simpl in *. destruct IH as (-> & ? & ?). auto.
    + rewrite (rb_put_full b c W) by (unfold UART_RX_BUFFER_SIZE in *; lia).
      replace (List.length (rb_contents b) <? Z.to_nat UART_RX_BUFFER_SIZE - 1)%nat
        with false by (symmetry; apply Nat.ltb_ge; unfold UART_RX_BUFFER_SIZE in *; lia).
      set (b' := {| buffer := buffer b; head := head b; tail := tail b;
                    overflow := true |}).
      assert (W' : rb_wf b') by exact W.
      specialize (IH b' W'). change (rb_contents b') with (rb_contents b) in IH.
      destruct (run_ops ops b'), (queue_ops _ ops (rb_contents b)).
      simpl in *. destruct IH as (-> & ? & ?). auto.
  - cbn [run_ops queue_ops].
    destruct (Z.eq_dec (head b) (tail b)) as [e|n].
    + rewrite (rb_get_none b e).
      pose proof (proj1 (proj1 (proj2 (rb_empty_iff b W))) e) as E.
      specialize (IH b W). rewrite E in *.
      destruct (run_ops ops b), (queue_ops _ ops []).
      simpl in *. destruct IH as (-> & ? & ?). auto.
    + destruct (rb_get_some b W n) as (c & rest & b' & -> & -> & W' & C' & _).
      specialize (IH b' W'). rewrite C' in IH.
      destruct (run_ops ops b'), (queue_ops _ ops rest).
      simpl in *. destruct IH as (-> & ? & ?). auto.
Qed.

Lemma queue_ops_puts (capacity : nat) (bytes q : list ascii) :
  (List.length q + List.length bytes <= capacity - 1)%nat ->
  queue_ops capacity (map Put bytes) q
  = (map (fun _ => PutResult true) bytes, q ++ bytes).
Proof.
  revert q. induction bytes as [|c bytes IH]; intros q H; simpl in *.
  - now rewrite app_nil_r.
  - replace (List.length q <? capacity - 1)%nat with true
      by (symmetry; apply Nat.ltb_lt; lia).
    rewrite IH by (rewrite length_app; simpl; lia).
    now rewrite <- app_assoc.
Qed.

Lemma queue_ops_gets (capacity : nat) (q : list ascii) (extra : nat) :
  queue_ops capacity (repeat Get (List.length q + extra)) q
  = (map (fun c => GetResult (Some c)) q ++ repeat (GetResult None) extra, []).
Proof.
  induction q as [|c q IH]; simpl.
  - induction extra as [|extra IH]; simpl; [reflexivity | now rewrite IH].
  - now rewrite IH.
Qed.

(** Once raised, [overflow] stays raised under [put] and [get]. *)
Lemma overflow_sticky (ops : list rb_op) (b : uart_rx_buffer_t) :
  overflow b = true -> overflow (snd (run_ops ops b)) = true.
Proof.
  revert b. induction ops as [|[c|] ops IH]; intros b H; simpl; [exact H| |].
  - unfold uart_buffer_put.
    destruct (_ =? tail b);
      match goal with |- context [run_ops ops ?b'] =>
        specialize (IH b' ltac:(simpl; auto)); destruct (run_ops ops b')
      end; exact IH.
  - unfold uart_buffer_get.
    destruct (head b =? tail b);
      match goal with |- context [run_ops ops ?b'] =>
        specialize (IH b' ltac:(simpl; auto)); destruct (run_ops ops b')
      end; exact IH.
Qed.

Lemma rb_init_wf (b0 : uart_rx_buffer_t) :
  List.length (buffer b0) = Z.to_nat UART_RX_BUFFER_SIZE ->
  rb_wf (uart_buffer_init b0) /\ rb_contents (uart_buffer_init b0) = [].
Proof.
  intros H. split; [|reflexivity].
  unfold rb_wf, UART_RX_BUFFER_SIZE in *. simpl. lia.
Qed.

Lemma run_puts_keep_overflow (bytes : list ascii) (b : uart_rx_buffer_t) :
  rb_wf b ->
  (List.length (rb_contents b) + List.length bytes
   <= Z.to_nat UART_RX_BUFFER_SIZE - 1)%nat ->
  overflow (snd (run_ops (map Put bytes) b)) = overflow b.
Proof.
  revert b. induction bytes as [|c bytes IH]; intros b W H; [reflexivity|].
  cbn [map run_ops]. simpl List.length in H.
  pose proof (rb_contents_length b) as L.
  pose proof (rb_available_range b W) as R.
  destruct (rb_put_room b c W) as (b' & -> & W' & C' & _ & O');
    [unfold UART_RX_BUFFER_SIZE in *; lia|].
  specialize (IH b' W'). rewrite C', length_app in IH. simpl in IH.
  destruct (run_ops (map Put bytes) b'). simpl in *.
  rewrite IH by lia. exact O'.
Qed.

(** C4. On a freshly initialised ring buffer every sequence of [put] and
    [get] calls returns what a first-in first-out queue of at most
    [UART_RX_BUFFER_SIZE - 1] bytes returns, and [get] and [available]
    report empty exactly when [head = tail].  In particular [UART_RX_BUFFER_SIZE - 1] bytes are
    all accepted and come out again in the order they went in; one more
    [put] on the filled buffer returns [false], raises [overflow] (which
    later calls never lower) and changes neither the cells nor the indices,
    and draining then still yields the first bytes only. *)
Theorem ring_buffer_fifo (b0 : uart_rx_buffer_t) (bytes : list ascii)
    (extra : ascii) (ops : list rb_op) :
  List.length (buffer b0) = Z.to_nat UART_RX_BUFFER_SIZE ->
  List.length bytes = Z.to_nat (UART_RX_BUFFER_SIZE - 1) ->
  let capacity := Z.to_nat UART_RX_BUFFER_SIZE in
  let fresh := uart_buffer_init b0 in
  let reached := snd (run_ops ops fresh) in
  let filled := snd (run_ops (map Put bytes) fresh) in
  let refused := uart_buffer_put filled extra in
  fst (run_ops ops fresh) = fst (queue_ops capacity ops [])
  /\ (fst (uart_buffer_get reached) = None <-> head reached = tail reached)
  /\ (uart_buffer_available reached = 0 <-> head reached = tail reached)
  /\ fst (run_ops (map Put bytes) fresh) = map (fun _ => PutResult true) bytes
  /\ overflow filled = false
  /\ fst (run_ops (repeat Get (capacity - 1)) filled)
     = map (fun c => GetResult (Some c)) bytes
  /\ head (snd (run_ops (repeat Get (capacity - 1)) filled))
     = tail (snd (run_ops (repeat Get (capacity - 1)) filled))
  /\ refused = (false, {| buffer := buffer filled; head := head filled;
                          tail := tail filled; overflow := true |})
  /\ (forall later, overflow (snd (run_ops later (snd refused))) = true)
  /\ fst (run_ops (repeat Get capacity) (snd refused))
     = map (fun c => GetResult (Some c)) bytes ++ [GetResult None].
Proof.
  intros Hcells Hlen. cbv zeta.
  destruct (rb_init_wf b0 Hcells) as (Wf & Cf).
  set (capacity := Z.to_nat UART_RX_BUFFER_SIZE).
  set (fresh := uart_buffer_init b0) in *.
  pose proof (run_ops_refines_queue ops fresh Wf) as (Rops & Wr & _).
  pose proof (run_ops_refines_queue (map Put bytes) fresh Wf)
    as (Rput & Wfilled & Cfilled).
  pose proof (run_puts_keep_overflow bytes fresh Wf) as Ofilled.
  set (filled := snd (run_ops (map Put bytes) fresh)) in *.
  fold capacity in Rops, Rput, Cfilled.
  assert (Hcap : (capacity = List.length bytes + 1)%nat)
    by (subst capacity; unfold UART_RX_BUFFER_SIZE in *; lia).
  rewrite Cf in Rops, Rput, Cfilled, Ofilled.
  rewrite queue_ops_puts in Rput, Cfilled by (simpl List.length; lia).
  simpl in Rput, Cfilled.
  assert (Havail : uart_buffer_available filled = UART_RX_BUFFER_SIZE - 1).
  { pose proof (rb_contents_length filled) as L. rewrite Cfilled, Hlen in L.
    pose proof (rb_available_range filled Wfilled). lia. }
  pose proof (rb_put_full filled extra Wfilled Havail) as Hrefused.
  split; [exact Rops|].
  split.
  { pose proof (proj2 (proj2 (rb_empty_iff _ Wr))). tauto. }
  split.
  { pose proof (proj1 (rb_empty_iff _ Wr)). tauto. }
  split; [exact Rput|].
  split; [rewrite Ofilled by (unfold UART_RX_BUFFER_SIZE in *; simpl List.length; lia);
          reflexivity|].
  pose proof (run_ops_refines_queue (repeat Get (capacity - 1)) filled Wfilled)
    as (Rget & Wdrained & Cdrained).
  fold capacity in Rget, Cdrained. rewrite Cfilled in Rget, Cdrained.
  replace (capacity - 1)%nat with (List.length bytes + 0)%nat in * by lia.
  rewrite queue_ops_gets in Rget, Cdrained. simpl in Rget, Cdrained.
  rewrite app_nil_r in Rget.
  split; [exact Rget|].
  split; [apply (proj1 (proj2 (rb_empty_iff _ Wdrained))); exact Cdrained|].
  split; [exact Hrefused|].
  rewrite Hrefused. cbn [snd].
  split; [intros later; now apply overflow_sticky|].
  set (kept := {| buffer := buffer filled; head := head filled;
                  tail := tail filled; overflow := true |}).
  assert (Wkept : rb_wf kept) by exact Wfilled.
  pose proof (run_ops_refines_queue (repeat Get capacity) kept Wkept) as (Rlast & _).
  fold capacity in Rlast.
  change (rb_contents kept) with (rb_contents filled) in Rlast.
  rewrite Cfilled, Hcap, queue_ops_gets in Rlast. rewrite Hcap. exact Rlast.
Qed.

(** ** The line reassembler *)

Lemma rb_get_contents (b : uart_rx_buffer_t) :
  rb_wf b ->
  match rb_contents b with
  | [] => uart_buffer_get b = (None, b)
  | c :: rest =>
      exists b', uart_buffer_get b = (Some c, b') /\ rb_wf b'
                 /\ rb_contents b' = rest
  end.
Proof.
  intros W. destruct (Z.eq_dec (head b) (tail b)) as [e|n].
  - rewrite (proj1 (proj1 (proj2 (rb_empty_iff b W))) e). now apply rb_get_none.
  - destruct (rb_get_some b W n) as (c & rest & b' & G & -> & W' & C' & _).
    eauto.
Qed.

Lemma is_terminator_code (c : ascii) :
  ((code c =? code CR) || (code c =? code LF)) = is_terminator c.
Proof. reflexivity. Qed.

Section GetLine.

Variable max_len : Z.
Hypothesis max_len_range : 2 <= max_len <= 65535.

(** With something accumulated, the loop appends the bytes up to the next
    terminator, as far as there is room. *)
Lemma get_line_loop_accumulating (q : list ascii) :
  forall fuel b line,
    rb_wf b -> rb_contents b = q -> (List.length q < fuel)%nat ->
    line <> [] -> Z.of_nat (List.length line) <= max_len - 1 ->
    let room := (Z.to_nat (max_len - 1) - List.length line)%nat in
    let body := until_terminator q in
    exists b',
      get_line_loop fuel b line (Z.of_nat (List.length line)) max_len
      = Some (true, line ++ take room body, b')
      /\ rb_wf b'
      /\ rb_contents b'
         = if (List.length body <? room)%nat
           then drop (S (List.length body)) q else drop room q.
Proof.
  induction q as [|c q' IH]; intros fuel b line W C F Hne Hidx room body.
  - (* nothing buffered *)
    destruct fuel as [|fuel]; [simpl in F; lia|].
    assert (Hpos : (0 <? Z.of_nat (List.length line)) = true).
    { apply Z.ltb_lt. destruct line; [congruence | simpl; lia]. }
    pose proof (rb_get_contents b W) as G. rewrite C in G.
    exists b. subst body. simpl until_terminator. rewrite take_nil, app_nil_r.
    split; [|split; [exact W | rewrite C; destruct (_ <? _)%nat;
                               [reflexivity | now rewrite drop_nil]]].
    cbn [get_line_loop]. rewrite G. unfold get_line_finish. rewrite Hpos.
    now destruct (_ <? max_len - 1).
  - assert (Hpos : (0 <? Z.of_nat (List.length line)) = true).
    { apply Z.ltb_lt. destruct line; [congruence | simpl; lia]. }
    pose proof (rb_get_contents b W) as G. rewrite C in G.
    destruct G as (b1 & G & W1 & C1).
    destruct (Z.of_nat (List.length line) <? max_len - 1) eqn:Hroom.
    + (* room left *)
      apply Z.ltb_lt in Hroom.
      destruct fuel as [|fuel]; [simpl in F; lia|].
      cbn [get_line_loop]. rewrite (proj2 (Z.ltb_lt _ _) Hroom), G.
      rewrite is_terminator_code. subst body. cbn [until_terminator].
      destruct (is_terminator c) eqn:T.
      * rewrite Hpos. exists b1. rewrite take_nil, app_nil_r.
        split; [reflexivity|]. split; [exact W1|].
        replace (List.length [] <? room)%nat with true
          by (symmetry; apply Nat.ltb_lt; subst room; simpl; lia).
        exact C1.
      * assert (U : to_uint16 (Z.of_nat (List.length line) + 1)
                    = Z.of_nat (List.length (line ++ [c]))).
        { rewrite length_app. simpl List.length. unfold to_uint16.
          rewrite Z.mod_small; lia. }
        rewrite U.
        destruct (IH fuel b1 (line ++ [c]) W1 C1) as (b' & E & W' & C');
          [simpl in F; lia | now destruct line
          | rewrite length_app; simpl List.length; lia |].
        exists b'. rewrite E.
        rewrite length_app in *. simpl List.length in *.
        replace room with (S (Z.to_nat (max_len - 1) - (List.length line + 1)))
          by (subst room; lia).
        cbn [take]. rewrite <- app_assoc. split; [reflexivity|].
        split; [exact W'|]. rewrite C'. simpl.
        now destruct (_ <? _)%nat.
    + (* the destination is full *)
      apply Z.ltb_ge in Hroom.
      assert (R0 : room = O) by (subst room; lia).
      exists b. rewrite R0. rewrite take_0, app_nil_r. simpl drop.
      replace (List.length body <? 0)%nat with false
        by (symmetry; apply Nat.ltb_ge; lia).
      split; [|split; [exact W | exact C]].
      destruct fuel; cbn [get_line_loop];
        rewrite (proj2 (Z.ltb_ge _ _) Hroom); unfold get_line_finish;
        now rewrite Hpos.
Qed.

(** With nothing accumulated, the loop skips terminators and then reads the
    next line. *)
Lemma get_line_loop_skipping (q : list ascii) :
  forall fuel b,
    rb_wf b -> rb_contents b = q -> (List.length q < fuel)%nat ->
    exists b',
      get_line_loop fuel b [] 0 max_len
      = Some (match fst (next_line max_len q) with
              | Some line => (true, line, b')
              | None => (false, [], b')
              end)
      /\ rb_wf b'
      /\ rb_contents b' = snd (next_line max_len q).
Proof.
  induction q as [|c q' IH]; intros fuel b W C F.
  - destruct fuel as [|fuel]; [simpl in F; lia|].
    pose proof (rb_get_contents b W) as G. rewrite C in G.
    exists b. cbn [get_line_loop]. rewrite G.
    replace (0 <? max_len - 1) with true by (symmetry; apply Z.ltb_lt; lia).
    auto.
  - destruct fuel as [|fuel]; [simpl in F; lia|].
    pose proof (rb_get_contents b W) as G. rewrite C in G.
    destruct G as (b1 & G & W1 & C1).
    cbn [get_line_loop]. rewrite G.
    replace (0 <? max_len - 1) with true by (symmetry; apply Z.ltb_lt; lia).
    rewrite is_terminator_code. unfold next_line. cbn [drop_terminators].
    destruct (is_terminator c) eqn:T.
    + simpl (0 <? 0).
      destruct (IH fuel b1 W1 C1) as (b' & E & W' & C'); [simpl in F; lia|].
      exists b'. auto.
    + change (to_uint16 (0 + 1)) with (Z.of_nat (List.length ([] ++ [c]))).
      destruct (get_line_loop_accumulating q' fuel b1 ([] ++ [c]) W1 C1)
        as (b' & E & W' & C'); [simpl in F; lia | discriminate | simpl; lia |].
      exists b'. rewrite E. simpl List.length in *.
      cbn [until_terminator]. rewrite T. simpl List.length.
      destruct (Z.to_nat (max_len - 1)) as [|r] eqn:R; [lia|].
      replace (S r - 1)%nat with r in * by lia.
      change (S (List.length (until_terminator q')) <? S r)%nat
        with (List.length (until_terminator q') <? r)%nat.
      rewrite C'.
      destruct (_ <? _)%nat eqn:Q; simpl.
      * apply Nat.ltb_lt in Q. rewrite take_ge by lia. auto.
      * auto.
Qed.

End GetLine.

Lemma drop_terminators_head (q : list ascii) (c : ascii) (rest : list ascii) :
  drop_terminators q = c :: rest -> is_terminator c = false.
Proof.
  induction q as [|d q IH]; simpl; [discriminate|].
  destruct (is_terminator d) eqn:T; [exact IH|].
  intros E. injection E as -> _. exact T.
Qed.

Lemma until_terminator_clean (q : list ascii) :
  Forall (fun c => is_terminator c = false) (until_terminator q).
Proof.
  induction q as [|c q IH]; simpl; [constructor|].
  destruct (is_terminator c) eqn:T; constructor; assumption.
Qed.

(** A line, when there is one, is not empty and holds no terminator. *)
Lemma next_line_nonempty (max_len : Z) (q line : list ascii) :
  2 <= max_len ->
  fst (next_line max_len q) = Some line ->
  line <> [] /\ Forall (fun c => is_terminator c = false) line.
Proof.
  intros Hmax. unfold next_line.
  destruct (drop_terminators q) as [|c rest] eqn:D; [discriminate|].
  pose proof (drop_terminators_head q c rest D) as T.
  pose proof (until_terminator_clean (c :: rest)) as Cl.
  cbn [until_terminator] in *. rewrite T in *.
  destruct (Z.to_nat (max_len - 1)) as [|room] eqn:R; [lia|].
  destruct (_ <? _)%nat; cbn [fst]; intros E; injection E as <-.
  - split; [discriminate | exact Cl].
  - split; [discriminate|].
    change (c :: take room (until_terminator rest))
      with (take (S room) (c :: until_terminator rest)).
    now apply Forall_take.
Qed.

Lemma next_line_none_iff (max_len : Z) (q : list ascii) :
  fst (next_line max_len q) = None <-> drop_terminators q = [].
Proof.
  unfold next_line. destruct (drop_terminators q); [tauto|].
  destruct (_ <? _)%nat; simpl; split; discriminate.
Qed.

(** [uart_buffer_get_line] returns, and what it returns is the next line of
    the buffered bytes. *)
Lemma get_line_refines_next_line (b : uart_rx_buffer_t) (max_len : Z) :
  rb_wf b -> 2 <= max_len <= 65535 ->
  exists b',
    uart_buffer_get_line b max_len
    = Some (match fst (next_line max_len (rb_contents b)) with
            | Some line => (true, line, b')
            | None => (false, [], b')
            end)
    /\ rb_wf b'
    /\ rb_contents b' = snd (next_line max_len (rb_contents b)).
Proof.
  intros W Hmax. unfold uart_buffer_get_line.
  apply get_line_loop_skipping; [exact Hmax | exact W | reflexivity |].
  rewrite rb_contents_length. pose proof (rb_available_range b W). lia.
Qed.

Local Ltac next_line_at H :=
  match type of H with
  | rb_contents ?b = _ =>
      let W := fresh "W" in
      let b' := fresh "b" in
      let E := fresh "E" in
      let C := fresh "C" in
      match goal with
      | Wb : rb_wf b |- _ =>
          destruct (get_line_refines_next_line b RESPONSE_BUFFER_SIZE Wb
                      ltac:(unfold RESPONSE_BUFFER_SIZE; lia))
            as (b' & E & W & C);
          rewrite H in E, C;
          vm_compute next_line in E, C;
          cbn [fst snd] in E, C
      end
  end.

(** A line begins with the first byte that follows the leading
    terminators. *)
Lemma next_line_head (max_len : Z) (q line : list ascii) :
  2 <= max_len ->
  fst (next_line max_len q) = Some line ->
  exists c rest tail, drop_terminators q = c :: rest /\ line = c :: tail.
Proof.
  intros Hmax. unfold next_line.
  destruct (drop_terminators q) as [|c rest] eqn:D; [discriminate|].
  pose proof (drop_terminators_head q c rest D) as T.
  cbn [until_terminator]. rewrite T.
  destruct (Z.to_nat (max_len - 1)) as [|room] eqn:R; [lia|].
  destruct (_ <? _)%nat; cbn [fst]; intros E; injection E as <-; eauto.
Qed.

Lemma drop_terminators_within (q : list ascii) (c : ascii) :
  c ∈ drop_terminators q -> c ∈ q.
Proof.
  induction q as [|d q IH]; cbn [drop_terminators]; [auto|].
  destruct (is_terminator d); [|auto].
  intros H. right. apply IH, H.
Qed.

Lemma until_terminator_within (q : list ascii) (c : ascii) :
  c ∈ until_terminator q -> c ∈ q.
Proof.
  induction q as [|d q IH]; cbn [until_terminator]; [auto|].
  destruct (is_terminator d); [intros H; inversion H|].
  intros H. apply elem_of_cons in H as [->|H]; [left|right; apply IH, H].
Qed.

(** A line holds bytes of the stream only. *)
Lemma next_line_within (max_len : Z) (q line : list ascii) (c : ascii) :
  fst (next_line max_len q) = Some line -> c ∈ line -> c ∈ q.
Proof.
  unfold next_line.
  destruct (drop_terminators q) as [|d rest] eqn:D; [discriminate|].
  intros E H. apply drop_terminators_within. rewrite D.
  apply until_terminator_within.
  destruct (_ <? _)%nat; cbn [fst] in E; injection E as <-; [exact H|].
  rewrite <- (take_drop (Z.to_nat (max_len - 1)) (until_terminator (d :: rest))).
  apply elem_of_app. left. exact H.
Qed.

(** Stored bytes without a NUL read as a C string are the bytes
    themselves. *)
Lemma c_str_whole (bytes : list ascii) : NUL ∉ bytes -> c_str bytes = bytes.
Proof.
  induction bytes as [|c rest IH]; intros H; [reflexivity|].
  apply not_elem_of_cons in H as [Ne H]. cbn [c_str].
  destruct (code c =? 0) eqn:E.
  - exfalso. apply Ne. symmetry. apply code_inj. apply Z.eqb_eq in E.
    rewrite E. reflexivity.
  - rewrite (IH H). reflexivity.
Qed.

(** Stored bytes read as an empty C string begin with a NUL. *)
Lemma c_str_empty_iff (bytes : list ascii) :
  bytes <> [] -> (c_str bytes = [] <-> exists rest, bytes = NUL :: rest).
Proof.
  intros NE. destruct bytes as [|c rest]; [contradiction|]. cbn [c_str]. split.
  - destruct (code c =? 0) eqn:E; [|discriminate]. intros _. exists rest.
    f_equal. apply code_inj. apply Z.eqb_eq in E. rewrite E. reflexivity.
  - intros [rest' [= -> _]]. reflexivity.
Qed.

(** C5, as stated, fails: with a NUL byte and a line feed in the ring
    buffer [uart_buffer_get_line] reports a line, and the line it stored,
    the NUL, is the empty string to the caller.  A NUL ahead of a
    notification so hides it: the receive reports an error. *)
Lemma get_line_nul_gives_empty_string :
  (fun r => (fst (fst r), snd (fst r), c_str (snd (fst r))))
    <$> uart_buffer_get_line (buffer_holding [NUL; LF]) RESPONSE_BUFFER_SIZE
  = Some (true, [NUL], [])
  /\ received (lora_receive_message (Some {| initialized := true |})
                (Some zero_message)
                (buffer_holding (NUL :: cs "+RCV=1,2,ON,-3" ++ [CR; LF])))
     = Some (LORA_STATUS_ERROR, Some (0, 0, [], 0)).
Proof.
  split; vm_compute; reflexivity.
Qed.

(** C5, amended.  For a destination of at least two characters
    [uart_buffer_get_line] always returns, and never a line of zero bytes:
    it reports a line exactly when the buffered bytes hold something
    besides leading terminators, and the line is then the non-empty,
    terminator-free run that follows them, ended by the next terminator
    (consumed), by the end of the buffered bytes (a partial line) or by the
    room in the destination.  A NUL is stored like any other byte, so the
    string the caller reads is empty exactly when the first byte after the
    skipped terminators is a NUL; with no NUL buffered the string is the
    line and never empty.  The bytes AB CR LF CD CR LF give AB, then CD,
    then no line; the bytes CR LF CR LF XY give XY. *)
Theorem get_line_empty_only_after_nul (b : uart_rx_buffer_t) (max_len : Z) :
  rb_wf b -> 2 <= max_len <= 65535 ->
  (exists ok line b',
     uart_buffer_get_line b max_len = Some (ok, line, b')
     /\ rb_wf b'
     /\ (ok = true -> line <> [] /\ Forall (fun c => is_terminator c = false) line)
     /\ (ok = true ->
         (c_str line = [] <-> exists rest, line = NUL :: rest)
         /\ (c_str line = []
             <-> exists rest, drop_terminators (rb_contents b) = NUL :: rest))
     /\ (ok = true -> NUL ∉ rb_contents b -> c_str line = line /\ c_str line <> [])
     /\ (ok = false <-> drop_terminators (rb_contents b) = [])
     /\ fst (next_line max_len (rb_contents b)) = (if ok then Some line else None)
     /\ rb_contents b' = snd (next_line max_len (rb_contents b)))
  /\ (rb_contents b = cs "AB" ++ [CR; LF] ++ cs "CD" ++ [CR; LF] ->
      exists b1 b2 b3,
        uart_buffer_get_line b RESPONSE_BUFFER_SIZE = Some (true, cs "AB", b1)
        /\ uart_buffer_get_line b1 RESPONSE_BUFFER_SIZE = Some (true, cs "CD", b2)
        /\ uart_buffer_get_line b2 RESPONSE_BUFFER_SIZE = Some (false, [], b3))
  /\ (rb_contents b = [CR; LF; CR; LF] ++ cs "XY" ->
      exists b1 b2,
        uart_buffer_get_line b RESPONSE_BUFFER_SIZE = Some (true, cs "XY", b1)
        /\ uart_buffer_get_line b1 RESPONSE_BUFFER_SIZE = Some (false, [], b2)).
Proof.
  intros W Hmax. split; [|split].
  - destruct (get_line_refines_next_line b max_len W Hmax) as (b' & E & W' & C').
    pose proof (next_line_nonempty max_len (rb_contents b)) as NE.
    pose proof (next_line_none_iff max_len (rb_contents b)) as NN.
    pose proof (next_line_head max_len (rb_contents b)) as Head.
    pose proof (next_line_within max_len (rb_contents b)) as Within.
    destruct (fst (next_line max_len (rb_contents b))) as [line|] eqn:F.
    + destruct (NE line ltac:(lia) eq_refl) as [Some_ Clean].
      destruct (Head line ltac:(lia) eq_refl) as (c & rest & tail & D & L).
      exists true, line, b'.
      split; [exact E|]. split; [exact W'|].
      split; [intros _; split; assumption|].
      split; [intros _; split; [apply c_str_empty_iff, Some_|]|].
      { rewrite (c_str_empty_iff line Some_), D, L. split.
        - intros [rest' [= -> _]]. eauto.
        - intros [rest' [= -> _]]. eauto. }
      split.
      { intros _ Free. assert (NUL ∉ line) as Free'.
        { intros In. apply Free. apply (Within line NUL eq_refl In). }
        rewrite (c_str_whole line Free'). split; [reflexivity|exact Some_]. }
      split; [split; [discriminate | intros D'; apply NN in D'; discriminate]|].
      split; [reflexivity | exact C'].
    + exists false, [], b'.
      split; [exact E|]. split; [exact W'|].
      split; [discriminate|]. split; [discriminate|]. split; [discriminate|].
      split; [split; [intros _; now apply NN | reflexivity]|].
      split; [reflexivity | exact C'].
  - intros C0.
    next_line_at C0. next_line_at C. next_line_at C1.
    eauto 10.
  - intros C0.
    next_line_at C0. next_line_at C.
    eauto 10.
Qed.

(** ** The notification parser *)

Lemma digit_is_plain (d : ascii) :
  is_digit d = true ->
  is_space d = false /\ (code d =? 45) = false /\ (code d =? 43) = false.
Proof.
  unfold is_digit, is_space. intros H.
  apply andb_true_iff in H as [H1 H2].
  apply Z.leb_le in H1, H2.
  repeat split.
  - apply orb_false_iff. split; [apply Z.eqb_neq; lia|].
    apply andb_false_iff. right. apply Z.leb_gt. lia.
  - apply Z.eqb_neq. lia.
  - apply Z.eqb_neq. lia.
Qed.

Lemma take_digits_field (ds rest : cstring) :
  Forall (fun d => is_digit d = true) ds ->
  forall acc count,
    take_digits acc count (ds ++ comma :: rest)
    = (fst (fst (take_digits acc count ds)),
       snd (fst (take_digits acc count ds)), comma :: rest)
    /\ snd (fst (take_digits acc count ds)) = (count + List.length ds)%nat.
Proof.
  induction 1 as [|d ds Hd _ IH]; intros acc count; simpl.
  - split; [reflexivity | lia].
  - rewrite Hd. destruct (IH (acc * 10 + (code d - 48)) (S count)) as (E & N).
    rewrite E, N. split; [reflexivity | lia].
Qed.

(** A field of digits closed by a comma: [strtoul] converts the digits and
    stops at the comma. *)
Lemma strtoul_field (ds rest : cstring) :
  Forall (fun d => is_digit d = true) ds ->
  strtoul (ds ++ comma :: rest) = (fst (strtoul ds), comma :: rest).
Proof.
  intros H. destruct H as [|d ds Hd Hds]; [reflexivity|].
  destruct (digit_is_plain d Hd) as (Sp & Mi & Pl).
  unfold strtoul. cbn [app skip_spaces take_sign]. rewrite Sp.
  cbn [take_sign]. rewrite Mi, Pl.
  destruct (take_digits_field (d :: ds) rest (Forall_cons_2 _ _ _ Hd Hds) 0 O)
    as (E & N).
  cbn [app] in E. rewrite E.
  destruct (take_digits 0 0 (d :: ds)) as [[v n] r]. cbn [fst snd] in *.
  subst n. reflexivity.
Qed.

Lemma strchr_found (text rest : cstring) (c : ascii) :
  Forall (fun d => code d <> code c) text ->
  strchr (text ++ c :: rest) c = Some (c :: rest).
Proof.
  induction 1 as [|d text Hd _ IH]; simpl.
  - now rewrite Z.eqb_refl.
  - apply Z.eqb_neq in Hd. now rewrite Hd.
Qed.

Lemma strchr_missing (text : cstring) (c : ascii) :
  Forall (fun d => code d <> code c) text -> strchr text c = None.
Proof.
  induction 1 as [|d text Hd _ IH]; simpl; [reflexivity|].
  apply Z.eqb_neq in Hd. now rewrite Hd.
Qed.

Lemma c_str_zero_padded (text : list ascii) (n : nat) :
  c_str (text ++ replicate n NUL) = c_str text.
Proof.
  induction text as [|c text IH]; simpl.
  - destruct n; reflexivity.
  - now rewrite IH.
Qed.

(** The payload array after the copy: the bytes copied, then zeros. *)
Lemma payload_copy (text rest : cstring) (n : nat) :
  (n <= List.length text)%nat -> (n < Z.to_nat LORA_MAX_MESSAGE_LENGTH)%nat ->
  <[n := NUL]> (memcpy (payload zero_message) (text ++ rest) n)
  = take n text ++ replicate (Z.to_nat LORA_MAX_MESSAGE_LENGTH - n) NUL.
Proof.
  intros Hn Hmax. unfold memcpy, zero_message. cbn [payload].
  rewrite take_app_le by lia. rewrite drop_replicate.
  assert (L : List.length (take n text) = n) by (rewrite length_take; lia).
  assert (G : forall l1 l2 : list ascii,
             List.length l1 = n -> <[n := NUL]> (l1 ++ l2) = l1 ++ <[O := NUL]> l2).
  { intros l1 l2 <-. rewrite <- (Nat.add_0_r (List.length l1)) at 1.
    apply insert_app_r. }
  rewrite G by exact L.
  destruct (Z.to_nat LORA_MAX_MESSAGE_LENGTH - n)%nat eqn:E; [lia|].
  reflexivity.
Qed.

Lemma RCV_length (address declared text signal : cstring) :
  List.length (RCV address declared text signal)
  = (8 + List.length address + List.length declared + List.length text
     + List.length signal)%nat.
Proof.
  unfold RCV. rewrite !length_app. simpl. rewrite !length_app. simpl.
  rewrite !length_app. simpl. lia.
Qed.

(** What the parser stores for a well-delimited notification line. *)
Lemma parse_RCV (address declared text signal : cstring) (m0 : lora_message_t) :
  Forall (fun d => is_digit d = true) address ->
  Forall (fun d => is_digit d = true) declared ->
  Forall (fun d => code d <> code comma) text ->
  Z.of_nat (List.length text) < 256 ->
  let span := Z.min (Z.of_nat (List.length text)) (LORA_MAX_MESSAGE_LENGTH - 1) in
  parse_received_message (Some (RCV address declared text signal)) (Some m0)
  = Some {| sender_address := to_uint16 (fst (strtoul address));
            rssi := to_uint8 (Z.abs (fst (strtol signal)));
            payload_length := span;
            payload := take (Z.to_nat span) text
                       ++ replicate (Z.to_nat (LORA_MAX_MESSAGE_LENGTH - span)) NUL |}.
Proof.
  intros Ha Hd Ht Hlen span.
  unfold parse_received_message, RCV.
  change (drop 5 (cs "+RCV=" ++ ?x)) with x.
  rewrite (strtoul_field address _ Ha).
  change (code comma =? 44) with true. cbv iota.
  rewrite (strtoul_field declared _ Hd).
  change (code comma =? 44) with true. cbv iota.
  change (ascii_of_N 44) with comma.
  rewrite (strchr_found text signal comma Ht).
  assert (Espan : (if LORA_MAX_MESSAGE_LENGTH - 1 <?
                      to_uint8 (Z.of_nat (List.length (text ++ comma :: signal))
                                - Z.of_nat (List.length (comma :: signal)))
                   then LORA_MAX_MESSAGE_LENGTH - 1
                   else to_uint8 (Z.of_nat (List.length (text ++ comma :: signal))
                                  - Z.of_nat (List.length (comma :: signal))))
                  = span).
  { rewrite length_app.
    replace (Z.of_nat (List.length text + List.length (comma :: signal))
             - Z.of_nat (List.length (comma :: signal)))
      with (Z.of_nat (List.length text)) by lia.
    unfold to_uint8. rewrite Z.mod_small by (change (2 ^ 8) with 256; lia).
    subst span. unfold LORA_MAX_MESSAGE_LENGTH.
    destruct (240 - 1 <? Z.of_nat (List.length text)) eqn:Q;
      [apply Z.ltb_lt in Q | apply Z.ltb_ge in Q]; lia. }
  rewrite Espan.
  rewrite payload_copy
    by (subst span; unfold LORA_MAX_MESSAGE_LENGTH; lia).
  replace (Z.to_nat LORA_MAX_MESSAGE_LENGTH - Z.to_nat span)%nat
    with (Z.to_nat (LORA_MAX_MESSAGE_LENGTH - span))
    by (subst span; unfold LORA_MAX_MESSAGE_LENGTH; lia).
  reflexivity.
Qed.

(** A line is at most [max_len - 1] bytes long. *)
Lemma next_line_length (max_len : Z) (q line : list ascii) :
  fst (next_line max_len q) = Some line ->
  (List.length line <= Z.to_nat (max_len - 1))%nat.
Proof.
  unfold next_line. destruct (drop_terminators q); [discriminate|].
  destruct (_ <? _)%nat eqn:Q; cbn [fst]; intros E; injection E as <-.
  - apply Nat.ltb_lt in Q. apply Nat.lt_le_incl. exact Q.
  - rewrite length_take. lia.
Qed.

(** C1. For a line [+RCV=<address>,<declared>,<text>,<signal>] that fits
    the response buffer, with digits for the two numbers and a comma closing
    the payload text, the parser stores as [payload_length] the number of
    characters between the start of the payload and that comma, capped at
    [LORA_MAX_MESSAGE_LENGTH - 1], whatever the declared length says, and as
    payload those characters followed by zeros.  In particular
    [+RCV=42,999,abc,-17] gives sender 42, payload abc, length 3 and
    signal strength 17. *)
Theorem parse_length_from_delimiters
    (address declared text signal : cstring) (m0 : lora_message_t) :
  Forall (fun d => is_digit d = true) address ->
  Forall (fun d => is_digit d = true) declared ->
  Forall (fun d => code d <> code comma) text ->
  Z.of_nat (List.length (RCV address declared text signal)) < RESPONSE_BUFFER_SIZE ->
  let span := Z.min (Z.of_nat (List.length text)) (LORA_MAX_MESSAGE_LENGTH - 1) in
  (exists m,
     parse_received_message (Some (RCV address declared text signal)) (Some m0)
     = Some m
     /\ payload_length m = span
     /\ payload m = take (Z.to_nat span) text
                    ++ replicate (Z.to_nat (LORA_MAX_MESSAGE_LENGTH - span)) NUL
     /\ c_str (payload m) = c_str (take (Z.to_nat span) text)
     /\ sender_address m = to_uint16 (fst (strtoul address))
     /\ rssi m = to_uint8 (Z.abs (fst (strtol signal))))
  /\ (exists m,
        parse_received_message (Some (cs "+RCV=42,999,abc,-17")) (Some m0) = Some m
        /\ sender_address m = 42 /\ c_str (payload m) = cs "abc"
        /\ payload_length m = 3 /\ rssi m = 17).
Proof.
  intros Ha Hd Ht Hlen span. split.
  - eexists. split.
    + apply parse_RCV; try assumption.
      rewrite RCV_length in Hlen. unfold RESPONSE_BUFFER_SIZE in Hlen. lia.
    + cbn [payload_length payload sender_address rssi].
      rewrite c_str_zero_padded. auto.
  - eexists. split; [reflexivity|]. repeat split.
Qed.

Lemma strncmp_prefix_iff (p s : cstring) :
  Forall (fun c => code c <> 0) p ->
  strncmp s p (List.length p) = 0 <-> starts_with p s = true.
Proof.
  intros Hp. revert s. induction Hp as [|c p Hc _ IH]; intros s; simpl.
  - split; reflexivity.
  - destruct s as [|d s]; [split; [lia | discriminate]|].
    rewrite (Z.eqb_sym (code c)).
    destruct (code d =? code c) eqn:E; simpl; [apply IH|].
    apply Z.eqb_neq in E. split; [lia | discriminate].
Qed.

(** [lora_receive_message] on an initialised driver: it takes the next line
    out of the ring buffer, hands it to the parser when it begins with
    [+RCV=], and otherwise reports an error without touching the message
    structure. *)
Lemma lora_receive_message_next_line (cfg : lora_config_t) (m : lora_message_t)
    (b : uart_rx_buffer_t) :
  rb_wf b -> initialized cfg = true ->
  exists b',
    rb_wf b'
    /\ rb_contents b' = snd (next_line RESPONSE_BUFFER_SIZE (rb_contents b))
    /\ lora_receive_message (Some cfg) (Some m) b
       = Some (match fst (next_line RESPONSE_BUFFER_SIZE (rb_contents b)) with
               | None => (LORA_STATUS_ERROR, Some m, b')
               | Some line =>
                   if starts_with (cs "+RCV=") (c_str line)
                   then (LORA_STATUS_OK,
                         parse_received_message (Some (c_str line)) (Some m), b')
                   else (LORA_STATUS_ERROR, Some m, b')
               end).
Proof.
  intros W I.
  destruct (get_line_refines_next_line b RESPONSE_BUFFER_SIZE W
              ltac:(unfold RESPONSE_BUFFER_SIZE; lia)) as (b' & E & W' & C').
  exists b'. split; [exact W'|]. split; [exact C'|].
  unfold lora_receive_message. rewrite I, E.
  destruct (fst (next_line RESPONSE_BUFFER_SIZE (rb_contents b))) as [line|];
    [|reflexivity].
  pose proof (strncmp_prefix_iff (cs "+RCV=") (c_str line)
                ltac:(repeat constructor; vm_compute; discriminate)) as P.
  change (List.length (cs "+RCV=")) with 5%nat in P.
  destruct (starts_with (cs "+RCV=") (c_str line)).
  - rewrite (proj2 (Z.eqb_eq _ _) (proj2 P eq_refl)). reflexivity.
  - destruct (strncmp (c_str line) (cs "+RCV=") 5 =? 0) eqn:Q; [|reflexivity].
    apply Z.eqb_eq, P in Q. discriminate.
Qed.

Lemma c_str_length (bytes : list ascii) :
  (List.length (c_str bytes) <= List.length bytes)%nat.
Proof.
  induction bytes as [|c bytes IH]; simpl; [lia|].
  destruct (code c =? 0); simpl; lia.
Qed.

(** The parser is only ever handed lines that fit the response buffer. *)
Lemma parsed_line_fits (b : uart_rx_buffer_t) (line : list ascii) :
  fst (next_line RESPONSE_BUFFER_SIZE (rb_contents b)) = Some line ->
  Z.of_nat (List.length (c_str line)) < RESPONSE_BUFFER_SIZE.
Proof.
  intros H. apply next_line_length in H. pose proof (c_str_length line).
  unfold RESPONSE_BUFFER_SIZE in *. lia.
Qed.

(** What the parser stores when no comma closes the payload. *)
Lemma parse_RCV_unclosed (address declared text : cstring) (m0 : lora_message_t) :
  Forall (fun d => is_digit d = true) address ->
  Forall (fun d => is_digit d = true) declared ->
  Forall (fun d => code d <> code comma) text ->
  parse_received_message (Some (RCV_unclosed address declared text)) (Some m0)
  = Some {| sender_address := to_uint16 (fst (strtoul address));
            rssi := 0;
            payload_length := to_uint8 (fst (strtoul declared));
            payload := payload zero_message |}.
Proof.
  intros Ha Hd Ht.
  unfold parse_received_message, RCV_unclosed.
  change (drop 5 (cs "+RCV=" ++ ?x)) with x.
  rewrite (strtoul_field address _ Ha).
  change (code comma =? 44) with true. cbv iota.
  rewrite (strtoul_field declared _ Hd).
  change (code comma =? 44) with true. cbv iota.
  change (ascii_of_N 44) with comma.
  rewrite (strchr_missing text comma Ht). reflexivity.
Qed.

(** C7, as stated, fails: the line [+RCV=42,3,abc] has no comma after its
    payload, yet parsing it leaves 42 in [sender_address] and 3 in
    [payload_length], and the receive reports success. *)
Lemma malformed_line_not_zeroed :
  parse_received_message (Some (cs "+RCV=42,3,abc")) (Some zero_message)
  <> Some zero_message
  /\ received (lora_receive_message (Some {| initialized := true |})
                (Some zero_message)
                (buffer_holding (cs "+RCV=42,3,abc" ++ [CR; LF])))
     = Some (LORA_STATUS_OK, Some (42, 3, [], 0)).
Proof.
  split; [discriminate | vm_compute; reflexivity].
Qed.

(** C7, amended.  A line without the [+RCV=] prefix never reaches the
    parser: the receive reports [LORA_STATUS_ERROR] and the message
    structure keeps what it held.  For a line
    [+RCV=<address>,<declared>,<text>] whose payload no comma closes, the
    parser leaves the payload all zero and [rssi] 0, but stores the address
    in [sender_address] and the declared length in [payload_length]. *)
Theorem malformed_notification
    (address declared text : cstring) (m0 : lora_message_t)
    (cfg : lora_config_t) (b : uart_rx_buffer_t) (line : list ascii) :
  Forall (fun d => is_digit d = true) address ->
  Forall (fun d => is_digit d = true) declared ->
  Forall (fun d => code d <> code comma) text ->
  rb_wf b -> initialized cfg = true ->
  fst (next_line RESPONSE_BUFFER_SIZE (rb_contents b)) = Some line ->
  starts_with (cs "+RCV=") (c_str line) = false ->
  parse_received_message (Some (RCV_unclosed address declared text)) (Some m0)
  = Some {| sender_address := to_uint16 (fst (strtoul address));
            rssi := 0;
            payload_length := to_uint8 (fst (strtoul declared));
            payload := replicate (Z.to_nat LORA_MAX_MESSAGE_LENGTH) NUL |}
  /\ exists b',
       lora_receive_message (Some cfg) (Some m0) b
       = Some (LORA_STATUS_ERROR, Some m0, b').
Proof.
  intros Ha Hd Ht W I L P. split.
  - now apply parse_RCV_unclosed.
  - destruct (lora_receive_message_next_line cfg m0 b W I) as (b' & _ & _ & E).
    rewrite L, P in E. eauto.
Qed.

(** ** The stepping engine: emergency stop *)

Lemma gpio_put_low_lookup (pin p : Z) (w : world) :
  p = pin \/ gpio w !! p = Some false ->
  gpio (gpio_put pin false w) !! p = Some false.
Proof.
  intros [->|H]; unfold gpio_put; cbn [gpio].
  - apply lookup_insert_eq.
  - destruct (decide (pin = p)) as [->|n];
      [apply lookup_insert_eq | now rewrite lookup_insert_ne].
Qed.

(** What [stop_one] does to one structure. *)
Lemma stop_one_spec (w : world) (a : nat) :
  let w' := stop_one w a in
  motors w' = match motors w !! a with
              | Some m => <[a := set_enabled m false]> (motors w)
              | None => motors w
              end
  /\ (forall p, gpio w !! p = Some false -> gpio w' !! p = Some false)
  /\ (forall m, motors w !! a = Some m ->
        gpio w' !! pin1 m = Some false /\ gpio w' !! pin2 m = Some false
        /\ gpio w' !! pin3 m = Some false /\ gpio w' !! pin4 m = Some false)
  /\ reads w' = reads w /\ observed w' = observed w
  /\ stepper_interrupt_flag w' = stepper_interrupt_flag w
  /\ exists puts, trace w' = puts ++ trace w /\ Forall is_low_write puts.
Proof.
  unfold stop_one. destruct (motors w !! a) as [m|] eqn:M; cbn zeta.
  - split; [reflexivity|]. split.
    { intros p H. cbn [with_motors gpio].
      repeat (apply gpio_put_low_lookup; right). exact H. }
    split.
    { intros m' E. injection E as <-. cbn [with_motors gpio].
      repeat split.
      - do 3 (apply gpio_put_low_lookup; right). apply gpio_put_low_lookup. now left.
      - do 2 (apply gpio_put_low_lookup; right). apply gpio_put_low_lookup. now left.
      - do 1 (apply gpio_put_low_lookup; right). apply gpio_put_low_lookup. now left.
      - apply gpio_put_low_lookup. now left. }
    repeat split.
    exists [EvGpioPut (pin4 m) false; EvGpioPut (pin3 m) false;
            EvGpioPut (pin2 m) false; EvGpioPut (pin1 m) false].
    split; [reflexivity|]. repeat constructor; eexists; reflexivity.
  - repeat split; auto; try discriminate.
    exists []. split; [reflexivity | constructor].
Qed.

(** The loop of [stepper_emergency_stop_all] over the addresses [addrs]. *)
Lemma stop_all_spec (addrs : list nat) :
  forall w,
    let w' := foldl stop_one w addrs in
    (forall a, motors w' !! a
               = if decide (a ∈ addrs)
                 then (fun m => set_enabled m false) <$> motors w !! a
                 else motors w !! a)
    /\ (forall p, gpio w !! p = Some false -> gpio w' !! p = Some false)
    /\ (forall a m, a ∈ addrs -> motors w !! a = Some m ->
          gpio w' !! pin1 m = Some false /\ gpio w' !! pin2 m = Some false
          /\ gpio w' !! pin3 m = Some false /\ gpio w' !! pin4 m = Some false)
    /\ reads w' = reads w /\ observed w' = observed w
    /\ stepper_interrupt_flag w' = stepper_interrupt_flag w
    /\ exists puts, trace w' = puts ++ trace w /\ Forall is_low_write puts.
Proof.
  induction addrs as [|a0 addrs IH]; intros w; cbn zeta.
  - cbn [foldl].
    split.
    { intros a. destruct (decide (a ∈ [])) as [H|_];
        [now apply elem_of_nil in H | reflexivity]. }
    split; [auto|].
    split; [intros a m H; now apply elem_of_nil in H|].
    repeat split.
    exists []. split; [reflexivity | constructor].
  - cbn [foldl].
    destruct (stop_one_spec w a0) as (M1 & L1 & P1 & R1 & O1 & F1 & puts1 & T1 & A1).
    destruct (IH (stop_one w a0)) as (M2 & L2 & P2 & R2 & O2 & F2 & puts2 & T2 & A2).
    assert (Mone : forall a, motors (stop_one w a0) !! a
                             = if decide (a = a0)
                               then (fun m => set_enabled m false) <$> motors w !! a
                               else motors w !! a).
    { intros a. rewrite M1. destruct (decide (a = a0)) as [->|n].
      - destruct (motors w !! a0) as [m|] eqn:E.
        + now rewrite lookup_insert_eq.
        + now rewrite E.
      - destruct (motors w !! a0); [now rewrite lookup_insert_ne|reflexivity]. }
    split.
    { intros a. rewrite M2, Mone.
      destruct (decide (a ∈ addrs)) as [i|ni], (decide (a = a0)) as [->|n].
      - rewrite decide_True by (left). now destruct (motors w !! a0).
      - rewrite decide_True by (now right). reflexivity.
      - rewrite decide_True by (left). reflexivity.
      - rewrite decide_False; [reflexivity|].
        intros H. apply elem_of_cons in H as [?|?]; contradiction. }
    split; [auto|]. split.
    { intros a m Ha E. apply elem_of_cons in Ha as [->|Ha].
      - destruct (P1 m E) as (Q1 & Q2 & Q3 & Q4). auto.
      - pose proof (Mone a) as E'. rewrite E in E'.
        destruct (decide (a = a0)); cbn in E'.
        + apply (P2 a (set_enabled m false) Ha E').
        + apply (P2 a m Ha E'). }
    repeat split; try congruence.
    exists (puts2 ++ puts1). rewrite T2, T1, app_assoc.
    split; [reflexivity | now apply Forall_app].
Qed.

(** C3. Whatever the state of the motors and of the cancellation flag,
    [stepper_emergency_stop_all] leaves every motor of the array disabled
    with its four outputs low and everything else in the structures as it
    was; it only writes low levels, sleeps at no point and never reads the
    cancellation flag. *)
Theorem emergency_stop_all_unconditional (w : world) (base : nat) (num_motors : Z) :
  let w' := stepper_emergency_stop_all (Some base) num_motors w in
  (forall a m,
      (base <= a < base + Z.to_nat num_motors)%nat -> motors w !! a = Some m ->
      motors w' !! a = Some (set_enabled m false)
      /\ enabled (set_enabled m false) = false
      /\ gpio w' !! pin1 m = Some false /\ gpio w' !! pin2 m = Some false
      /\ gpio w' !! pin3 m = Some false /\ gpio w' !! pin4 m = Some false)
  /\ (forall a, ~ (base <= a < base + Z.to_nat num_motors)%nat ->
        motors w' !! a = motors w !! a)
  /\ (exists puts, trace w' = puts ++ trace w /\ Forall is_low_write puts)
  /\ reads w' = reads w /\ observed w' = observed w
  /\ stepper_interrupt_flag w' = stepper_interrupt_flag w.
Proof.
  cbn zeta. unfold stepper_emergency_stop_all.
  destruct (stop_all_spec (seq base (Z.to_nat num_motors)) w)
    as (M & _ & P & R & O & F & T).
  assert (In_seq : forall a, a ∈ seq base (Z.to_nat num_motors)
                             <-> (base <= a < base + Z.to_nat num_motors)%nat).
  { intros a. rewrite list_elem_of_In, in_seq. tauto. }
  split.
  { intros a m Ha E. apply In_seq in Ha.
    split; [rewrite M, decide_True by exact Ha; now rewrite E|].
    split; [reflexivity|]. now apply (P a m). }
  split.
  { intros a Ha. rewrite M, decide_False; [reflexivity|].
    intros H. now apply In_seq in H. }
  auto.
Qed.

(** ** The stepping engine: cancellation *)

Section Cancellation.

Variable env : nat -> option bool.
Variable STEPS_PER_REVOLUTION : Z.

Lemma read_flag_spec (site : read_site) (w : world) :
  let '(f, w') := read_flag env site w in
  f = default (stepper_interrupt_flag w) (env (reads w))
  /\ motors w' = motors w /\ gpio w' = gpio w /\ trace w' = trace w
  /\ stepper_interrupt_flag w' = f /\ reads w' = S (reads w)
  /\ observed w' = (site, f, motors w, trace w) :: observed w.
Proof. unfold read_flag. repeat split. Qed.

(** A flag that is set reads as set when nothing clears it meanwhile. *)
Lemma read_flag_set (site : read_site) (w : world) :
  env (reads w) <> Some false -> stepper_interrupt_flag w = true ->
  fst (read_flag env site w) = true.
Proof.
  intros L F. unfold read_flag. cbn [fst]. rewrite F.
  destruct (env (reads w)) as [[|]|]; simpl; congruence.
Qed.

(** Advancing motors reads no flag. *)
Lemma stepper_apply_step_frame (a : nat) (step : Z) (w : world) :
  let w' := stepper_apply_step a step w in
  observed w' = observed w /\ reads w' = reads w
  /\ stepper_interrupt_flag w' = stepper_interrupt_flag w.
Proof.
  unfold stepper_apply_step. destruct (motors w !! a) as [m|]; [|auto].
  destruct (enabled m); auto.
Qed.

Lemma advance_frame (a : nat) (d : stepper_direction_t) (w : world) :
  let w' := advance a d w in
  observed w' = observed w /\ reads w' = reads w
  /\ stepper_interrupt_flag w' = stepper_interrupt_flag w.
Proof.
  unfold advance. destruct (motors w !! a) as [m|]; [|auto].
  apply (stepper_apply_step_frame a _ (with_motors w _)).
Qed.

Lemma advance_all_frame (ptrs : list (option nat)) (d : stepper_direction_t) :
  forall w,
    let w' := advance_all ptrs d w in
    observed w' = observed w /\ reads w' = reads w
    /\ stepper_interrupt_flag w' = stepper_interrupt_flag w.
Proof.
  unfold advance_all. induction ptrs as [|p ptrs IH]; intros w; cbn [foldl]; [auto|].
  destruct (IH (advance_if_enabled d w p)) as (O & R & F).
  cbn zeta in *. rewrite O, R, F.
  unfold advance_if_enabled. destruct p as [a|]; [|auto].
  destruct (is_enabled a w); [apply advance_frame | auto].
Qed.

(** In the delay loop [chunk_delay] is always 1, so [remaining_delay]
    goes down by one in each pass. *)
Lemma delay_chunk_is_one (remaining : nat) :
  let remaining_delay := Z.of_nat (S remaining) in
  let chunk_delay := if 1 <? remaining_delay then 1 else remaining_delay in
  chunk_delay = 1 /\ remaining_delay - chunk_delay = Z.of_nat remaining.
Proof.
  cbv zeta. destruct (1 <? Z.of_nat (S remaining)) eqn:E;
    [apply Z.ltb_lt in E | apply Z.ltb_ge in E]; lia.
Qed.

(** The interruptible delay moves no motor; it ends either with every read
    of the flag clear, or right at the first read that finds it set. *)
Lemma delay_chunks_spec (remaining : nat) :
  forall w,
    let w' := delay_chunks env remaining w in
    motors w' = motors w /\ gpio w' = gpio w
    /\ exists new,
         observed w' = new ++ observed w
         /\ (all_clear new
             \/ exists clear,
                  new = (InDelay, true, motors w', trace w') :: clear
                  /\ all_clear clear /\ stepper_interrupt_flag w' = true).
Proof.
  induction remaining as [|remaining IH]; intros w; cbn zeta.
  - cbn [delay_chunks]. repeat split. exists []. split; [reflexivity|].
    left. constructor.
  - cbn [delay_chunks].
    pose proof (read_flag_spec InDelay w) as R.
    destruct (read_flag env InDelay w) as [f w1].
    destruct R as (_ & M1 & G1 & T1 & F1 & _ & O1).
    destruct f.
    + repeat split; try assumption.
      exists [(InDelay, true, motors w, trace w)]. split; [exact O1|].
      right. exists []. rewrite M1, T1. repeat split; [constructor | exact F1].
    + match goal with |- context [delay_chunks env remaining ?w2] =>
        destruct (IH w2) as (M2 & G2 & new & O2 & Sh); cbn zeta in *
      end.
      cbn [sleep_ms emit motors gpio observed] in M2, G2, O2.
      split; [congruence|]. split; [congruence|].
      exists (new ++ [(InDelay, false, motors w, trace w)]).
      split; [rewrite O2, O1, <- app_assoc; reflexivity|].
      destruct Sh as [Cl|(clear & -> & Cl & Fl)].
      * left. apply Forall_app. split; [exact Cl | repeat constructor].
      * right. exists (clear ++ [(InDelay, false, motors w, trace w)]).
        split; [reflexivity|]. split; [|exact Fl].
        apply Forall_app. split; [exact Cl | repeat constructor].
Qed.

Lemma delay_first_enabled_spec (ptrs : list (option nat)) :
  forall w,
    let w' := delay_first_enabled env ptrs w in
    motors w' = motors w /\ gpio w' = gpio w
    /\ exists new,
         observed w' = new ++ observed w
         /\ (all_clear new
             \/ exists clear,
                  new = (InDelay, true, motors w', trace w') :: clear
                  /\ all_clear clear /\ stepper_interrupt_flag w' = true).
Proof.
  induction ptrs as [|[a|] ptrs IH]; intros w; cbn [delay_first_enabled].
  - cbn zeta. repeat split. exists []. split; [reflexivity | left; constructor].
  - destruct (is_enabled a w); [apply delay_chunks_spec | apply IH].
  - apply IH.
Qed.

(** The loop of [stepper_rotate_multiple_degrees]: whenever a read of the
    flag found it set, the motors and the trace are, at the return, what
    they were at that read.  For a read in the delay loop this needs the
    flag to stay set until the check that follows the delay. *)
Lemma rotate_loop_frozen (ptrs : list (option nat)) (d : stepper_direction_t) :
  forall steps w,
    let w' := rotate_loop env steps ptrs d w in
    exists new,
      observed w' = new ++ observed w
      /\ forall site ms tr,
           (site, true, ms, tr) ∈ new ->
           site <> InDelay \/ level_triggered env ->
           motors w' = ms /\ trace w' = tr.
Proof.
  induction steps as [|steps IH]; intros w; cbn zeta.
  - exists []. split; [reflexivity|].
    intros site ms tr H. now apply elem_of_nil in H.
  - cbn [rotate_loop].
    pose proof (read_flag_spec AtStep w) as R.
    destruct (read_flag env AtStep w) as [f w1].
    destruct R as (_ & M1 & G1 & T1 & F1 & _ & O1).
    destruct f.
    { exists [(AtStep, true, motors w, trace w)]. split; [exact O1|].
      intros site ms tr H _. apply list_elem_of_singleton in H.
      injection H as -> -> ->. auto. }
    destruct (advance_all_frame ptrs d w1) as (O2 & R2 & F2). cbn zeta in O2, R2, F2.
    set (w2 := advance_all ptrs d w1) in *.
    destruct (delay_first_enabled_spec ptrs w2) as (M3 & _ & newd & O3 & Sh).
    cbn zeta in M3, O3, Sh.
    set (w3 := delay_first_enabled env ptrs w2) in *.
    pose proof (read_flag_spec AfterDelay w3) as R4.
    pose proof (read_flag_set AfterDelay w3) as Set4.
    destruct (read_flag env AfterDelay w3) as [f4 w4].
    destruct R4 as (_ & M4 & G4 & T4 & F4 & _ & O4). cbn [fst] in Set4.
    assert (Oall : observed w4
                   = ((AfterDelay, f4, motors w3, trace w3) :: newd
                      ++ [(AtStep, false, motors w, trace w)]) ++ observed w).
    { rewrite O4, O3, O2, O1. cbn [app]. now rewrite <- app_assoc. }
    destruct f4.
    + exists ((AfterDelay, true, motors w3, trace w3) :: newd
                ++ [(AtStep, false, motors w, trace w)]).
      split; [exact Oall|].
      intros site ms tr H _. apply elem_of_cons in H as [H|H].
      * injection H as -> -> ->. auto.
      * apply elem_of_app in H as [H|H].
        -- destruct Sh as [Cl|(clear & -> & Cl & _)].
           ++ unfold all_clear in Cl. rewrite Forall_forall in Cl.
              specialize (Cl _ H). discriminate.
           ++ apply elem_of_cons in H as [H|H].
              ** injection H as -> -> ->. auto.
              ** unfold all_clear in Cl. rewrite Forall_forall in Cl.
                 specialize (Cl _ H). discriminate.
        -- apply list_elem_of_singleton in H. discriminate.
    + destruct (IH w4) as (new & O5 & Fr). cbn zeta in O5, Fr.
      exists (new ++ (AfterDelay, false, motors w3, trace w3) :: newd
                  ++ [(AtStep, false, motors w, trace w)]).
      split; [rewrite O5, Oall, <- app_assoc; reflexivity|].
      intros site ms tr H Side. apply elem_of_app in H as [H|H];
        [now apply (Fr site)|].
      exfalso. apply elem_of_cons in H as [H|H]; [discriminate|].
      apply elem_of_app in H as [H|H].
      * destruct Sh as [Cl|(clear & -> & Cl & Fl)].
        -- unfold all_clear in Cl. rewrite Forall_forall in Cl.
           specialize (Cl _ H). discriminate.
        -- apply elem_of_cons in H as [H|H].
           ++ injection H as -> _ _. destruct Side as [Side|L]; [congruence|].
              specialize (Set4 (L _) Fl). discriminate.
           ++ unfold all_clear in Cl. rewrite Forall_forall in Cl.
              specialize (Cl _ H). discriminate.
      * apply list_elem_of_singleton in H. discriminate.
Qed.

(** With the flag set at the start the loop does nothing. *)
Lemma rotate_loop_cancelled (ptrs : list (option nat)) (d : stepper_direction_t)
    (steps : nat) (w : world) :
  env (reads w) <> Some false -> stepper_interrupt_flag w = true ->
  let w' := rotate_loop env steps ptrs d w in
  motors w' = motors w /\ gpio w' = gpio w /\ trace w' = trace w.
Proof.
  intros L F. destruct steps as [|steps]; cbn zeta; cbn [rotate_loop]; [auto|].
  pose proof (read_flag_spec AtStep w) as R.
  pose proof (read_flag_set AtStep w L F) as Set1.
  destruct (read_flag env AtStep w) as [f w1]. cbn [fst] in Set1. subst f.
  tauto.
Qed.

(** C2. If the cancellation flag is set when
    [stepper_rotate_multiple_degrees] begins (and is not cleared before the
    first check), the call returns with every motor structure, every output
    level and the trace of outputs and sleeps as they were.  For every read
    of the flag made during the call that found it set, the motor
    structures and the trace at the return are those of the moment of that
    read: nothing advances, is written or is rolled back after it.  This
    holds outright for the check at the top of a step and the check after
    the delay; for a read inside the chunked delay it holds provided nothing
    but [stepper_clear_interrupt] clears the flag. *)
Theorem rotate_multiple_cancellation (ptrs : option (list (option nat)))
    (num_motors : Z) (degrees : float32) (direction : stepper_direction_t)
    (w : world) :
  let w' := stepper_rotate_multiple_degrees env STEPS_PER_REVOLUTION
              ptrs num_motors degrees direction w in
  (stepper_interrupt_flag w = true -> env (reads w) <> Some false ->
   motors w' = motors w /\ gpio w' = gpio w /\ trace w' = trace w)
  /\ exists new,
       observed w' = new ++ observed w
       /\ forall site ms tr,
            (site, true, ms, tr) ∈ new ->
            site <> InDelay \/ level_triggered env ->
            motors w' = ms /\ trace w' = tr.
Proof.
  cbn zeta. unfold stepper_rotate_multiple_degrees.
  assert (Idle : forall v : world,
             (stepper_interrupt_flag v = true -> env (reads v) <> Some false ->
              motors v = motors v /\ gpio v = gpio v /\ trace v = trace v)
             /\ exists new,
                  observed v = new ++ observed v
                  /\ forall site ms tr,
                       (site, true, ms, tr) ∈ new ->
                       site <> InDelay \/ level_triggered env ->
                       motors v = ms /\ trace v = tr).
  { intros v. split; [auto|]. exists []. split; [reflexivity|].
    intros site ms tr H. now apply elem_of_nil in H. }
  destruct ptrs as [ptrs|]; [|apply Idle].
  destruct (num_motors =? 0); [apply Idle|].
  split.
  - intros F L. now apply rotate_loop_cancelled.
  - apply rotate_loop_frozen.
Qed.

End Cancellation.

(** ** The stepping engine: the step count *)

(** C6, as stated, fails: the conversion to [uint] discards the fraction.
    For 315/2048 degrees, [degrees / 360 * 4096] is 1.75 and rounds to 2,
    but the step count is 1; with 2048 steps per revolution it is 0.875,
    rounding to 1, and the count is 0.  Whatever [STEPS_PER_REVOLUTION] is,
    from 1 to 8192, the single-precision quotient of 270 by it is a number
    of degrees that gives 0 steps where rounding gives 1. *)
Lemma steps_truncated_not_rounded :
  let degrees := f32_of_dyadic 315 (-11) in
  f32_fraction degrees = Some (10321920, 2 ^ 26)
  /\ 10321920 * 2048 = 315 * 2 ^ 26
  /\ steps_of_degrees 4096 degrees = 1 /\ rounded_steps 4096 degrees = Some 2
  /\ steps_of_degrees 2048 degrees = 0 /\ rounded_steps 2048 degrees = Some 1
  /\ forall steps_per_revolution,
       1 <= steps_per_revolution <= 8192 ->
       let degrees := f32_div (f32_of_Z 270) (f32_of_Z steps_per_revolution) in
       steps_of_degrees steps_per_revolution degrees = 0
       /\ rounded_steps steps_per_revolution degrees = Some 1.
Proof.
  cbv zeta. do 6 (split; [vm_compute; reflexivity|]).
  assert (All : forallb
                  (fun n =>
                     let s := Z.of_nat (S n) in
                     let degrees := f32_div (f32_of_Z 270) (f32_of_Z s) in
                     (steps_of_degrees s degrees =? 0)
                     && match rounded_steps s degrees with
                        | Some r => r =? 1
                        | None => false
                        end)
                  (seq 0 (Z.to_nat 8192)) = true) by (vm_compute; reflexivity).
  rewrite forallb_forall in All.
  intros s Hs. specialize (All (Z.to_nat (s - 1))).
  replace (Z.of_nat (S (Z.to_nat (s - 1)))) with s in All by lia.
  cbv zeta in All.
  assert (In (Z.to_nat (s - 1)) (seq 0 (Z.to_nat 8192))) as I by (apply in_seq; lia).
  apply All in I. apply andb_true_iff in I as [I1 I2].
  apply Z.eqb_eq in I1. split; [exact I1|].
  destruct (rounded_steps s _) as [r|]; [|discriminate].
  apply Z.eqb_eq in I2. now subst r.
Qed.

(** [float_to_uint] is the integral part of a non-negative number. *)
Lemma float_to_uint_floor (m : positive) (e : Z) :
  integral_part m e < 2 ^ 32 ->
  let n := float_to_uint (S754_finite false m e) in
  (0 <= e -> n = Z.pos m * 2 ^ e)
  /\ (e < 0 -> n * 2 ^ (- e) <= Z.pos m < (n + 1) * 2 ^ (- e)).
Proof.
  intros H. cbn zeta. unfold float_to_uint.
  rewrite Z.min_l by lia. unfold integral_part.
  destruct (0 <=? e) eqn:E; [apply Z.leb_le in E | apply Z.leb_gt in E].
  - split; [reflexivity | lia].
  - split; [lia|]. intros _.
    assert (0 < 2 ^ (- e)) by (apply Z.pow_pos_nonneg; lia).
    pose proof (Z.div_mod (Z.pos m) (2 ^ (- e)) ltac:(lia)).
    pose proof (Z.mod_pos_bound (Z.pos m) (2 ^ (- e)) ltac:(lia)).
    nia.
Qed.

Lemma set_current_step_same (m : stepper_motor_t) :
  set_current_step m (current_step m) = m.
Proof. now destruct m. Qed.

Lemma after_steps_zero (d : stepper_direction_t) (l : bool) (m : stepper_motor_t) :
  after_steps d 0 l m = m.
Proof.
  unfold after_steps. destruct (enabled m && l); [|reflexivity].
  apply set_current_step_same.
Qed.

Lemma after_steps_succ (d : stepper_direction_t) (n : nat) (l : bool)
    (m : stepper_motor_t) :
  after_steps d n l (after_steps d 1 l m) = after_steps d (S n) l m.
Proof.
  unfold after_steps. destruct (enabled m && l) eqn:E.
  - change (Nat.iter 1 (next_step d) (current_step m))
      with (next_step d (current_step m)).
    cbn [set_current_step enabled current_step]. rewrite E.
    rewrite (Nat.iter_succ_r n). reflexivity.
  - now rewrite E.
Qed.

Section StepCount.

Variable env : nat -> option bool.
Variable STEPS_PER_REVOLUTION : Z.
Hypothesis env_undisturbed : undisturbed env.

Lemma read_flag_undisturbed (site : read_site) (w : world) :
  fst (read_flag env site w) = stepper_interrupt_flag w
  /\ stepper_interrupt_flag (snd (read_flag env site w))
     = stepper_interrupt_flag w
  /\ motors (snd (read_flag env site w)) = motors w.
Proof.
  unfold read_flag. cbn [fst snd stepper_interrupt_flag motors].
  now rewrite env_undisturbed.
Qed.

Lemma delay_chunks_undisturbed (remaining : nat) :
  forall w,
    stepper_interrupt_flag (delay_chunks env remaining w) = stepper_interrupt_flag w
    /\ motors (delay_chunks env remaining w) = motors w.
Proof.
  induction remaining as [|remaining IH]; intros w; cbn [delay_chunks]; [auto|].
  pose proof (read_flag_undisturbed InDelay w) as (F1 & F2 & M2).
  destruct (read_flag env InDelay w) as [f w1]. cbn [fst snd] in *.
  destruct f; [auto|].
  match goal with |- context [delay_chunks env remaining ?w2] =>
    destruct (IH w2) as (F3 & M3)
  end.
  rewrite F3, M3. cbn [sleep_ms emit stepper_interrupt_flag motors]. auto.
Qed.

Lemma delay_first_enabled_undisturbed (ptrs : list (option nat)) :
  forall w,
    stepper_interrupt_flag (delay_first_enabled env ptrs w)
    = stepper_interrupt_flag w
    /\ motors (delay_first_enabled env ptrs w) = motors w.
Proof.
  induction ptrs as [|[a|] ptrs IH]; intros w; cbn [delay_first_enabled]; auto.
  destruct (is_enabled a w); [apply delay_chunks_undisturbed | apply IH].
Qed.

Lemma advance_motors (a : nat) (d : stepper_direction_t) (w : world) :
  motors (advance a d w)
  = match motors w !! a with
    | Some m =>
        <[a := set_current_step m (next_step d (current_step m))]> (motors w)
    | None => motors w
    end.
Proof.
  unfold advance. destruct (motors w !! a) as [m|]; [|reflexivity].
  unfold stepper_apply_step. cbn [with_motors motors].
  rewrite lookup_insert_eq. cbn [set_current_step enabled].
  destruct (enabled m); [|reflexivity].
  cbn [gpio_put with_motors motors]. now rewrite insert_insert_eq.
Qed.

(** One pass over the pointer array advances each listed, enabled motor by
    one half-step. *)
Lemma advance_all_round (d : stepper_direction_t) (ptrs : list (option nat)) :
  NoDup (omap id ptrs) ->
  forall w a,
    motors (advance_all ptrs d w) !! a
    = after_steps d 1 (bool_decide (Some a ∈ ptrs)) <$> motors w !! a.
Proof.
  unfold advance_all.
  induction ptrs as [|p ptrs IH]; intros N w a; cbn [foldl].
  - destruct (motors w !! a) as [m|]; [|reflexivity]. cbn [fmap option_fmap option_map].
    unfold after_steps. now rewrite andb_false_r.
  - destruct p as [a0|].
    + cbn [omap id] in N. apply NoDup_cons in N as [Nin N].
      assert (Nin' : Some a0 ∉ ptrs).
      { intros H. apply Nin. apply list_elem_of_omap. exists (Some a0). auto. }
      rewrite (IH N). unfold advance_if_enabled, is_enabled.
      destruct (decide (a = a0)) as [->|Ha].
      * rewrite (bool_decide_eq_false_2 _ Nin').
        rewrite (bool_decide_eq_true_2 (Some a0 ∈ Some a0 :: ptrs)) by left.
        destruct (motors w !! a0) as [m|] eqn:E; [|now rewrite E].
        destruct (enabled m) eqn:En.
        -- rewrite advance_motors, E, lookup_insert_eq.
           cbn [fmap option_fmap option_map]. unfold after_steps.
           cbn [set_current_step enabled]. rewrite En, andb_false_r.
           reflexivity.
        -- rewrite E. cbn [fmap option_fmap option_map]. unfold after_steps.
           now rewrite En.
      * assert (Same : bool_decide (Some a ∈ Some a0 :: ptrs)
                       = bool_decide (Some a ∈ ptrs)).
        { apply bool_decide_ext. rewrite elem_of_cons. split; [|auto].
          intros [H|H]; [congruence | exact H]. }
        rewrite Same.
        destruct (motors w !! a0) as [m|] eqn:E; [|reflexivity].
        destruct (enabled m); [|reflexivity].
        rewrite advance_motors, E. now rewrite lookup_insert_ne.
    + cbn [omap] in N. rewrite (IH N). cbn [advance_if_enabled].
      assert (Same : bool_decide (Some a ∈ None :: ptrs)
                     = bool_decide (Some a ∈ ptrs)).
      { apply bool_decide_ext. rewrite elem_of_cons. split; [|auto].
        intros [H|H]; [discriminate | exact H]. }
      now rewrite Same.
Qed.

(** With the flag clear, [steps] iterations advance each listed, enabled
    motor by [steps] half-steps. *)
Lemma rotate_loop_count (d : stepper_direction_t) (ptrs : list (option nat)) :
  NoDup (omap id ptrs) ->
  forall steps w a,
    stepper_interrupt_flag w = false ->
    motors (rotate_loop env steps ptrs d w) !! a
    = after_steps d steps (bool_decide (Some a ∈ ptrs)) <$> motors w !! a.
Proof.
  intros N. induction steps as [|steps IH]; intros w a F; cbn [rotate_loop].
  - destruct (motors w !! a) as [m|]; [|reflexivity].
    cbn [fmap option_fmap option_map]. now rewrite after_steps_zero.
  - pose proof (read_flag_undisturbed AtStep w) as (F1 & F2 & M2).
    destruct (read_flag env AtStep w) as [f w1]. cbn [fst snd] in *.
    rewrite F in F1. subst f.
    destruct (advance_all_frame ptrs d w1) as (_ & _ & F3). cbn zeta in F3.
    pose proof (advance_all_round d ptrs N w1) as M3.
    set (w2 := advance_all ptrs d w1) in *.
    destruct (delay_first_enabled_undisturbed ptrs w2) as (F4 & M4).
    set (w3 := delay_first_enabled env ptrs w2) in *.
    pose proof (read_flag_undisturbed AfterDelay w3) as (F5 & F6 & M6).
    destruct (read_flag env AfterDelay w3) as [f5 w4]. cbn [fst snd] in *.
    assert (f5 = false) as -> by congruence.
    rewrite IH by congruence.
    rewrite M6, M4, M3, M2.
    destruct (motors w !! a) as [m|]; [|reflexivity].
    cbn [fmap option_fmap option_map]. now rewrite after_steps_succ.
Qed.

(** C6, amended.  [stepper_rotate_multiple_degrees] computes one step
    count for the call, the integral part (the fraction discarded, not
    rounded) of the single-precision product
    [degrees / 360 * STEPS_PER_REVOLUTION]; with the cancellation flag clear
    throughout, every enabled motor listed in the call ends that same number
    of half-steps further, and every other motor structure is as it was. *)
Theorem steps_truncated_and_shared (ptrs : list (option nat)) (num_motors : Z)
    (degrees : float32) (direction : stepper_direction_t) (w : world) :
  stepper_interrupt_flag w = false ->
  NoDup (omap id (take (Z.to_nat num_motors) ptrs)) ->
  let product :=
    f32_mul (f32_div degrees (f32_of_Z 360)) (f32_of_Z STEPS_PER_REVOLUTION) in
  let steps := steps_of_degrees STEPS_PER_REVOLUTION degrees in
  let w' := stepper_rotate_multiple_degrees env STEPS_PER_REVOLUTION
              (Some ptrs) num_motors degrees direction w in
  (forall m e,
      product = S754_finite false m e -> integral_part m e < 2 ^ 32 ->
      (0 <= e -> steps = Z.pos m * 2 ^ e)
      /\ (e < 0 -> steps * 2 ^ (- e) <= Z.pos m < (steps + 1) * 2 ^ (- e)))
  /\ forall a,
       motors w' !! a
       = after_steps direction (Z.to_nat steps)
           (bool_decide (Some a ∈ take (Z.to_nat num_motors) ptrs))
         <$> motors w !! a.
Proof.
  intros F N. cbv zeta. split.
  - intros m e P H. unfold steps_of_degrees. rewrite P.
    now apply float_to_uint_floor.
  - intros a. unfold stepper_rotate_multiple_degrees.
    destruct (num_motors =? 0) eqn:Z0.
    + apply Z.eqb_eq in Z0. subst num_motors. cbn [Z.to_nat take].
      destruct (motors w !! a) as [m|]; [|reflexivity].
      cbn [fmap option_fmap option_map]. unfold after_steps.
      rewrite bool_decide_eq_false_2 by apply not_elem_of_nil.
      now rewrite andb_false_r.
    + now apply rotate_loop_count.
Qed.

End StepCount.

(** ** The stepping engine: the phase index stays in the table *)

Lemma next_step_range (d : stepper_direction_t) (step : Z) :
  0 <= step <= 7 ->
  0 <= next_step d step <= 7
  /\ next_step STEPPER_CW step = (step + 1) mod 8
  /\ next_step STEPPER_CCW step = (step - 1 + 8) mod 8.
Proof.
  intros H. unfold next_step. rewrite !Z.rem_mod_nonneg by lia.
  destruct d; repeat split; try reflexivity;
    match goal with |- context [?x mod 8] =>
      pose proof (Z.mod_pos_bound x 8); lia
    end.
Qed.

Lemma phases_insert (ms : gmap nat stepper_motor_t) (a : nat) (m : stepper_motor_t) :
  0 <= current_step m <= 7 -> phases_in_range ms ->
  phases_in_range (<[a := m]> ms).
Proof. intros H P. now apply map_Forall_insert_2. Qed.

Section PhaseInvariant.

Variable env : nat -> option bool.
Variable STEPS_PER_REVOLUTION : Z.

Lemma stepper_apply_step_phases (a : nat) (step : Z) (w : world) :
  0 <= step <= 7 -> phases_in_range (motors w) ->
  phases_in_range (motors (stepper_apply_step a step w)).
Proof.
  intros S P. unfold stepper_apply_step.
  destruct (motors w !! a) as [m|]; [|exact P].
  destruct (enabled m); [|exact P].
  cbn [with_motors motors gpio_put]. now apply phases_insert.
Qed.

Lemma advance_phases (a : nat) (d : stepper_direction_t) (w : world) :
  phases_in_range (motors w) -> phases_in_range (motors (advance a d w)).
Proof.
  intros P. unfold advance. destruct (motors w !! a) as [m|] eqn:E; [|exact P].
  pose proof (proj1 (next_step_range d _ (P a m E))) as R.
  apply stepper_apply_step_phases; [exact R|].
  cbn [with_motors motors]. now apply phases_insert.
Qed.

Lemma move_steps_loop_phases (a : nat) (d : stepper_direction_t) (steps : nat) :
  forall w,
    phases_in_range (motors w) ->
    phases_in_range (motors (move_steps_loop env steps a d w)).
Proof.
  induction steps as [|steps IH]; intros w P; cbn [move_steps_loop]; [exact P|].
  pose proof (read_flag_spec env AtStep w) as R.
  destruct (read_flag env AtStep w) as [f w1]. destruct R as (_ & M1 & _).
  rewrite <- M1 in P. destruct f; [exact P|].
  apply (advance_phases a d) in P.
  destruct (delay_chunks_spec env
              (Z.to_nat (step_delay_of a (advance a d w1))) (advance a d w1))
    as (M3 & _). cbn zeta in M3. rewrite <- M3 in P.
  match goal with |- context [read_flag env AfterDelay ?w3] =>
    pose proof (read_flag_spec env AfterDelay w3) as R4;
    destruct (read_flag env AfterDelay w3) as [f4 w4]
  end.
  destruct R4 as (_ & M4 & _). rewrite <- M4 in P.
  destruct f4; [exact P | now apply IH].
Qed.

Lemma advance_all_phases (ptrs : list (option nat)) (d : stepper_direction_t) :
  forall w,
    phases_in_range (motors w) ->
    phases_in_range (motors (advance_all ptrs d w)).
Proof.
  unfold advance_all. induction ptrs as [|p ptrs IH]; intros w P; cbn [foldl];
    [exact P|].
  apply IH. unfold advance_if_enabled. destruct p as [a|]; [|exact P].
  destruct (is_enabled a w); [now apply advance_phases | exact P].
Qed.

Lemma rotate_loop_phases (ptrs : list (option nat)) (d : stepper_direction_t)
    (steps : nat) :
  forall w,
    phases_in_range (motors w) ->
    phases_in_range (motors (rotate_loop env steps ptrs d w)).
Proof.
  induction steps as [|steps IH]; intros w P; cbn [rotate_loop]; [exact P|].
  pose proof (read_flag_spec env AtStep w) as R.
  destruct (read_flag env AtStep w) as [f w1]. destruct R as (_ & M1 & _).
  rewrite <- M1 in P. destruct f; [exact P|].
  apply (advance_all_phases ptrs d) in P.
  destruct (delay_first_enabled_spec env ptrs (advance_all ptrs d w1)) as (M3 & _).
  cbn zeta in M3. rewrite <- M3 in P.
  match goal with |- context [read_flag env AfterDelay ?w3] =>
    pose proof (read_flag_spec env AfterDelay w3) as R4;
    destruct (read_flag env AfterDelay w3) as [f4 w4]
  end.
  destruct R4 as (_ & M4 & _). rewrite <- M4 in P.
  destruct f4; [exact P | now apply IH].
Qed.

Lemma stop_all_phases (addrs : list nat) :
  forall w,
    phases_in_range (motors w) ->
    phases_in_range (motors (foldl stop_one w addrs)).
Proof.
  induction addrs as [|a addrs IH]; intros w P; cbn [foldl]; [exact P|].
  apply IH. unfold stop_one. destruct (motors w !! a) as [m|] eqn:E; [|exact P].
  cbn [with_motors motors]. apply phases_insert; [|exact P].
  exact (P a m E).
Qed.

(** Every call of the interface keeps the phase indices in the table. *)
Lemma perform_phases (call : stepper_call) (w : world) :
  phases_in_range (motors w) ->
  phases_in_range (motors (perform env STEPS_PER_REVOLUTION call w)).
Proof.
  intros P. destruct call; cbn [perform].
  - (* stepper_init *)
    unfold stepper_init. destruct motor as [a|]; [|exact P]. cbn [snd].
    apply stepper_apply_step_phases; [lia|].
    cbn [gpio_init gpio_set_dir_out emit with_motors motors].
    apply phases_insert; [cbn; lia | exact P].
  - (* stepper_move_steps *)
    unfold stepper_move_steps. destruct motor as [a|]; [|exact P].
    destruct (is_enabled a w); [now apply move_steps_loop_phases | exact P].
  - (* stepper_rotate_degrees *)
    unfold stepper_rotate_degrees, stepper_move_steps.
    destruct motor as [a|]; [|exact P].
    destruct (is_enabled a w); [now apply move_steps_loop_phases | exact P].
  - (* stepper_disable *)
    unfold stepper_disable. destruct motor as [a|]; [|exact P].
    destruct (motors w !! a) as [m|] eqn:E; [|exact P].
    cbn [gpio_put with_motors motors]. apply phases_insert; [|exact P].
    exact (P a m E).
  - (* stepper_enable *)
    unfold stepper_enable. destruct motor as [a|]; [|exact P].
    destruct (motors w !! a) as [m|] eqn:E; [|exact P].
    apply stepper_apply_step_phases; [exact (P a m E)|].
    cbn [with_motors motors]. apply phases_insert; [|exact P].
    exact (P a m E).
  - (* stepper_set_speed *)
    unfold stepper_set_speed. destruct motor as [a|]; [|exact P].
    destruct (motors w !! a) as [m|] eqn:E; [|exact P].
    cbn [with_motors motors]. apply phases_insert; [|exact P].
    exact (P a m E).
  - (* stepper_rotate_multiple_degrees *)
    unfold stepper_rotate_multiple_degrees. destruct ptrs as [ptrs|]; [|exact P].
    destruct (num_motors =? 0); [exact P | now apply rotate_loop_phases].
  - (* stepper_emergency_stop_all *)
    unfold stepper_emergency_stop_all. destruct base as [a|]; [|exact P].
    now apply stop_all_phases.
  - exact P.
  - exact P.
  - exact P.
Qed.

(** C10. In every world the stepper interface can produce from start-up,
    each motor structure has [0 <= current_step <= 7], and so has the
    position reported for it; a null motor reports -1.  [stepper_init]
    leaves the phase at 0, a clockwise advance takes a phase [s] of the
    table to [(s + 1) mod 8] and a counter-clockwise one to
    [(s - 1 + 8) mod 8]. *)
Theorem current_step_stays_in_range (w : world) (a : nat) (m : stepper_motor_t) :
  reachable env STEPS_PER_REVOLUTION w ->
  motors w !! a = Some m ->
  0 <= current_step m <= 7
  /\ stepper_get_position (Some a) w = current_step m
  /\ 0 <= stepper_get_position (Some a) w <= 7
  /\ stepper_get_position None w = -1
  /\ (forall p1 p2 p3 p4 delay,
        stepper_get_position (Some a)
          (snd (stepper_init (Some a) p1 p2 p3 p4 delay w)) = 0)
  /\ (forall d,
        stepper_get_position (Some a) (advance a d w)
        = next_step d (current_step m))
  /\ next_step STEPPER_CW (current_step m) = (current_step m + 1) mod 8
  /\ next_step STEPPER_CCW (current_step m) = (current_step m - 1 + 8) mod 8.
Proof.
  intros R E.
  assert (P : phases_in_range (motors w)).
  { clear E. induction R as [|call w R IH].
    - apply map_Forall_empty.
    - now apply perform_phases. }
  pose proof (P a m E) as Rm.
  assert (G : stepper_get_position (Some a) w = current_step m)
    by (unfold stepper_get_position; now rewrite E).
  split; [exact Rm|]. split; [exact G|]. split; [rewrite G; exact Rm|].
  split; [reflexivity|]. split.
  { intros p1 p2 p3 p4 delay. unfold stepper_get_position, stepper_init.
    cbn [snd]. unfold stepper_apply_step.
    cbn [gpio_init gpio_set_dir_out emit with_motors motors].
    rewrite lookup_insert_eq. cbn [enabled gpio_put with_motors motors].
    now rewrite lookup_insert_eq. }
  split.
  { intros d. unfold stepper_get_position, advance. rewrite E.
    unfold stepper_apply_step. cbn [with_motors motors].
    rewrite lookup_insert_eq. cbn [set_current_step enabled].
    destruct (enabled m); cbn [gpio_put with_motors motors];
      now rewrite ?lookup_insert_eq. }
  destruct (next_step_range STEPPER_CW _ Rm) as (_ & A & B). split; assumption.
Qed.

End PhaseInvariant.

(** ** More on the ring buffer and the line reassembler *)

(** X1. After any sequence of put and get calls on a freshly initialised
    ring buffer, [uart_buffer_available] is the number of bytes the
    first-in first-out queue holds after the same calls, and it never
    exceeds 511. *)
Theorem available_counts_held (b0 : uart_rx_buffer_t) (ops : list rb_op) :
  List.length (buffer b0) = Z.to_nat UART_RX_BUFFER_SIZE ->
  let reached := snd (run_ops ops (uart_buffer_init b0)) in
  uart_buffer_available reached
  = Z.of_nat (List.length (snd (queue_ops (Z.to_nat UART_RX_BUFFER_SIZE) ops [])))
  /\ 0 <= uart_buffer_available reached <= UART_RX_BUFFER_SIZE - 1.
Proof.
  intros Hlen reached.
  destruct (rb_init_wf b0 Hlen) as [W C].
  destruct (run_ops_refines_queue ops _ W) as (_ & W' & C').
  rewrite C in C'. fold reached in W', C'.
  pose proof (rb_available_range reached W') as R.
  pose proof (rb_contents_length reached) as L.
  rewrite <- C', L. split; lia.
Qed.

Lemma rb_contents_overflow (b : uart_rx_buffer_t) (flag : bool) :
  rb_contents {| buffer := buffer b; head := head b; tail := tail b;
                 overflow := flag |} = rb_contents b.
Proof. reflexivity. Qed.

Lemma uart_rx_interrupt_handler_spec (rx_fifo : list ascii) (b : uart_rx_buffer_t) :
  rb_wf b ->
  let room := (Z.to_nat UART_RX_BUFFER_SIZE - 1 - List.length (rb_contents b))%nat in
  exists b',
    uart_rx_interrupt_handler rx_fifo b = (drop (S room) rx_fifo, b')
    /\ rb_wf b'
    /\ rb_contents b' = rb_contents b ++ take room rx_fifo
    /\ overflow b' = overflow b || (room <? List.length rx_fifo)%nat.
Proof.
  revert b. induction rx_fifo as [|c rest IH]; intros b W room.
  - exists b. cbn [uart_rx_interrupt_handler].
    rewrite drop_nil, take_nil, app_nil_r, orb_false_r. auto.
  - pose proof (rb_available_range b W) as R.
    pose proof (rb_contents_length b) as L.
    cbn [uart_rx_interrupt_handler].
    destruct (Z.eq_dec (uart_buffer_available b) (UART_RX_BUFFER_SIZE - 1)) as [F|F].
    + rewrite (rb_put_full b c W F).
      assert (room = 0%nat) as -> by (unfold room, UART_RX_BUFFER_SIZE in *; lia).
      eexists. split; [reflexivity|].
      split; [exact W|]. split.
      * rewrite rb_contents_overflow, take_0, app_nil_r. reflexivity.
      * cbn [overflow List.length]. rewrite orb_true_r. reflexivity.
    + destruct (rb_put_room b c W) as (b1 & E & W1 & C1 & _ & O1);
        [unfold UART_RX_BUFFER_SIZE in *; lia|].
      rewrite E.
      destruct (IH b1 W1) as (b' & E' & W' & C' & O').
      assert (room = S (Z.to_nat UART_RX_BUFFER_SIZE - 1
                        - List.length (rb_contents b1))) as Hroom.
      { unfold room. rewrite C1, length_app. cbn [List.length].
        unfold UART_RX_BUFFER_SIZE in *. lia. }
      exists b'. rewrite Hroom. split; [exact E'|]. split; [exact W'|]. split.
      * rewrite C', C1, <- app_assoc. reflexivity.
      * rewrite O', O1. reflexivity.
Qed.

(** X2. The receive interrupt handler moves characters from the UART into
    the ring buffer in arrival order for as long as there is room.  The
    first character that finds the buffer full is taken from the UART and
    lost, the overflow flag is raised, and the characters after it stay in
    the UART. *)
Theorem interrupt_handler_fills (rx_fifo : list ascii) (b : uart_rx_buffer_t) :
  rb_wf b ->
  let room := (Z.to_nat UART_RX_BUFFER_SIZE - 1 - List.length (rb_contents b))%nat in
  exists waiting b',
    uart_rx_interrupt_handler rx_fifo b = (waiting, b')
    /\ rb_wf b'
    /\ ((List.length rx_fifo <= room)%nat ->
        waiting = [] /\ rb_contents b' = rb_contents b ++ rx_fifo
        /\ overflow b' = overflow b)
    /\ ((room < List.length rx_fifo)%nat ->
        exists lost,
          rx_fifo = take room rx_fifo ++ lost :: waiting
          /\ rb_contents b' = rb_contents b ++ take room rx_fifo
          /\ uart_buffer_available b' = UART_RX_BUFFER_SIZE - 1
          /\ overflow b' = true).
Proof.
  intros W room.
  destruct (uart_rx_interrupt_handler_spec rx_fifo b W) as (b' & E & W' & C & O).
  fold room in E, C, O.
  exists (drop (S room) rx_fifo), b'. split; [exact E|]. split; [exact W'|].
  split.
  - intros Fits. rewrite drop_ge by lia. split; [reflexivity|].
    rewrite C, take_ge by lia. split; [reflexivity|].
    rewrite O. replace (room <? List.length rx_fifo)%nat with false
      by (symmetry; apply Nat.ltb_ge; lia).
    apply orb_false_r.
  - intros Over.
    destruct (rx_fifo !! room) as [lost|] eqn:L;
      [|apply lookup_ge_None in L; lia].
    exists lost. split.
    { rewrite <- (take_drop_middle rx_fifo room lost L) at 1. reflexivity. }
    split; [exact C|]. split.
    + pose proof (rb_contents_length b') as Len. rewrite C in Len.
      rewrite length_app, length_take in Len.
      pose proof (rb_available_range b' W') as R.
      pose proof (rb_available_range b W) as R0.
      pose proof (rb_contents_length b) as Len0.
      unfold room, UART_RX_BUFFER_SIZE in *. lia.
    + rewrite O. replace (room <? List.length rx_fifo)%nat with true
        by (symmetry; apply Nat.ltb_lt; lia).
      apply orb_true_r.
Qed.

(** A byte stream is its leading terminators followed by the rest. *)
Lemma drop_terminators_split (q : list ascii) :
  exists skipped,
    Forall (fun c => is_terminator c = true) skipped
    /\ q = skipped ++ drop_terminators q.
Proof.
  induction q as [|c q IH].
  - exists []. split; [constructor|reflexivity].
  - cbn [drop_terminators]. destruct (is_terminator c) eqn:T.
    + destruct IH as (skipped & F & E). exists (c :: skipped).
      split; [constructor; assumption|]. cbn. congruence.
    + exists []. split; [constructor|reflexivity].
Qed.

(** A byte stream is its first run of plain bytes followed by nothing or by
    a terminator and the rest. *)
Lemma until_terminator_split (q : list ascii) :
  q = until_terminator q ++ drop (List.length (until_terminator q)) q
  /\ (drop (List.length (until_terminator q)) q = []
      \/ exists t, is_terminator t = true
           /\ drop (List.length (until_terminator q)) q
              = t :: drop (S (List.length (until_terminator q))) q).
Proof.
  induction q as [|c q [IH1 IH2]].
  - split; [reflexivity|left; reflexivity].
  - cbn [until_terminator]. destruct (is_terminator c) eqn:T.
    + split; [reflexivity|]. right. exists c. split; [assumption|reflexivity].
    + cbn [List.length drop app]. split; [congruence|]. exact IH2.
Qed.

(** What [next_line] takes from a stream, in order. *)
Lemma next_line_split (max_len : Z) (q : list ascii) :
  exists skipped ending,
    Forall (fun c => is_terminator c = true) skipped
    /\ (ending = [] \/ exists t, ending = [t] /\ is_terminator t = true)
    /\ q = skipped ++ default [] (fst (next_line max_len q)) ++ ending
           ++ snd (next_line max_len q)
    /\ (ending = [] ->
        snd (next_line max_len q) = []
        \/ List.length (default [] (fst (next_line max_len q)))
           = Z.to_nat (max_len - 1)).
Proof.
  destruct (drop_terminators_split q) as (skipped & F & E).
  exists skipped. unfold next_line.
  destruct (drop_terminators q) as [|c q1] eqn:D.
  - exists []. cbn. repeat split; auto.
  - set (stream := c :: q1) in *.
    destruct (until_terminator_split stream) as [S1 S2].
    set (body := until_terminator stream) in *.
    destruct (List.length body <? Z.to_nat (max_len - 1))%nat eqn:Room.
    + cbn [fst snd default from_option id].
      destruct S2 as [S2|(t & T & S2)].
      * exists []. split; [assumption|]. split; [left; reflexivity|].
        assert (drop (S (List.length body)) stream = []) as ->.
        { apply drop_ge. apply (f_equal List.length) in S2.
          rewrite length_drop in S2. cbn [List.length] in S2. lia. }
        cbn [app]. rewrite app_nil_r. split; [|auto].
        rewrite S2, app_nil_r in S1. congruence.
      * exists [t]. split; [assumption|].
        split; [right; exists t; auto|]. split; [|discriminate].
        cbn [app]. rewrite <- S2, <- S1. exact E.
    + cbn [fst snd default from_option id]. exists []. split; [assumption|].
      split; [left; reflexivity|].
      apply Nat.ltb_ge in Room. cbn [app]. split.
      * assert (take (Z.to_nat (max_len - 1)) body
                = take (Z.to_nat (max_len - 1)) stream) as ->.
        { transitivity (take (Z.to_nat (max_len - 1))
                          (body ++ drop (List.length body) stream)).
          - rewrite take_app_le by assumption. reflexivity.
          - rewrite <- S1. reflexivity. }
        rewrite take_drop. exact E.
      * intros _. right. rewrite length_take. lia.
Qed.

(** X3. [uart_buffer_get_line] loses and reorders nothing: what the ring
    buffer held is the skipped terminators, then the line returned, then at
    most one terminator, then what the buffer holds afterwards.  No
    terminator is consumed after the line only when the buffer ran empty or
    the line filled the destination. *)
Theorem get_line_consumes_in_order (b : uart_rx_buffer_t) (max_len : Z) :
  rb_wf b -> 2 <= max_len <= 65535 ->
  exists ok line b' skipped ending,
    uart_buffer_get_line b max_len = Some (ok, line, b')
    /\ Forall (fun c => is_terminator c = true) skipped
    /\ (ending = [] \/ exists t, ending = [t] /\ is_terminator t = true)
    /\ rb_contents b = skipped ++ line ++ ending ++ rb_contents b'
    /\ (ok = false -> line = [] /\ ending = [] /\ rb_contents b' = [])
    /\ (ending = [] ->
        rb_contents b' = [] \/ Z.of_nat (List.length line) = max_len - 1).
Proof.
  intros W R.
  destruct (get_line_refines_next_line b max_len W R) as (b' & E & _ & C).
  destruct (next_line_split max_len (rb_contents b))
    as (skipped & ending & F & T & S & Full).
  rewrite <- C in S, Full.
  destruct (fst (next_line max_len (rb_contents b))) as [line|] eqn:N.
  - exists true, line, b', skipped, ending. cbn [default from_option id] in S, Full.
    repeat split; try assumption; try discriminate.
    intros Hend. destruct (Full Hend) as [?|L]; [left; assumption|right; lia].
  - cbn [default from_option id] in S, Full.
    assert (rb_contents b' = []) as Hnil.
    { rewrite C. unfold next_line in N |- *.
      destruct (drop_terminators (rb_contents b)); [reflexivity|].
      destruct (_ <? _)%nat; discriminate. }
    exists false, [], b', (skipped ++ ending), [].
    split; [exact E|]. split.
    { apply Forall_app. split; [assumption|].
      destruct T as [->|(t & -> & T)]; [constructor|].
      constructor; [assumption|constructor]. }
    split; [left; reflexivity|]. split.
    { rewrite S. cbn [app]. rewrite <- app_assoc. reflexivity. }
    split; auto.
Qed.

(** X4. For every destination size a [uint16_t] can give,
    [uart_buffer_get_line] returns, and the line with its closing NUL fits
    the destination.  A destination of at most one character gets no line
    and nothing is taken from the ring buffer. *)
Theorem get_line_fits_destination (b : uart_rx_buffer_t) (max_len : Z) :
  rb_wf b -> 0 <= max_len <= 65535 ->
  exists ok line b',
    uart_buffer_get_line b max_len = Some (ok, line, b')
    /\ Z.of_nat (List.length line) + 1 <= Z.max max_len 1
    /\ (max_len <= 1 -> ok = false /\ line = [] /\ b' = b).
Proof.
  intros W R. destruct (Z_le_gt_dec max_len 1) as [Small|Big].
  - exists false, [], b. unfold uart_buffer_get_line.
    cbn [Z.to_nat get_line_loop].
    destruct (Z.to_nat UART_RX_BUFFER_SIZE); cbn [get_line_loop];
      (destruct (0 <? max_len - 1) eqn:T; [apply Z.ltb_lt in T; lia|]);
      cbn; repeat split; auto; lia.
  - destruct (get_line_refines_next_line b max_len W ltac:(lia)) as (b' & E & _ & _).
    destruct (fst (next_line max_len (rb_contents b))) as [line|] eqn:N.
    + exists true, line, b'. split; [exact E|].
      apply next_line_length in N. split; lia.
    + exists false, [], b'. split; [exact E|]. cbn [List.length]. split; lia.
Qed.

(** ** More on received messages *)

Lemma strchr_suffix (c : ascii) (s rest : cstring) :
  strchr s c = Some rest ->
  exists before, s = before ++ rest /\ rest <> [].
Proof.
  induction s as [|d s IH]; cbn [strchr]; [discriminate|].
  destruct (code d =? code c).
  - intros [= <-]. exists []. split; [reflexivity|discriminate].
  - intros H. destruct (IH H) as (before & -> & N).
    exists (d :: before). split; [reflexivity|assumption].
Qed.

Lemma c_str_replicate_nul (n : nat) : c_str (replicate n NUL) = [].
Proof. destruct n; reflexivity. Qed.

(** The parser always fills the structure it is given. *)
Lemma parse_received_message_some (response : cstring) (m0 : lora_message_t) :
  exists m, parse_received_message (Some response) (Some m0) = Some m.
Proof.
  unfold parse_received_message.
  destruct (strtoul (drop 5 response)) as [address ptr1].
  destruct (strtoul _) as [declared ptr3].
  destruct (strchr _ _); eexists; reflexivity.
Qed.

(** X5. Whatever follows the five-character prefix, [parse_received_message]
    keeps within the message structure: the payload array keeps its 240
    cells, the payload read as a C string is at most 239 characters and no
    longer than the stored length, and the three numeric fields hold values
    of their types.  What the structure held before the call does not
    matter. *)
Theorem parse_stays_in_bounds (response : cstring) (m0 m1 : lora_message_t) :
  (5 <= List.length response)%nat ->
  exists m,
    parse_received_message (Some response) (Some m0) = Some m
    /\ parse_received_message (Some response) (Some m1) = Some m
    /\ List.length (payload m) = Z.to_nat LORA_MAX_MESSAGE_LENGTH
    /\ Z.of_nat (List.length (c_str (payload m))) <= payload_length m
    /\ Z.of_nat (List.length (c_str (payload m))) <= LORA_MAX_MESSAGE_LENGTH - 1
    /\ 0 <= payload_length m < 2 ^ 8
    /\ 0 <= sender_address m < 2 ^ 16
    /\ 0 <= rssi m < 2 ^ 8.
Proof.
  intros _. unfold parse_received_message.
  destruct (strtoul (drop 5 response)) as [address ptr1].
  set (ptr2 := match ptr1 with
               | c :: rest => if code c =? 44 then rest else ptr1
               | [] => ptr1
               end).
  destruct (strtoul ptr2) as [declared ptr3].
  set (start := match ptr3 with
                | c :: rest => if code c =? 44 then rest else ptr3
                | [] => ptr3
                end).
  assert (forall x, 0 <= to_uint8 x < 2 ^ 8) as U8
    by (intros x; unfold to_uint8; apply Z.mod_pos_bound; lia).
  assert (forall x, 0 <= to_uint16 x < 2 ^ 16) as U16
    by (intros x; unfold to_uint16; apply Z.mod_pos_bound; lia).
  destruct (strchr start (ascii_of_N 44)) as [payload_end|] eqn:Found.
  - destruct (strchr_suffix _ _ _ Found) as (text & -> & _).
    set (span := to_uint8 (Z.of_nat (List.length (text ++ payload_end))
                           - Z.of_nat (List.length payload_end))).
    set (payload_len := if LORA_MAX_MESSAGE_LENGTH - 1 <? span
                        then LORA_MAX_MESSAGE_LENGTH - 1 else span).
    assert (0 <= payload_len <= LORA_MAX_MESSAGE_LENGTH - 1
            /\ payload_len <= Z.of_nat (List.length text)) as [R1 R2].
    { pose proof (U8 (Z.of_nat (List.length (text ++ payload_end))
                      - Z.of_nat (List.length payload_end))) as R.
      fold span in R.
      assert (span <= Z.of_nat (List.length text)).
      { unfold span, to_uint8. rewrite length_app.
        replace (Z.of_nat (List.length text + List.length payload_end)
                 - Z.of_nat (List.length payload_end))
          with (Z.of_nat (List.length text)) by lia.
        apply Z.mod_le; lia. }
      unfold payload_len, LORA_MAX_MESSAGE_LENGTH.
      destruct (240 - 1 <? span) eqn:C;
        [apply Z.ltb_lt in C|apply Z.ltb_ge in C]; lia. }
    eexists. split; [reflexivity|]. split; [reflexivity|].
    cbn [payload payload_length sender_address rssi].
    rewrite payload_copy
      by (unfold LORA_MAX_MESSAGE_LENGTH in *; lia).
    rewrite c_str_zero_padded.
    pose proof (c_str_length (take (Z.to_nat payload_len) text)) as L.
    rewrite length_take in L.
    rewrite length_app, length_take, length_replicate.
    unfold LORA_MAX_MESSAGE_LENGTH in *.
    repeat split; try apply U8; try apply U16; try lia.
  - eexists. split; [reflexivity|]. split; [reflexivity|].
    cbn [payload payload_length sender_address rssi zero_message].
    rewrite c_str_replicate_nul, length_replicate. cbn [List.length].
    pose proof (U8 declared). unfold LORA_MAX_MESSAGE_LENGTH.
    repeat split; try apply U16; lia.
Qed.

(** X6. [lora_receive_message] returns one of three statuses.  It is
    LORA_STATUS_INVALID_PARAM exactly when the configuration or the message
    is null or the driver is not initialised, and then nothing is taken from
    the ring buffer.  It is LORA_STATUS_OK exactly when there is a next line
    and it begins with [+RCV=].  In both other cases one line is taken from
    the ring buffer, and unless the status is LORA_STATUS_OK the caller's
    structure is left as it was. *)
Theorem receive_message_status (config : option lora_config_t)
    (message : option lora_message_t) (b : uart_rx_buffer_t) :
  rb_wf b ->
  let usable :=
    match config, message with
    | Some cfg, Some _ => initialized cfg
    | _, _ => false
    end in
  let line := fst (next_line RESPONSE_BUFFER_SIZE (rb_contents b)) in
  exists status message' b',
    lora_receive_message config message b = Some (status, message', b')
    /\ rb_wf b'
    /\ (status = LORA_STATUS_OK \/ status = LORA_STATUS_ERROR
        \/ status = LORA_STATUS_INVALID_PARAM)
    /\ (status = LORA_STATUS_INVALID_PARAM <-> usable = false)
    /\ (status = LORA_STATUS_OK
        <-> usable = true
            /\ exists text, line = Some text
                 /\ starts_with (cs "+RCV=") (c_str text) = true)
    /\ (status <> LORA_STATUS_OK -> message' = message)
    /\ (status = LORA_STATUS_INVALID_PARAM -> b' = b)
    /\ (status <> LORA_STATUS_INVALID_PARAM ->
        rb_contents b' = snd (next_line RESPONSE_BUFFER_SIZE (rb_contents b))).
Proof.
  intros W usable line.
  assert (usable = false ->
          lora_receive_message config message b
          = Some (LORA_STATUS_INVALID_PARAM, message, b) ->
            exists status message' b',
              lora_receive_message config message b = Some (status, message', b')
              /\ rb_wf b'
              /\ (status = LORA_STATUS_OK \/ status = LORA_STATUS_ERROR
                  \/ status = LORA_STATUS_INVALID_PARAM)
              /\ (status = LORA_STATUS_INVALID_PARAM <-> usable = false)
              /\ (status = LORA_STATUS_OK
                  <-> usable = true
                      /\ exists text, line = Some text
                           /\ starts_with (cs "+RCV=") (c_str text) = true)
              /\ (status <> LORA_STATUS_OK -> message' = message)
              /\ (status = LORA_STATUS_INVALID_PARAM -> b' = b)
              /\ (status <> LORA_STATUS_INVALID_PARAM ->
                  rb_contents b'
                  = snd (next_line RESPONSE_BUFFER_SIZE (rb_contents b))))
    as Refused.
  { intros U E. exists LORA_STATUS_INVALID_PARAM, message, b.
    split; [exact E|]. split; [exact W|]. split; [auto|].
    split; [tauto|].
    split; [split; [discriminate|intros [? _]; congruence]|].
    split; [auto|]. split; [auto|].
    intros H. contradiction H. reflexivity. }
  destruct config as [cfg|]; [|apply Refused; destruct message; reflexivity].
  destruct message as [m|]; [|apply Refused; reflexivity].
  destruct (initialized cfg) eqn:I.
  - destruct (lora_receive_message_next_line cfg m b W I) as (b' & W' & C & E).
    rewrite E. subst usable line. cbn beta iota.
    destruct (fst (next_line RESPONSE_BUFFER_SIZE (rb_contents b))) as [text|].
    + destruct (starts_with (cs "+RCV=") (c_str text)) eqn:P.
      * eexists _, _, b'. split; [reflexivity|]. split; [exact W'|].
        split; [auto|]. split; [split; discriminate|].
        split; [split; [intros _; split; [reflexivity|exists text; auto]|auto]|].
        split; [intros H; contradiction H; reflexivity|].
        split; [discriminate|auto].
      * exists LORA_STATUS_ERROR, (Some m), b'.
        split; [reflexivity|]. split; [exact W'|].
        split; [auto|]. split; [split; discriminate|].
        split; [split; [discriminate|intros (_ & text' & [= <-] & P'); congruence]|].
        split; [auto|]. split; [discriminate|auto].
    + exists LORA_STATUS_ERROR, (Some m), b'.
      split; [reflexivity|]. split; [exact W'|].
      split; [auto|]. split; [split; discriminate|].
      split; [split; [discriminate|intros (_ & text' & ? & _); discriminate]|].
      split; [auto|]. split; [discriminate|auto].
  - apply Refused; [reflexivity|].
    unfold lora_receive_message. rewrite I. reflexivity.
Qed.

(** ** The debounced buttons *)

Lemma poll_button_cons (b : Button.button_t) (level : bool) (time : Z)
    (rest : list (bool * Z)) :
  exists b',
    Button.lora_button_pressed (Some b) level time
    = (fst (Button.lora_button_pressed (Some b) level time), Some b')
    /\ Button.last_state b' = level
    /\ (Button.last_time b' = Button.last_time b
        \/ fst (Button.lora_button_pressed (Some b) level time) = true
           /\ Button.last_time b' = time)
    /\ (fst (Button.lora_button_pressed (Some b) level time) = true ->
        level = false /\ Button.last_state b = true
        /\ 50 < to_uint32 (time - Button.last_time b)
        /\ Button.last_time b' = time)
    /\ poll_button b ((level, time) :: rest)
       = (fst (Button.lora_button_pressed (Some b) level time)
            :: fst (poll_button b' rest), snd (poll_button b' rest)).
Proof.
  cbn [poll_button]. unfold Button.lora_button_pressed.
  destruct (negb level && Button.last_state b
            && (50 <? to_uint32 (time - Button.last_time b))) eqn:C.
  - eexists. split; [reflexivity|]. cbn [fst Button.last_state Button.last_time].
    apply andb_prop in C as [C C3]. apply andb_prop in C as [C1 C2].
    apply Z.ltb_lt in C3. destruct level; [discriminate|].
    split; [reflexivity|]. split; [right; auto|]. split; [auto|].
    destruct (poll_button _ rest). reflexivity.
  - eexists. split; [reflexivity|]. cbn [fst Button.last_state Button.last_time].
    split; [reflexivity|]. split; [left; reflexivity|]. split; [discriminate|].
    destruct (poll_button _ rest). reflexivity.
Qed.

(** A poll that reports a press read the pin low, and the poll before it
    (or the structure, at the first poll) had the pin high. *)
Lemma poll_button_edge (samples : list (bool * Z)) :
  forall (b : Button.button_t) (j : nat),
    fst (poll_button b samples) !! j = Some true ->
    (exists time, samples !! j = Some (false, time))
    /\ match j with
       | O => Button.last_state b = true
       | S j' => exists time, samples !! j' = Some (true, time)
       end.
Proof.
  induction samples as [|[level time] rest IH]; intros b j H.
  - cbn in H. discriminate.
  - destruct (poll_button_cons b level time rest) as (b' & _ & S' & _ & P & E).
    rewrite E in H. cbn [fst] in H. destruct j as [|j].
    + cbn in H. injection H as H. destruct (P H) as (-> & L & _).
      split; [exists time; reflexivity|assumption].
    + cbn [lookup list_lookup] in H |- *. change (fst (poll_button b' rest) !! j = Some true) in H.
      destruct (IH b' j H) as [T Prev]. split; [exact T|].
      destruct j as [|j]; [|exact Prev].
      exists time. cbn. rewrite <- S', Prev. reflexivity.
Qed.

(** X7. Polling a button, two reported presses are always separated by a poll
    that read the pin high: a button held down is reported once, and a press
    swallowed by the debounce window is not reported later while the button
    stays down.  Both reporting polls read the pin low. *)
Theorem button_press_needs_release (b : Button.button_t)
    (samples : list (bool * Z)) (i j : nat) :
  (i < j)%nat ->
  fst (poll_button b samples) !! i = Some true ->
  fst (poll_button b samples) !! j = Some true ->
  (exists time, samples !! i = Some (false, time))
  /\ (exists time, samples !! j = Some (false, time))
  /\ exists k time, (i < k < j)%nat /\ samples !! k = Some (true, time).
Proof.
  intros Lt Hi Hj.
  destruct (poll_button_edge samples b i Hi) as [[ti Si] _].
  destruct (poll_button_edge samples b j Hj) as [Sj Prev].
  split; [exists ti; exact Si|]. split; [exact Sj|].
  destruct j as [|j]; [lia|]. destruct Prev as [t Prev].
  exists j, t. split; [|exact Prev].
  assert (i <> j) by (intros ->; rewrite Si in Prev; discriminate). lia.
Qed.

Lemma clock_steady_cons (s : bool * Z) (rest : list (bool * Z)) :
  clock_steady (s :: rest) ->
  0 <= snd s < 2 ^ 32 /\ clock_steady rest
  /\ Forall (fun s' => snd s <= snd s') rest.
Proof.
  intros [R M]. apply Forall_cons in R as [R1 R].
  split; [exact R1|]. split; [split; [exact R|]|].
  - intros k l a b Le Ha Hb. apply (M (S k) (S l) a b); [lia|exact Ha|exact Hb].
  - rewrite Forall_forall. intros s' Hs. apply list_elem_of_lookup in Hs as [l Hl].
    apply (M O (S l) s s'); [lia|reflexivity|exact Hl].
Qed.

(** With times that do not run backwards, a reported press lies more than
    50 ms after the time the structure remembers. *)
Lemma poll_button_window (samples : list (bool * Z)) :
  forall (b : Button.button_t) (j : nat) (level : bool) (time : Z),
    Forall (fun s => Button.last_time b <= snd s) samples ->
    0 <= Button.last_time b ->
    clock_steady samples ->
    fst (poll_button b samples) !! j = Some true ->
    samples !! j = Some (level, time) ->
    50 < time - Button.last_time b.
Proof.
  induction samples as [|[level0 time0] rest IH]; intros b j level time R R0 Sorted H S.
  - discriminate.
  - destruct (poll_button_cons b level0 time0 rest) as (b' & _ & _ & T & P & E).
    rewrite E in H. cbn [fst] in H.
    apply Forall_cons in R as [R1 R]. cbn [snd] in R1.
    apply clock_steady_cons in Sorted as (R2 & Sorted & Least). cbn [snd] in R2.
    destruct j as [|j].
    + cbn in H, S. injection H as H. injection S as -> ->.
      destruct (P H) as (_ & _ & W & _).
      unfold to_uint32 in W. rewrite Z.mod_small in W by lia. exact W.
    + cbn [lookup list_lookup] in H, S.
      change (fst (poll_button b' rest) !! j = Some true) in H.
      change (rest !! j = Some (level, time)) in S.
      assert (Button.last_time b <= Button.last_time b' <= time0) as B
        by (destruct T as [->|[_ ->]]; lia).
      assert (50 < time - Button.last_time b'); [|lia].
      apply (IH b' j level time); auto; [|lia].
      rewrite Forall_forall in R, Least |- *. intros s Hs.
      specialize (R s Hs). specialize (Least s Hs). cbn [snd] in Least.
      destruct T as [->|[_ ->]]; lia.
Qed.

(** X8. When the millisecond clock does not run backwards or wrap during the
    polls, any two reported presses are more than 50 ms apart.
    [lora_button_init] stores 0, not the time of the call, as the time of
    the last press: after it a press is reported only when the clock reads
    more than 50 ms since boot, and the first poll reports one exactly when
    the pin reads low and the clock is past 50 ms, however soon after the
    call. *)
Theorem button_presses_spaced (samples : list (bool * Z)) (pin : Z)
    (b0 : Button.button_t) (i j : nat) (li lj : bool) (ti tj : Z) :
  clock_steady samples ->
  (i < j)%nat ->
  samples !! i = Some (li, ti) -> samples !! j = Some (lj, tj) ->
  (forall b : Button.button_t,
      0 <= Button.last_time b ->
      Forall (fun s => Button.last_time b <= snd s) samples ->
      fst (poll_button b samples) !! i = Some true ->
      fst (poll_button b samples) !! j = Some true ->
      50 < tj - ti)
  /\ (forall b : Button.button_t,
        Button.lora_button_init (Some b0) pin = Some b ->
        (fst (poll_button b samples) !! j = Some true -> 50 < tj)
        /\ forall (first : bool) (time : Z),
             samples !! 0%nat = Some (first, time) ->
             fst (poll_button b samples) !! 0%nat
             = Some (negb first && (50 <? time))).
Proof.
  intros Steady Lt Si Sj. split.
  - revert i j Steady Lt Si Sj.
    induction samples as [|[level0 time0] rest IH];
      intros i j Steady Lt Si Sj b B0 BR Hi Hj; [discriminate|].
    destruct (poll_button_cons b level0 time0 rest) as (b' & _ & _ & T & P & E).
    rewrite E in Hi, Hj. cbn [fst] in Hi, Hj.
    apply clock_steady_cons in Steady as (R1 & Steady & Least).
    apply Forall_cons in BR as [BR1 BR].
    cbn [snd] in R1, BR1.
    destruct j as [|j]; [lia|].
    cbn [lookup list_lookup] in Hj, Sj.
    change (fst (poll_button b' rest) !! j = Some true) in Hj.
    change (rest !! j = Some (lj, tj)) in Sj.
    assert (Forall (fun s => Button.last_time b' <= snd s) rest) as R'.
    { rewrite Forall_forall in Least, BR |- *. intros s Hs.
      specialize (Least s Hs). specialize (BR s Hs).
      cbn [snd] in Least. destruct T as [->|[_ ->]]; lia. }
    destruct i as [|i].
    + cbn in Hi, Si. injection Hi as Hi. injection Si as -> ->.
      destruct (P Hi) as (_ & _ & _ & L).
      rewrite <- L. apply (poll_button_window rest b' j lj tj); auto.
      rewrite L. lia.
    + cbn [lookup list_lookup] in Hi, Si.
      apply (IH i j Steady ltac:(lia) Si Sj b'); auto.
      destruct T as [->|[_ ->]]; lia.
  - intros b Init. unfold Button.lora_button_init in Init.
    injection Init as <-. split.
    + intros Hj.
      pose proof (poll_button_window samples
                    {| Button.pin := pin; Button.last_state := true;
                       Button.last_time := 0 |} j lj tj) as W.
      cbn [Button.last_time] in W. rewrite Z.sub_0_r in W.
      apply W; auto; [|lia]. destruct Steady as [R _].
      eapply Forall_impl; [exact R|]. cbn. intros; lia.
    + intros first time S0. destruct samples as [|[l t] rest]; [discriminate|].
      cbn in S0. injection S0 as -> ->.
      destruct Steady as [R _]. apply Forall_cons in R as [R _]. cbn [snd] in R.
      cbn [poll_button Button.lora_button_pressed Button.last_state
           Button.last_time].
      rewrite Z.sub_0_r, andb_true_r.
      unfold to_uint32. rewrite Z.mod_small by lia.
      destruct (negb first && (50 <? time));
        destruct (poll_button _ rest); reflexivity.
Qed.

(** ** More on the stepping engine *)

(** The half-step count in closed form. *)
Lemma iter_next_step (n : nat) (step : Z) :
  0 <= step <= 7 ->
  Nat.iter n (next_step STEPPER_CW) step = (step + Z.of_nat n) mod 8
  /\ Nat.iter n (next_step STEPPER_CCW) step = (step - Z.of_nat n) mod 8.
Proof.
  intros R. induction n as [|n [IH1 IH2]].
  - change (Nat.iter 0 (next_step STEPPER_CW) step) with step.
    change (Nat.iter 0 (next_step STEPPER_CCW) step) with step.
    rewrite Z.add_0_r, Z.sub_0_r, Z.mod_small by lia. auto.
  - rewrite !Nat.iter_succ, IH1, IH2.
    assert (0 <= (step + Z.of_nat n) mod 8 <= 7) as R1
      by (pose proof (Z.mod_pos_bound (step + Z.of_nat n) 8); lia).
    assert (0 <= (step - Z.of_nat n) mod 8 <= 7) as R2
      by (pose proof (Z.mod_pos_bound (step - Z.of_nat n) 8); lia).
    destruct (next_step_range STEPPER_CW _ R1) as (_ & -> & _).
    destruct (next_step_range STEPPER_CCW _ R2) as (_ & _ & ->).
    split.
    + rewrite Zplus_mod_idemp_l. f_equal. lia.
    + replace ((step - Z.of_nat n) mod 8 - 1 + 8)
        with ((step - Z.of_nat n) mod 8 + 7) by lia.
      rewrite Zplus_mod_idemp_l.
      replace (step - Z.of_nat n + 7) with (step - Z.of_nat (S n) + 1 * 8) by lia.
      apply Z_mod_plus_full.
Qed.

Lemma slept_sleeps (n : nat) (tr : list event) :
  slept (replicate n (EvSleep 1) ++ tr) = Z.of_nat n + slept tr.
Proof.
  induction n as [|n IH]; [reflexivity|].
  cbn [replicate app slept]. rewrite IH. lia.
Qed.

(** What [stepper_apply_step] does for an enabled motor. *)
Lemma stepper_apply_step_enabled (a : nat) (step : Z) (w : world)
    (m : stepper_motor_t) :
  motors w !! a = Some m -> enabled m = true ->
  let w' := stepper_apply_step a step w in
  motors w' = <[a := set_current_step m step]> (motors w)
  /\ gpio w' = <[pin4 m := phase step 3]> (<[pin3 m := phase step 2]>
                 (<[pin2 m := phase step 1]> (<[pin1 m := phase step 0]> (gpio w))))
  /\ slept (trace w') = slept (trace w)
  /\ stepper_interrupt_flag w' = stepper_interrupt_flag w.
Proof.
  intros M E. unfold stepper_apply_step. rewrite M, E. cbv zeta.
  repeat split.
Qed.

(** On four different pins the writes of a step show its row of the
    table. *)
Lemma row_on_pins (g : gmap Z bool) (m : stepper_motor_t) (step : Z) :
  NoDup (pins_of m) ->
  let g' := <[pin4 m := phase step 3]> (<[pin3 m := phase step 2]>
              (<[pin2 m := phase step 1]> (<[pin1 m := phase step 0]> g))) in
  [g' !! pin1 m; g' !! pin2 m; g' !! pin3 m; g' !! pin4 m] = pattern step
  /\ forall p, p ∉ pins_of m -> g' !! p = g !! p.
Proof.
  unfold pins_of. intros N. cbv zeta.
  apply NoDup_cons in N as [N1 N]. apply NoDup_cons in N as [N2 N].
  apply NoDup_cons in N as [N3 _].
  apply not_elem_of_cons in N1 as [D12 N1]. apply not_elem_of_cons in N1 as [D13 N1].
  apply not_elem_of_cons in N1 as [D14 _].
  apply not_elem_of_cons in N2 as [D23 N2]. apply not_elem_of_cons in N2 as [D24 _].
  apply not_elem_of_cons in N3 as [D34 _].
  split.
  - unfold pattern.
    rewrite lookup_insert_eq.
    rewrite (lookup_insert_ne _ (pin4 m) (pin3 m)), lookup_insert_eq by congruence.
    rewrite (lookup_insert_ne _ (pin4 m) (pin2 m)),
      (lookup_insert_ne _ (pin3 m) (pin2 m)), lookup_insert_eq by congruence.
    rewrite (lookup_insert_ne _ (pin4 m) (pin1 m)),
      (lookup_insert_ne _ (pin3 m) (pin1 m)),
      (lookup_insert_ne _ (pin2 m) (pin1 m)), lookup_insert_eq by congruence.
    reflexivity.
  - intros p Hp.
    apply not_elem_of_cons in Hp as [P1 Hp]. apply not_elem_of_cons in Hp as [P2 Hp].
    apply not_elem_of_cons in Hp as [P3 Hp]. apply not_elem_of_cons in Hp as [P4 _].
    rewrite !lookup_insert_ne by congruence. reflexivity.
Qed.

Lemma advance_enabled (a : nat) (d : stepper_direction_t) (w : world)
    (m : stepper_motor_t) :
  motors w !! a = Some m -> enabled m = true ->
  let step := next_step d (current_step m) in
  let w' := advance a d w in
  motors w' = <[a := set_current_step m step]> (motors w)
  /\ gpio w' = <[pin4 m := phase step 3]> (<[pin3 m := phase step 2]>
                 (<[pin2 m := phase step 1]> (<[pin1 m := phase step 0]> (gpio w))))
  /\ slept (trace w') = slept (trace w)
  /\ stepper_interrupt_flag w' = stepper_interrupt_flag w.
Proof.
  intros M E. cbv zeta. unfold advance. rewrite M.
  set (step := next_step d (current_step m)).
  set (m1 := set_current_step m step).
  destruct (stepper_apply_step_enabled a step
              (with_motors w (<[a := m1]> (motors w))) m1) as (M' & G' & S' & F').
  { cbn [with_motors motors]. apply lookup_insert_eq. }
  { exact E. }
  cbv zeta in *. rewrite M', G', S', F'.
  cbn [with_motors motors gpio trace stepper_interrupt_flag].
  rewrite insert_insert_eq. repeat split.
Qed.

(** Advancing motors changes phase indices only. *)
Lemma advance_settings (a : nat) (d : stepper_direction_t) (w : world) (b : nat) :
  settings <$> motors (advance a d w) !! b = settings <$> motors w !! b.
Proof.
  rewrite advance_motors. destruct (motors w !! a) as [m|] eqn:M; [|reflexivity].
  destruct (decide (b = a)) as [->|Hb].
  - rewrite lookup_insert_eq, M. reflexivity.
  - rewrite lookup_insert_ne by congruence. reflexivity.
Qed.

Lemma advance_all_settings (ptrs : list (option nat)) (d : stepper_direction_t) :
  forall (w : world) (b : nat),
    settings <$> motors (advance_all ptrs d w) !! b = settings <$> motors w !! b.
Proof.
  unfold advance_all. induction ptrs as [|p ptrs IH]; intros w b; cbn [foldl];
    [reflexivity|].
  rewrite IH. unfold advance_if_enabled. destruct p as [a|]; [|reflexivity].
  destruct (is_enabled a w); [apply advance_settings|reflexivity].
Qed.

Lemma advance_all_slept (ptrs : list (option nat)) (d : stepper_direction_t) :
  forall w : world, slept (trace (advance_all ptrs d w)) = slept (trace w).
Proof.
  unfold advance_all. induction ptrs as [|p ptrs IH]; intros w; cbn [foldl];
    [reflexivity|].
  rewrite IH. unfold advance_if_enabled, is_enabled. destruct p as [a|]; [|reflexivity].
  destruct (motors w !! a) as [m|] eqn:M; [|reflexivity].
  destruct (enabled m) eqn:E; [|reflexivity].
  apply (advance_enabled a d w m M E).
Qed.

Lemma pace_settings (ptrs : list (option nat)) (ms ms' : gmap nat stepper_motor_t) :
  (forall b, settings <$> ms' !! b = settings <$> ms !! b) ->
  pace ptrs ms' = pace ptrs ms.
Proof.
  intros Same. induction ptrs as [|[a|] ptrs IH]; cbn [pace]; auto.
  specialize (Same a).
  destruct (ms' !! a) as [m'|], (ms !! a) as [m|]; try discriminate; auto.
  cbn in Same. unfold settings in Same. injection Same as _ _ _ _ -> ->.
  rewrite IH. reflexivity.
Qed.

Lemma steps_of_degrees_nonneg (steps_per_revolution : Z) (degrees : float32) :
  0 <= steps_of_degrees steps_per_revolution degrees.
Proof.
  unfold steps_of_degrees, float_to_uint.
  destruct (f32_mul _ _) as [| [|] | | [|] m e]; try lia.
  assert (0 <= integral_part m e); [|lia].
  unfold integral_part. destruct (0 <=? e) eqn:E.
  - apply Z.leb_le in E. apply Z.mul_nonneg_nonneg; [lia|]. apply Z.pow_nonneg. lia.
  - apply Z.div_pos; [lia|]. apply Z.pow_pos_nonneg; [lia|].
    apply Z.leb_gt in E. lia.
Qed.

Lemma pace_nonneg (ptrs : list (option nat)) (ms : gmap nat stepper_motor_t) :
  0 <= pace ptrs ms.
Proof.
  induction ptrs as [|[a|] ptrs IH]; cbn [pace]; try lia.
  destruct (ms !! a) as [m|]; [|exact IH]. destruct (enabled m); lia.
Qed.

Section Quiet.

Variable env : nat -> option bool.
Variable STEPS_PER_REVOLUTION : Z.
Hypothesis env_undisturbed : undisturbed env.

Lemma read_flag_quiet (site : read_site) (w : world) :
  stepper_interrupt_flag w = false ->
  fst (read_flag env site w) = false
  /\ motors (snd (read_flag env site w)) = motors w
  /\ gpio (snd (read_flag env site w)) = gpio w
  /\ trace (snd (read_flag env site w)) = trace w
  /\ stepper_interrupt_flag (snd (read_flag env site w)) = false.
Proof.
  intros F. unfold read_flag. cbn [fst snd motors gpio trace stepper_interrupt_flag].
  rewrite env_undisturbed, F. repeat split.
Qed.

Lemma delay_chunks_quiet (remaining : nat) :
  forall w,
    stepper_interrupt_flag w = false ->
    let w' := delay_chunks env remaining w in
    motors w' = motors w /\ gpio w' = gpio w
    /\ trace w' = replicate remaining (EvSleep 1) ++ trace w
    /\ stepper_interrupt_flag w' = false.
Proof.
  induction remaining as [|remaining IH]; intros w F; cbv zeta.
  - cbn [delay_chunks]. auto.
  - cbn [delay_chunks].
    destruct (read_flag_quiet InDelay w F) as (F1 & M1 & G1 & T1 & F1').
    destruct (read_flag env InDelay w) as [f w1]. cbn [fst snd] in *. subst f.
    destruct (delay_chunk_is_one remaining) as [-> _].
    destruct (IH (sleep_ms 1 w1)) as (M2 & G2 & T2 & F2); [exact F1'|].
    cbv zeta in *. rewrite M2, G2, T2, F2.
    cbn [sleep_ms emit motors gpio trace]. rewrite M1, G1, T1.
    repeat split.
    change (EvSleep 1 :: trace w) with ([EvSleep 1] ++ trace w).
    rewrite app_assoc. f_equal.
    change [EvSleep 1] with (replicate 1 (EvSleep 1)).
    rewrite <- replicate_add. f_equal. lia.
Qed.

(** With the flag clear throughout, [stepper_move_steps] takes every step
    asked for. *)
Lemma move_steps_loop_quiet (a : nat) (d : stepper_direction_t) (steps : nat) :
  forall (w : world) (m : stepper_motor_t),
    stepper_interrupt_flag w = false ->
    motors w !! a = Some m -> enabled m = true ->
    let w' := move_steps_loop env steps a d w in
    let final := Nat.iter steps (next_step d) (current_step m) in
    motors w' = <[a := set_current_step m final]> (motors w)
    /\ stepper_interrupt_flag w' = false
    /\ slept (trace w')
       = slept (trace w) + Z.of_nat steps * Z.of_nat (Z.to_nat (step_delay m))
    /\ (NoDup (pins_of m) ->
        (steps <> O -> outputs w' m = pattern final)
        /\ forall p, p ∉ pins_of m -> gpio w' !! p = gpio w !! p).
Proof.
  induction steps as [|steps IH]; intros w m F M E; cbv zeta.
  - cbn [move_steps_loop].
    change (Nat.iter 0 (next_step d) (current_step m)) with (current_step m).
    rewrite set_current_step_same.
    rewrite insert_id by exact M. repeat split; auto; try lia; congruence.
  - cbn [move_steps_loop].
    destruct (read_flag_quiet AtStep w F) as (F1 & M1 & G1 & T1 & F1').
    destruct (read_flag env AtStep w) as [f w1]. cbn [fst snd] in *. subst f.
    rewrite <- M1 in M.
    destruct (advance_enabled a d w1 m M E) as (M2 & G2 & S2 & F2).
    cbv zeta in M2, G2, S2, F2.
    set (w2 := advance a d w1) in *.
    set (m1 := set_current_step m (next_step d (current_step m))) in *.
    assert (step_delay_of a w2 = step_delay m) as ->.
    { unfold step_delay_of. rewrite M2, lookup_insert_eq. reflexivity. }
    destruct (delay_chunks_quiet (Z.to_nat (step_delay m)) w2) as (M3 & G3 & T3 & F3);
      [congruence|].
    cbv zeta in M3, G3, T3, F3.
    set (w3 := delay_chunks env (Z.to_nat (step_delay m)) w2) in *.
    destruct (read_flag_quiet AfterDelay w3 F3) as (F4 & M4 & G4 & T4 & F4').
    destruct (read_flag env AfterDelay w3) as [f w4]. cbn [fst snd] in *. subst f.
    destruct (IH w4 m1 F4') as (M5 & F5 & S5 & P5); [| exact E |].
    { rewrite M4, M3, M2. apply lookup_insert_eq. }
    cbv zeta in M5, F5, S5, P5.
    set (w5 := move_steps_loop env steps a d w4) in *.
    assert (Nat.iter steps (next_step d) (current_step m1)
            = Nat.iter (S steps) (next_step d) (current_step m)) as Final.
    { unfold m1. cbn [set_current_step current_step].
      rewrite <- Nat.iter_succ_r. reflexivity. }
    rewrite Final in *.
    split.
    { rewrite M5, M4, M3, M2, M1, insert_insert_eq. reflexivity. }
    split; [exact F5|]. split.
    { rewrite S5, T4, T3, slept_sleeps, S2, T1. cbn [step_delay set_current_step m1].
      lia. }
    intros N. destruct (P5 N) as [Out Frame].
    destruct (row_on_pins (gpio w1) m (next_step d (current_step m)) N)
      as [Row Other].
    cbv zeta in Row, Other. rewrite <- G2 in Row, Other.
    split.
    + intros _. destruct steps as [|steps']; [|apply Out; discriminate].
      cbn [move_steps_loop] in w5. subst w5. unfold outputs.
      rewrite G4, G3. exact Row.
    + intros p Hp. rewrite (Frame p Hp), G4, G3, (Other p Hp), G1. reflexivity.
Qed.

Lemma delay_first_enabled_quiet (ptrs : list (option nat)) :
  forall w,
    stepper_interrupt_flag w = false ->
    let w' := delay_first_enabled env ptrs w in
    motors w' = motors w /\ gpio w' = gpio w
    /\ trace w'
       = replicate (Z.to_nat (pace ptrs (motors w))) (EvSleep 1) ++ trace w
    /\ stepper_interrupt_flag w' = false.
Proof.
  induction ptrs as [|[a|] ptrs IH]; intros w F; cbv zeta;
    cbn [delay_first_enabled pace]; auto.
  unfold is_enabled, step_delay_of.
  destruct (motors w !! a) as [m|]; [|apply IH; exact F].
  destruct (enabled m); [|apply IH; exact F].
  replace (Z.to_nat (Z.max 0 (step_delay m))) with (Z.to_nat (step_delay m)) by lia.
  apply delay_chunks_quiet. exact F.
Qed.

(** With the flag clear throughout, a group rotation keeps it clear and
    sleeps the pace of the group at every step. *)
Lemma rotate_loop_quiet (ptrs : list (option nat)) (d : stepper_direction_t)
    (steps : nat) :
  forall w,
    stepper_interrupt_flag w = false ->
    let w' := rotate_loop env steps ptrs d w in
    stepper_interrupt_flag w' = false
    /\ slept (trace w')
       = slept (trace w) + Z.of_nat steps * pace ptrs (motors w)
    /\ forall b, settings <$> motors w' !! b = settings <$> motors w !! b.
Proof.
  induction steps as [|steps IH]; intros w F; cbv zeta; cbn [rotate_loop].
  - split; [exact F|]. split; [lia|reflexivity].
  - destruct (read_flag_quiet AtStep w F) as (F1 & M1 & G1 & T1 & F1').
    destruct (read_flag env AtStep w) as [f w1]. cbn [fst snd] in *. subst f.
    destruct (advance_all_frame ptrs d w1) as (_ & _ & F2). cbv zeta in F2.
    pose proof (advance_all_slept ptrs d w1) as S2.
    pose proof (advance_all_settings ptrs d w1) as C2.
    set (w2 := advance_all ptrs d w1) in *.
    destruct (delay_first_enabled_quiet ptrs w2) as (M3 & G3 & T3 & F3);
      [congruence|].
    cbv zeta in M3, G3, T3, F3.
    set (w3 := delay_first_enabled env ptrs w2) in *.
    destruct (read_flag_quiet AfterDelay w3 F3) as (F4 & M4 & G4 & T4 & F4').
    destruct (read_flag env AfterDelay w3) as [f w4]. cbn [fst snd] in *. subst f.
    destruct (IH w4 F4') as (F5 & S5 & C5). cbv zeta in F5, S5, C5.
    assert (forall b, settings <$> motors w4 !! b = settings <$> motors w !! b)
      as C4 by (intros b; rewrite M4, M3, C2, M1; reflexivity).
    split; [exact F5|]. split.
    + rewrite S5, T4, T3, slept_sleeps, S2, T1.
      rewrite (pace_settings ptrs (motors w) (motors w4) C4).
      rewrite (pace_settings ptrs (motors w1) (motors w2) C2), M1.
      assert (0 <= pace ptrs (motors w)).
      { clear. induction ptrs as [|[a|] ptrs IH]; cbn [pace]; try lia.
        destruct (motors w !! a) as [m|]; [|exact IH].
        destruct (enabled m); lia. }
      lia.
    + intros b. rewrite C5. apply C4.
Qed.

(** X9. With the cancellation flag clear and nothing raising it,
    [stepper_move_steps] on an enabled motor takes every step asked for: the
    phase index ends at [(current_step + steps) mod 8] clockwise and
    [(current_step - steps) mod 8] counter-clockwise, the four pins (when
    they are four different pins) show that row of the half-step table, no
    other pin and no other motor is touched, and a multiple of eight steps
    brings the motor back to the phase it started from. *)
Theorem move_steps_position (a : nat) (steps : Z) (d : stepper_direction_t)
    (w : world) (m : stepper_motor_t) :
  stepper_interrupt_flag w = false ->
  motors w !! a = Some m -> enabled m = true ->
  0 <= current_step m <= 7 -> 0 <= steps -> NoDup (pins_of m) ->
  let w' := stepper_move_steps env (Some a) steps d w in
  let final :=
    match d with
    | STEPPER_CW => (current_step m + steps) mod 8
    | STEPPER_CCW => (current_step m - steps) mod 8
    end in
  motors w' = <[a := set_current_step m final]> (motors w)
  /\ stepper_get_position (Some a) w' = final
  /\ (0 < steps -> outputs w' m = pattern final)
  /\ (forall p, p ∉ pins_of m -> gpio w' !! p = gpio w !! p)
  /\ (steps mod 8 = 0 -> motors w' = motors w)
  /\ stepper_interrupt_flag w' = false.
Proof.
  intros F M E R S N. cbv zeta.
  unfold stepper_move_steps, is_enabled. rewrite M, E.
  destruct (move_steps_loop_quiet a d (Z.to_nat steps) w m F M E)
    as (M' & F' & _ & P).
  cbv zeta in M', F', P. destruct (P N) as [Out Frame].
  assert (Nat.iter (Z.to_nat steps) (next_step d) (current_step m)
          = match d with
            | STEPPER_CW => (current_step m + steps) mod 8
            | STEPPER_CCW => (current_step m - steps) mod 8
            end) as Final.
  { destruct (iter_next_step (Z.to_nat steps) (current_step m) R) as [CW CCW].
    rewrite Z2Nat.id in CW, CCW by exact S. destruct d; assumption. }
  rewrite Final in *.
  split; [exact M'|]. split.
  { unfold stepper_get_position. rewrite M', lookup_insert_eq. reflexivity. }
  split; [intros Pos; apply Out; lia|]. split; [exact Frame|].
  split; [|exact F'].
  intros Whole. rewrite M'.
  assert (match d with
          | STEPPER_CW => (current_step m + steps) mod 8
          | STEPPER_CCW => (current_step m - steps) mod 8
          end = current_step m) as ->.
  { destruct d; Z.to_euclidean_division_equations; lia. }
  rewrite set_current_step_same. apply insert_id. exact M.
Qed.

(** X10. With the cancellation flag clear and nothing raising it, a group
    rotation sleeps, in all, its step count times the delay of the first
    listed motor that is not null and is enabled; the delays of the other
    motors play no part, and with no enabled motor in the list it does not
    sleep at all.  [stepper_move_steps] sleeps its step count times the
    delay of its motor. *)
Theorem rotation_pace (ptrs : list (option nat)) (num_motors : Z)
    (degrees : float32) (d : stepper_direction_t) (w : world) :
  stepper_interrupt_flag w = false ->
  let group := take (Z.to_nat num_motors) ptrs in
  let steps := steps_of_degrees STEPS_PER_REVOLUTION degrees in
  slept (trace (stepper_rotate_multiple_degrees env STEPS_PER_REVOLUTION
                  (Some ptrs) num_motors degrees d w))
  = slept (trace w) + steps * pace group (motors w)
  /\ ((forall a, Some a ∈ group -> is_enabled a w = false) ->
      pace group (motors w) = 0)
  /\ forall (a : nat) (m : stepper_motor_t) (count : Z),
       motors w !! a = Some m -> enabled m = true -> 0 <= count ->
       (forall others, pace (Some a :: others) (motors w) = Z.max 0 (step_delay m))
       /\ slept (trace (stepper_move_steps env (Some a) count d w))
          = slept (trace w) + count * Z.max 0 (step_delay m).
Proof.
  intros F group steps. split; [|split].
  - unfold stepper_rotate_multiple_degrees.
    destruct (num_motors =? 0) eqn:Z0.
    + apply Z.eqb_eq in Z0. subst group. rewrite Z0.
      change (Z.to_nat 0) with O. rewrite take_0. cbn [pace]. lia.
    + destruct (rotate_loop_quiet group d (Z.to_nat steps) w F) as (_ & S & _).
      cbv zeta in S. fold steps group. rewrite S, Z2Nat.id; [reflexivity|].
      apply steps_of_degrees_nonneg.
  - intros Off. induction group as [|[a|] group IH]; cbn [pace]; auto.
    + assert (is_enabled a w = false) as E by (apply Off; left).
      unfold is_enabled in E. destruct (motors w !! a) as [m|].
      * rewrite E. apply IH. intros b Hb. apply Off. right. exact Hb.
      * apply IH. intros b Hb. apply Off. right. exact Hb.
    + apply IH. intros b Hb. apply Off. right. exact Hb.
  - intros a m count M E C. split.
    + intros others. cbn [pace]. rewrite M, E. reflexivity.
    + unfold stepper_move_steps, is_enabled. rewrite M, E.
      destruct (move_steps_loop_quiet a d (Z.to_nat count) w m F M E)
        as (_ & _ & S & _).
      cbv zeta in S. rewrite S. lia.
Qed.

Lemma pause_chunks_quiet (fuel : nat) :
  forall (remaining_ms : Z) (w : world),
    remaining_ms <= Z.of_nat fuel ->
    stepper_interrupt_flag w = false ->
    let w' := pause_chunks env fuel remaining_ms w in
    motors w' = motors w /\ gpio w' = gpio w
    /\ stepper_interrupt_flag w' = false
    /\ slept (trace w') = slept (trace w) + Z.max 0 remaining_ms.
Proof.
  induction fuel as [|fuel IH]; intros remaining_ms w Fuel F; cbv zeta;
    cbn [pause_chunks].
  - repeat split; auto. lia.
  - destruct (0 <? remaining_ms) eqn:Pos;
      [apply Z.ltb_lt in Pos|apply Z.ltb_ge in Pos; repeat split; auto; lia].
    destruct (read_flag_quiet InDelay w F) as (F1 & M1 & G1 & T1 & F1').
    destruct (read_flag env InDelay w) as [f w1]. cbn [fst snd] in *. subst f.
    set (chunk_ms := if 10 <? remaining_ms then 10 else remaining_ms).
    assert (1 <= chunk_ms <= remaining_ms) as Chunk.
    { unfold chunk_ms. destruct (10 <? remaining_ms) eqn:Big;
        [apply Z.ltb_lt in Big|apply Z.ltb_ge in Big]; lia. }
    destruct (IH (remaining_ms - chunk_ms) (sleep_ms chunk_ms w1))
      as (M2 & G2 & F2 & S2); [lia|exact F1'|].
    cbv zeta in M2, G2, F2, S2. rewrite M2, G2, F2, S2.
    cbn [sleep_ms emit motors gpio trace slept]. rewrite M1, G1, T1.
    repeat split. lia.
Qed.

(** Stepping forth and back by the same count. *)
Lemma after_steps_back (n : nat) (l : bool) (m : stepper_motor_t) :
  0 <= current_step m <= 7 ->
  after_steps STEPPER_CCW n l (after_steps STEPPER_CW n l m) = m.
Proof.
  intros R. unfold after_steps. destruct (enabled m && l) eqn:E; [|now rewrite E].
  cbn [set_current_step enabled current_step]. rewrite E.
  destruct (iter_next_step n (current_step m) R) as [-> _].
  destruct (iter_next_step n ((current_step m + Z.of_nat n) mod 8)) as [_ ->].
  { pose proof (Z.mod_pos_bound (current_step m + Z.of_nat n) 8). lia. }
  assert (((current_step m + Z.of_nat n) mod 8 - Z.of_nat n) mod 8
          = current_step m) as ->
    by (Z.to_euclidean_division_equations; lia).
  destruct m. reflexivity.
Qed.

(** X11. With the cancellation flag clear and nothing raising it,
    [stepper_demo_sequence] brings every motor back to the phase it started
    from: the counter-clockwise rotation undoes the clockwise one.  The
    sequence sleeps both pauses in full besides the step delays of the two
    rotations. *)
Theorem demo_sequence_round_trip (ptrs : list (option nat)) (num_motors : Z)
    (degrees : float32) (pause_ms : Z) (w : world) :
  stepper_interrupt_flag w = false ->
  NoDup (omap id (take (Z.to_nat num_motors) ptrs)) ->
  phases_in_range (motors w) ->
  let w' := stepper_demo_sequence env STEPS_PER_REVOLUTION
              (Some ptrs) num_motors degrees pause_ms w in
  let group := take (Z.to_nat num_motors) ptrs in
  let steps := steps_of_degrees STEPS_PER_REVOLUTION degrees in
  motors w' = motors w
  /\ stepper_interrupt_flag w' = false
  /\ slept (trace w')
     = slept (trace w)
       + (if num_motors =? 0 then 0
          else 2 * steps * pace group (motors w) + 2 * Z.max 0 pause_ms).
Proof.
  intros F N R. cbv zeta. unfold stepper_demo_sequence.
  destruct (num_motors =? 0) eqn:Z0; [repeat split; auto; lia|].
  unfold stepper_rotate_multiple_degrees. rewrite Z0.
  set (group := take (Z.to_nat num_motors) ptrs) in *.
  set (steps := steps_of_degrees STEPS_PER_REVOLUTION degrees).
  pose proof (steps_of_degrees_nonneg STEPS_PER_REVOLUTION degrees) as Pos.
  fold steps in Pos.
  (* clockwise *)
  destruct (rotate_loop_quiet group STEPPER_CW (Z.to_nat steps) w F)
    as (F1 & S1 & C1).
  pose proof (fun a => rotate_loop_count env env_undisturbed STEPPER_CW group N
                         (Z.to_nat steps) w a F) as M1.
  cbv zeta in F1, S1, C1.
  set (w1 := rotate_loop env (Z.to_nat steps) group STEPPER_CW w) in *.
  destruct (read_flag_quiet Query w1 F1) as (Q1 & M2 & _ & T2 & F2).
  destruct (read_flag env Query w1) as [f w2]. cbn [fst snd] in *. subst f.
  (* first pause *)
  destruct (pause_chunks_quiet (Z.to_nat pause_ms) pause_ms w2 ltac:(lia) F2)
    as (M3 & _ & F3 & S3).
  cbv zeta in M3, F3, S3. unfold interruptible_pause.
  set (w3 := pause_chunks env (Z.to_nat pause_ms) pause_ms w2) in *.
  destruct (read_flag_quiet Query w3 F3) as (Q3 & M4 & _ & T4 & F4).
  destruct (read_flag env Query w3) as [f w4]. cbn [fst snd] in *. subst f.
  (* counter-clockwise *)
  destruct (rotate_loop_quiet group STEPPER_CCW (Z.to_nat steps) w4 F4)
    as (F5 & S5 & C5).
  pose proof (fun a => rotate_loop_count env env_undisturbed STEPPER_CCW group N
                         (Z.to_nat steps) w4 a F4) as M5.
  cbv zeta in F5, S5, C5.
  set (w5 := rotate_loop env (Z.to_nat steps) group STEPPER_CCW w4) in *.
  destruct (read_flag_quiet Query w5 F5) as (Q5 & M6 & _ & T6 & F6).
  destruct (read_flag env Query w5) as [f w6]. cbn [fst snd] in *. subst f.
  (* second pause *)
  destruct (pause_chunks_quiet (Z.to_nat pause_ms) pause_ms w6 ltac:(lia) F6)
    as (M7 & _ & F7 & S7).
  cbv zeta in M7, F7, S7.
  split; [|split; [exact F7|]].
  - apply map_eq. intros a. rewrite M7, M6, M5, M4, M3, M2, M1.
    destruct (motors w !! a) as [m|] eqn:M; [|reflexivity].
    cbn [fmap option_fmap option_map]. f_equal.
    apply after_steps_back. exact (R a m M).
  - rewrite S7, T6, S5, T4, S3, T2, S1.
    assert (pace group (motors w4) = pace group (motors w)) as ->.
    { apply pace_settings. intros b. rewrite M4, M3, M2. apply C1. }
    rewrite Z2Nat.id by exact Pos. lia.
Qed.

End Quiet.

Section Single.

Variable env : nat -> option bool.
Variable STEPS_PER_REVOLUTION : Z.

Lemma is_enabled_settings (a : nat) (w w' : world) :
  settings <$> motors w' !! a = settings <$> motors w !! a ->
  is_enabled a w' = is_enabled a w.
Proof.
  unfold is_enabled. intros H.
  destruct (motors w' !! a) as [m'|], (motors w !! a) as [m|];
    try discriminate; auto.
  cbn in H. unfold settings in H. now injection H.
Qed.

(** The loop of [stepper_move_steps] on an enabled motor is the loop of the
    group rotation on the group of that one motor. *)
Lemma move_steps_loop_as_group (a : nat) (d : stepper_direction_t) (steps : nat) :
  forall w,
    is_enabled a w = true ->
    move_steps_loop env steps a d w = rotate_loop env steps [Some a] d w.
Proof.
  induction steps as [|steps IH]; intros w E; cbn [move_steps_loop rotate_loop];
    [reflexivity|].
  pose proof (read_flag_spec env AtStep w) as R.
  destruct (read_flag env AtStep w) as [f w1].
  destruct R as (_ & M1 & _). destruct f; [reflexivity|].
  assert (is_enabled a w1 = true) as E1
    by (unfold is_enabled in *; rewrite M1; exact E).
  unfold advance_all. cbn [foldl advance_if_enabled]. rewrite E1.
  pose proof (advance_settings a d w1 a) as C2.
  set (w2 := advance a d w1) in *.
  assert (is_enabled a w2 = true) as E2
    by (rewrite (is_enabled_settings a w1 w2 C2); exact E1).
  cbn [delay_first_enabled]. rewrite E2.
  destruct (delay_chunks_spec env (Z.to_nat (step_delay_of a w2)) w2) as (M3 & _).
  cbv zeta in M3.
  set (w3 := delay_chunks env (Z.to_nat (step_delay_of a w2)) w2) in *.
  pose proof (read_flag_spec env AfterDelay w3) as R4.
  destruct (read_flag env AfterDelay w3) as [f4 w4].
  destruct R4 as (_ & M4 & _). destruct f4; [reflexivity|].
  apply IH. unfold is_enabled in *. rewrite M4, M3. exact E2.
Qed.

(** X12. On an enabled motor [stepper_rotate_degrees] does exactly what
    [stepper_rotate_multiple_degrees] does on the group of that one motor,
    and [stepper_move_steps] runs the same loop.  So cancellation works the
    same way: with the flag set at the start nothing moves, and after a
    read that found the flag set nothing moves any more. *)
Theorem single_motor_as_group (a : nat) (degrees : float32) (steps : Z)
    (d : stepper_direction_t) (w : world) :
  is_enabled a w = true ->
  let moved := stepper_move_steps env (Some a) steps d w in
  stepper_rotate_degrees env STEPS_PER_REVOLUTION (Some a) degrees d w
  = stepper_rotate_multiple_degrees env STEPS_PER_REVOLUTION
      (Some [Some a]) 1 degrees d w
  /\ moved = rotate_loop env (Z.to_nat steps) [Some a] d w
  /\ (stepper_interrupt_flag w = true -> env (reads w) <> Some false ->
      motors moved = motors w /\ gpio moved = gpio w /\ trace moved = trace w)
  /\ exists new,
       observed moved = new ++ observed w
       /\ forall site ms tr,
            (site, true, ms, tr) ∈ new ->
            site <> InDelay \/ level_triggered env ->
            motors moved = ms /\ trace moved = tr.
Proof.
  intros E. cbv zeta.
  assert (forall count,
            stepper_move_steps env (Some a) count d w
            = rotate_loop env (Z.to_nat count) [Some a] d w) as Same.
  { intros count. unfold stepper_move_steps. rewrite E.
    apply move_steps_loop_as_group. exact E. }
  split.
  { unfold stepper_rotate_degrees, stepper_rotate_multiple_degrees.
    rewrite E, Same. reflexivity. }
  split; [apply Same|]. rewrite Same. split.
  - intros F L. apply rotate_loop_cancelled; assumption.
  - apply rotate_loop_frozen.
Qed.

(** A group rotation over motors that are all disabled only polls the
    flag. *)
Lemma rotate_loop_idle (ptrs : list (option nat)) (d : stepper_direction_t)
    (steps : nat) :
  forall w,
    (forall a, Some a ∈ ptrs -> is_enabled a w = false) ->
    let w' := rotate_loop env steps ptrs d w in
    motors w' = motors w /\ gpio w' = gpio w /\ trace w' = trace w.
Proof.
  assert (forall v, (forall a, Some a ∈ ptrs -> is_enabled a v = false) ->
                    advance_all ptrs d v = v
                    /\ delay_first_enabled env ptrs v = v) as Idle.
  { intros v. unfold advance_all. induction ptrs as [|[a|] ptrs IH]; intros Off;
      cbn [foldl advance_if_enabled delay_first_enabled]; auto.
    - rewrite (Off a) by left. apply IH. intros b Hb. apply Off. right. exact Hb.
    - apply IH. intros b Hb. apply Off. right. exact Hb. }
  induction steps as [|steps IH]; intros w Off; cbv zeta; cbn [rotate_loop]; auto.
  pose proof (read_flag_spec env AtStep w) as R.
  destruct (read_flag env AtStep w) as [f w1].
  destruct R as (_ & M1 & G1 & T1 & _). destruct f; [auto|].
  assert (forall a, Some a ∈ ptrs -> is_enabled a w1 = false) as Off1
    by (intros b Hb; unfold is_enabled; rewrite M1; apply (Off b Hb)).
  destruct (Idle w1 Off1) as [I1 I2]. rewrite I1, I2.
  pose proof (read_flag_spec env AfterDelay w1) as R4.
  destruct (read_flag env AfterDelay w1) as [f4 w4].
  destruct R4 as (_ & M4 & G4 & T4 & _).
  destruct f4; [rewrite M4, G4, T4; auto|].
  destruct (IH w4) as (M5 & G5 & T5).
  { intros b Hb. unfold is_enabled. rewrite M4. apply (Off1 b Hb). }
  cbv zeta in *. rewrite M5, G5, T5, M4, G4, T4. auto.
Qed.

(** X13. Motors stopped by [stepper_emergency_stop_all] stay stopped: a
    group rotation over them afterwards moves no motor, writes no pin and
    does not sleep, whatever happens to the cancellation flag, and
    [stepper_move_steps] and [stepper_rotate_degrees] on one of them change
    nothing at all. *)
Theorem stopped_motors_stay_stopped (base : nat) (num_stopped : Z)
    (ptrs : list (option nat)) (num_motors : Z) (degrees : float32)
    (d : stepper_direction_t) (w : world) :
  (forall a, Some a ∈ take (Z.to_nat num_motors) ptrs ->
             (base <= a < base + Z.to_nat num_stopped)%nat) ->
  let stopped := stepper_emergency_stop_all (Some base) num_stopped w in
  let w' := stepper_rotate_multiple_degrees env STEPS_PER_REVOLUTION
              (Some ptrs) num_motors degrees d stopped in
  motors w' = motors stopped /\ gpio w' = gpio stopped
  /\ trace w' = trace stopped
  /\ forall a steps,
       (base <= a < base + Z.to_nat num_stopped)%nat ->
       stepper_move_steps env (Some a) steps d stopped = stopped
       /\ stepper_rotate_degrees env STEPS_PER_REVOLUTION (Some a) degrees d stopped
          = stopped.
Proof.
  intros Within. cbv zeta.
  set (stopped := stepper_emergency_stop_all (Some base) num_stopped w).
  assert (forall a, (base <= a < base + Z.to_nat num_stopped)%nat ->
                    is_enabled a stopped = false) as Off.
  { intros a Ha. unfold stopped, stepper_emergency_stop_all, is_enabled.
    destruct (stop_all_spec (seq base (Z.to_nat num_stopped)) w) as (M & _).
    rewrite M. rewrite decide_True by (apply elem_of_seq; lia).
    destruct (motors w !! a) as [m|]; reflexivity. }
  assert (motors (stepper_rotate_multiple_degrees env STEPS_PER_REVOLUTION
                    (Some ptrs) num_motors degrees d stopped) = motors stopped
          /\ gpio (stepper_rotate_multiple_degrees env STEPS_PER_REVOLUTION
                     (Some ptrs) num_motors degrees d stopped) = gpio stopped
          /\ trace (stepper_rotate_multiple_degrees env STEPS_PER_REVOLUTION
                      (Some ptrs) num_motors degrees d stopped) = trace stopped)
    as (M & G & T).
  { unfold stepper_rotate_multiple_degrees. destruct (num_motors =? 0); [auto|].
    apply rotate_loop_idle. intros a Ha. apply Off, Within, Ha. }
  split; [exact M|]. split; [exact G|]. split; [exact T|].
  intros a steps Ha. unfold stepper_rotate_degrees, stepper_move_steps.
  rewrite (Off a Ha). auto.
Qed.

End Single.

(** X14. [stepper_disable] marks the motor disabled and drives its four
    pins low; [stepper_enable] afterwards marks it enabled again and puts
    the row of its phase index back on the pins.  For a motor that was
    enabled the two calls together restore the motor structure, and no
    other pin and no other motor is touched. *)
Theorem disable_enable_round_trip (a : nat) (w : world) (m : stepper_motor_t) :
  motors w !! a = Some m -> NoDup (pins_of m) ->
  let off := stepper_disable (Some a) w in
  let on := stepper_enable (Some a) off in
  motors off = <[a := set_enabled m false]> (motors w)
  /\ outputs off m = [Some false; Some false; Some false; Some false]
  /\ motors on = <[a := set_enabled m true]> (motors w)
  /\ outputs on m = pattern (current_step m)
  /\ (enabled m = true -> motors on = motors w)
  /\ forall p, p ∉ pins_of m ->
       gpio off !! p = gpio w !! p /\ gpio on !! p = gpio w !! p.
Proof.
  intros M N. cbv zeta.
  assert (forall (g : gmap Z bool) (l1 l2 l3 l4 : bool),
            let g' := <[pin4 m := l4]> (<[pin3 m := l3]>
                        (<[pin2 m := l2]> (<[pin1 m := l1]> g))) in
            [g' !! pin1 m; g' !! pin2 m; g' !! pin3 m; g' !! pin4 m]
            = [Some l1; Some l2; Some l3; Some l4]
            /\ forall p, p ∉ pins_of m -> g' !! p = g !! p) as Pins.
  { intros g l1 l2 l3 l4. cbv zeta. revert N. unfold pins_of. intros N.
    apply NoDup_cons in N as [N1 N]. apply NoDup_cons in N as [N2 N].
    apply NoDup_cons in N as [N3 _].
    apply not_elem_of_cons in N1 as [D12 N1]. apply not_elem_of_cons in N1 as [D13 N1].
    apply not_elem_of_cons in N1 as [D14 _].
    apply not_elem_of_cons in N2 as [D23 N2]. apply not_elem_of_cons in N2 as [D24 _].
    apply not_elem_of_cons in N3 as [D34 _].
    split.
    - rewrite lookup_insert_eq.
      rewrite (lookup_insert_ne _ (pin4 m) (pin3 m)), lookup_insert_eq by congruence.
      rewrite (lookup_insert_ne _ (pin4 m) (pin2 m)),
        (lookup_insert_ne _ (pin3 m) (pin2 m)), lookup_insert_eq by congruence.
      rewrite (lookup_insert_ne _ (pin4 m) (pin1 m)),
        (lookup_insert_ne _ (pin3 m) (pin1 m)),
        (lookup_insert_ne _ (pin2 m) (pin1 m)), lookup_insert_eq by congruence.
      reflexivity.
    - intros p Hp.
      apply not_elem_of_cons in Hp as [P1 Hp]. apply not_elem_of_cons in Hp as [P2 Hp].
      apply not_elem_of_cons in Hp as [P3 Hp]. apply not_elem_of_cons in Hp as [P4 _].
      rewrite !lookup_insert_ne by congruence. reflexivity. }
  unfold stepper_disable. rewrite M.
  set (off := gpio_put (pin4 m) false _).
  assert (motors off = <[a := set_enabled m false]> (motors w)) as Moff
    by reflexivity.
  assert (gpio off = <[pin4 m := false]> (<[pin3 m := false]>
                       (<[pin2 m := false]> (<[pin1 m := false]> (gpio w)))))
    as Goff by reflexivity.
  unfold stepper_enable. rewrite Moff, lookup_insert_eq.
  destruct (stepper_apply_step_enabled a (current_step (set_enabled m false))
              (with_motors off (<[a := set_enabled (set_enabled m false) true]>
                                  (motors off)))
              (set_enabled (set_enabled m false) true))
    as (Mon & Gon & _).
  { cbn [with_motors motors]. apply lookup_insert_eq. }
  { reflexivity. }
  cbv zeta in Mon, Gon.
  set (on := stepper_apply_step a _ _) in *.
  cbn [with_motors motors gpio set_enabled set_current_step current_step
       pin1 pin2 pin3 pin4 step_delay enabled] in Mon, Gon.
  rewrite insert_insert_eq, Moff, insert_insert_eq in Mon.
  destruct (Pins (gpio w) false false false false) as [Low Other1].
  destruct (Pins (gpio off) (phase (current_step m) 0) (phase (current_step m) 1)
                 (phase (current_step m) 2) (phase (current_step m) 3))
    as [Row Other2].
  cbv zeta in Low, Other1, Row, Other2. rewrite <- Goff in Low, Other1.
  rewrite <- Gon in Row, Other2.
  split; [exact Moff|]. split; [exact Low|]. split.
  { rewrite Mon. destruct m; reflexivity. }
  split; [exact Row|]. split.
  { intros E. rewrite Mon.
    assert (set_current_step (set_enabled (set_enabled m false) true) (current_step m)
            = m) as -> by (clear - E; destruct m; cbn in *; subst; reflexivity).
    apply insert_id. exact M. }
  intros p Hp. split; [apply Other1; exact Hp|].
  rewrite (Other2 p Hp). apply Other1. exact Hp.
Qed.

(** ** The motors of the application *)

(** The pin table gives every motor four pins of its own. *)
Lemma stepper_pins_apart (i j : nat) :
  (i < 4)%nat -> (j < 4)%nat ->
  NoDup (pins_of (configured i))
  /\ (i <> j -> forall p, p ∈ pins_of (configured i) -> p ∉ pins_of (configured j)).
Proof.
  intros Hi Hj.
  assert (forall l : list Z, bool_decide (NoDup l) = true -> NoDup l) as Dec
    by (intros l H; apply bool_decide_eq_true in H; exact H).
  destruct i as [|[|[|[|i]]]]; try lia;
    (split; [apply Dec; vm_compute; reflexivity|]);
    destruct j as [|[|[|[|j]]]]; try lia; intros Ne p Hp; try congruence;
    vm_compute in Hp |- *;
    repeat (apply elem_of_cons in Hp as [->|Hp]);
    try (apply elem_of_nil in Hp; contradiction);
    intros Hq; repeat (apply elem_of_cons in Hq as [Hq|Hq]; [discriminate|]);
    apply elem_of_nil in Hq; contradiction.
Qed.

Lemma stepper_init_spec (a : nat) (p1 p2 p3 p4 delay : Z) (w : world) :
  let m := {| pin1 := p1; pin2 := p2; pin3 := p3; pin4 := p4;
              step_delay := delay; current_step := 0; enabled := true |} in
  let w' := snd (stepper_init (Some a) p1 p2 p3 p4 delay w) in
  fst (stepper_init (Some a) p1 p2 p3 p4 delay w) = true
  /\ motors w' = <[a := m]> (motors w)
  /\ gpio w' = <[p4 := phase 0 3]> (<[p3 := phase 0 2]>
                 (<[p2 := phase 0 1]> (<[p1 := phase 0 0]> (gpio w))))
  /\ stepper_interrupt_flag w' = stepper_interrupt_flag w.
Proof.
  cbv zeta. unfold stepper_init. cbn [fst snd].
  set (m := {| pin1 := p1; pin2 := p2; pin3 := p3; pin4 := p4;
               step_delay := delay; current_step := 0; enabled := true |}).
  match goal with |- context [stepper_apply_step a 0 ?v] =>
    destruct (stepper_apply_step_enabled a 0 v m) as (M & G & _ & F)
  end.
  { cbn [gpio_set_dir_out gpio_init emit with_motors motors].
    apply lookup_insert_eq. }
  { reflexivity. }
  cbv zeta in M, G, F. rewrite M, G, F.
  cbn [gpio_set_dir_out gpio_init emit with_motors motors gpio
       stepper_interrupt_flag pin1 pin2 pin3 pin4].
  rewrite insert_insert_eq. repeat split.
Qed.

Lemma init_steppers_from_spec (steppers count : nat) :
  forall (i : nat) (w : world),
    (i + count <= 4)%nat ->
    let r := App.init_steppers_from steppers i count w in
    fst r = true
    /\ (forall j, (i <= j < i + count)%nat ->
          motors (snd r) !! (steppers + j)%nat = Some (configured j)
          /\ outputs (snd r) (configured j) = pattern 0)
    /\ (forall a, ~ (steppers + i <= a < steppers + i + count)%nat ->
          motors (snd r) !! a = motors w !! a)
    /\ (forall p, (forall j, (i <= j < i + count)%nat -> p ∉ pins_of (configured j)) ->
          gpio (snd r) !! p = gpio w !! p)
    /\ stepper_interrupt_flag (snd r) = stepper_interrupt_flag w.
Proof.
  induction count as [|count IH]; intros i w Le; cbv zeta.
  - cbn [App.init_steppers_from fst snd]. split; [reflexivity|].
    split; [intros j Hj; lia|]. auto.
  - cbn [App.init_steppers_from].
    destruct (stepper_init_spec (steppers + i) (App.stepper_pin i 0)
                (App.stepper_pin i 1) (App.stepper_pin i 2) (App.stepper_pin i 3)
                App.STEPPER_DELAY_MS w) as (Ok & M1 & G1 & F1).
    cbv zeta in M1, G1, F1. fold (configured i) in M1.
    destruct (stepper_init _ _ _ _ _ _ w) as [ok w1]. cbn [fst snd] in *.
    subst ok.
    destruct (IH (S i) w1 ltac:(lia)) as (Ok' & Cfg' & Frame' & Pins' & F').
    cbv zeta in Ok', Cfg', Frame', Pins', F'.
    set (r := App.init_steppers_from steppers (S i) count w1) in *.
    destruct (stepper_pins_apart i i ltac:(lia) ltac:(lia)) as [N _].
    destruct (row_on_pins (gpio w) (configured i) 0 N) as [Row Other].
    cbv zeta in Row, Other.
    change (pin1 (configured i)) with (App.stepper_pin i 0) in Row, Other.
    change (pin2 (configured i)) with (App.stepper_pin i 1) in Row, Other.
    change (pin3 (configured i)) with (App.stepper_pin i 2) in Row, Other.
    change (pin4 (configured i)) with (App.stepper_pin i 3) in Row, Other.
    rewrite <- G1 in Row, Other.
    split; [exact Ok'|]. split; [|split; [|split]].
    + intros j Hj. destruct (decide (j = i)) as [->|Ne].
      * split.
        -- rewrite Frame' by lia. rewrite M1. apply lookup_insert_eq.
        -- unfold outputs.
           assert (forall p, p ∈ pins_of (configured i) ->
                             gpio (snd r) !! p = gpio w1 !! p) as Kept.
           { intros p Hp. apply Pins'. intros j Hj'.
             apply (stepper_pins_apart i j ltac:(lia) ltac:(lia)); [lia|exact Hp]. }
           rewrite !Kept by (unfold pins_of; repeat constructor). exact Row.
      * apply Cfg'. lia.
    + intros a Ha. rewrite Frame' by lia. rewrite M1.
      apply lookup_insert_ne. lia.
    + intros p Hp. rewrite Pins' by (intros j Hj; apply Hp; lia).
      apply Other. apply Hp. lia.
    + congruence.
Qed.

(** X15. [init_all_steppers] refuses more than four motors and then touches
    nothing.  Otherwise it reports success, and every motor of the array is
    set up on the pins of its row of the table, with a step delay of 1 ms,
    enabled, at phase 0 and with the first row of the half-step table on
    its pins; motor structures outside the array are left alone. *)
Theorem init_all_steppers_spec (steppers : nat) (num_steppers : Z) (w : world) :
  0 <= num_steppers ->
  let r := App.init_all_steppers steppers num_steppers w in
  (fst r = true <-> num_steppers <= App.NUM_STEPPERS)
  /\ (App.NUM_STEPPERS < num_steppers -> snd r = w)
  /\ (num_steppers <= App.NUM_STEPPERS ->
      (forall i, (i < Z.to_nat num_steppers)%nat ->
         motors (snd r) !! (steppers + i)%nat = Some (configured i)
         /\ outputs (snd r) (configured i) = pattern 0
         /\ stepper_get_position (Some (steppers + i)%nat) (snd r) = 0)
      /\ (forall a, ~ (steppers <= a < steppers + Z.to_nat num_steppers)%nat ->
            motors (snd r) !! a = motors w !! a))
  /\ pattern 0 = [Some true; Some false; Some false; Some false].
Proof.
  intros Pos. cbv zeta. unfold App.init_all_steppers, App.NUM_STEPPERS.
  destruct (4 <? num_steppers) eqn:Many;
    [apply Z.ltb_lt in Many|apply Z.ltb_ge in Many].
  - cbn [fst snd]. split; [split; [discriminate|lia]|].
    split; [reflexivity|]. split; [lia|reflexivity].
  - destruct (init_steppers_from_spec steppers (Z.to_nat num_steppers) 0 w
                ltac:(lia)) as (Ok & Cfg & Frame & _).
    cbv zeta in Ok, Cfg, Frame.
    split; [split; [lia|intros _; exact Ok]|]. split; [lia|].
    split; [|reflexivity]. intros _. split.
    + intros i Hi. destruct (Cfg i ltac:(lia)) as [M O].
      split; [exact M|]. split; [exact O|].
      unfold stepper_get_position. rewrite M. reflexivity.
    + intros a Ha. apply Frame. lia.
Qed.

Lemma after_steps_add (d : stepper_direction_t) (n k : nat) (l : bool)
    (m : stepper_motor_t) :
  after_steps d n l (after_steps d k l m) = after_steps d (n + k) l m.
Proof.
  unfold after_steps. destruct (enabled m && l) eqn:E; [|now rewrite E].
  cbn [set_current_step enabled current_step]. rewrite E.
  rewrite Nat.iter_add. reflexivity.
Qed.

Section Rounds.

Variable env : nat -> option bool.
Variable STEPS_PER_REVOLUTION : Z.
Hypothesis env_undisturbed : undisturbed env.

Lemma control_steppers_round (steppers : nat) (num_steppers : Z) (w : world) :
  stepper_interrupt_flag w = false ->
  let w' := App.control_steppers env STEPS_PER_REVOLUTION steppers num_steppers w in
  stepper_interrupt_flag w' = false
  /\ forall a,
       motors w' !! a
       = after_steps STEPPER_CW
           (Z.to_nat (steps_of_degrees STEPS_PER_REVOLUTION (f32_of_Z 1)))
           (bool_decide (steppers <= a < steppers + Z.to_nat num_steppers)%nat)
         <$> motors w !! a.
Proof.
  intros F. cbv zeta. unfold App.control_steppers, stepper_rotate_multiple_degrees.
  destruct (num_steppers =? 0) eqn:Z0.
  - apply Z.eqb_eq in Z0. subst num_steppers. split; [exact F|]. intros a.
    rewrite bool_decide_eq_false_2 by (cbn; lia).
    destruct (motors w !! a) as [m|]; [|reflexivity].
    cbn [fmap option_fmap option_map]. unfold after_steps.
    now rewrite andb_false_r.
  - rewrite take_ge by (rewrite length_map, length_seq; lia).
    set (group := map Some (seq steppers (Z.to_nat num_steppers))).
    assert (NoDup (omap id group)) as N.
    { unfold group. clear. generalize (Z.to_nat num_steppers) as n. intros n.
      assert (omap id (map Some (seq steppers n)) = seq steppers n) as ->.
      { generalize steppers. induction n as [|n IH]; intros s; [reflexivity|].
        cbn [seq map omap id]. cbn. f_equal. apply IH. }
      apply NoDup_seq. }
    destruct (rotate_loop_quiet env env_undisturbed group STEPPER_CW
                (Z.to_nat (steps_of_degrees STEPS_PER_REVOLUTION (f32_of_Z 1)))
                w F) as (F' & _).
    split; [exact F'|]. intros a.
    rewrite (rotate_loop_count env env_undisturbed STEPPER_CW group N _ w a F).
    f_equal. f_equal. apply bool_decide_ext. unfold group.
    rewrite list_elem_of_fmap. split.
    + intros (b & [= <-] & Hb). apply elem_of_seq in Hb. lia.
    + intros Ha. exists a. split; [reflexivity|]. apply elem_of_seq. lia.
Qed.

(** X16. With the cancellation flag clear and nothing raising it, every
    call of [control_steppers] advances each enabled motor of the array
    clockwise by one and the same number of half-steps, the integral part of
    [1.0f / 360.0f * STEPS_PER_REVOLUTION], and leaves every other motor
    alone; after a number of calls the phase index is the starting one plus
    calls times that number, modulo 8.  With 4096 steps per revolution a
    call makes 11 half-steps, with 2048 it makes 5. *)
Theorem control_steppers_rounds (steppers : nat) (num_steppers : Z)
    (rounds : nat) (w : world) (a : nat) (m : stepper_motor_t) :
  stepper_interrupt_flag w = false ->
  motors w !! a = Some m -> 0 <= current_step m <= 7 ->
  let per_call := steps_of_degrees STEPS_PER_REVOLUTION (f32_of_Z 1) in
  let w' := Nat.iter rounds
              (App.control_steppers env STEPS_PER_REVOLUTION steppers num_steppers)
              w in
  let in_array :=
    bool_decide (steppers <= a < steppers + Z.to_nat num_steppers)%nat in
  motors w' !! a
  = Some (if enabled m && in_array
          then set_current_step m
                 ((current_step m + Z.of_nat rounds * per_call) mod 8)
          else m)
  /\ stepper_interrupt_flag w' = false
  /\ steps_of_degrees 4096 (f32_of_Z 1) = 11
  /\ steps_of_degrees 2048 (f32_of_Z 1) = 5.
Proof.
  intros F M R. cbv zeta.
  set (per_call := steps_of_degrees STEPS_PER_REVOLUTION (f32_of_Z 1)).
  set (in_array := bool_decide (steppers <= a < steppers + Z.to_nat num_steppers)%nat).
  assert (stepper_interrupt_flag
            (Nat.iter rounds
               (App.control_steppers env STEPS_PER_REVOLUTION steppers num_steppers) w)
          = false
          /\ motors (Nat.iter rounds
                       (App.control_steppers env STEPS_PER_REVOLUTION steppers
                          num_steppers) w) !! a
             = Some (after_steps STEPPER_CW (rounds * Z.to_nat per_call) in_array m))
    as [F' M'].
  { induction rounds as [|rounds [IHF IHM]].
    - split; [exact F|]. cbn [Nat.iter Nat.mul]. rewrite after_steps_zero. exact M.
    - rewrite Nat.iter_succ.
      destruct (control_steppers_round steppers num_steppers _ IHF) as [F1 M1].
      cbv zeta in F1, M1. split; [exact F1|].
      rewrite M1, IHM. cbn [fmap option_fmap option_map].
      fold per_call in_array. rewrite after_steps_add. reflexivity. }
  split; [|split; [exact F'|split; vm_compute; reflexivity]].
  rewrite M'. f_equal. unfold after_steps.
  destruct (enabled m && in_array); [|reflexivity]. f_equal.
  destruct (iter_next_step (rounds * Z.to_nat per_call) (current_step m) R)
    as [-> _].
  f_equal. pose proof (steps_of_degrees_nonneg STEPS_PER_REVOLUTION (f32_of_Z 1)).
  fold per_call in H. rewrite Nat2Z.inj_mul, Z2Nat.id by exact H. reflexivity.
Qed.

End Rounds.

(** ** AT commands *)

Lemma digits_length (fuel : nat) :
  forall (n : Z) (acc : cstring),
    (List.length (Driver.digits fuel n acc) <= fuel + List.length acc)%nat.
Proof.
  induction fuel as [|fuel IH]; intros n acc; cbn [Driver.digits]; [lia|].
  destruct (n <? 10); [cbn [List.length]; lia|].
  etransitivity; [apply IH|]. cbn [List.length]. lia.
Qed.

(** A number printed with [%d] takes at most eleven characters. *)
Lemma format_d_length (n : Z) : (List.length (Driver.format_d n) <= 11)%nat.
Proof.
  unfold Driver.format_d. destruct (n <? 0); cbn [List.length].
  - pose proof (digits_length 10 (- n) []). cbn [List.length] in *. lia.
  - pose proof (digits_length 10 n []). cbn [List.length] in *. lia.
Qed.

Local Ltac conjuncts := repeat match goal with |- _ /\ _ => split end.

Section Exchange.

Variable incoming : nat -> list ascii.
Variable patience : nat.
Hypothesis incoming_fits : bursts_fit incoming.

Lemma next_line_none_rest (max_len : Z) (q : list ascii) :
  fst (next_line max_len q) = None -> snd (next_line max_len q) = [].
Proof.
  unfold next_line. destruct (drop_terminators q); [reflexivity|].
  destruct (_ <? _)%nat; discriminate.
Qed.

(** One burst arriving at a drained port. *)
Lemma uart_receive_drained (bytes : list ascii) (p : Driver.port) :
  rb_wf (Driver.uart_buffer p) -> rb_contents (Driver.uart_buffer p) = [] ->
  Driver.rx_fifo p = [] ->
  (List.length bytes <= Z.to_nat UART_RX_BUFFER_SIZE - 1)%nat ->
  let p' := Driver.uart_receive bytes p in
  rb_wf (Driver.uart_buffer p') /\ rb_contents (Driver.uart_buffer p') = bytes
  /\ Driver.rx_fifo p' = [] /\ Driver.sent p' = Driver.sent p
  /\ Driver.polls p' = Driver.polls p
  /\ Driver.message_handler p' = Driver.message_handler p
  /\ Driver.user_data p' = Driver.user_data p.
Proof.
  intros W C F Fit. cbv zeta. unfold Driver.uart_receive. rewrite F. cbn [app].
  destruct (uart_rx_interrupt_handler_spec bytes _ W) as (b' & E & W' & C' & _).
  rewrite C in E, C'. cbn [List.length app] in E, C'.
  rewrite take_ge in C' by lia. rewrite drop_ge in E by lia.
  rewrite E. cbn [Driver.uart_buffer Driver.rx_fifo Driver.sent Driver.polls
                  Driver.message_handler Driver.user_data].
  conjuncts; auto.
Qed.

(** The wait loop at a drained port: the reply is that of the first burst
    that holds anything but terminators. *)
Lemma wait_for_response_spec (max_len : Z) (passes : nat) :
  forall p : Driver.port,
    2 <= max_len <= 65535 ->
    rb_wf (Driver.uart_buffer p) -> rb_contents (Driver.uart_buffer p) = [] ->
    Driver.rx_fifo p = [] ->
    let r := Driver.wait_for_response incoming passes max_len p in
    fst r = fst (await incoming max_len passes (Driver.polls p))
    /\ Driver.polls (snd r) = snd (await incoming max_len passes (Driver.polls p))
    /\ rb_wf (Driver.uart_buffer (snd r))
    /\ Driver.sent (snd r) = Driver.sent p
    /\ Driver.message_handler (snd r) = Driver.message_handler p
    /\ Driver.user_data (snd r) = Driver.user_data p.
Proof.
  induction passes as [|passes IH]; intros p R W C F; cbv zeta.
  - cbn [Driver.wait_for_response await fst snd]. conjuncts; auto.
  - cbn [Driver.wait_for_response await].
    destruct (uart_receive_drained (incoming (Driver.polls p)) p W C F
                (incoming_fits _)) as (W1 & C1 & F1 & S1 & K1 & H1 & U1).
    cbv zeta in W1, C1, F1, S1, K1, H1, U1.
    set (p1 := Driver.uart_receive (incoming (Driver.polls p)) p) in *.
    cbn [Driver.uart_buffer].
    destruct (get_line_refines_next_line (Driver.uart_buffer p1) max_len W1 R)
      as (b' & E & W' & C').
    rewrite E, C1 in *.
    destruct (fst (next_line max_len (incoming (Driver.polls p)))) as [line|] eqn:N.
    + cbn [fst snd Driver.with_uart_buffer Driver.polls Driver.uart_buffer
           Driver.sent Driver.message_handler Driver.user_data].
      rewrite K1. conjuncts; auto.
    + match goal with |- context [Driver.wait_for_response incoming passes max_len ?v] =>
        set (q := v)
      end.
      assert (Driver.polls q = S (Driver.polls p)) as Kq
        by (unfold q; cbn; rewrite K1; reflexivity).
      assert (Driver.sent q = Driver.sent p) as Sq by (unfold q; cbn; exact S1).
      assert (Driver.message_handler q = Driver.message_handler p) as Hq
        by (unfold q; cbn; exact H1).
      assert (Driver.user_data q = Driver.user_data p) as Uq
        by (unfold q; cbn; exact U1).
      destruct (IH q R) as (A1 & A2 & A3 & A4 & A5 & A6).
      { exact W'. }
      { unfold q. cbn [Driver.with_uart_buffer Driver.uart_buffer]. rewrite C'.
        apply next_line_none_rest. exact N. }
      { exact F1. }
      cbv zeta in A1, A2, A3, A4, A5, A6.
      rewrite Kq in A1, A2. rewrite A1, A2, A4, A5, A6. conjuncts; auto.
Qed.

(** What the wait loop leaves in the ring buffer and in the UART. *)
Lemma wait_for_response_rest (max_len : Z) (passes : nat) :
  forall p : Driver.port,
    2 <= max_len <= 65535 ->
    rb_wf (Driver.uart_buffer p) -> rb_contents (Driver.uart_buffer p) = [] ->
    Driver.rx_fifo p = [] ->
    let r := Driver.wait_for_response incoming passes max_len p in
    rb_contents (Driver.uart_buffer (snd r))
    = leftover incoming max_len passes (Driver.polls p)
    /\ Driver.rx_fifo (snd r) = [].
Proof.
  induction passes as [|passes IH]; intros p R W C F; cbv zeta.
  - cbn [Driver.wait_for_response leftover fst snd]. auto.
  - cbn [Driver.wait_for_response leftover].
    destruct (uart_receive_drained (incoming (Driver.polls p)) p W C F
                (incoming_fits _)) as (W1 & C1 & F1 & S1 & K1 & H1 & U1).
    cbv zeta in W1, C1, F1, S1, K1, H1, U1.
    set (p1 := Driver.uart_receive (incoming (Driver.polls p)) p) in *.
    cbn [Driver.uart_buffer].
    destruct (get_line_refines_next_line (Driver.uart_buffer p1) max_len W1 R)
      as (b' & E & W' & C').
    rewrite E, C1 in *.
    destruct (fst (next_line max_len (incoming (Driver.polls p)))) as [line|] eqn:N.
    + cbn [fst snd Driver.with_uart_buffer Driver.uart_buffer Driver.rx_fifo].
      auto.
    + match goal with |- context [Driver.wait_for_response incoming passes max_len ?v] =>
        set (q := v)
      end.
      assert (Driver.polls q = S (Driver.polls p)) as Kq
        by (unfold q; cbn; rewrite K1; reflexivity).
      destruct (IH q R) as (A1 & A2).
      { exact W'. }
      { unfold q. cbn [Driver.with_uart_buffer Driver.uart_buffer]. rewrite C'.
        apply next_line_none_rest. exact N. }
      { exact F1. }
      cbv zeta in A1, A2. rewrite Kq in A1. auto.
Qed.

(** A message sent leaves in the ring buffer only what came with the
    reply; what the buffer and the UART held before is gone. *)
Lemma lora_send_message_rest (cfg : Driver.lora_config_t) (address : Z)
    (text : cstring) (length : Z) (p : Driver.port) :
  rb_wf (Driver.uart_buffer p) ->
  Driver.initialized cfg = true -> 0 < length <= LORA_MAX_MESSAGE_LENGTH ->
  let r := Driver.lora_send_message incoming patience (Some cfg) address
             (Some text) length p in
  rb_contents (Driver.uart_buffer (snd r))
  = leftover incoming 64 patience (Driver.polls p)
  /\ Driver.rx_fifo (snd r) = [].
Proof.
  intros W I L. cbv zeta. unfold Driver.lora_send_message. rewrite I.
  cbn [negb orb].
  destruct (length =? 0) eqn:L0; [apply Z.eqb_eq in L0; lia|].
  destruct (LORA_MAX_MESSAGE_LENGTH <? length) eqn:L1; [apply Z.ltb_lt in L1; lia|].
  unfold Driver.command_64, Driver.send_at_command.
  match goal with |- context [Driver.wait_for_response incoming patience 64 ?v] =>
    set (p0 := v)
  end.
  destruct (rb_init_wf (Driver.uart_buffer p)) as [W0 C0]; [apply W|].
  destruct (wait_for_response_rest 64 patience p0 ltac:(lia) W0 C0 eq_refl)
    as (A1 & A2).
  cbv zeta in A1, A2. change (Driver.polls p0) with (Driver.polls p) in A1.
  destruct (Driver.wait_for_response incoming patience 64 p0) as [[line|] p'];
    cbn [fst snd] in *.
  - destruct (Driver.accepted _ _); auto.
  - cbn [Driver.accepted]. auto.
Qed.

(** What a command does to the port, whatever it held before. *)
Lemma send_at_command_spec (cfg : Driver.lora_config_t) (command response : cstring)
    (max_len : Z) (p : Driver.port) :
  2 <= max_len <= 65535 ->
  rb_wf (Driver.uart_buffer p) ->
  let reply := await incoming max_len patience (Driver.polls p) in
  exists p',
    Driver.send_at_command incoming patience (Some cfg) (Some command)
      (Some response) max_len p
    = (match fst reply with
       | Some line => (LORA_STATUS_OK, Some (c_str line), p')
       | None => (LORA_STATUS_TIMEOUT, Some response, p')
       end)
    /\ Driver.sent p' = Driver.sent p ++ command ++ [CR; LF]
    /\ Driver.polls p' = snd reply
    /\ rb_wf (Driver.uart_buffer p')
    /\ Driver.message_handler p' = Driver.message_handler p
    /\ Driver.user_data p' = Driver.user_data p.
Proof.
  intros R W. cbv zeta. unfold Driver.send_at_command.
  set (p0 := Driver.uart_puts [CR; LF]
               (Driver.uart_puts command (Driver.clear_uart_buffer p))).
  destruct (rb_init_wf (Driver.uart_buffer p)) as [W0 C0]; [apply W|].
  destruct (wait_for_response_spec max_len patience p0 R W0 C0 eq_refl)
    as (A1 & A2 & A3 & A4 & A5 & A6).
  cbv zeta in A1, A2, A3, A4, A5, A6.
  change (Driver.polls p0) with (Driver.polls p) in A1, A2.
  destruct (Driver.wait_for_response incoming patience max_len p0) as [r p'].
  cbn [fst snd] in *. exists p'. rewrite <- A1.
  split; [destruct r; reflexivity|].
  split; [rewrite A4; cbn; rewrite <- app_assoc; reflexivity|].
  conjuncts; auto.
Qed.

(** X17. [send_at_command] with non-null arguments discards whatever the
    UART and the ring buffer held, writes the command followed by CR LF,
    and then takes as the response the line of the first burst of
    characters that holds anything but line terminators: the status is
    LORA_STATUS_OK with that line, even when the burst ends before the
    module's reply does, and LORA_STATUS_TIMEOUT, with the response array
    untouched, when no such burst comes before the deadline.  With a null
    argument the status is LORA_STATUS_INVALID_PARAM and nothing is
    touched. *)
Theorem send_at_command_reply (cfg : Driver.lora_config_t)
    (command response : cstring) (max_len : Z) (p : Driver.port) :
  2 <= max_len <= 255 ->
  rb_wf (Driver.uart_buffer p) ->
  let reply := fst (await incoming max_len patience (Driver.polls p)) in
  (exists p',
     Driver.send_at_command incoming patience (Some cfg) (Some command)
       (Some response) max_len p
     = (match reply with
        | Some line => (LORA_STATUS_OK, Some (c_str line), p')
        | None => (LORA_STATUS_TIMEOUT, Some response, p')
        end)
     /\ Driver.sent p' = Driver.sent p ++ command ++ [CR; LF]
     /\ rb_wf (Driver.uart_buffer p')
     /\ Driver.message_handler p' = Driver.message_handler p)
  /\ (forall line,
        reply = Some line <->
        exists j,
          (j < patience)%nat
          /\ fst (next_line max_len (incoming (Driver.polls p + j))) = Some line
          /\ forall i, (i < j)%nat ->
               drop_terminators (incoming (Driver.polls p + i)) = [])
  /\ Driver.send_at_command incoming patience None (Some command)
       (Some response) max_len p = (LORA_STATUS_INVALID_PARAM, Some response, p)
  /\ Driver.send_at_command incoming patience (Some cfg) None
       (Some response) max_len p = (LORA_STATUS_INVALID_PARAM, Some response, p)
  /\ Driver.send_at_command incoming patience (Some cfg) (Some command)
       None max_len p = (LORA_STATUS_INVALID_PARAM, None, p).
Proof.
  intros R W. cbv zeta. split; [|split; [|repeat split]].
  - destruct (send_at_command_spec cfg command response max_len p ltac:(lia) W)
      as (p' & E & S & _ & W' & H & _).
    exists p'. conjuncts; auto.
  - generalize (Driver.polls p) as k. induction patience as [|passes IH];
      intros k line; cbn [await fst].
    + split; [discriminate|]. intros (j & Hj & _). lia.
    + destruct (fst (next_line max_len (incoming k))) as [first|] eqn:N.
      * cbn [fst]. split.
        -- intros [= <-]. exists 0%nat. rewrite Nat.add_0_r.
           split; [lia|]. split; [exact N|]. intros i Hi. lia.
        -- intros (j & Hj & Hline & Blank). destruct j as [|j].
           ++ rewrite Nat.add_0_r in Hline. congruence.
           ++ specialize (Blank 0%nat ltac:(lia)). rewrite Nat.add_0_r in Blank.
              apply (next_line_none_iff max_len) in Blank. congruence.
      * rewrite IH. split.
        -- intros (j & Hj & Hline & Blank). exists (S j).
           split; [lia|]. split.
           ++ replace (k + S j)%nat with (S k + j)%nat by lia. exact Hline.
           ++ intros i Hi. destruct i as [|i].
              ** rewrite Nat.add_0_r.
                 apply (proj1 (next_line_none_iff max_len _)). exact N.
              ** replace (k + S i)%nat with (S k + i)%nat by lia.
                 apply Blank. lia.
        -- intros (j & Hj & Hline & Blank). destruct j as [|j].
           ++ rewrite Nat.add_0_r in Hline. congruence.
           ++ exists j. split; [lia|]. split.
              ** replace (S k + j)%nat with (k + S j)%nat by lia. exact Hline.
              ** intros i Hi. replace (S k + i)%nat with (k + S i)%nat by lia.
                 apply Blank. lia.
Qed.

(** A command sent by a function of the driver. *)
Lemma command_64_spec (cfg : Driver.lora_config_t) (command : cstring)
    (p : Driver.port) :
  rb_wf (Driver.uart_buffer p) ->
  let reply := await incoming 64 patience (Driver.polls p) in
  exists status response p',
    Driver.command_64 incoming patience (Some cfg) command p
    = (status, response, p')
    /\ status = match fst reply with
                | Some _ => LORA_STATUS_OK
                | None => LORA_STATUS_TIMEOUT
                end
    /\ Driver.accepted status response = accepts (fst reply)
    /\ Driver.sent p' = Driver.sent p ++ command ++ [CR; LF]
    /\ Driver.polls p' = snd reply
    /\ rb_wf (Driver.uart_buffer p')
    /\ Driver.message_handler p' = Driver.message_handler p
    /\ Driver.user_data p' = Driver.user_data p.
Proof.
  intros W. cbv zeta. unfold Driver.command_64.
  destruct (send_at_command_spec cfg command [] 64 p ltac:(lia) W)
    as (p' & E & S & K & W' & H & U).
  cbv zeta in E, K.
  destruct (fst (await incoming 64 patience (Driver.polls p))) as [line|].
  - exists LORA_STATUS_OK, (Some (c_str line)), p'. conjuncts; auto.
  - exists LORA_STATUS_TIMEOUT, (Some []), p'. conjuncts; auto.
Qed.

(** What [lora_send_message] does with non-null arguments. *)
Lemma lora_send_message_spec (cfg : Driver.lora_config_t) (address : Z)
    (text : cstring) (length : Z) (p : Driver.port) :
  rb_wf (Driver.uart_buffer p) ->
  let command :=
    Driver.snprintf (LORA_MAX_MESSAGE_LENGTH + 32)
      (cs "AT+SEND=" ++ Driver.format_d address ++ cs ","
       ++ Driver.format_d length ++ cs "," ++ text) in
  let reply := fst (await incoming 64 patience (Driver.polls p)) in
  let r := Driver.lora_send_message incoming patience (Some cfg) address
             (Some text) length p in
  (Driver.initialized cfg = false \/ length = 0 \/ LORA_MAX_MESSAGE_LENGTH < length ->
   r = (LORA_STATUS_INVALID_PARAM, p))
  /\ (Driver.initialized cfg = true -> length <> 0 ->
      length <= LORA_MAX_MESSAGE_LENGTH ->
      fst r = match reply with
              | Some _ => LORA_STATUS_OK
              | None => LORA_STATUS_TIMEOUT
              end
      /\ Driver.sent (snd r) = Driver.sent p ++ command ++ [CR; LF]
      /\ rb_wf (Driver.uart_buffer (snd r)))
  /\ fst r <> LORA_STATUS_ERROR
  /\ Driver.lora_send_message incoming patience None address (Some text) length p
     = (LORA_STATUS_INVALID_PARAM, p)
  /\ Driver.lora_send_message incoming patience (Some cfg) address None length p
     = (LORA_STATUS_INVALID_PARAM, p).
Proof.
  intros W. cbv zeta. unfold Driver.lora_send_message.
  destruct (Driver.initialized cfg) eqn:I; cbn [negb orb].
  2: { conjuncts; auto; try discriminate; try (intros; discriminate). }
  destruct (length =? 0) eqn:L0;
    [apply Z.eqb_eq in L0|apply Z.eqb_neq in L0].
  { conjuncts; auto; try discriminate; try (intros _ C; contradiction). }
  destruct (LORA_MAX_MESSAGE_LENGTH <? length) eqn:L1;
    [apply Z.ltb_lt in L1|apply Z.ltb_ge in L1].
  { conjuncts; auto; try discriminate; try (intros _ _ C; lia). }
  match goal with |- context [Driver.command_64 incoming patience _ ?c p] =>
    destruct (command_64_spec cfg c p W)
      as (status & response & p' & E & St & A & S & _ & W' & _)
  end.
  cbv zeta in St, A. rewrite E.
  assert (fst (if Driver.accepted status response
               then (LORA_STATUS_OK, p') else (status, p'))
          = match fst (await incoming 64 patience (Driver.polls p)) with
            | Some _ => LORA_STATUS_OK
            | None => LORA_STATUS_TIMEOUT
            end
          /\ snd (if Driver.accepted status response
                  then (LORA_STATUS_OK, p') else (status, p')) = p') as [F1 F2].
  { rewrite A. subst status.
    destruct (fst (await incoming 64 patience (Driver.polls p))) as [line|];
      cbn [accepts]; [destruct (is_response_ok _)|]; auto. }
  conjuncts; auto.
  - intros [C|[C|C]]; [discriminate|contradiction|lia].
  - intros _ _ _. rewrite F1, F2. auto.
  - rewrite F1. destruct (fst (await _ _ _ _)); discriminate.
Qed.

(** What [lora_configure] does with a non-null configuration. *)
Lemma lora_configure_spec (cfg : Driver.lora_config_t)
    (frequency power sf bandwidth coding_rate : Z) (p : Driver.port) :
  rb_wf (Driver.uart_buffer p) ->
  let band :=
    Driver.snprintf 64 (cs "AT+BAND=" ++ Driver.format_d (Driver.as_long frequency)) in
  let crfop := Driver.snprintf 64 (cs "AT+CRFOP=" ++ Driver.format_d power) in
  let parameter :=
    Driver.snprintf 64
      (cs "AT+PARAMETER=" ++ Driver.format_d sf ++ cs ","
       ++ Driver.format_d bandwidth ++ cs "," ++ Driver.format_d coding_rate
       ++ cs "," ++ Driver.format_d 8) in
  let r1 := await incoming 64 patience (Driver.polls p) in
  let r2 := await incoming 64 patience (snd r1) in
  let r3 := await incoming 64 patience (snd r2) in
  let all := accepts (fst r1) && accepts (fst r2) && accepts (fst r3) in
  exists p',
    Driver.lora_configure incoming patience (Some cfg) frequency power sf
      bandwidth coding_rate p
    = (if all then LORA_STATUS_OK else LORA_STATUS_ERROR,
       Some (if all
             then {| Driver.uart := Driver.uart cfg;
                     Driver.tx_pin := Driver.tx_pin cfg;
                     Driver.rx_pin := Driver.rx_pin cfg;
                     Driver.baud_rate := Driver.baud_rate cfg;
                     Driver.network_id := Driver.network_id cfg;
                     Driver.device_address := Driver.device_address cfg;
                     Driver.frequency := frequency; Driver.power := power;
                     Driver.sf := sf; Driver.bandwidth := bandwidth;
                     Driver.coding_rate := coding_rate;
                     Driver.initialized := Driver.initialized cfg |}
             else cfg),
       p')
    /\ Driver.sent p'
       = Driver.sent p ++ band ++ [CR; LF]
         ++ (if accepts (fst r1)
             then crfop ++ [CR; LF]
                  ++ (if accepts (fst r2) then parameter ++ [CR; LF] else [])
             else [])
    /\ rb_wf (Driver.uart_buffer p')
    /\ Driver.message_handler p' = Driver.message_handler p
    /\ Driver.user_data p' = Driver.user_data p.
Proof.
  intros W. cbv zeta. unfold Driver.lora_configure.
  match goal with |- context [Driver.command_64 incoming patience _ ?c p] =>
    destruct (command_64_spec cfg c p W)
      as (s1 & t1 & p1 & E1 & _ & A1 & S1 & K1 & W1 & H1 & U1)
  end.
  cbv zeta in A1, K1. rewrite E1, A1.
  destruct (accepts (fst (await incoming 64 patience (Driver.polls p)))) eqn:Ok1;
    cbn [negb andb].
  2: { exists p1. conjuncts; auto. }
  match goal with |- context [Driver.command_64 incoming patience _ ?c p1] =>
    destruct (command_64_spec cfg c p1 W1)
      as (s2 & t2 & p2 & E2 & _ & A2 & S2 & K2 & W2 & H2 & U2)
  end.
  cbv zeta in A2, K2. rewrite K1 in A2, K2. rewrite E2, A2.
  destruct (accepts (fst (await incoming 64 patience
                            (snd (await incoming 64 patience (Driver.polls p))))))
    eqn:Ok2; cbn [negb andb].
  2: { exists p2. conjuncts; auto; try congruence.
       rewrite S2, S1, <- !app_assoc. reflexivity. }
  match goal with |- context [Driver.command_64 incoming patience _ ?c p2] =>
    destruct (command_64_spec cfg c p2 W2)
      as (s3 & t3 & p3 & E3 & _ & A3 & S3 & K3 & W3 & H3 & U3)
  end.
  cbv zeta in A3, K3. rewrite K2 in A3, K3. rewrite E3, A3.
  exists p3.
  split.
  { match goal with |- context [negb ?x] => destruct x end; reflexivity. }
  conjuncts; auto; try congruence.
  rewrite S3, S2, S1, <- !app_assoc. reflexivity.
Qed.

(** X18. [lora_send_message] refuses a driver that is not initialised, a
    length of 0 and a length above 240 with LORA_STATUS_INVALID_PARAM and
    sends nothing.  Otherwise it sends [AT+SEND=<address>,<length>,<text>]
    and CR LF, with the whole text whatever the length given, and returns
    LORA_STATUS_OK as soon as any reply line came back, also when the reply
    reports an error, and LORA_STATUS_TIMEOUT when none came; it never
    returns LORA_STATUS_ERROR. *)
Theorem send_message_status (cfg : Driver.lora_config_t) (address : Z)
    (text : cstring) (length : Z) (p : Driver.port) :
  rb_wf (Driver.uart_buffer p) ->
  let command :=
    Driver.snprintf (LORA_MAX_MESSAGE_LENGTH + 32)
      (cs "AT+SEND=" ++ Driver.format_d address ++ cs ","
       ++ Driver.format_d length ++ cs "," ++ text) in
  let reply := fst (await incoming 64 patience (Driver.polls p)) in
  let refused :=
    negb (Driver.initialized cfg) || (length =? 0)
    || (LORA_MAX_MESSAGE_LENGTH <? length) in
  exists status p',
    Driver.lora_send_message incoming patience (Some cfg) address (Some text)
      length p = (status, p')
    /\ (status = LORA_STATUS_INVALID_PARAM <-> refused = true)
    /\ (status = LORA_STATUS_INVALID_PARAM -> p' = p)
    /\ (status = LORA_STATUS_OK <-> refused = false /\ reply <> None)
    /\ (status = LORA_STATUS_TIMEOUT <-> refused = false /\ reply = None)
    /\ (status <> LORA_STATUS_INVALID_PARAM ->
        Driver.sent p' = Driver.sent p ++ command ++ [CR; LF])
    /\ (forall line,
          refused = false -> reply = Some line ->
          is_response_ok (Some (c_str line)) = false ->
          status = LORA_STATUS_OK).
Proof.
  intros W. cbv zeta.
  destruct (lora_send_message_spec cfg address text length p W)
    as (Refused & Sent & _).
  cbv zeta in Refused, Sent.
  destruct (Driver.lora_send_message incoming patience (Some cfg) address
              (Some text) length p) as [status p'] eqn:E.
  cbn [fst snd] in *. exists status, p'. split; [reflexivity|].
  destruct (Driver.initialized cfg) eqn:I; cbn [negb orb].
  2: { specialize (Refused (or_introl eq_refl)). injection Refused as -> ->.
       conjuncts; intuition congruence. }
  destruct (length =? 0) eqn:L0; cbn [orb];
    [apply Z.eqb_eq in L0|apply Z.eqb_neq in L0].
  { specialize (Refused (or_intror (or_introl L0))). injection Refused as -> ->.
    conjuncts; intuition congruence. }
  destruct (LORA_MAX_MESSAGE_LENGTH <? length) eqn:L1;
    [apply Z.ltb_lt in L1|apply Z.ltb_ge in L1].
  { specialize (Refused (or_intror (or_intror L1))). injection Refused as -> ->.
    conjuncts; intuition congruence. }
  destruct (Sent eq_refl L0 L1) as (St & S & _).
  destruct (fst (await incoming 64 patience (Driver.polls p))) as [line|];
    subst status; conjuncts; intuition congruence.
Qed.

(** X19. [lora_configure] sends the frequency, the power and the
    modulation parameters as three commands, stopping at the first one
    whose reply is missing or not accepted.  The configuration structure
    takes the five new values only when all three were accepted; otherwise
    the status is LORA_STATUS_ERROR and the structure is as it was, although
    the commands before the failing one had been accepted by the module. *)
Theorem configure_all_or_nothing (cfg : Driver.lora_config_t)
    (frequency power sf bandwidth coding_rate : Z) (p : Driver.port) :
  rb_wf (Driver.uart_buffer p) ->
  let band :=
    Driver.snprintf 64 (cs "AT+BAND=" ++ Driver.format_d (Driver.as_long frequency)) in
  let crfop := Driver.snprintf 64 (cs "AT+CRFOP=" ++ Driver.format_d power) in
  let parameter :=
    Driver.snprintf 64
      (cs "AT+PARAMETER=" ++ Driver.format_d sf ++ cs ","
       ++ Driver.format_d bandwidth ++ cs "," ++ Driver.format_d coding_rate
       ++ cs "," ++ Driver.format_d 8) in
  let r1 := await incoming 64 patience (Driver.polls p) in
  let r2 := await incoming 64 patience (snd r1) in
  let r3 := await incoming 64 patience (snd r2) in
  exists status cfg' p',
    Driver.lora_configure incoming patience (Some cfg) frequency power sf
      bandwidth coding_rate p = (status, Some cfg', p')
    /\ (status = LORA_STATUS_OK
        <-> accepts (fst r1) = true /\ accepts (fst r2) = true
            /\ accepts (fst r3) = true)
    /\ (status <> LORA_STATUS_OK -> status = LORA_STATUS_ERROR /\ cfg' = cfg)
    /\ (status = LORA_STATUS_OK ->
        (Driver.frequency cfg', Driver.power cfg', Driver.sf cfg',
         Driver.bandwidth cfg', Driver.coding_rate cfg')
        = (frequency, power, sf, bandwidth, coding_rate))
    /\ (Driver.uart cfg', Driver.tx_pin cfg', Driver.rx_pin cfg',
        Driver.baud_rate cfg', Driver.network_id cfg',
        Driver.device_address cfg', Driver.initialized cfg')
       = (Driver.uart cfg, Driver.tx_pin cfg, Driver.rx_pin cfg,
          Driver.baud_rate cfg, Driver.network_id cfg,
          Driver.device_address cfg, Driver.initialized cfg)
    /\ (accepts (fst r1) = false ->
        Driver.sent p' = Driver.sent p ++ band ++ [CR; LF])
    /\ (accepts (fst r1) = true -> accepts (fst r2) = false ->
        Driver.sent p' = Driver.sent p ++ band ++ [CR; LF] ++ crfop ++ [CR; LF])
    /\ (accepts (fst r1) = true -> accepts (fst r2) = true ->
        Driver.sent p'
        = Driver.sent p ++ band ++ [CR; LF] ++ crfop ++ [CR; LF]
          ++ parameter ++ [CR; LF]).
Proof.
  intros W. cbv zeta.
  destruct (lora_configure_spec cfg frequency power sf bandwidth coding_rate p W)
    as (p' & E & S & _).
  cbv zeta in E, S. rewrite E.
  destruct (accepts (fst (await incoming 64 patience (Driver.polls p)))) eqn:A1;
    [destruct (accepts (fst (await incoming 64 patience
                               (snd (await incoming 64 patience (Driver.polls p))))))
       eqn:A2;
     [destruct (accepts (fst (await incoming 64 patience
                                (snd (await incoming 64 patience
                                        (snd (await incoming 64 patience
                                                (Driver.polls p))))))))
        eqn:A3|]|];
    cbn [andb] in *; eexists _, _, p'; (split; [reflexivity|]);
    conjuncts; try (intuition congruence).
Qed.

Lemma lora_test_spec (cfg : Driver.lora_config_t) (p : Driver.port) :
  rb_wf (Driver.uart_buffer p) ->
  let reply := await incoming 64 patience (Driver.polls p) in
  exists p',
    Driver.lora_test incoming patience (Some cfg) p
    = (if accepts (fst reply) then LORA_STATUS_OK else LORA_STATUS_ERROR, p')
    /\ Driver.sent p' = Driver.sent p ++ cs "AT" ++ [CR; LF]
    /\ Driver.polls p' = snd reply
    /\ rb_wf (Driver.uart_buffer p')
    /\ Driver.message_handler p' = Driver.message_handler p
    /\ Driver.user_data p' = Driver.user_data p.
Proof.
  intros W. cbv zeta. unfold Driver.lora_test.
  destruct (command_64_spec cfg (cs "AT") p W)
    as (status & response & p' & E & _ & A & S & K & W' & H & U).
  cbv zeta in A, K. rewrite E, A. exists p'.
  split; [destruct (accepts _); reflexivity|]. conjuncts; auto.
Qed.

(** X20. [lora_init_custom] with non-null arguments ends with
    LORA_STATUS_OK or LORA_STATUS_ERROR, and the configuration structure is
    marked initialised exactly when the status is LORA_STATUS_OK; its other
    fields hold the arguments, 9600 baud and the default modulation
    parameters in both cases.  The call clears the registered message
    handler.  Success needs an accepted reply to the first [AT] and a
    network identifier that is 0, 18 or within 3 to 15; with another
    identifier, or without that first reply, nothing but [AT] is sent. *)
Theorem init_custom_outcome (old : Driver.lora_config_t)
    (uart_inst tx_pin rx_pin network_id device_address frequency power : Z)
    (p : Driver.port) :
  let r := Driver.lora_init_custom incoming patience (Some old) (Some uart_inst)
             tx_pin rx_pin network_id device_address frequency power p in
  let status := fst (fst r) in
  let fill (flag : bool) :=
    {| Driver.uart := uart_inst; Driver.tx_pin := tx_pin; Driver.rx_pin := rx_pin;
       Driver.baud_rate := 9600; Driver.network_id := network_id;
       Driver.device_address := device_address; Driver.frequency := frequency;
       Driver.power := power; Driver.sf := 9; Driver.bandwidth := 7;
       Driver.coding_rate := 1; Driver.initialized := flag |} in
  let valid :=
    (network_id =? 0) || (network_id =? 18)
    || ((3 <=? network_id) && (network_id <=? 15)) in
  let answered := accepts (fst (await incoming 64 patience (Driver.polls p))) in
  (status = LORA_STATUS_OK /\ snd (fst r) = Some (fill true)
   \/ status = LORA_STATUS_ERROR /\ snd (fst r) = Some (fill false))
  /\ Driver.message_handler (snd r) = None
  /\ (status = LORA_STATUS_OK -> valid = true /\ answered = true)
  /\ (valid = false \/ answered = false ->
      status = LORA_STATUS_ERROR
      /\ Driver.sent (snd r) = Driver.sent p ++ cs "AT" ++ [CR; LF])
  /\ rb_wf (Driver.uart_buffer (snd r))
  /\ Driver.lora_init_custom incoming patience None (Some uart_inst)
       tx_pin rx_pin network_id device_address frequency power p
     = (LORA_STATUS_INVALID_PARAM, None, p)
  /\ Driver.lora_init_custom incoming patience (Some old) None
       tx_pin rx_pin network_id device_address frequency power p
     = (LORA_STATUS_INVALID_PARAM, Some old, p).
Proof.
  cbv zeta. unfold Driver.lora_init_custom.
  set (cfg := {| Driver.uart := uart_inst; Driver.tx_pin := tx_pin;
                 Driver.rx_pin := rx_pin;
                 Driver.baud_rate := Driver.LORA_DEFAULT_BAUD_RATE;
                 Driver.network_id := network_id;
                 Driver.device_address := device_address;
                 Driver.frequency := frequency; Driver.power := power;
                 Driver.sf := Driver.LORA_SF_9;
                 Driver.bandwidth := Driver.LORA_BW_125;
                 Driver.coding_rate := Driver.LORA_CR_4_5;
                 Driver.initialized := false |}).
  match goal with |- context [Driver.lora_test incoming patience (Some cfg) ?q] =>
    set (p0 := q)
  end.
  assert (rb_wf (Driver.uart_buffer p0)) as W0.
  { unfold p0. cbn [Driver.uart_buffer]. apply rb_init_wf.
    cbn [buffer]. apply length_replicate. }
  destruct (lora_test_spec cfg p0 W0) as (p1 & E1 & S1 & K1 & W1 & H1 & U1).
  cbv zeta in E1, K1. change (Driver.polls p0) with (Driver.polls p) in E1, K1.
  change (Driver.sent p0) with (Driver.sent p) in S1.
  change (Driver.message_handler p0) with (@None nat) in H1.
  rewrite E1.
  destruct (accepts (fst (await incoming 64 patience (Driver.polls p)))) eqn:A1.
  2: { cbn [fst snd]. conjuncts; auto; try (intuition congruence). }
  (* the network identifier *)
  destruct (network_id =? 0) eqn:N0; cbn [orb andb negb].
  - (* no network command *)
    assert (exists status p3,
              (let address_step :=
                 if device_address =? 0 then (true, p1)
                 else
                   let '(status, response, q) :=
                     Driver.command_64 incoming patience (Some cfg)
                       (Driver.snprintf 32
                          (cs "AT+ADDRESS=" ++ Driver.format_d device_address)) p1 in
                   (Driver.accepted status response, q) in
               let '(ok, q) := address_step in
               if negb ok then (LORA_STATUS_ERROR, Some cfg, q)
               else
                 let '(status, config', q) :=
                   Driver.lora_configure incoming patience (Some cfg) frequency
                     power (Driver.sf cfg) (Driver.bandwidth cfg)
                     (Driver.coding_rate cfg) q in
                 match status, config' with
                 | LORA_STATUS_OK, Some cfg' =>
                     (LORA_STATUS_OK, Some (Driver.set_initialized cfg' true), q)
                 | _, _ => (status, config', q)
                 end)
              = (status, Some (Driver.set_initialized cfg
                                 match status with
                                 | LORA_STATUS_OK => true
                                 | _ => false
                                 end), p3)
              /\ (status = LORA_STATUS_OK \/ status = LORA_STATUS_ERROR)
              /\ rb_wf (Driver.uart_buffer p3)
              /\ Driver.message_handler p3 = None) as (status & p3 & E & St & W3 & H3).
    { cbv zeta.
      assert (exists ok p2,
                (if device_address =? 0 then (true, p1)
                 else
                   let '(status, response, q) :=
                     Driver.command_64 incoming patience (Some cfg)
                       (Driver.snprintf 32
                          (cs "AT+ADDRESS=" ++ Driver.format_d device_address)) p1 in
                   (Driver.accepted status response, q)) = (ok, p2)
                /\ rb_wf (Driver.uart_buffer p2)
                /\ Driver.message_handler p2 = None) as (ok & p2 & E2 & W2 & H2).
      { destruct (device_address =? 0); [exists true, p1; auto|].
        match goal with |- context [Driver.command_64 incoming patience _ ?c p1] =>
          destruct (command_64_spec cfg c p1 W1)
            as (s2 & t2 & p2 & E2 & _ & _ & _ & _ & W2 & H2 & _)
        end.
        rewrite E2. exists (Driver.accepted s2 t2), p2.
        conjuncts; auto; congruence. }
      rewrite E2. destruct ok; cbn [negb].
      2: { exists LORA_STATUS_ERROR, p2. conjuncts; auto. }
      destruct (lora_configure_spec cfg frequency power (Driver.sf cfg)
                  (Driver.bandwidth cfg) (Driver.coding_rate cfg) p2 W2)
        as (p3 & E3 & _ & W3 & H3 & _).
      cbv zeta in E3. rewrite E3.
      destruct (_ && _ && _).
      - exists LORA_STATUS_OK, p3. conjuncts; auto; congruence.
      - exists LORA_STATUS_ERROR, p3. conjuncts; auto; congruence. }
    cbv zeta in E. rewrite E. cbn [fst snd].
    apply Z.eqb_eq in N0. subst network_id. cbn [Z.eqb orb].
    destruct St as [->| ->]; conjuncts; auto; try (intuition congruence).
  - destruct (negb (network_id =? 18)
              && ((network_id <? 3) || (15 <? network_id))) eqn:Bad.
    + (* refused without a command *)
      cbn [negb fst snd].
      assert ((network_id =? 18) || (3 <=? network_id) && (network_id <=? 15) = false)
        as Invalid.
      { apply andb_prop in Bad as [B1 B2]. apply negb_true_iff in B1.
        rewrite B1. cbn [orb]. apply orb_prop in B2 as [B2|B2];
          [apply Z.ltb_lt in B2|apply Z.ltb_lt in B2].
        - replace (3 <=? network_id) with false by (symmetry; apply Z.leb_gt; lia).
          reflexivity.
        - replace (network_id <=? 15) with false by (symmetry; apply Z.leb_gt; lia).
          apply andb_false_r. }
      rewrite Invalid. conjuncts; auto; try (intuition congruence).
    + assert ((network_id =? 18) || (3 <=? network_id) && (network_id <=? 15) = true)
        as Valid.
      { apply andb_false_iff in Bad as [B|B].
        - apply negb_false_iff in B. rewrite B. reflexivity.
        - apply orb_false_iff in B as [B1 B2].
          apply Z.ltb_ge in B1. apply Z.ltb_ge in B2.
          replace (3 <=? network_id) with true by (symmetry; apply Z.leb_le; lia).
          replace (network_id <=? 15) with true by (symmetry; apply Z.leb_le; lia).
          apply orb_true_r. }
      rewrite Valid.
      match goal with |- context [Driver.command_64 incoming patience _ ?c p1] =>
        destruct (command_64_spec cfg c p1 W1)
          as (sn & tn & pn & En & _ & _ & _ & _ & Wn & Hn & _)
      end.
      rewrite En. destruct (Driver.accepted sn tn); cbn [negb].
      2: { cbn [fst snd]. conjuncts; auto; try (intuition congruence). }
      assert (exists ok p2,
                (if device_address =? 0 then (true, pn)
                 else
                   let '(status, response, q) :=
                     Driver.command_64 incoming patience (Some cfg)
                       (Driver.snprintf 32
                          (cs "AT+ADDRESS=" ++ Driver.format_d device_address)) pn in
                   (Driver.accepted status response, q)) = (ok, p2)
                /\ rb_wf (Driver.uart_buffer p2)
                /\ Driver.message_handler p2 = None) as (ok & p2 & E2 & W2 & H2).
      { destruct (device_address =? 0);
          [exists true, pn; conjuncts; auto; congruence|].
        match goal with |- context [Driver.command_64 incoming patience _ ?c pn] =>
          destruct (command_64_spec cfg c pn Wn)
            as (s2 & t2 & p2 & E2 & _ & _ & _ & _ & W2 & H2 & _)
        end.
        rewrite E2. exists (Driver.accepted s2 t2), p2.
        conjuncts; auto; congruence. }
      rewrite E2. destruct ok; cbn [negb].
      2: { cbn [fst snd]. conjuncts; auto; try (intuition congruence). }
      destruct (lora_configure_spec cfg frequency power (Driver.sf cfg)
                  (Driver.bandwidth cfg) (Driver.coding_rate cfg) p2 W2)
        as (p3 & E3 & _ & W3 & H3 & _).
      cbv zeta in E3. rewrite E3.
      destruct (_ && _ && _); cbn [fst snd];
        conjuncts; auto; try (intuition congruence).
Qed.

End Exchange.

(** X21. [lora_process_messages] takes at most one line from the ring
    buffer.  It calls the registered handler exactly when that line begins
    with [+RCV=] and a handler is registered, handing it the parsed message
    and the registered user data, and the status is then LORA_STATUS_OK;
    any other line is taken and dropped with LORA_STATUS_ERROR.  Without an
    initialised configuration the status is LORA_STATUS_INVALID_PARAM and
    nothing is taken.  Nothing is ever written to the UART. *)
Theorem process_messages_dispatch (cfg : Driver.lora_config_t)
    (message : lora_message_t) (p : Driver.port) :
  rb_wf (Driver.uart_buffer p) ->
  let stream := rb_contents (Driver.uart_buffer p) in
  let line := fst (next_line RESPONSE_BUFFER_SIZE stream) in
  let notified :=
    match line with
    | Some text => starts_with (cs "+RCV=") (c_str text)
    | None => false
    end in
  exists status call p',
    Driver.lora_process_messages (Some cfg) message p = (status, call, p')
    /\ rb_wf (Driver.uart_buffer p')
    /\ Driver.sent p' = Driver.sent p
    /\ Driver.message_handler p' = Driver.message_handler p
    /\ (Driver.initialized cfg = false ->
        status = LORA_STATUS_INVALID_PARAM /\ call = None /\ p' = p)
    /\ (Driver.initialized cfg = true ->
        rb_contents (Driver.uart_buffer p')
        = snd (next_line RESPONSE_BUFFER_SIZE stream)
        /\ status = (if notified then LORA_STATUS_OK else LORA_STATUS_ERROR)
        /\ (notified = false -> call = None)
        /\ (Driver.message_handler p = None -> call = None)
        /\ forall text handler,
             line = Some text -> notified = true ->
             Driver.message_handler p = Some handler ->
             exists parsed,
               parse_received_message (Some (c_str text)) (Some message)
               = Some parsed
               /\ call = Some (handler, parsed, Driver.user_data p))
    /\ Driver.lora_process_messages None message p
       = (LORA_STATUS_INVALID_PARAM, None, p).
Proof.
  intros W. cbv zeta. unfold Driver.lora_process_messages.
  destruct (Driver.initialized cfg) eqn:I.
  2: { exists LORA_STATUS_INVALID_PARAM, None, p.
       repeat match goal with |- _ /\ _ => split end; auto; discriminate. }
  destruct (lora_receive_message_next_line {| Lora.initialized := true |}
              message (Driver.uart_buffer p) W eq_refl) as (b' & W' & C & E).
  rewrite E.
  destruct (fst (next_line RESPONSE_BUFFER_SIZE
                   (rb_contents (Driver.uart_buffer p)))) as [text|].
  - destruct (starts_with (cs "+RCV=") (c_str text)) eqn:P.
    + destruct (parse_received_message_some (c_str text) message) as [parsed Parsed].
      rewrite Parsed. eexists _, _, _. split; [reflexivity|].
      cbn [Driver.with_uart_buffer Driver.uart_buffer Driver.sent
           Driver.message_handler].
      repeat match goal with |- _ /\ _ => split end; auto; try discriminate.
      * intros _. repeat match goal with |- _ /\ _ => split end; auto;
          try discriminate.
        -- intros ->. reflexivity.
        -- intros text' handler [= <-] _ ->. exists parsed. auto.
    + exists LORA_STATUS_ERROR, None, (Driver.with_uart_buffer p b').
      cbn [Driver.with_uart_buffer Driver.uart_buffer Driver.sent
           Driver.message_handler].
      repeat match goal with |- _ /\ _ => split end; auto; try discriminate.
      intros _. repeat match goal with |- _ /\ _ => split end; auto;
        discriminate.
  - exists LORA_STATUS_ERROR, None, (Driver.with_uart_buffer p b').
    cbn [Driver.with_uart_buffer Driver.uart_buffer Driver.sent
         Driver.message_handler].
    repeat match goal with |- _ /\ _ => split end; auto; try discriminate.
    intros _. repeat match goal with |- _ /\ _ => split end; auto;
      discriminate.
Qed.

(** ** The stepper controller *)

Lemma off_is_not_on (bytes : list ascii) :
  lora_is_off_command (Some (c_str bytes)) = true ->
  lora_is_on_command (Some (c_str bytes)) = false.
Proof.
  intros Off. destruct (lora_is_on_command (Some (c_str bytes))) eqn:On;
    [|reflexivity].
  exfalso. revert On Off.
  rewrite lora_is_on_command_iff, lora_is_off_command_iff.
  rewrite !equal_ci_lower.
  intros [H|[H|[H|H]]] [G|[G|[G|G]]];
    rewrite H in G; vm_compute in G; discriminate.
Qed.

Lemma c_str_idempotent (bytes : list ascii) : c_str (c_str bytes) = c_str bytes.
Proof.
  induction bytes as [|c bytes IH]; [reflexivity|].
  cbn [c_str]. destruct (code c =? 0) eqn:E; [reflexivity|].
  cbn [c_str]. rewrite E, IH. reflexivity.
Qed.

Lemma mark_enabled_all (addrs : list nat) :
  forall w,
    let w' := foldl Controller.mark_enabled w addrs in
    (forall a, motors w' !! a
               = if decide (a ∈ addrs)
                 then (fun m => set_enabled m true) <$> motors w !! a
                 else motors w !! a)
    /\ gpio w' = gpio w /\ trace w' = trace w
    /\ stepper_interrupt_flag w' = stepper_interrupt_flag w.
Proof.
  induction addrs as [|a0 addrs IH]; intros w; cbv zeta; cbn [foldl].
  - split; [|auto]. intros a. rewrite decide_False by apply not_elem_of_nil.
    reflexivity.
  - destruct (IH (Controller.mark_enabled w a0)) as (M & G & T & F).
    cbv zeta in M, G, T, F.
    assert (forall a, motors (Controller.mark_enabled w a0) !! a
                      = if decide (a = a0)
                        then (fun m => set_enabled m true) <$> motors w !! a
                        else motors w !! a) as One.
    { intros a. unfold Controller.mark_enabled.
      destruct (motors w !! a0) as [m|] eqn:E; cbn [with_motors motors].
      - destruct (decide (a = a0)) as [->|Ne].
        + rewrite lookup_insert_eq, E. reflexivity.
        + rewrite lookup_insert_ne by congruence. reflexivity.
      - destruct (decide (a = a0)) as [->|Ne]; [rewrite E|]; reflexivity. }
    assert (gpio (Controller.mark_enabled w a0) = gpio w
            /\ trace (Controller.mark_enabled w a0) = trace w
            /\ stepper_interrupt_flag (Controller.mark_enabled w a0)
               = stepper_interrupt_flag w) as (G1 & T1 & F1).
    { unfold Controller.mark_enabled. destruct (motors w !! a0); auto. }
    split; [|rewrite G, T, F; auto].
    intros a. rewrite M, One.
    destruct (decide (a ∈ addrs)) as [i|ni], (decide (a = a0)) as [->|n].
    + rewrite decide_True by left. destruct (motors w !! a0); reflexivity.
    + rewrite decide_True by (now right). reflexivity.
    + rewrite decide_True by left. reflexivity.
    + rewrite decide_False; [reflexivity|].
      intros H. apply elem_of_cons in H as [?|?]; contradiction.
Qed.

Section Handler.

Variable env : nat -> option bool.
Variable STEPS_PER_REVOLUTION : Z.
Variable incoming : nat -> list ascii.
Variable patience : nat.

(** The acknowledgement leaves everything but the port alone. *)
Lemma acknowledge_frame (m : lora_message_t) (text : cstring)
    (s : Controller.state) :
  let s' := Controller.acknowledge incoming patience m text s in
  Controller.engine s' = Controller.engine s
  /\ Controller.stepper_active s' = Controller.stepper_active s
  /\ Controller.lora_config s' = Controller.lora_config s
  /\ Controller.global_steppers s' = Controller.global_steppers s
  /\ Controller.global_num_steppers s' = Controller.global_num_steppers s.
Proof. cbv zeta. unfold Controller.acknowledge. cbn. auto. Qed.

(** What the handler does on an OFF command. *)
Lemma handler_off (m : lora_message_t) (s : Controller.state) :
  lora_is_off_command (Some (c_str (payload m))) = true ->
  0 <= Controller.global_num_steppers s ->
  let s' := Controller.lora_message_handler env STEPS_PER_REVOLUTION incoming
              patience (Some m) s in
  Controller.engine s'
  = stepper_emergency_stop_all (Controller.global_steppers s)
      (Controller.global_num_steppers s)
      (stepper_set_interrupt (Controller.engine s))
  /\ Controller.stepper_active s' = false
  /\ Controller.radio s'
     = snd (Driver.lora_send_message incoming patience
              (Some (Controller.lora_config s)) (sender_address m)
              (Some (cs "STEPPERS_OFF")) 12 (Controller.radio s))
  /\ Controller.lora_config s' = Controller.lora_config s
  /\ Controller.global_steppers s' = Controller.global_steppers s
  /\ Controller.global_num_steppers s' = Controller.global_num_steppers s.
Proof.
  intros Off Pos. cbv zeta. unfold Controller.lora_message_handler.
  rewrite (off_is_not_on _ Off), Off.
  unfold Controller.acknowledge.
  cbn [Controller.with_radio Controller.with_engine Controller.with_stepper_active
       Controller.engine Controller.radio Controller.lora_config
       Controller.global_steppers Controller.global_num_steppers
       Controller.stepper_active].
  destruct (Controller.global_steppers s) as [base|] eqn:G.
  - destruct (0 <? Controller.global_num_steppers s) eqn:Some_;
      cbn [Controller.with_radio Controller.with_engine
           Controller.with_stepper_active Controller.engine Controller.radio
           Controller.lora_config Controller.global_steppers
           Controller.global_num_steppers Controller.stepper_active];
      repeat match goal with |- _ /\ _ => split end; auto; try reflexivity.
    apply Z.ltb_ge in Some_.
    replace (Controller.global_num_steppers s) with 0 by lia. reflexivity.
  - cbn [Controller.with_radio Controller.with_engine
         Controller.with_stepper_active Controller.engine Controller.radio
         Controller.lora_config Controller.global_steppers
         Controller.global_num_steppers Controller.stepper_active].
    repeat match goal with |- _ /\ _ => split end; auto.
Qed.

(** The engine after the emergency stop of an OFF command. *)
Lemma stopped_engine (base : option nat) (num : Z) (w : world) :
  let n := Z.to_nat num in
  let w' := stepper_emergency_stop_all base num (stepper_set_interrupt w) in
  stepper_interrupt_flag w' = true
  /\ (forall b a mot, base = Some b -> (b <= a < b + n)%nat ->
        motors w !! a = Some mot ->
        motors w' !! a = Some (set_enabled mot false)
        /\ outputs w' mot = [Some false; Some false; Some false; Some false])
  /\ (forall a, (forall b, base = Some b -> ~ (b <= a < b + n)%nat) ->
        motors w' !! a = motors w !! a)
  /\ (forall a, current_step <$> motors w' !! a = current_step <$> motors w !! a)
  /\ (exists puts, trace w' = puts ++ trace w /\ Forall is_low_write puts)
  /\ reads w' = reads w.
Proof.
  cbv zeta. unfold stepper_emergency_stop_all.
  destruct base as [b|].
  - destruct (stop_all_spec (seq b (Z.to_nat num)) (stepper_set_interrupt w))
      as (M & _ & P & R & _ & F & T).
    cbv zeta in M, P, R, F, T.
    change (motors (stepper_set_interrupt w)) with (motors w) in M, P.
    change (trace (stepper_set_interrupt w)) with (trace w) in T.
    split; [rewrite F; reflexivity|]. split.
    { intros b' a mot [= <-] Ha E.
      assert (a ∈ seq b (Z.to_nat num)) as In by (apply elem_of_seq; lia).
      split; [rewrite M, decide_True by exact In; rewrite E; reflexivity|].
      destruct (P a mot In E) as (P1 & P2 & P3 & P4).
      unfold outputs. rewrite P1, P2, P3, P4. reflexivity. }
    split.
    { intros a Out. rewrite M, decide_False; [reflexivity|].
      intros In. apply elem_of_seq in In. apply (Out b eq_refl). lia. }
    split.
    { intros a. rewrite M. destruct (decide _); [|reflexivity].
      destruct (motors w !! a); reflexivity. }
    split; [exact T|exact R].
  - split; [reflexivity|]. split; [intros b a mot H; discriminate|].
    split; [reflexivity|]. split; [reflexivity|].
    split; [exists []; split; [reflexivity|constructor]|reflexivity].
Qed.

(** X22. On an OFF command (OFF, STOP, HALT or 0 in any case) the message
    handler marks the steppers inactive, raises the cancellation flag, and
    disables every motor of the registered array with its four pins driven
    low, whatever state they were in; it writes nothing else to a pin, does
    not sleep and does not wait for anything before that.  It then sends
    the acknowledgement STEPPERS_OFF to the sender of the command. *)
Theorem off_command_stops (m : lora_message_t) (s : Controller.state)
    (base : nat) :
  lora_is_off_command (Some (c_str (payload m))) = true ->
  Controller.global_steppers s = Some base ->
  0 <= Controller.global_num_steppers s ->
  let s' := Controller.lora_message_handler env STEPS_PER_REVOLUTION incoming
              patience (Some m) s in
  let w := Controller.engine s in
  let w' := Controller.engine s' in
  let n := Z.to_nat (Controller.global_num_steppers s) in
  Controller.stepper_active s' = false
  /\ stepper_interrupt_flag w' = true
  /\ (forall a mot, (base <= a < base + n)%nat -> motors w !! a = Some mot ->
        motors w' !! a = Some (set_enabled mot false)
        /\ outputs w' mot = [Some false; Some false; Some false; Some false])
  /\ (forall a, ~ (base <= a < base + n)%nat -> motors w' !! a = motors w !! a)
  /\ (exists puts, trace w' = puts ++ trace w /\ Forall is_low_write puts)
  /\ reads w' = reads w
  /\ (bursts_fit incoming ->
      rb_wf (Driver.uart_buffer (Controller.radio s)) ->
      Driver.initialized (Controller.lora_config s) = true ->
      Driver.sent (Controller.radio s')
      = Driver.sent (Controller.radio s)
        ++ cs "AT+SEND=" ++ Driver.format_d (sender_address m)
        ++ cs ",12,STEPPERS_OFF" ++ [CR; LF]).
Proof.
  intros Off Base Pos. cbv zeta.
  destruct (handler_off m s Off Pos) as (E & A & R & _).
  cbv zeta in E, A, R. rewrite E, R, Base.
  destruct (stopped_engine (Some base) (Controller.global_num_steppers s)
              (Controller.engine s)) as (F & In & Out & _ & T & Rd).
  cbv zeta in F, In, Out, T, Rd.
  split; [exact A|]. split; [exact F|].
  split; [intros a mot Ha M; apply (In base a mot eq_refl Ha M)|].
  split; [intros a Ha; apply Out; intros b [= <-]; exact Ha|].
  split; [exact T|]. split; [exact Rd|].
  intros Fit W I.
  destruct (lora_send_message_spec incoming patience Fit (Controller.lora_config s)
              (sender_address m) (cs "STEPPERS_OFF") 12 (Controller.radio s) W)
    as (_ & Sent & _).
  cbv zeta in Sent. destruct (Sent I ltac:(lia) ltac:(unfold LORA_MAX_MESSAGE_LENGTH; lia))
    as (_ & S & _).
  rewrite S. f_equal. unfold Driver.snprintf.
  change (Driver.format_d 12) with (cs "12").
  rewrite take_ge; [rewrite <- !app_assoc; reflexivity|].
  rewrite !length_app. cbn [List.length cs list_ascii_of_string].
  assert (List.length (Driver.format_d (sender_address m)) <= 11)%nat; [|unfold LORA_MAX_MESSAGE_LENGTH; lia].
  apply format_d_length.
Qed.

(** What the handler does on an ON command. *)
Lemma handler_on (m : lora_message_t) (s : Controller.state) :
  lora_is_on_command (Some (c_str (payload m))) = true ->
  0 <= Controller.global_num_steppers s ->
  let s' := Controller.lora_message_handler env STEPS_PER_REVOLUTION incoming
              patience (Some m) s in
  Controller.engine s'
  = match Controller.global_steppers s with
    | Some steppers =>
        App.control_steppers env STEPS_PER_REVOLUTION steppers
          (Controller.global_num_steppers s)
          (foldl Controller.mark_enabled
             (stepper_clear_interrupt (Controller.engine s))
             (seq steppers (Z.to_nat (Controller.global_num_steppers s))))
    | None => stepper_clear_interrupt (Controller.engine s)
    end
  /\ Controller.stepper_active s' = true
  /\ Controller.radio s'
     = snd (Driver.lora_send_message incoming patience
              (Some (Controller.lora_config s)) (sender_address m)
              (Some (cs "STEPPERS_ON")) 11 (Controller.radio s))
  /\ Controller.lora_config s' = Controller.lora_config s
  /\ Controller.global_steppers s' = Controller.global_steppers s
  /\ Controller.global_num_steppers s' = Controller.global_num_steppers s.
Proof.
  intros On Pos. cbv zeta. unfold Controller.lora_message_handler.
  rewrite On. unfold Controller.acknowledge.
  cbn [Controller.with_radio Controller.with_engine Controller.with_stepper_active
       Controller.engine Controller.radio Controller.lora_config
       Controller.global_steppers Controller.global_num_steppers
       Controller.stepper_active].
  destruct (Controller.global_steppers s) as [base|] eqn:G.
  - destruct (0 <? Controller.global_num_steppers s) eqn:Some_;
      cbn [Controller.with_radio Controller.with_engine
           Controller.with_stepper_active Controller.engine Controller.radio
           Controller.lora_config Controller.global_steppers
           Controller.global_num_steppers Controller.stepper_active];
      rewrite ?G;
      cbn [Controller.with_radio Controller.with_engine
           Controller.with_stepper_active Controller.engine Controller.radio
           Controller.lora_config Controller.global_steppers
           Controller.global_num_steppers Controller.stepper_active];
      rewrite ?Some_;
      cbn [Controller.with_radio Controller.with_engine
           Controller.with_stepper_active Controller.engine Controller.radio
           Controller.lora_config Controller.global_steppers
           Controller.global_num_steppers Controller.stepper_active];
      repeat match goal with |- _ /\ _ => split end; auto; try reflexivity.
    apply Z.ltb_ge in Some_.
    replace (Controller.global_num_steppers s) with 0 by lia. reflexivity.
  - cbn [Controller.with_radio Controller.with_engine
         Controller.with_stepper_active Controller.engine Controller.radio
         Controller.lora_config Controller.global_steppers
         Controller.global_num_steppers Controller.stepper_active].
    rewrite ?G.
    repeat match goal with |- _ /\ _ => split end; auto.
Qed.

(** X23. On an ON command (ON, START, MOVE or 1 in any case), with nothing
    raising the cancellation flag meanwhile, the message handler marks the
    steppers active, clears the flag, enables every motor of the registered
    array again and rotates them once: each motor ends enabled and the
    per-call number of half-steps clockwise from the phase it had, also
    after an emergency stop, which keeps the phase index.  Motors outside
    the array are left alone. *)
Theorem on_command_resumes (m : lora_message_t) (s : Controller.state)
    (base a : nat) (mot : stepper_motor_t) :
  undisturbed env ->
  lora_is_on_command (Some (c_str (payload m))) = true ->
  Controller.global_steppers s = Some base ->
  0 <= Controller.global_num_steppers s ->
  let n := Z.to_nat (Controller.global_num_steppers s) in
  (base <= a < base + n)%nat ->
  motors (Controller.engine s) !! a = Some mot ->
  0 <= current_step mot <= 7 ->
  let s' := Controller.lora_message_handler env STEPS_PER_REVOLUTION incoming
              patience (Some m) s in
  let per_call := steps_of_degrees STEPS_PER_REVOLUTION (f32_of_Z 1) in
  Controller.stepper_active s' = true
  /\ stepper_interrupt_flag (Controller.engine s') = false
  /\ motors (Controller.engine s') !! a
     = Some (set_current_step (set_enabled mot true)
               ((current_step mot + per_call) mod 8))
  /\ (forall b, ~ (base <= b < base + n)%nat ->
        motors (Controller.engine s') !! b = motors (Controller.engine s) !! b).
Proof.
  intros Quiet On Base Pos n Ha M R. cbv zeta.
  destruct (handler_on m s On Pos) as (E & A & _).
  cbv zeta in E, A. rewrite E, Base.
  destruct (mark_enabled_all (seq base n)
              (stepper_clear_interrupt (Controller.engine s))) as (M1 & _ & _ & F1).
  cbv zeta in M1, F1.
  change (motors (stepper_clear_interrupt (Controller.engine s)))
    with (motors (Controller.engine s)) in M1.
  fold n.
  set (w1 := foldl Controller.mark_enabled
               (stepper_clear_interrupt (Controller.engine s)) (seq base n)) in *.
  destruct (control_steppers_round env STEPS_PER_REVOLUTION Quiet base
              (Controller.global_num_steppers s) w1 F1) as (F2 & M2).
  cbv zeta in F2, M2. fold n in M2.
  split; [exact A|]. split; [exact F2|]. split.
  - rewrite M2, M1, decide_True by (apply elem_of_seq; lia).
    rewrite M. cbn [fmap option_fmap option_map]. f_equal.
    unfold after_steps. cbn [set_enabled enabled current_step].
    rewrite bool_decide_eq_true_2 by exact Ha. cbn [andb].
    destruct (iter_next_step
                (Z.to_nat (steps_of_degrees STEPS_PER_REVOLUTION (f32_of_Z 1)))
                (current_step mot) R) as [-> _].
    rewrite Z2Nat.id by apply steps_of_degrees_nonneg. reflexivity.
  - intros b Hb. rewrite M2, M1.
    rewrite decide_False by (intros In; apply elem_of_seq in In; lia).
    rewrite bool_decide_eq_false_2 by exact Hb.
    destruct (motors (Controller.engine s) !! b) as [mb|]; [|reflexivity].
    cbn [fmap option_fmap option_map]. unfold after_steps.
    rewrite andb_false_r. reflexivity.
Qed.

End Handler.

Lemma slept_puts (puts tr : list event) :
  Forall (fun ev => exists pin level, ev = EvGpioPut pin level) puts ->
  slept (puts ++ tr) = slept tr.
Proof.
  induction 1 as [|ev puts (pin & level & ->) _ IH]; [reflexivity|].
  cbn [app slept]. exact IH.
Qed.

Lemma slept_low_writes (puts tr : list event) :
  Forall is_low_write puts -> slept (puts ++ tr) = slept tr.
Proof.
  induction 1 as [|ev puts [pin ->] _ IH]; [reflexivity|].
  cbn [app slept]. exact IH.
Qed.

(** What [lora_process_messages] does with an initialised driver. *)
Lemma lora_process_messages_spec (cfg : Driver.lora_config_t)
    (message : lora_message_t) (p : Driver.port) :
  rb_wf (Driver.uart_buffer p) -> Driver.initialized cfg = true ->
  exists p',
    Driver.lora_process_messages (Some cfg) message p
    = (if notified p then LORA_STATUS_OK else LORA_STATUS_ERROR,
       match fst (next_line RESPONSE_BUFFER_SIZE
                    (rb_contents (Driver.uart_buffer p))),
             Driver.message_handler p with
       | Some text, Some handler =>
           if starts_with (cs "+RCV=") (c_str text)
           then Some (handler, parsed_line text message, Driver.user_data p)
           else None
       | _, _ => None
       end, p')
    /\ rb_wf (Driver.uart_buffer p')
    /\ Driver.sent p' = Driver.sent p
    /\ Driver.message_handler p' = Driver.message_handler p
    /\ Driver.polls p' = Driver.polls p.
Proof.
  intros W I. unfold Driver.lora_process_messages, notified. rewrite I.
  destruct (lora_receive_message_next_line {| Lora.initialized := true |}
              message (Driver.uart_buffer p) W eq_refl) as (b' & W' & C & E).
  rewrite E. exists (Driver.with_uart_buffer p b').
  split; [|split; [exact W'|repeat split]].
  destruct (fst (next_line RESPONSE_BUFFER_SIZE
                   (rb_contents (Driver.uart_buffer p)))) as [text|].
  - destruct (starts_with (cs "+RCV=") (c_str text)) eqn:P.
    + unfold parsed_line.
      destruct (parse_received_message_some (c_str text) message) as [parsed Parsed].
      rewrite Parsed. cbn [default from_option id].
      destruct (Driver.message_handler p); reflexivity.
    + destruct (Driver.message_handler p); reflexivity.
  - reflexivity.
Qed.

Section Loop.

Variable env : nat -> option bool.
Variable STEPS_PER_REVOLUTION : Z.
Variable incoming : nat -> list ascii.
Variable patience : nat.
Variable PICO_DEFAULT_LED_PIN : Z.

(** What the handler does on a command that is neither ON nor OFF. *)
Lemma handler_unknown (m : lora_message_t) (s : Controller.state) :
  lora_is_on_command (Some (c_str (payload m))) = false ->
  lora_is_off_command (Some (c_str (payload m))) = false ->
  let s' := Controller.lora_message_handler env STEPS_PER_REVOLUTION incoming
              patience (Some m) s in
  Controller.engine s' = Controller.engine s
  /\ Controller.stepper_active s' = Controller.stepper_active s.
Proof.
  intros On Off. cbv zeta. unfold Controller.lora_message_handler.
  rewrite On, Off. split; reflexivity.
Qed.

(** The pass up to the test of [stepper_active]: the engine and the flag
    [stepper_active] after the message was processed and the LED
    flashed. *)
Lemma pass_without_on (steppers : nat) (message : lora_message_t)
    (s : Controller.state) :
  rb_wf (Driver.uart_buffer (Controller.radio s)) ->
  0 <= Controller.global_num_steppers s ->
  Controller.stepper_active s = false ->
  (forall text,
      pending_command (Controller.lora_config s) message (Controller.radio s)
      = Some text ->
      lora_is_on_command (Some text) = false) ->
  let s' := Controller.main_loop_pass env STEPS_PER_REVOLUTION incoming patience
              PICO_DEFAULT_LED_PIN true steppers message s in
  Controller.stepper_active s' = false
  /\ exists leds w,
       trace (Controller.engine s') = leds ++ trace w
       /\ motors (Controller.engine s') = motors w
       /\ Forall (fun ev => exists level, ev = EvGpioPut PICO_DEFAULT_LED_PIN level)
            leds
       /\ (w = Controller.engine s
           \/ w = stepper_emergency_stop_all (Controller.global_steppers s)
                    (Controller.global_num_steppers s)
                    (stepper_set_interrupt (Controller.engine s))).
Proof.
  intros W Pos Idle NoOn. cbv zeta. unfold Controller.main_loop_pass.
  destruct (Driver.initialized (Controller.lora_config s)) eqn:I.
  2: { unfold Driver.lora_process_messages. rewrite I.
       cbn [Controller.with_radio Controller.stepper_active Controller.engine].
       rewrite Idle. cbn [Controller.stepper_active Controller.engine].
       split; [exact Idle|]. exists [], (Controller.engine s).
       repeat split; auto. }
  destruct (lora_process_messages_spec (Controller.lora_config s) message
              (Controller.radio s) W I) as (p' & E & _).
  rewrite E. unfold pending_command in NoOn. rewrite I in NoOn.
  unfold notified.
  destruct (fst (next_line RESPONSE_BUFFER_SIZE
                   (rb_contents (Driver.uart_buffer (Controller.radio s)))))
    as [text|].
  2: { cbn [Controller.with_radio Controller.stepper_active Controller.engine].
       rewrite Idle. cbn [Controller.stepper_active Controller.engine].
       split; [exact Idle|]. exists [], (Controller.engine s).
       repeat split; auto. }
  destruct (starts_with (cs "+RCV=") (c_str text)) eqn:P.
  2: { destruct (Driver.message_handler (Controller.radio s));
         cbn [Controller.with_radio Controller.stepper_active Controller.engine];
         rewrite Idle; cbn [Controller.stepper_active Controller.engine];
         (split; [exact Idle|]); exists [], (Controller.engine s);
         repeat split; auto. }
  destruct (Driver.message_handler (Controller.radio s)) as [handler|].
  2: { cbn [Controller.with_radio Controller.with_engine Controller.stepper_active
            Controller.engine].
       rewrite Idle. cbn [Controller.stepper_active Controller.engine].
       split; [exact Idle|].
       exists [EvGpioPut PICO_DEFAULT_LED_PIN false;
               EvGpioPut PICO_DEFAULT_LED_PIN true], (Controller.engine s).
       split; [reflexivity|]. split; [reflexivity|]. split; [|left; reflexivity].
       repeat constructor; eexists; reflexivity. }
  cbn [andb is_some] in NoOn.
  specialize (NoOn _ eq_refl).
  set (m := parsed_line text message) in *.
  set (s0 := Controller.with_radio s p').
  assert (Controller.engine s0 = Controller.engine s
          /\ Controller.stepper_active s0 = false
          /\ Controller.global_steppers s0 = Controller.global_steppers s
          /\ Controller.global_num_steppers s0 = Controller.global_num_steppers s)
    as (E0 & A0 & G0 & N0) by (unfold s0; cbn; auto).
  destruct (lora_is_off_command (Some (c_str (payload m)))) eqn:Off.
  - destruct (handler_off env STEPS_PER_REVOLUTION incoming patience m s0 Off)
      as (E1 & A1 & _); [rewrite N0; exact Pos|].
    cbv zeta in E1, A1.
    set (s1 := Controller.lora_message_handler env STEPS_PER_REVOLUTION incoming
                 patience (Some m) s0) in *.
    cbn [Controller.with_engine Controller.stepper_active Controller.engine].
    rewrite A1.
    cbn [Controller.with_engine Controller.stepper_active Controller.engine].
    split; [exact A1|].
    eexists [EvGpioPut PICO_DEFAULT_LED_PIN false;
             EvGpioPut PICO_DEFAULT_LED_PIN true], _.
    split; [reflexivity|]. split; [reflexivity|].
    split; [repeat constructor; eexists; reflexivity|].
    right. rewrite E1, E0, G0, N0. reflexivity.
  - destruct (handler_unknown m s0 NoOn Off) as (E1 & A1).
    cbv zeta in E1, A1.
    set (s1 := Controller.lora_message_handler env STEPS_PER_REVOLUTION incoming
                 patience (Some m) s0) in *.
    cbn [Controller.with_engine Controller.stepper_active Controller.engine].
    rewrite A1, A0.
    cbn [Controller.with_engine Controller.stepper_active Controller.engine].
    split; [congruence|].
    eexists [EvGpioPut PICO_DEFAULT_LED_PIN false;
             EvGpioPut PICO_DEFAULT_LED_PIN true], _.
    split; [reflexivity|]. split; [reflexivity|].
    split; [repeat constructor; eexists; reflexivity|].
    left. rewrite E1, E0. reflexivity.
Qed.

(** X24. While the steppers are inactive, a pass of the main loop that
    hands no ON command to the message handler moves no motor: every motor
    structure is as before or, after an OFF command, the same but
    disabled; nothing sleeps and the steppers stay inactive.  A pass in
    safety mode, the driver not being initialised, changes nothing at
    all. *)
Theorem main_loop_stays_stopped (steppers : nat) (message : lora_message_t)
    (s : Controller.state) :
  rb_wf (Driver.uart_buffer (Controller.radio s)) ->
  0 <= Controller.global_num_steppers s ->
  Controller.stepper_active s = false ->
  (forall text,
      pending_command (Controller.lora_config s) message (Controller.radio s)
      = Some text ->
      lora_is_on_command (Some text) = false) ->
  let s' := Controller.main_loop_pass env STEPS_PER_REVOLUTION incoming patience
              PICO_DEFAULT_LED_PIN true steppers message s in
  Controller.stepper_active s' = false
  /\ (forall a,
        motors (Controller.engine s') !! a = motors (Controller.engine s) !! a
        \/ exists mot,
             motors (Controller.engine s) !! a = Some mot
             /\ motors (Controller.engine s') !! a = Some (set_enabled mot false))
  /\ slept (trace (Controller.engine s')) = slept (trace (Controller.engine s))
  /\ Controller.main_loop_pass env STEPS_PER_REVOLUTION incoming patience
       PICO_DEFAULT_LED_PIN false steppers message s = s.
Proof.
  intros W Pos Idle NoOn. cbv zeta.
  destruct (pass_without_on steppers message s W Pos Idle NoOn)
    as (A & leds & w & T & M & L & Which).
  cbv zeta in A, T, M.
  split; [exact A|]. split; [|split; [|reflexivity]].
  - intros a. rewrite M. destruct Which as [->| ->]; [left; reflexivity|].
    unfold stepper_emergency_stop_all.
    destruct (Controller.global_steppers s) as [base|]; [|left; reflexivity].
    destruct (stop_all_spec (seq base (Z.to_nat (Controller.global_num_steppers s)))
                (stepper_set_interrupt (Controller.engine s))) as (Ms & _).
    cbv zeta in Ms. rewrite Ms.
    change (motors (stepper_set_interrupt (Controller.engine s)))
      with (motors (Controller.engine s)).
    destruct (decide _); [|left; reflexivity].
    destruct (motors (Controller.engine s) !! a) as [mot|];
      [right; exists mot; auto|left; reflexivity].
  - rewrite T, slept_puts.
    2: { eapply Forall_impl; [exact L|]. intros ev [level ->]. eauto. }
    destruct Which as [->| ->]; [reflexivity|].
    destruct (stopped_engine (Controller.global_steppers s)
                (Controller.global_num_steppers s) (Controller.engine s))
      as (_ & _ & _ & _ & (puts & Tp & Low) & _).
    cbv zeta in Tp. rewrite Tp. apply slept_low_writes. exact Low.
Qed.

(** X25. A pass of the main loop that finds an OFF command at the head of
    the ring buffer stops the motors, whether they were running or not:
    the steppers are inactive and the cancellation flag is set afterwards,
    every motor of the registered array is disabled with its four pins
    low, no motor has moved a step, and the pass has not slept. *)
Theorem main_loop_off (steppers base : nat) (message : lora_message_t)
    (s : Controller.state) (text : cstring) :
  rb_wf (Driver.uart_buffer (Controller.radio s)) ->
  0 <= Controller.global_num_steppers s ->
  Controller.global_steppers s = Some base ->
  pending_command (Controller.lora_config s) message (Controller.radio s)
  = Some text ->
  lora_is_off_command (Some text) = true ->
  let s' := Controller.main_loop_pass env STEPS_PER_REVOLUTION incoming patience
              PICO_DEFAULT_LED_PIN true steppers message s in
  let w := Controller.engine s in
  let w' := Controller.engine s' in
  let n := Z.to_nat (Controller.global_num_steppers s) in
  Controller.stepper_active s' = false
  /\ stepper_interrupt_flag w' = true
  /\ (forall a mot, (base <= a < base + n)%nat -> motors w !! a = Some mot ->
        motors w' !! a = Some (set_enabled mot false)
        /\ outputs w' mot = [Some false; Some false; Some false; Some false])
  /\ (forall a, current_step <$> motors w' !! a = current_step <$> motors w !! a)
  /\ slept (trace w') = slept (trace w).
Proof.
  intros W Pos Base Pending Off. cbv zeta. unfold Controller.main_loop_pass.
  unfold pending_command in Pending.
  destruct (Driver.initialized (Controller.lora_config s)) eqn:I.
  2: { destruct (fst (next_line _ _)); discriminate. }
  destruct (lora_process_messages_spec (Controller.lora_config s) message
              (Controller.radio s) W I) as (p' & E & _).
  rewrite E. unfold notified.
  destruct (fst (next_line RESPONSE_BUFFER_SIZE
                   (rb_contents (Driver.uart_buffer (Controller.radio s)))))
    as [line|]; [|discriminate].
  destruct (starts_with (cs "+RCV=") (c_str line)) eqn:P; [|discriminate].
  destruct (Driver.message_handler (Controller.radio s)) as [handler|];
    [|discriminate].
  cbn [andb is_some] in Pending. injection Pending as <-.
  set (m := parsed_line line message) in *.
  set (s0 := Controller.with_radio s p').
  assert (Controller.engine s0 = Controller.engine s
          /\ Controller.global_steppers s0 = Controller.global_steppers s
          /\ Controller.global_num_steppers s0 = Controller.global_num_steppers s)
    as (E0 & G0 & N0) by (unfold s0; cbn; auto).
  destruct (handler_off env STEPS_PER_REVOLUTION incoming patience m s0 Off)
    as (E1 & A1 & _); [rewrite N0; exact Pos|].
  cbv zeta in E1, A1.
  set (s1 := Controller.lora_message_handler env STEPS_PER_REVOLUTION incoming
               patience (Some m) s0) in *.
  cbn [Controller.with_engine Controller.stepper_active Controller.engine].
  rewrite A1.
  cbn [Controller.with_engine Controller.stepper_active Controller.engine].
  rewrite E1, E0, G0, N0, Base.
  destruct (stopped_engine (Some base) (Controller.global_num_steppers s)
              (Controller.engine s)) as (F & In & _ & Cs & (puts & T & Low) & _).
  cbv zeta in F, In, Cs, T.
  set (stopped := stepper_emergency_stop_all (Some base)
                    (Controller.global_num_steppers s)
                    (stepper_set_interrupt (Controller.engine s))) in *.
  split; [exact A1|]. split; [exact F|]. split; [|split].
  - intros a mot Ha M. destruct (In base a mot eq_refl Ha M) as [M' O].
    split; [exact M'|]. unfold outputs in *.
    injection O as O1 O2 O3 O4.
    assert (forall pin, gpio stopped !! pin = Some false ->
                        gpio (gpio_put PICO_DEFAULT_LED_PIN false
                                (gpio_put PICO_DEFAULT_LED_PIN true stopped))
                        !! pin = Some false) as Led.
    { intros pin Hp. apply gpio_put_low_lookup.
      destruct (decide (pin = PICO_DEFAULT_LED_PIN)) as [->|Ne]; [left; reflexivity|].
      right. cbn [gpio_put gpio]. rewrite lookup_insert_ne by congruence. exact Hp. }
    rewrite !Led by assumption. reflexivity.
  - exact Cs.
  - cbn [gpio_put trace slept]. rewrite T. apply slept_low_writes. exact Low.
Qed.

(** X26. While the steppers are active, with the cancellation flag clear
    and nothing raising it, a pass of the main loop that hands no command
    to the message handler makes one rotation: each enabled motor of the
    array of four ends the per-call number of half-steps further clockwise,
    every other motor is left alone, and the steppers stay active. *)
Theorem main_loop_runs (steppers : nat) (message : lora_message_t)
    (s : Controller.state) (a : nat) (mot : stepper_motor_t) :
  undisturbed env ->
  rb_wf (Driver.uart_buffer (Controller.radio s)) ->
  Controller.stepper_active s = true ->
  stepper_interrupt_flag (Controller.engine s) = false ->
  pending_command (Controller.lora_config s) message (Controller.radio s) = None ->
  motors (Controller.engine s) !! a = Some mot ->
  0 <= current_step mot <= 7 ->
  let s' := Controller.main_loop_pass env STEPS_PER_REVOLUTION incoming patience
              PICO_DEFAULT_LED_PIN true steppers message s in
  let per_call := steps_of_degrees STEPS_PER_REVOLUTION (f32_of_Z 1) in
  let in_array := bool_decide (steppers <= a < steppers + 4)%nat in
  Controller.stepper_active s' = true
  /\ stepper_interrupt_flag (Controller.engine s') = false
  /\ motors (Controller.engine s') !! a
     = Some (if enabled mot && in_array
             then set_current_step mot ((current_step mot + per_call) mod 8)
             else mot).
Proof.
  intros Quiet W Active F Pending M R. cbv zeta.
  unfold Controller.main_loop_pass.
  assert (exists p' status w0,
            Driver.lora_process_messages (Some (Controller.lora_config s)) message
              (Controller.radio s) = (status, None, p')
            /\ (match status with
                | LORA_STATUS_OK =>
                    Controller.with_engine (Controller.with_radio s p')
                      (gpio_put PICO_DEFAULT_LED_PIN false
                         (gpio_put PICO_DEFAULT_LED_PIN true
                            (Controller.engine (Controller.with_radio s p'))))
                | _ => Controller.with_radio s p'
                end)
               = Controller.with_engine (Controller.with_radio s p') w0
            /\ motors w0 = motors (Controller.engine s)
            /\ stepper_interrupt_flag w0 = false)
    as (p' & status & w0 & E & S0 & M0 & F0).
  { destruct (Driver.initialized (Controller.lora_config s)) eqn:I.
    - destruct (lora_process_messages_spec (Controller.lora_config s) message
                  (Controller.radio s) W I) as (p' & E & _).
      exists p'. unfold pending_command in Pending. rewrite I in Pending.
      rewrite E. unfold notified.
      destruct (fst (next_line RESPONSE_BUFFER_SIZE
                       (rb_contents (Driver.uart_buffer (Controller.radio s)))))
        as [line|].
      + destruct (starts_with (cs "+RCV=") (c_str line)) eqn:P.
        * destruct (Driver.message_handler (Controller.radio s)); [discriminate|].
          eexists _, _. split; [reflexivity|]. cbn beta iota.
          split; [reflexivity|]. split; [reflexivity|exact F].
        * exists LORA_STATUS_ERROR, (Controller.engine s).
          split; [destruct (Driver.message_handler _); reflexivity|].
          split; [destruct s; reflexivity|]. auto.
      + exists LORA_STATUS_ERROR, (Controller.engine s).
        split; [reflexivity|]. split; [destruct s; reflexivity|]. auto.
    - exists (Controller.radio s), LORA_STATUS_INVALID_PARAM, (Controller.engine s).
      unfold Driver.lora_process_messages. rewrite I.
      split; [reflexivity|]. split; [destruct s; reflexivity|]. auto. }
  rewrite E. cbn beta iota. rewrite S0.
  cbn [Controller.with_engine Controller.with_radio Controller.stepper_active
       Controller.engine].
  rewrite Active.
  unfold stepper_is_interrupted.
  destruct (read_flag_quiet env Quiet Query w0 F0) as (Q1 & M1 & _ & _ & F1).
  destruct (read_flag env Query w0) as [f w1]. cbn [fst snd] in *. subst f.
  cbn [Controller.with_engine Controller.with_radio Controller.stepper_active
       Controller.engine].
  destruct (control_steppers_round env STEPS_PER_REVOLUTION Quiet steppers
              App.NUM_STEPPERS w1 F1) as (F2 & M2).
  cbv zeta in F2, M2.
  set (w2 := App.control_steppers env STEPS_PER_REVOLUTION steppers
               App.NUM_STEPPERS w1) in *.
  destruct (read_flag_quiet env Quiet Query w2 F2) as (Q3 & M3 & _ & _ & F3).
  destruct (read_flag env Query w2) as [f w3]. cbn [fst snd] in *. subst f.
  cbn [Controller.with_engine Controller.with_radio Controller.stepper_active
       Controller.engine].
  split; [exact Active|]. split; [exact F3|].
  rewrite M3, M2, M1, M0, M. cbn [fmap option_fmap option_map]. f_equal.
  unfold after_steps.
  change (Z.to_nat App.NUM_STEPPERS) with 4%nat.
  destruct (enabled mot && bool_decide (steppers <= a < steppers + 4)%nat);
    [|reflexivity].
  destruct (iter_next_step
              (Z.to_nat (steps_of_degrees STEPS_PER_REVOLUTION (f32_of_Z 1)))
              (current_step mot) R) as [-> _].
  rewrite Z2Nat.id by apply steps_of_degrees_nonneg. reflexivity.
Qed.

(** Whatever the command, the handler ends with an acknowledgement of at
    most 15 characters sent through the port as it found it. *)
Lemma handler_acknowledges (m : lora_message_t) (s : Controller.state) :
  exists text : cstring,
    0 < to_uint8 (Z.of_nat (List.length text)) <= LORA_MAX_MESSAGE_LENGTH
    /\ Controller.radio
         (Controller.lora_message_handler env STEPS_PER_REVOLUTION incoming
            patience (Some m) s)
       = snd (Driver.lora_send_message incoming patience
                (Some (Controller.lora_config s)) (sender_address m) (Some text)
                (to_uint8 (Z.of_nat (List.length text))) (Controller.radio s)).
Proof.
  unfold Controller.lora_message_handler, Controller.acknowledge.
  destruct (lora_is_on_command (Some (c_str (payload m)))).
  - exists (cs "STEPPERS_ON"). split; [vm_compute; split; congruence|].
    destruct (Controller.global_steppers s) as [base|] eqn:G;
      destruct (0 <? Controller.global_num_steppers s) eqn:N;
      repeat (cbn [Controller.with_radio Controller.with_engine
                   Controller.with_stepper_active Controller.engine
                   Controller.radio Controller.lora_config
                   Controller.global_steppers Controller.global_num_steppers
                   Controller.stepper_active];
              rewrite ?G, ?N);
      reflexivity.
  - destruct (lora_is_off_command (Some (c_str (payload m)))).
    + exists (cs "STEPPERS_OFF"). split; [vm_compute; split; congruence|].
      destruct (Controller.global_steppers s) as [base|] eqn:G;
        destruct (0 <? Controller.global_num_steppers s) eqn:N;
        repeat (cbn [Controller.with_radio Controller.with_engine
                     Controller.with_stepper_active Controller.engine
                     Controller.radio Controller.lora_config
                     Controller.global_steppers Controller.global_num_steppers
                     Controller.stepper_active];
                rewrite ?G, ?N);
        reflexivity.
    + exists (cs "UNKNOWN_COMMAND"). split; [vm_compute; split; congruence|].
      reflexivity.
Qed.

(** X27. A command handled by a pass of the main loop costs everything
    that was queued behind it: sending the acknowledgement resets the ring
    buffer and drains the UART, so after the pass the ring buffer holds
    only what came in the same burst after the reply to the
    acknowledgement, whatever it held before.  When nothing but line
    terminators follows a reply line in its burst, the ring buffer holds
    only line terminators and the next pass has no command to hand to the
    handler, even if one had arrived. *)
Theorem handled_command_drops_queue (steppers : nat) (message : lora_message_t)
    (s : Controller.state) (text : cstring) :
  bursts_fit incoming ->
  rb_wf (Driver.uart_buffer (Controller.radio s)) ->
  pending_command (Controller.lora_config s) message (Controller.radio s)
  = Some text ->
  let s' := Controller.main_loop_pass env STEPS_PER_REVOLUTION incoming patience
              PICO_DEFAULT_LED_PIN true steppers message s in
  let held := rb_contents (Driver.uart_buffer (Controller.radio s')) in
  held = leftover incoming 64 patience (Driver.polls (Controller.radio s))
  /\ Driver.rx_fifo (Controller.radio s') = []
  /\ ((forall k, drop_terminators (snd (next_line 64 (incoming k))) = []) ->
      drop_terminators held = []
      /\ forall next, pending_command (Controller.lora_config s') next
                        (Controller.radio s') = None).
Proof.
  intros Fit W Pending. cbv zeta.
  assert (forall passes k,
             (forall j, drop_terminators (snd (next_line 64 (incoming j))) = []) ->
             drop_terminators (leftover incoming 64 passes k) = []) as Nothing.
  { induction passes as [|passes IH]; intros k Clean; cbn [leftover];
      [reflexivity|].
    destruct (fst (next_line 64 (incoming k))); [apply Clean|apply IH, Clean]. }
  assert (rb_contents
            (Driver.uart_buffer
               (Controller.radio
                  (Controller.main_loop_pass env STEPS_PER_REVOLUTION incoming
                     patience PICO_DEFAULT_LED_PIN true steppers message s)))
          = leftover incoming 64 patience (Driver.polls (Controller.radio s))
          /\ Driver.rx_fifo
               (Controller.radio
                  (Controller.main_loop_pass env STEPS_PER_REVOLUTION incoming
                     patience PICO_DEFAULT_LED_PIN true steppers message s))
             = []) as [Held Fifo].
  { unfold Controller.main_loop_pass.
    unfold pending_command in Pending.
    destruct (Driver.initialized (Controller.lora_config s)) eqn:I.
    2: { destruct (fst (next_line _ _)); discriminate. }
    destruct (lora_process_messages_spec (Controller.lora_config s) message
                (Controller.radio s) W I) as (p' & E & W' & _ & _ & K').
    rewrite E. unfold notified.
    destruct (fst (next_line RESPONSE_BUFFER_SIZE
                     (rb_contents (Driver.uart_buffer (Controller.radio s)))))
      as [line|]; [|discriminate].
    destruct (starts_with (cs "+RCV=") (c_str line)) eqn:P; [|discriminate].
    destruct (Driver.message_handler (Controller.radio s)) as [handler|];
      [|discriminate].
    set (m := parsed_line line message) in *.
    set (s0 := Controller.with_radio s p').
    destruct (handler_acknowledges m s0) as (ack & Len & Radio).
    destruct (lora_send_message_rest incoming patience Fit
                (Controller.lora_config s0) (sender_address m) ack
                (to_uint8 (Z.of_nat (List.length ack))) (Controller.radio s0))
      as [C1 F1]; [exact W'|exact I|exact Len|].
    cbv zeta in C1, F1.
    change (Driver.polls (Controller.radio s0)) with (Driver.polls p') in C1.
    rewrite K' in C1.
    set (s1 := Controller.lora_message_handler env STEPS_PER_REVOLUTION incoming
                 patience (Some m) s0) in *.
    rewrite <- Radio in C1, F1.
    set (s2 := Controller.with_engine s1
                 (gpio_put PICO_DEFAULT_LED_PIN false
                    (gpio_put PICO_DEFAULT_LED_PIN true (Controller.engine s1)))).
    change (Controller.radio s1) with (Controller.radio s2) in C1, F1.
    destruct (Controller.stepper_active s2); [|auto].
    destruct (stepper_is_interrupted env (Controller.engine s2))
      as [interrupted w1].
    destruct interrupted; [auto|].
    match goal with |- context [stepper_is_interrupted env ?w] =>
      destruct (stepper_is_interrupted env w) as [again w2]
    end.
    destruct again; auto. }
  split; [exact Held|]. split; [exact Fifo|].
  intros Clean. rewrite Held. split; [apply Nothing, Clean|].
  intros next. unfold pending_command. rewrite Held.
  rewrite (proj2 (next_line_none_iff RESPONSE_BUFFER_SIZE _) (Nothing _ _ Clean)).
  reflexivity.
Qed.

End Loop.

(** ** The properties at sample inputs *)

Lemma parse_length_from_delimiters_witness :
  Z.of_nat (List.length (RCV (cs "42") (cs "999") (cs "abc") (cs "-17")))
  < RESPONSE_BUFFER_SIZE
  /\ exists m,
       parse_received_message
         (Some (RCV (cs "42") (cs "999") (cs "abc") (cs "-17"))) (Some zero_message)
       = Some m
       /\ payload_length m = 3 /\ c_str (payload m) = cs "abc".
Proof.
  split; [reflexivity|].
  destruct (parse_length_from_delimiters
              (cs "42") (cs "999") (cs "abc") (cs "-17") zero_message)
    as [(m & E & L & _ & C & _) _].
  - repeat constructor.
  - repeat constructor.
  - repeat constructor; vm_compute; discriminate.
  - reflexivity.
  - exists m. split; [exact E|]. split; [exact L | exact C].
Defined.

Lemma rotate_multiple_cancellation_witness :
  let w' := stepper_rotate_multiple_degrees sample_off_during_rotation 4096
              (Some [Some 0%nat; Some 1%nat]) 2 (f32_of_Z 90) STEPPER_CW
              sample_world in
  level_triggered sample_off_during_rotation
  /\ (exists ms tr, (AfterDelay, true, ms, tr) ∈ observed w')
  /\ exists new,
       observed w' = new ++ observed sample_world
       /\ forall site ms tr,
            (site, true, ms, tr) ∈ new ->
            site <> InDelay \/ level_triggered sample_off_during_rotation ->
            motors w' = ms /\ trace w' = tr.
Proof.
  cbv zeta. split.
  - intros k. unfold sample_off_during_rotation.
    destruct (k =? 3)%nat; discriminate.
  - split.
    + eexists _, _. vm_compute. left.
    + apply (rotate_multiple_cancellation sample_off_during_rotation 4096
               (Some [Some 0%nat; Some 1%nat]) 2 (f32_of_Z 90) STEPPER_CW
               sample_world).
Defined.

Lemma emergency_stop_all_unconditional_witness :
  let m := {| pin1 := 2; pin2 := 3; pin3 := 4; pin4 := 5; step_delay := 2;
              current_step := 0; enabled := true |} in
  let w' := stepper_emergency_stop_all (Some 0%nat) 2 sample_world in
  motors sample_world !! 0%nat = Some m
  /\ motors w' !! 0%nat = Some (set_enabled m false)
  /\ gpio w' !! 2 = Some false /\ gpio w' !! 3 = Some false
  /\ gpio w' !! 4 = Some false /\ gpio w' !! 5 = Some false.
Proof.
  cbv zeta.
  assert (E : motors sample_world !! 0%nat
              = Some {| pin1 := 2; pin2 := 3; pin3 := 4; pin4 := 5;
                        step_delay := 2; current_step := 0; enabled := true |})
    by (vm_compute; reflexivity).
  split; [exact E|].
  destruct (emergency_stop_all_unconditional sample_world 0%nat 2) as (Stopped & _).
  destruct (Stopped 0%nat _ ltac:(simpl; lia) E) as (M & _ & P1 & P2 & P3 & P4).
  auto.
Defined.

Lemma ring_buffer_fifo_witness :
  let bytes := replicate (Z.to_nat (UART_RX_BUFFER_SIZE - 1)) (ascii_of_N 97) in
  let filled := snd (run_ops (map Put bytes) (uart_buffer_init sample_stale_buffer)) in
  List.length (buffer sample_stale_buffer) = Z.to_nat UART_RX_BUFFER_SIZE
  /\ List.length bytes = Z.to_nat (UART_RX_BUFFER_SIZE - 1)
  /\ fst (run_ops (map Put bytes) (uart_buffer_init sample_stale_buffer))
     = map (fun _ => PutResult true) bytes
  /\ fst (uart_buffer_put filled (ascii_of_N 122)) = false.
Proof.
  cbv zeta. split; [reflexivity|]. split; [reflexivity|].
  destruct (ring_buffer_fifo sample_stale_buffer
              (replicate (Z.to_nat (UART_RX_BUFFER_SIZE - 1)) (ascii_of_N 97))
              (ascii_of_N 122) [Put (ascii_of_N 120); Get; Get]
              eq_refl eq_refl)
    as (_ & _ & _ & P & _ & _ & _ & R & _).
  split; [exact P|]. now rewrite R.
Defined.

Lemma get_line_empty_only_after_nul_witness :
  let b := buffer_holding ([CR; LF; CR; LF] ++ cs "XY") in
  rb_wf b
  /\ exists b1 b2,
       uart_buffer_get_line b RESPONSE_BUFFER_SIZE = Some (true, cs "XY", b1)
       /\ uart_buffer_get_line b1 RESPONSE_BUFFER_SIZE = Some (false, [], b2).
Proof.
  cbv zeta.
  assert (W : rb_wf (buffer_holding ([CR; LF; CR; LF] ++ cs "XY"))).
  { unfold rb_wf. repeat split; vm_compute; congruence. }
  split; [exact W|].
  destruct (get_line_empty_only_after_nul (buffer_holding ([CR; LF; CR; LF] ++ cs "XY"))
              RESPONSE_BUFFER_SIZE W)
    as (_ & _ & X).
  - unfold RESPONSE_BUFFER_SIZE. lia.
  - apply X. reflexivity.
Defined.

Lemma steps_truncated_and_shared_witness :
  let w' := stepper_rotate_multiple_degrees sample_quiet 4096
              (Some [Some 0%nat; None; Some 1%nat]) 3 (f32_of_Z 1) STEPPER_CCW
              sample_world in
  undisturbed sample_quiet
  /\ stepper_interrupt_flag sample_world = false
  /\ steps_of_degrees 4096 (f32_of_Z 1) = 11
  /\ motors w' !! 0%nat
     = after_steps STEPPER_CCW 11 true <$> motors sample_world !! 0%nat.
Proof.
  cbv zeta. split; [intros k; reflexivity|]. split; [reflexivity|].
  split; [reflexivity|].
  destruct (steps_truncated_and_shared sample_quiet 4096 (fun k => eq_refl)
              [Some 0%nat; None; Some 1%nat] 3 (f32_of_Z 1) STEPPER_CCW
              sample_world eq_refl) as (_ & Shared).
  - vm_compute. apply NoDup_cons_2; [|apply NoDup_singleton].
    intros H. apply list_elem_of_singleton in H. discriminate.
  - exact (Shared 0%nat).
Defined.

Lemma malformed_notification_witness :
  let b := buffer_holding (cs "+OK" ++ [CR; LF]) in
  rb_wf b
  /\ fst (next_line RESPONSE_BUFFER_SIZE (rb_contents b)) = Some (cs "+OK")
  /\ parse_received_message (Some (RCV_unclosed (cs "42") (cs "3") (cs "abc")))
       (Some zero_message)
     = Some {| sender_address := 42; rssi := 0; payload_length := 3;
               payload := replicate (Z.to_nat LORA_MAX_MESSAGE_LENGTH) NUL |}
  /\ exists b',
       lora_receive_message (Some {| initialized := true |}) (Some zero_message) b
       = Some (LORA_STATUS_ERROR, Some zero_message, b').
Proof.
  cbv zeta.
  assert (W : rb_wf (buffer_holding (cs "+OK" ++ [CR; LF]))).
  { unfold rb_wf. repeat split; vm_compute; congruence. }
  split; [exact W|]. split; [vm_compute; reflexivity|].
  apply (malformed_notification (cs "42") (cs "3") (cs "abc") zero_message
           {| initialized := true |} (buffer_holding (cs "+OK" ++ [CR; LF]))
           (cs "+OK")).
  - repeat constructor.
  - repeat constructor.
  - repeat constructor; vm_compute; discriminate.
  - exact W.
  - reflexivity.
  - vm_compute; reflexivity.
  - reflexivity.
Defined.

Lemma current_step_stays_in_range_witness :
  let m := {| pin1 := 2; pin2 := 3; pin3 := 4; pin4 := 5; step_delay := 2;
              current_step := 5; enabled := true |} in
  reachable sample_quiet 4096 sample_run
  /\ motors sample_run !! 0%nat = Some m
  /\ 0 <= stepper_get_position (Some 0%nat) sample_run <= 7.
Proof.
  cbv zeta.
  assert (R : reachable sample_quiet 4096 sample_run)
    by (unfold sample_run; apply reachable_call, reachable_call, reachable_power_on).
  split; [exact R|].
  assert (E : motors sample_run !! 0%nat
              = Some {| pin1 := 2; pin2 := 3; pin3 := 4; pin4 := 5;
                        step_delay := 2; current_step := 5; enabled := true |})
    by (vm_compute; reflexivity).
  split; [exact E|].
  destruct (current_step_stays_in_range sample_quiet 4096 _ _ _ R E)
    as (_ & _ & C & _).
  exact C.
Defined.

(** ** The further properties at sample inputs *)

Local Ltac short :=
  unfold UART_RX_BUFFER_SIZE;
  cbn [List.length app cs list_ascii_of_string]; lia.

Lemma sample_buffer_wf (bytes : list ascii) :
  (List.length bytes < Z.to_nat UART_RX_BUFFER_SIZE)%nat ->
  rb_wf (buffer_holding bytes) /\ rb_contents (buffer_holding bytes) = bytes.
Proof.
  intros Short. unfold buffer_holding.
  set (fresh := uart_buffer_init _).
  destruct (rb_init_wf {| buffer := replicate (Z.to_nat UART_RX_BUFFER_SIZE) NUL;
                          head := 0; tail := 0; overflow := false |})
    as [W C]; [apply length_replicate|]. fold fresh in W, C.
  destruct (run_ops_refines_queue (map Put bytes) fresh W) as (_ & W' & C').
  split; [exact W'|]. rewrite C', C, queue_ops_puts; [reflexivity|].
  cbn [List.length]. lia.
Qed.

Lemma sample_pair_phases : phases_in_range (motors sample_pair).
Proof.
  unfold sample_pair. apply perform_phases, perform_phases.
  apply map_Forall_empty.
Qed.

Lemma sample_quiet_undisturbed : undisturbed sample_quiet.
Proof. intros k. reflexivity. Qed.

Lemma sample_reply_fits : bursts_fit sample_reply.
Proof.
  intros k. unfold sample_reply, UART_RX_BUFFER_SIZE.
  destruct (k =? 1)%nat; cbn [List.length app cs list_ascii_of_string]; lia.
Qed.

Lemma sample_polls_steady : clock_steady sample_polls.
Proof.
  split.
  - repeat constructor; cbn; lia.
  - intros k l s s' Le Hk Hl.
    destruct k as [|[|[|k]]], l as [|[|[|l]]]; cbn in Hk, Hl;
      try discriminate; try lia;
      injection Hk as <-; injection Hl as <-; cbn; lia.
Qed.

Lemma available_counts_held_witness :
  List.length (buffer sample_stale_buffer) = Z.to_nat UART_RX_BUFFER_SIZE
  /\ 0 <= uart_buffer_available
            (snd (run_ops [Put (ascii_of_N 120); Put (ascii_of_N 121); Get]
                    (uart_buffer_init sample_stale_buffer)))
     <= UART_RX_BUFFER_SIZE - 1.
Proof.
  split; [reflexivity|].
  destruct (available_counts_held sample_stale_buffer
              [Put (ascii_of_N 120); Put (ascii_of_N 121); Get] eq_refl)
    as [_ R].
  exact R.
Defined.

Lemma interrupt_handler_fills_witness :
  rb_wf (buffer_holding (cs "AB"))
  /\ exists waiting b',
       uart_rx_interrupt_handler (cs "CD") (buffer_holding (cs "AB")) = (waiting, b')
       /\ rb_wf b'.
Proof.
  destruct (sample_buffer_wf (cs "AB")) as [W _]; [short|].
  split; [exact W|].
  destruct (interrupt_handler_fills (cs "CD") (buffer_holding (cs "AB")) W)
    as (waiting & b' & E & W' & _).
  exists waiting, b'. split; [exact E|exact W'].
Defined.

Lemma get_line_consumes_in_order_witness :
  rb_wf (buffer_holding ([CR; LF] ++ cs "AB" ++ [CR; LF] ++ cs "C"))
  /\ 2 <= RESPONSE_BUFFER_SIZE <= 65535
  /\ exists ok line b' skipped ending,
       uart_buffer_get_line
         (buffer_holding ([CR; LF] ++ cs "AB" ++ [CR; LF] ++ cs "C"))
         RESPONSE_BUFFER_SIZE = Some (ok, line, b')
       /\ rb_contents (buffer_holding ([CR; LF] ++ cs "AB" ++ [CR; LF] ++ cs "C"))
          = skipped ++ line ++ ending ++ rb_contents b'.
Proof.
  destruct (sample_buffer_wf ([CR; LF] ++ cs "AB" ++ [CR; LF] ++ cs "C"))
    as [W _]; [short|].
  assert (2 <= RESPONSE_BUFFER_SIZE <= 65535) as R
    by (unfold RESPONSE_BUFFER_SIZE; lia).
  split; [exact W|]. split; [exact R|].
  destruct (get_line_consumes_in_order _ RESPONSE_BUFFER_SIZE W R)
    as (ok & line & b' & skipped & ending & E & _ & _ & S & _).
  exists ok, line, b', skipped, ending. split; [exact E|exact S].
Defined.

Lemma get_line_fits_destination_witness :
  rb_wf (buffer_holding (cs "HELLO"))
  /\ 0 <= 4 <= 65535
  /\ exists ok line b',
       uart_buffer_get_line (buffer_holding (cs "HELLO")) 4 = Some (ok, line, b')
       /\ Z.of_nat (List.length line) + 1 <= Z.max 4 1.
Proof.
  destruct (sample_buffer_wf (cs "HELLO")) as [W _]; [short|].
  assert (0 <= 4 <= 65535) as R by lia.
  split; [exact W|]. split; [exact R|].
  destruct (get_line_fits_destination _ 4 W R) as (ok & line & b' & E & L & _).
  exists ok, line, b'. split; [exact E|exact L].
Defined.

Lemma parse_stays_in_bounds_witness :
  (5 <= List.length (cs "+RCV=7,,,,"))%nat
  /\ exists m,
       parse_received_message (Some (cs "+RCV=7,,,,")) (Some zero_message) = Some m
       /\ List.length (payload m) = Z.to_nat LORA_MAX_MESSAGE_LENGTH.
Proof.
  assert (5 <= List.length (cs "+RCV=7,,,,"))%nat as L by (cbn; lia).
  split; [exact L|].
  destruct (parse_stays_in_bounds (cs "+RCV=7,,,,") zero_message zero_message L)
    as (m & E & _ & P & _).
  exists m. split; [exact E|exact P].
Defined.

Lemma receive_message_status_witness :
  rb_wf (buffer_holding (cs "+OK" ++ [CR; LF]))
  /\ exists status message' b',
       lora_receive_message (Some {| initialized := true |}) (Some zero_message)
         (buffer_holding (cs "+OK" ++ [CR; LF])) = Some (status, message', b')
       /\ (status <> LORA_STATUS_OK -> message' = Some zero_message).
Proof.
  destruct (sample_buffer_wf (cs "+OK" ++ [CR; LF])) as [W _]; [short|].
  split; [exact W|].
  destruct (receive_message_status (Some {| initialized := true |})
              (Some zero_message) _ W)
    as (status & message' & b' & E & _ & _ & _ & _ & Keep & _).
  exists status, message', b'. split; [exact E|exact Keep].
Defined.

Lemma button_press_needs_release_witness :
  (0 < 2)%nat
  /\ fst (poll_button sample_button sample_polls) !! 0%nat = Some true
  /\ fst (poll_button sample_button sample_polls) !! 2%nat = Some true
  /\ exists k time, (0 < k < 2)%nat /\ sample_polls !! k = Some (true, time).
Proof.
  assert (0 < 2)%nat as Lt by lia.
  assert (fst (poll_button sample_button sample_polls) !! 0%nat = Some true) as H0
    by (vm_compute; reflexivity).
  assert (fst (poll_button sample_button sample_polls) !! 2%nat = Some true) as H2
    by (vm_compute; reflexivity).
  split; [exact Lt|]. split; [exact H0|]. split; [exact H2|].
  destruct (button_press_needs_release sample_button sample_polls 0 2 Lt H0 H2)
    as (_ & _ & K).
  exact K.
Defined.

Lemma button_presses_spaced_witness :
  clock_steady sample_polls
  /\ (0 < 2)%nat
  /\ sample_polls !! 0%nat = Some (false, 100)
  /\ sample_polls !! 2%nat = Some (false, 300)
  /\ forall b : Button.button_t,
       Button.lora_button_init (Some sample_button) 2 = Some b ->
       fst (poll_button b sample_polls) !! 0%nat = Some true.
Proof.
  assert (0 < 2)%nat as Lt by lia.
  split; [exact sample_polls_steady|]. split; [exact Lt|].
  split; [reflexivity|]. split; [reflexivity|].
  destruct (button_presses_spaced sample_polls 2 sample_button 0 2 false false
              100 300 sample_polls_steady Lt eq_refl eq_refl) as [_ Boot].
  intros b Init. destruct (Boot b Init) as [_ First].
  exact (First false 100 eq_refl).
Defined.

Lemma sample_pair_first : motors sample_pair !! 0%nat = Some sample_motor.
Proof. vm_compute. reflexivity. Qed.

Lemma sample_motor_pins : NoDup (pins_of sample_motor).
Proof.
  apply (bool_decide_eq_true_1 (NoDup (pins_of sample_motor))).
  vm_compute. reflexivity.
Qed.

Lemma move_steps_position_witness :
  undisturbed sample_quiet
  /\ stepper_interrupt_flag sample_pair = false
  /\ motors sample_pair !! 0%nat = Some sample_motor
  /\ enabled sample_motor = true
  /\ 0 <= current_step sample_motor <= 7 /\ 0 <= 11
  /\ NoDup (pins_of sample_motor)
  /\ stepper_get_position (Some 0%nat)
       (stepper_move_steps sample_quiet (Some 0%nat) 11 STEPPER_CCW sample_pair)
     = (current_step sample_motor - 11) mod 8.
Proof.
  assert (0 <= current_step sample_motor <= 7) as R by (cbn; lia).
  assert (0 <= 11) as P by lia.
  split; [exact sample_quiet_undisturbed|]. split; [reflexivity|].
  split; [exact sample_pair_first|]. split; [reflexivity|].
  split; [exact R|]. split; [exact P|]. split; [exact sample_motor_pins|].
  destruct (move_steps_position sample_quiet sample_quiet_undisturbed 0 11
              STEPPER_CCW sample_pair sample_motor eq_refl sample_pair_first
              eq_refl R P sample_motor_pins) as (_ & G & _).
  exact G.
Defined.

Lemma rotation_pace_witness :
  undisturbed sample_quiet
  /\ stepper_interrupt_flag sample_pair = false
  /\ slept (trace (stepper_rotate_multiple_degrees sample_quiet 4096
                     (Some [Some 1%nat; Some 0%nat]) 2 (f32_of_Z 1) STEPPER_CW
                     sample_pair))
     = slept (trace sample_pair)
       + steps_of_degrees 4096 (f32_of_Z 1)
         * pace (take (Z.to_nat 2) [Some 1%nat; Some 0%nat]) (motors sample_pair).
Proof.
  split; [exact sample_quiet_undisturbed|]. split; [reflexivity|].
  destruct (rotation_pace sample_quiet 4096 sample_quiet_undisturbed
              [Some 1%nat; Some 0%nat] 2 (f32_of_Z 1) STEPPER_CW sample_pair
              eq_refl) as (S & _).
  exact S.
Defined.

Lemma sample_group_distinct :
  NoDup (omap id (take (Z.to_nat 2) [Some 0%nat; Some 1%nat])).
Proof.
  apply (bool_decide_eq_true_1
           (NoDup (omap id (take (Z.to_nat 2) [Some 0%nat; Some 1%nat])))).
  vm_compute. reflexivity.
Qed.

Lemma demo_sequence_round_trip_witness :
  undisturbed sample_quiet
  /\ stepper_interrupt_flag sample_pair = false
  /\ NoDup (omap id (take (Z.to_nat 2) [Some 0%nat; Some 1%nat]))
  /\ phases_in_range (motors sample_pair)
  /\ motors (stepper_demo_sequence sample_quiet 4096
               (Some [Some 0%nat; Some 1%nat]) 2 (f32_of_Z 5) 25 sample_pair)
     = motors sample_pair.
Proof.
  split; [exact sample_quiet_undisturbed|]. split; [reflexivity|].
  split; [exact sample_group_distinct|]. split; [exact sample_pair_phases|].
  destruct (demo_sequence_round_trip sample_quiet 4096 sample_quiet_undisturbed
              [Some 0%nat; Some 1%nat] 2 (f32_of_Z 5) 25 sample_pair eq_refl
              sample_group_distinct sample_pair_phases) as (M & _).
  exact M.
Defined.

Lemma sample_pair_first_enabled : is_enabled 0 sample_pair = true.
Proof. vm_compute. reflexivity. Qed.

Lemma single_motor_as_group_witness :
  is_enabled 0 sample_pair = true
  /\ stepper_rotate_degrees sample_off_during_rotation 4096 (Some 0%nat)
       (f32_of_Z 2) STEPPER_CW sample_pair
     = stepper_rotate_multiple_degrees sample_off_during_rotation 4096
         (Some [Some 0%nat]) 1 (f32_of_Z 2) STEPPER_CW sample_pair.
Proof.
  split; [exact sample_pair_first_enabled|].
  destruct (single_motor_as_group sample_off_during_rotation 4096 0 (f32_of_Z 2)
              3 STEPPER_CW sample_pair sample_pair_first_enabled) as (Same & _).
  exact Same.
Defined.

Lemma sample_group_within :
  forall a, Some a ∈ take (Z.to_nat 2) [Some 0%nat; Some 1%nat] ->
            (0 <= a < 0 + Z.to_nat 2)%nat.
Proof.
  intros a H. cbn in H.
  apply elem_of_cons in H as [[= ->]|H]; [cbn; lia|].
  apply elem_of_cons in H as [[= ->]|H]; [cbn; lia|].
  apply elem_of_nil in H. contradiction.
Qed.

Lemma stopped_motors_stay_stopped_witness :
  (forall a, Some a ∈ take (Z.to_nat 2) [Some 0%nat; Some 1%nat] ->
             (0 <= a < 0 + Z.to_nat 2)%nat)
  /\ trace (stepper_rotate_multiple_degrees sample_quiet 4096
              (Some [Some 0%nat; Some 1%nat]) 2 (f32_of_Z 90) STEPPER_CW
              (stepper_emergency_stop_all (Some 0%nat) 2 sample_pair))
     = trace (stepper_emergency_stop_all (Some 0%nat) 2 sample_pair).
Proof.
  split; [exact sample_group_within|].
  destruct (stopped_motors_stay_stopped sample_quiet 4096 0 2
              [Some 0%nat; Some 1%nat] 2 (f32_of_Z 90) STEPPER_CW sample_pair
              sample_group_within) as (_ & _ & T & _).
  exact T.
Defined.

Lemma disable_enable_round_trip_witness :
  motors sample_pair !! 0%nat = Some sample_motor
  /\ NoDup (pins_of sample_motor)
  /\ outputs (stepper_enable (Some 0%nat) (stepper_disable (Some 0%nat) sample_pair))
       sample_motor
     = pattern (current_step sample_motor).
Proof.
  split; [exact sample_pair_first|]. split; [exact sample_motor_pins|].
  destruct (disable_enable_round_trip 0 sample_pair sample_motor
              sample_pair_first sample_motor_pins) as (_ & _ & _ & O & _).
  exact O.
Defined.

Lemma init_all_steppers_spec_witness :
  0 <= 4
  /\ (fst (App.init_all_steppers 0 4 power_on) = true <-> 4 <= App.NUM_STEPPERS).
Proof.
  assert (0 <= 4) as P by lia. split; [exact P|].
  destruct (init_all_steppers_spec 0 4 power_on P) as (Ok & _).
  exact Ok.
Defined.

Lemma control_steppers_rounds_witness :
  undisturbed sample_quiet
  /\ stepper_interrupt_flag sample_pair = false
  /\ motors sample_pair !! 0%nat = Some sample_motor
  /\ 0 <= current_step sample_motor <= 7
  /\ stepper_interrupt_flag
       (Nat.iter 3 (App.control_steppers sample_quiet 4096 0 2) sample_pair)
     = false.
Proof.
  assert (0 <= current_step sample_motor <= 7) as R by (cbn; lia).
  split; [exact sample_quiet_undisturbed|]. split; [reflexivity|].
  split; [exact sample_pair_first|]. split; [exact R|].
  destruct (control_steppers_rounds sample_quiet 4096 sample_quiet_undisturbed
              0 2 3 sample_pair 0 sample_motor eq_refl sample_pair_first R)
    as (_ & F & _).
  exact F.
Defined.

Lemma sample_port_wf (bytes : list ascii) :
  (List.length bytes < Z.to_nat UART_RX_BUFFER_SIZE)%nat ->
  rb_wf (Driver.uart_buffer (sample_port bytes)).
Proof. intros Short. apply sample_buffer_wf. exact Short. Qed.

Lemma send_at_command_reply_witness :
  bursts_fit sample_reply
  /\ 2 <= 64 <= 255
  /\ rb_wf (Driver.uart_buffer (sample_port (cs "stale")))
  /\ exists p',
       Driver.send_at_command sample_reply 3 (Some sample_config) (Some (cs "AT"))
         (Some []) 64 (sample_port (cs "stale"))
       = (match fst (await sample_reply 64 3 (Driver.polls (sample_port (cs "stale"))))
          with
          | Some line => (LORA_STATUS_OK, Some (c_str line), p')
          | None => (LORA_STATUS_TIMEOUT, Some [], p')
          end)
       /\ Driver.sent p'
          = Driver.sent (sample_port (cs "stale")) ++ cs "AT" ++ [CR; LF].
Proof.
  assert (2 <= 64 <= 255) as R by lia.
  assert (rb_wf (Driver.uart_buffer (sample_port (cs "stale")))) as W
    by (apply sample_port_wf; short).
  split; [exact sample_reply_fits|]. split; [exact R|]. split; [exact W|].
  destruct (send_at_command_reply sample_reply 3 sample_reply_fits sample_config
              (cs "AT") [] 64 (sample_port (cs "stale")) R W)
    as ((p' & E & S & _) & _).
  exists p'. split; [exact E|exact S].
Defined.

Lemma send_message_status_witness :
  bursts_fit sample_reply
  /\ rb_wf (Driver.uart_buffer (sample_port []))
  /\ exists status p',
       Driver.lora_send_message sample_reply 3 (Some sample_config) 100
         (Some (cs "ON")) 2 (sample_port []) = (status, p')
       /\ (status = LORA_STATUS_INVALID_PARAM -> p' = sample_port []).
Proof.
  assert (rb_wf (Driver.uart_buffer (sample_port []))) as W
    by (apply sample_port_wf; short).
  split; [exact sample_reply_fits|]. split; [exact W|].
  destruct (send_message_status sample_reply 3 sample_reply_fits sample_config
              100 (cs "ON") 2 (sample_port []) W)
    as (status & p' & E & _ & Same & _).
  exists status, p'. split; [exact E|exact Same].
Defined.

Lemma configure_all_or_nothing_witness :
  bursts_fit sample_reply
  /\ rb_wf (Driver.uart_buffer (sample_port []))
  /\ exists status cfg' p',
       Driver.lora_configure sample_reply 3 (Some sample_config) 868000000 15 10
         8 2 (sample_port []) = (status, Some cfg', p')
       /\ (status <> LORA_STATUS_OK ->
           status = LORA_STATUS_ERROR /\ cfg' = sample_config).
Proof.
  assert (rb_wf (Driver.uart_buffer (sample_port []))) as W
    by (apply sample_port_wf; short).
  split; [exact sample_reply_fits|]. split; [exact W|].
  destruct (configure_all_or_nothing sample_reply 3 sample_reply_fits
              sample_config 868000000 15 10 8 2 (sample_port []) W)
    as (status & cfg' & p' & E & _ & Keep & _).
  exists status, cfg', p'. split; [exact E|exact Keep].
Defined.

Lemma init_custom_outcome_witness :
  bursts_fit sample_reply
  /\ Driver.message_handler
       (snd (Driver.lora_init_custom sample_reply 3 (Some sample_config) (Some 1)
               4 5 18 100 915000000 10 (sample_port [])))
     = None.
Proof.
  split; [exact sample_reply_fits|].
  destruct (init_custom_outcome sample_reply 3 sample_reply_fits sample_config
              1 4 5 18 100 915000000 10 (sample_port [])) as (_ & H & _).
  exact H.
Defined.

Lemma process_messages_dispatch_witness :
  rb_wf (Driver.uart_buffer (sample_port (cs "+RCV=200,3,OFF,-40" ++ [CR; LF])))
  /\ exists status call p',
       Driver.lora_process_messages (Some sample_config) zero_message
         (sample_port (cs "+RCV=200,3,OFF,-40" ++ [CR; LF])) = (status, call, p')
       /\ Driver.sent p'
          = Driver.sent (sample_port (cs "+RCV=200,3,OFF,-40" ++ [CR; LF])).
Proof.
  assert (rb_wf (Driver.uart_buffer
                   (sample_port (cs "+RCV=200,3,OFF,-40" ++ [CR; LF])))) as W
    by (apply sample_port_wf; short).
  split; [exact W|].
  destruct (process_messages_dispatch sample_config zero_message _ W)
    as (status & call & p' & E & _ & S & _).
  exists status, call, p'. split; [exact E|exact S].
Defined.

Lemma sample_off_is_off :
  lora_is_off_command (Some (c_str (payload (sample_message (cs "off"))))) = true.
Proof. vm_compute. reflexivity. Qed.

Lemma sample_on_is_on :
  lora_is_on_command (Some (c_str (payload (sample_message (cs "Start"))))) = true.
Proof. vm_compute. reflexivity. Qed.

Lemma off_command_stops_witness :
  lora_is_off_command (Some (c_str (payload (sample_message (cs "off"))))) = true
  /\ Controller.global_steppers (sample_state [] true) = Some 0%nat
  /\ 0 <= Controller.global_num_steppers (sample_state [] true)
  /\ Controller.stepper_active
       (Controller.lora_message_handler sample_quiet 4096 sample_reply 3
          (Some (sample_message (cs "off"))) (sample_state [] true))
     = false.
Proof.
  assert (0 <= Controller.global_num_steppers (sample_state [] true)) as P
    by (cbn; lia).
  split; [exact sample_off_is_off|]. split; [reflexivity|]. split; [exact P|].
  destruct (off_command_stops sample_quiet 4096 sample_reply 3
              (sample_message (cs "off")) (sample_state [] true) 0
              sample_off_is_off eq_refl P) as (A & _).
  exact A.
Defined.

Lemma on_command_resumes_witness :
  undisturbed sample_quiet
  /\ lora_is_on_command (Some (c_str (payload (sample_message (cs "Start"))))) = true
  /\ Controller.global_steppers (sample_state [] false) = Some 0%nat
  /\ 0 <= Controller.global_num_steppers (sample_state [] false)
  /\ (0 <= 0 < 0 + Z.to_nat (Controller.global_num_steppers (sample_state [] false)))%nat
  /\ motors (Controller.engine (sample_state [] false)) !! 0%nat = Some sample_motor
  /\ 0 <= current_step sample_motor <= 7
  /\ Controller.stepper_active
       (Controller.lora_message_handler sample_quiet 4096 sample_reply 3
          (Some (sample_message (cs "Start"))) (sample_state [] false))
     = true.
Proof.
  assert (0 <= Controller.global_num_steppers (sample_state [] false)) as P
    by (cbn; lia).
  assert (0 <= 0 < 0 + Z.to_nat (Controller.global_num_steppers
                                   (sample_state [] false)))%nat as In
    by (cbn; lia).
  assert (0 <= current_step sample_motor <= 7) as R by (cbn; lia).
  split; [exact sample_quiet_undisturbed|]. split; [exact sample_on_is_on|].
  split; [reflexivity|]. split; [exact P|]. split; [exact In|].
  split; [exact sample_pair_first|]. split; [exact R|].
  destruct (on_command_resumes sample_quiet 4096 sample_reply 3
              (sample_message (cs "Start")) (sample_state [] false) 0 0
              sample_motor sample_quiet_undisturbed sample_on_is_on eq_refl P In
              sample_pair_first R) as (A & _).
  exact A.
Defined.

Lemma sample_pending_off :
  pending_command sample_config zero_message
    (sample_port (cs "+RCV=200,3,OFF,-40" ++ [CR; LF]))
  = Some (cs "OFF").
Proof. vm_compute. reflexivity. Qed.

Lemma sample_pending_none :
  pending_command sample_config zero_message (sample_port (cs "+OK" ++ [CR; LF]))
  = None.
Proof. vm_compute. reflexivity. Qed.

Lemma main_loop_stays_stopped_witness :
  rb_wf (Driver.uart_buffer
           (Controller.radio (sample_state (cs "+OK" ++ [CR; LF]) false)))
  /\ 0 <= Controller.global_num_steppers (sample_state (cs "+OK" ++ [CR; LF]) false)
  /\ Controller.stepper_active (sample_state (cs "+OK" ++ [CR; LF]) false) = false
  /\ (forall text,
        pending_command
          (Controller.lora_config (sample_state (cs "+OK" ++ [CR; LF]) false))
          zero_message
          (Controller.radio (sample_state (cs "+OK" ++ [CR; LF]) false))
        = Some text ->
        lora_is_on_command (Some text) = false)
  /\ Controller.stepper_active
       (Controller.main_loop_pass sample_quiet 4096 sample_reply 3 25 true 0
          zero_message (sample_state (cs "+OK" ++ [CR; LF]) false))
     = false.
Proof.
  assert (rb_wf (Driver.uart_buffer
                   (Controller.radio (sample_state (cs "+OK" ++ [CR; LF]) false))))
    as W by (apply sample_port_wf; short).
  assert (0 <= Controller.global_num_steppers
                 (sample_state (cs "+OK" ++ [CR; LF]) false)) as P by (cbn; lia).
  assert (forall text,
             pending_command
               (Controller.lora_config (sample_state (cs "+OK" ++ [CR; LF]) false))
               zero_message
               (Controller.radio (sample_state (cs "+OK" ++ [CR; LF]) false))
             = Some text ->
             lora_is_on_command (Some text) = false) as NoOn.
  { intros text H. change (pending_command sample_config zero_message
                             (sample_port (cs "+OK" ++ [CR; LF])) = Some text) in H.
    rewrite sample_pending_none in H. discriminate. }
  split; [exact W|]. split; [exact P|]. split; [reflexivity|].
  split; [exact NoOn|].
  destruct (main_loop_stays_stopped sample_quiet 4096 sample_reply 3 25 0
              zero_message (sample_state (cs "+OK" ++ [CR; LF]) false) W P
              eq_refl NoOn) as (A & _).
  exact A.
Defined.

Lemma main_loop_off_witness :
  rb_wf (Driver.uart_buffer
           (Controller.radio
              (sample_state (cs "+RCV=200,3,OFF,-40" ++ [CR; LF]) true)))
  /\ 0 <= Controller.global_num_steppers
            (sample_state (cs "+RCV=200,3,OFF,-40" ++ [CR; LF]) true)
  /\ Controller.global_steppers
       (sample_state (cs "+RCV=200,3,OFF,-40" ++ [CR; LF]) true) = Some 0%nat
  /\ pending_command
       (Controller.lora_config
          (sample_state (cs "+RCV=200,3,OFF,-40" ++ [CR; LF]) true))
       zero_message
       (Controller.radio (sample_state (cs "+RCV=200,3,OFF,-40" ++ [CR; LF]) true))
     = Some (cs "OFF")
  /\ lora_is_off_command (Some (cs "OFF")) = true
  /\ Controller.stepper_active
       (Controller.main_loop_pass sample_quiet 4096 sample_reply 3 25 true 0
          zero_message (sample_state (cs "+RCV=200,3,OFF,-40" ++ [CR; LF]) true))
     = false.
Proof.
  assert (rb_wf (Driver.uart_buffer
                   (Controller.radio
                      (sample_state (cs "+RCV=200,3,OFF,-40" ++ [CR; LF]) true))))
    as W by (apply sample_port_wf; short).
  assert (0 <= Controller.global_num_steppers
                 (sample_state (cs "+RCV=200,3,OFF,-40" ++ [CR; LF]) true)) as P
    by (cbn; lia).
  assert (lora_is_off_command (Some (cs "OFF")) = true) as Off
    by (vm_compute; reflexivity).
  split; [exact W|]. split; [exact P|]. split; [reflexivity|].
  split; [exact sample_pending_off|]. split; [exact Off|].
  destruct (main_loop_off sample_quiet 4096 sample_reply 3 25 0 0 zero_message
              (sample_state (cs "+RCV=200,3,OFF,-40" ++ [CR; LF]) true) (cs "OFF")
              W P eq_refl sample_pending_off Off) as (A & _).
  exact A.
Defined.

Lemma main_loop_runs_witness :
  undisturbed sample_quiet
  /\ rb_wf (Driver.uart_buffer
              (Controller.radio (sample_state (cs "+OK" ++ [CR; LF]) true)))
  /\ Controller.stepper_active (sample_state (cs "+OK" ++ [CR; LF]) true) = true
  /\ stepper_interrupt_flag
       (Controller.engine (sample_state (cs "+OK" ++ [CR; LF]) true)) = false
  /\ pending_command
       (Controller.lora_config (sample_state (cs "+OK" ++ [CR; LF]) true))
       zero_message
       (Controller.radio (sample_state (cs "+OK" ++ [CR; LF]) true))
     = None
  /\ motors (Controller.engine (sample_state (cs "+OK" ++ [CR; LF]) true)) !! 0%nat
     = Some sample_motor
  /\ 0 <= current_step sample_motor <= 7
  /\ Controller.stepper_active
       (Controller.main_loop_pass sample_quiet 4096 sample_reply 3 25 true 0
          zero_message (sample_state (cs "+OK" ++ [CR; LF]) true))
     = true.
Proof.
  assert (rb_wf (Driver.uart_buffer
                   (Controller.radio (sample_state (cs "+OK" ++ [CR; LF]) true))))
    as W by (apply sample_port_wf; short).
  assert (0 <= current_step sample_motor <= 7) as R by (cbn; lia).
  split; [exact sample_quiet_undisturbed|]. split; [exact W|].
  split; [reflexivity|]. split; [reflexivity|].
  split; [exact sample_pending_none|]. split; [exact sample_pair_first|].
  split; [exact R|].
  destruct (main_loop_runs sample_quiet 4096 sample_reply 3 25 0 zero_message
              (sample_state (cs "+OK" ++ [CR; LF]) true) 0 sample_motor
              sample_quiet_undisturbed W eq_refl eq_refl sample_pending_none
              sample_pair_first R) as (A & _).
  exact A.
Defined.

Lemma sample_pending_queue :
  pending_command sample_config zero_message (sample_port sample_queue)
  = Some (cs "OFF").
Proof. vm_compute. reflexivity. Qed.

Lemma sample_reply_ends_burst (k : nat) :
  drop_terminators (snd (next_line 64 (sample_reply k))) = [].
Proof. unfold sample_reply. destruct (k =? 1)%nat; vm_compute; reflexivity. Qed.

Lemma handled_command_drops_queue_witness :
  bursts_fit sample_reply
  /\ rb_wf (Driver.uart_buffer (Controller.radio (sample_state sample_queue true)))
  /\ pending_command (Controller.lora_config (sample_state sample_queue true))
       zero_message (Controller.radio (sample_state sample_queue true))
     = Some (cs "OFF")
  /\ drop_terminators
       (rb_contents
          (Driver.uart_buffer
             (Controller.radio
                (Controller.main_loop_pass sample_quiet 4096 sample_reply 3 25 true
                   0 zero_message (sample_state sample_queue true)))))
     = [].
Proof.
  assert (rb_wf (Driver.uart_buffer
                   (Controller.radio (sample_state sample_queue true)))) as W
    by (apply sample_port_wf; unfold sample_queue; short).
  split; [exact sample_reply_fits|]. split; [exact W|].
  split; [exact sample_pending_queue|].
  destruct (handled_command_drops_queue sample_quiet 4096 sample_reply 3 25 0
              zero_message (sample_state sample_queue true) (cs "OFF")
              sample_reply_fits W sample_pending_queue) as (_ & _ & Clean).
  destruct (Clean sample_reply_ends_burst) as [Empty _].
  exact Empty.
Defined.
